(* ===== verification/_CoqProject ===== *)
-Q . S2P
Prelude.v
Traces.v
GoMemory.v
DeepCopy.v
GoStrings.v
Api.v
Conditions.v
Events.v
EventsProofs.v
Reporter.v
Json.v
Templates.v
Kube.v
Crypto.v
Scheme.v
Concurrency.v
Approvals.v
Engines.v
EnginesProofs.v
OperationReconciler.v
OperationProofs.v
OperationStuck.v
InstanceValidation.v
OperationWebhook.v
WebhookProofs.v
OperationExclusion.v
Agent.v
AgentProofs.v
HttpClient.v
ControlPlane.v
ControlPlaneProofs.v
Credentials.v
Cluster.v
ClusterProofs.v
Access.v
ConnectivityProofs.v
InstanceEngines.v
InstanceReconciler.v
InstanceProofs.v
InstanceLifecycle.v
Delivery.v
DeliveryProofs.v
SeaweedProofs.v
WrittenObjects.v
GoFlags.v
Cli.v
Main.v
MainProofs.v
Metrics.v
