(* ===== verification/Prelude.v ===== *)
(** * vworkspace-operator: a verification library

    The repository is a Kubernetes operator in Go.  A control plane hands it work
    in Pull mode; the operator applies that work as custom resources and
    reconciles them.  Its parts, and the files that model them:

    - The custom resources [Operation], [Cluster] and [ApplicationInstance]
      (api/) are the records of [Api]; internal/conditions is [Conditions].  Their
      registration is [Scheme].  The generated copying functions are [DeepCopy],
      where the same types have their pointers and slices, over the heap of
      [GoMemory].
    - internal/agent/events.go is [Events] and [EventsProofs]: the outbound event
      buffer as a record, its methods as functions, and producers, flusher and
      client changes as the step relation [bstep].  internal/agent/reporter.go is
      [Reporter].
    - internal/operations is [Templates] (templates, schemas, parameter
      validation), [Concurrency] (which operations exclude each other) and
      [Approvals] (approval claims and the approval gate), the latter over
      [Crypto], where SHA-256, HMAC, hexadecimal and base64url are written out.
    - internal/engines is [Engines] and [EnginesProofs]: the five engines as
      values of one record [Engine] of operations, the registry, and the contract
      [EngineContract], the class against which the reconciler is proved.
    - internal/controller/operation_controller.go is [OperationReconciler] and
      [OperationProofs]; internal/controller/cluster_controller.go is [Cluster]
      and [ClusterProofs]; internal/controller/validation.go and the
      ApplicationInstance webhook are [InstanceValidation]; the Operation webhook
      is [OperationWebhook] and [WebhookProofs].  [OperationExclusion] puts the
      reconciler's passes, the webhook's immutability check and the users of the API
      server in one transition system [op_step], for each [deployment] (reads from a
      cache or not, webhooks on or off); [OperationStuck] has the operations
      that never finish.
    - internal/controller/applicationinstance_controller.go is [InstanceReconciler],
      over internal/helmengine and internal/seaweedengine in [InstanceEngines], the
      two engines being records of operations ([HelmEngineOps], [SeaweedEngineOps])
      with a contract each.  Its passes share memory and annotations with the
      event batcher's callbacks: [InstanceProofs] has the interleaving semantics
      [sys_step] and its invariant, [InstanceLifecycle] what one pass does.
      [SeaweedProofs] says what the Seaweed engine's answers depend on,
      [WrittenObjects] what both engines write.
    - [Delivery] puts the controller and the batcher together, as cmd/main.go wires
      them: passes report into the buffer, the flusher of events.go posts it and
      calls back, all in one step relation [cstep], which is the development's own
      composition of [sys_step] and [bstep].  [DeliveryProofs] runs it.
    - internal/agent's job processing (idempotency.go, applier.go, poller.go) is
      [Agent] and [AgentProofs]; its HTTP client and the registration exchange are
      [HttpClient]; credentials and the runtime that starts and stops the poller
      are [Credentials], with theorems in [ConnectivityProofs]; the gauges of
      metrics.go are [Metrics].
    - test/mockcontrolplane, the control plane the agent is tested against, is
      [ControlPlane]: its state and its HTTP handlers.  [ControlPlaneProofs] runs the
      poller through the HTTP client against it, [Access] the registration and the
      rotation of the cluster controller.
    - internal/cli/register.go is [Cli] and cmd/main.go is [Main] and [MainProofs],
      both over [GoFlags], the standard library's package flag: [main] is a program
      that hands the components above, configured, to the manager and ends with an
      exit code.
    - [Prelude], [Traces], [GoStrings] and [Json] hold what the components share:
      Go errors, programs and their logic, the strings package, encoding/json;
      [Kube] holds the API server's calls and the library helpers.

    ** How code is modelled

    A Go function without effects is a function; an error is the [Err] case of
    [result], with its message and what [errors.Is] finds in it.  A handler that
    talks to its surroundings is a [prog]: a tree of calls ([kcall] for the
    operation side, [icall] for instances, [acall] for job processing, [wcall] for
    the cluster side, [ccall] and [mcall] for the command and the process) with a
    continuation for every answer.  A section under a
    mutex is one call.  The server is never defined: [wp env may p Q]
    says that, for every answer the relation [env] allows, each call [p] makes is
    permitted by [may] and the result satisfies [Q].  [traced] allows every
    answer, so that a theorem over it holds whatever the servers do.  [run] executes
    a program against a function that answers, which is how witnesses evaluate.
    An object the code mutates in place is returned by each step that changes it.
    Instants and durations are nanoseconds in [Z]; counters keep their width
    ([int64_add] in [Events]).

    ** What the theorems show

    - Operations: admission is exact; nothing runs that did not pass every gate; an
      operation that passes them starts in that pass and, once its workload is done,
      is recorded with the engine's verdict; every status written is coherent; deletion
      cancels before the finalizer goes; missing workloads get a grace period; the
      conflict search is the documented matrix.  With current reads and the webhooks
      on, two operations that exclude each other are never both running, under every
      interleaving of users and passes; in any other deployment they can be.  Engines
      keep their contract and only touch their own workload.
    - Approvals: the gate is exact, claims are bound to one operation, and issuing
      and verifying round trip.
    - Events: the buffer is bounded, first in first out, loses nothing unseen, its
      overflow report is exact, and it drains.
    - Agent: a job that succeeded has its key in the stored list, and a job whose key
      is there writes nothing, before and after a restart; jobs follow the protocol
      (acknowledge, apply, report) and mark what they apply; on a clock that moves the
      wait for a backup location ends.  Against the control plane, every job that is
      handed out gets exactly one recorded result, and a job ID survives its URL whatever its bytes;
      the control plane stores an event key once and refuses a rotated token.
    - Clusters: a registration token is exchanged only after the stored credentials
      were looked for in vain, and not while they are stored and can be read; every
      status is coherent and [Connected] needs an accepted heartbeat;
      credentials round trip; the runtime's parts agree.  Against the control plane, a
      registration spends its token and leaves credentials that are accepted, and a
      rotation leaves accepted credentials exactly when they could be stored.
    - Instances: validation is exact, about inline secrets and about the
      specification, and a mode switch orphans no release.  Under every interleaving
      of passes, callbacks and edits, credentials are recorded as reported only
      after the control plane accepted them; they are sent only under a claim; the
      statuses of live instances are coherent; the finalizer goes only after the
      Seaweed object is gone, or the deletes of the Helm objects were accepted.
    - Engines of instances: every object they write is well formed and carries the
      values the instance asks for, and a HelmRelease follows the chart source it names;
      normalizing values twice, or in another map order, changes nothing; the managed-storage state is a function of the
      namespace, whatever the order of a listing.
    - Composition: with the controller, the real buffer and the flusher interleaved,
      credentials recorded as reported were accepted by the buffer and delivered;
      and when everything answers, a pass, a flush and another pass deliver them, after which nothing is sent again.
    - The process fails closed: nothing is started before every controller is set
      up, the first failure ends it with code 1, and the parts share one secret, one
      namespace and one batcher with its callbacks.  [register] returns on a clock
      that moves, and applies exactly the object its flags and environment ask for.
    - A deep copy of an API object is equal to it and shares no memory with it, so
      that the base of a patch keeps its value while the object is changed.
    - Behaviour that departs from what the code or its documentation says is proved
      as such: a succeeded operation that becomes failed when its Job expires, two
      pending operations that block each other for ever, a finished operation that
      is put back to pending and so stops a running one, upgrades that never
      complete, conflict checks on a list that lags behind, deployments in which
      operations that exclude each other run together, migrations that can never
      be admitted, commands with environment variables that fail, finalizer updates
      that are rejected, cancellation of another operation's Job, flushes that
      discard, conflicts recognised by text, tokens that are not reloaded, keys
      remembered although they were not persisted, keys in arrays that are admitted,
      credentials enqueued twice while a batch is on its way, a registration taken
      for an earlier one, gauges that do not show what their help text says, job
      signatures that are not read, a poller that goes on polling with a refused token.

    ** Parameters

    Code outside the repository is a parameter with its documented behaviour as a
    law, and an instance shows that the laws can hold: [JsonSyntax] (bytes to a JSON
    document; decoding into structs is written out), the JSON Schema validator in
    [Templates], [KubeLib]/[KubeLaws] (finalizers, owner references, nested fields),
    [AgentLib] (decoding of whole objects, group versions), [HttpLib] (streams, RFC
    3339, URL syntax), [WireLib] with [WireLaws] and [AccessLaws] (bodies as they
    arrive), [OwnerLib] and [RetryLib] (controller references, retry on
    conflict), [LibTypes]/[LibCopies] (layout and copying of the metadata types),
    [InstanceLib] (YAML, the format of a time), [FlagLib] and [MainLib]
    (durations, flags that libraries register).

    ** Fuel

    Recursion follows the data, except in these places.  String and JSON helpers
    that do not recurse structurally take the length of their input, which every
    step shortens.  [bslLoop] writes out 47 rounds; the rounds after them are the one
    call [AFurtherRounds], whose answer is open and may never come, as the code's loop
    has no limit of its own.  On a clock that moves this call is not made
    ([bsl_wait_terminates]): 47 rounds of two seconds exceed the 90-second limit.
    [awaitRegistration] has 61 rounds for its two minutes and returns nothing when
    they are used up, which [register_command] excludes on a clock that moves.  The
    loops that run until their context is cancelled ([pollRounds], [tickLoop]) take the number
    of rounds before that as an argument, and theorems hold for every number.

    ** Not modelled

    Logging; the manager
    itself, its servers and caches, and the loading of client configurations, which
    are library code behind calls that succeed or fail; marshalling of HTTP request
    bodies, which are kept as the structs they are made from.  The gauges are set
    where [Metrics] says, and by no definition of the other files: they feed nothing
    back.  A handler of an instance reads the clock once where the code reads it for
    every condition. *)

From stdpp Require Import base list strings pretty gmap.

(** ** Notation scope and automation of the development *)

Declare Scope operator_scope.
Delimit Scope operator_scope with operator.
Open Scope operator_scope.

Create HintDb operator.

(** ** Go errors

    A Go [error] is a message and what [errors.Is] / [apierrors.Is...] find in
    its chain.  Wrapping with [%w] extends the message and keeps the kind. *)

Inductive errkind :=
| KPlain
| KNotFound
| KAlreadyExists
| KConflict
| KForbidden
| KWorkloadMissing
| KWorkloadOwnership
| KWorkloadAmbiguous.

Record error := mkErr { emsg : string; ekind : errkind }.

#[export] Instance errkind_eq_dec : EqDecision errkind.
Proof. solve_decision. Defined.
#[export] Instance error_eq_dec : EqDecision error.
Proof. solve_decision. Defined.

(** [fmt.Errorf] without [%w]. *)
Definition errorf (m : string) : error := mkErr m KPlain.
(** [fmt.Errorf("pre: %w", err)]. *)
Definition wrapf (pre : string) (e : error) : error :=
  mkErr (pre +:+ ": " +:+ emsg e) (ekind e).
(** [fmt.Errorf("%w: post", err)]. *)
Definition wrapf_post (e : error) (post : string) : error :=
  mkErr (emsg e +:+ ": " +:+ post) (ekind e).

Definition IsNotFound (e : error) : bool := bool_decide (ekind e = KNotFound).
Definition IsAlreadyExists (e : error) : bool := bool_decide (ekind e = KAlreadyExists).
Definition IsApiConflict (e : error) : bool := bool_decide (ekind e = KConflict).
Definition IsForbidden (e : error) : bool := bool_decide (ekind e = KForbidden).

Inductive result (A : Type) :=
| Ok (a : A)
| Err (e : error).
Arguments Ok {A} a.
Arguments Err {A} e.

Definition is_ok {A} (r : result A) : bool :=
  match r with Ok _ => true | Err _ => false end.

Notation "'do!' x := r 'in' k" :=
  (match r with Ok x => k | Err e => Err e end)
  (at level 10, x pattern, r at level 100, k at level 200)
  : operator_scope.

(** [if err != nil { return err }] chains of validations. *)
Notation "'check!' r ; k" :=
  (match r with Ok _ => k | Err e => Err e end)
  (at level 10, r at level 100, k at level 200)
  : operator_scope.

Lemma check_ok {A B} (r : result A) (k : result B) b :
  (check! r; k) = Ok b ↔ (∃ a, r = Ok a) ∧ k = Ok b.
Proof. destruct r; naive_solver. Qed.

Lemma is_ok_true {A} (r : result A) : is_ok r = true ↔ ∃ a, r = Ok a.
Proof. destruct r; naive_solver. Qed.

(** Case analysis of a chain of [do!]. *)
Ltac inv_do H :=
  repeat match type of H with
  | match ?r with Ok _ => _ | Err _ => _ end = Ok _ =>
      let E := fresh "E" in destruct r eqn:E; [|discriminate H]
  end.

(** ** Programs

    A handler of the operator is a finite tree of calls to its environment
    (the Kubernetes client, the control-plane client, the clock).  The
    environment is never defined: it is a parameter, given as a relation
    between a call, its response and the states before and after. *)

Inductive prog (E : Type → Type) (A : Type) : Type :=
| Ret (a : A)
| Vis {X : Type} (e : E X) (k : X → prog E A).
Arguments Ret {E A} a.
Arguments Vis {E A X} e k.

Fixpoint prog_bind {E A B} (f : A → prog E B) (p : prog E A) : prog E B :=
  match p with
  | Ret a => f a
  | Vis e k => Vis e (λ x, prog_bind f (k x))
  end.

Definition call {E X} (e : E X) : prog E X := Vis e Ret.

Notation "'let*' x := c 'in' k" := (prog_bind (λ x, k) c)
  (at level 10, x pattern, c at level 100, k at level 200)
  : operator_scope.

(** [x, err := c; if err != nil { h }; k] *)
Notation "'try*' x := c 'catch' e => h 'in' k" :=
  (prog_bind (λ r, match r with Ok x => k | Err e => h end) c)
  (at level 10, x pattern, c at level 100, e name, h at level 200,
   k at level 200) : operator_scope.

(** The environment: what a call may answer, and in which state it leaves the
    world [G]. *)
Definition environment (E : Type → Type) (G : Type) : Type :=
  ∀ X, E X → G → X → G → Prop.

(** The calls a program may make in a given state. *)
Definition permission (E : Type → Type) (G : Type) : Type :=
  ∀ X, E X → G → Prop.

Section Wp.
Context {E : Type → Type} {G : Type}.
Context (env : environment E G) (may : permission E G).

(** Whatever the environment answers, every call is permitted and the
    result satisfies [Q]. *)
Fixpoint wp {A} (p : prog E A) (Q : A → G → Prop) (g : G) : Prop :=
  match p with
  | Ret a => Q a g
  | Vis e k => may _ e g ∧ ∀ x g', env _ e g x g' → wp (k x) Q g'
  end.

Lemma wp_bind {A B} (p : prog E A) (f : A → prog E B) Q g :
  wp (prog_bind f p) Q g ↔ wp p (λ a, wp (f a) Q) g.
Proof.
  revert g. induction p as [a|X e k IH]; intros g; simpl; [done|].
  split; intros [H1 H2]; split; try done; intros x g' Hx;
    specialize (H2 x g' Hx); by apply IH.
Qed.

Lemma wp_mono {A} (p : prog E A) (Q Q' : A → G → Prop) g :
  (∀ a h, Q a h → Q' a h) → wp p Q g → wp p Q' g.
Proof.
  intros HQ. revert g. induction p as [a|X e k IH]; intros g; simpl; [eauto|].
  intros [H1 H2]; split; eauto.
Qed.

Lemma wp_call {X} (e : E X) Q g :
  wp (call e) Q g ↔ may _ e g ∧ ∀ x g', env _ e g x g' → Q x g'.
Proof. done. Qed.

(** One call and the rest of the program. *)
Lemma wp_vis {A X} (c : E X) (f : X → prog E A) Q g :
  may X c g → (∀ x g', env X c g x g' → wp (f x) Q g') → wp (prog_bind f (call c)) Q g.
Proof. done. Qed.
End Wp.

(** A concrete environment, and its run of a program. *)
Definition handler (E : Type → Type) (G : Type) : Type := ∀ X, E X → G → X * G.

Fixpoint run {E G A} (h : handler E G) (p : prog E A) (g : G) : A * G :=
  match p with
  | Ret a => (a, g)
  | Vis e k => let '(x, g') := h _ e g in run h (k x) g'
  end.

Lemma run_bind {E G A B} (h : handler E G) (p : prog E A) (f : A → prog E B) g :
  run h (prog_bind f p) g = let '(a, g') := run h p g in run h (f a) g'.
Proof.
  revert g. induction p as [a|X e k IH]; intros g; simpl; [done|].
  destruct (h X e g) as [x g']. apply IH.
Qed.

(** A handler that answers as the environment allows reaches only states the
    weakest precondition allows. *)
Lemma wp_run {E G A} (env : environment E G) (may : permission E G)
    (h : handler E G) (p : prog E A) Q g :
  (∀ X (e : E X) g, env X e g (h X e g).1 (h X e g).2) →
  wp env may p Q g → Q (run h p g).1 (run h p g).2.
Proof.
  intros Hh. revert g. induction p as [a|X e k IH]; intros g; simpl; [done|].
  intros [_ H]. specialize (Hh X e g). destruct (h X e g) as [x g'].
  apply IH, H, Hh.
Qed.

(** Replacing every call of a program by a program over another interface. *)
Fixpoint interp {E F A} (h : ∀ X, E X → prog F X) (p : prog E A) : prog F A :=
  match p with
  | Ret a => Ret a
  | Vis e k => prog_bind (λ x, interp h (k x)) (h _ e)
  end.
