(* ===== verification/Traces.v ===== *)
(** * Traces: programs against any environment

    A trace is the sequence of calls made so far with their answers.  [traced]
    is the environment that answers anything: what [wp traced] shows of a
    program holds whatever the other side does.  [only] is the special case of a
    permission that does not look at the trace, [answers h] the environment that
    answers as the function [h] says. *)

From stdpp Require Import base list sets.
From S2P Require Import Prelude.

Inductive event (E : Type → Type) : Type :=
| Called {X : Type} (c : E X) (x : X).
Arguments Called {E X} c x.

Notation trace_of E := (list (event E)).

Definition traced {E} : environment E (trace_of E) := λ X c g x g', g' = g ++ [Called c x].

(** ** Programs under any server

    [only P p Q]: whatever is answered, [p] makes only calls in [P] and
    its result satisfies [Q]. *)

Definition only {E} (P : ∀ X, E X → Prop) {A} (p : prog E A) (Q : A → Prop) : Prop :=
  ∀ g, wp traced (λ X c _, P X c) p (λ a _, Q a) g.

Section Only.
Context {E : Type → Type} (P : ∀ X, E X → Prop).

Lemma only_ret {A} (a : A) Q : Q a → only P (Ret a) Q.
Proof. by intros ? ?. Qed.

Lemma only_bind {A B} (p : prog E A) (f : A → prog E B) R Q :
  only P p R → (∀ a, R a → only P (f a) Q) → only P (prog_bind f p) Q.
Proof.
  intros Hp Hf g. apply wp_bind. eapply wp_mono; [|apply Hp]. intros a h Ha. by apply Hf.
Qed.

Lemma only_bind_any {A B} (p : prog E A) (f : A → prog E B) Q :
  only P p (λ _, True) → (∀ a, only P (f a) Q) → only P (prog_bind f p) Q.
Proof. intros Hp Hf. eapply only_bind; [done|]. intros a _. apply Hf. Qed.

Lemma only_call {X} (c : E X) (Q : X → Prop) : P X c → (∀ x, Q x) → only P (call c) Q.
Proof. intros Hc HQ g. split; [done|]. intros x g' _. apply HQ. Qed.

(** From any trace: the same, in a larger permission. *)
Lemma only_wp {A} (p : prog E A) Q (may : permission E (trace_of E)) g :
  (∀ X (c : E X) g', P X c → g `prefix_of` g' → may X c g') →
  only P p Q → wp traced may p (λ a g', Q a ∧ g `prefix_of` g') g.
Proof.
  intros Hmay Hp.
  assert (∀ g1, g `prefix_of` g1 → wp traced (λ X c _, P X c) p (λ a _, Q a) g1 →
            wp traced may p (λ a g', Q a ∧ g `prefix_of` g') g1) as Hgen.
  { clear Hp. induction p as [a|X c k IH]; intros g1 Hg1; simpl; [done|].
    intros [Hc Hk]. split; [by apply Hmay|]. intros x g2 ->.
    apply IH; [by apply prefix_app_r|by apply Hk]. }
  by apply Hgen.
Qed.
End Only.

(** The calls a program makes, whatever the answers, settled by computation. *)
Ltac only_go :=
  repeat match goal with
  | |- only _ (Ret _) _ => apply only_ret
  | |- only _ (prog_bind _ _) _ => apply only_bind_any; [|intros ?]
  | |- only _ (call _) _ => apply only_call
  | |- only _ (match ?x with _ => _ end) _ => destruct x eqn:?
  | |- only _ (let '(_, _) := ?x in _) _ => destruct x eqn:?
  end.

(** A server that answers each call as [h] says, recording the trace. *)
Definition trace_handler {E} (h : ∀ X, E X → X) : handler E (trace_of E) :=
  λ X c g, (h X c, g ++ [Called c (h X c)]).

Lemma trace_handler_traced {E} (h : ∀ X, E X → X) X (c : E X) g :
  traced X c g (trace_handler h X c g).1 (trace_handler h X c g).2.
Proof. done. Qed.

(** What holds under any server holds under every other environment. *)
Lemma only_env {E G} (env : environment E G) (may : permission E G)
    (P : ∀ X, E X → Prop) {A} (p : prog E A) Q g :
  only P p Q → (∀ X c g', P X c → may X c g') → wp env may p (λ a _, Q a) g.
Proof.
  intros Hp Hm. specialize (Hp []). revert Hp. generalize (@nil (event E)) as t. revert g.
  induction p as [a|X c k IH]; intros g t; simpl; [done|].
  intros [Hc Hk]. split; [by apply Hm|]. intros x g' _. eapply IH, Hk. done.
Qed.

(** An invariant that every permitted call preserves. *)
Lemma only_invariant {E G} (env : environment E G) (I : G → Prop) (P : ∀ X, E X → Prop)
    {A} (p : prog E A) Q g :
  (∀ X c g x g', P X c → env X c g x g' → I g → I g') →
  only P p Q → I g → wp env (λ _ _ g, I g) p (λ _ g, I g) g.
Proof.
  intros HI Hp. specialize (Hp []). revert Hp. generalize (@nil (event E)) as t. revert g.
  induction p as [a|X c k IH]; intros g t; simpl; [done|].
  intros [Hc Hk] Hg. split; [done|]. intros x g' Hx. eapply IH; [by apply Hk|eauto].
Qed.

(** Runs against such a server, step by step. *)
Definition answers {E} (h : ∀ X, E X → X) : environment E (trace_of E) := λ X c g x g',
  x = h X c ∧ g' = g ++ [Called c x].

Definition anything {E G} : permission E G := λ _ _ _, True.

Lemma run_wp {E} (h : ∀ X, E X → X) {A} (p : prog E A) (Q : A → trace_of E → Prop) g :
  wp (answers h) anything p Q g ↔ Q (run (trace_handler h) p g).1 (run (trace_handler h) p g).2.
Proof.
  revert g. induction p as [a|X c k IH]; intros g; simpl; [done|]. rewrite <-IH. split.
  - intros [_ Hk]. by apply Hk.
  - intros Hk. split; [done|]. by intros x g' [-> ->].
Qed.

(** A run only extends the trace. *)
Lemma run_prefix {E} (h : ∀ X, E X → X) {A} (p : prog E A) g :
  g `prefix_of` (run (trace_handler h) p g).2.
Proof.
  revert g. induction p as [a|X c k IH]; intros g; simpl; [done|].
  etrans; [|apply IH]. by apply prefix_app_r.
Qed.

Lemma wp_kept {E} (h : ∀ X, E X → X) {A} (p : prog E A) (e : event E) g :
  e ∈ g → wp (answers h) anything p (λ _ g', e ∈ g') g.
Proof.
  intros He. apply run_wp. destruct (run_prefix h p g) as [k ->]. set_solver.
Qed.

(** The calls a program added to the trace. *)
Definition call_in {E} (P : ∀ X, E X → Prop) (e : event E) : Prop :=
  match e with Called c _ => P _ c end.

Lemma only_trace {E A} (P : ∀ X, E X → Prop) (p : prog E A) Q (may : permission E (trace_of E)) g :
  (∀ X (c : E X) g', P X c → g `prefix_of` g' → may X c g') →
  only P p Q →
  wp traced may p (λ a g', Q a ∧ ∃ k, g' = g ++ k ∧ Forall (call_in P) k) g.
Proof.
  intros Hmay Hp.
  assert (∀ k, Forall (call_in P) k → wp traced (λ X c _, P X c) p (λ a _, Q a) (g ++ k) →
     wp traced may p (λ a g', Q a ∧ ∃ k, g' = g ++ k ∧ Forall (call_in P) k) (g ++ k)) as Hgen.
  { clear Hp. induction p as [a|X c f IH]; intros k Hk; simpl; [naive_solver|].
    intros [Hc Hf]. split; [apply Hmay; [done|by apply prefix_app_r]|]. intros x g2 ->.
    rewrite <-app_assoc. apply IH; [apply Forall_app; split; [done|by constructor]|].
    rewrite app_assoc. by apply Hf. }
  specialize (Hgen []). rewrite app_nil_r in Hgen. by apply Hgen.
Qed.

Lemma only_mono {E A} (P P' : ∀ X, E X → Prop) (p : prog E A) (Q Q' : A → Prop) :
  (∀ X c, P X c → P' X c) → (∀ a, Q a → Q' a) → only P p Q → only P' p Q'.
Proof.
  intros HP HQ Hp g. specialize (Hp g). revert g Hp.
  induction p as [a|X c k IH]; intros g; simpl; [auto|].
  intros [Hc Hk]. split; [by apply HP|]. intros x g' Hx. by apply IH, Hk.
Qed.

(** A run against a concrete server, step by step. *)
Definition serves {E G} (h : handler E G) : environment E G := λ X c g x g', h X c g = (x, g').

Lemma run_serves {E G} (h : handler E G) {A} (p : prog E A) (Q : A → G → Prop) g :
  wp (serves h) anything p Q g ↔ Q (run h p g).1 (run h p g).2.
Proof.
  revert g. induction p as [a|X c k IH]; intros g; simpl; [done|]. split.
  - intros [_ Hk]. destruct (h X c g) as [x g'] eqn:Hx. by apply IH, Hk.
  - intros Hk. split; [done|]. intros x g' Hx. unfold serves in Hx. rewrite Hx in Hk. by apply IH.
Qed.

Lemma wp_serves {E G} (h : handler E G) {A X} (c : E X) (f : X → prog E A) (Q : A → G → Prop) g x g' :
  h X c g = (x, g') → wp (serves h) anything (f x) Q g' → wp (serves h) anything (prog_bind f (call c)) Q g.
Proof. intros Hx Hk. apply wp_vis; [done|]. unfold serves. rewrite Hx. by intros ? ? [= <- <-]. Qed.

(** ** The states a program passes through

    [reaches env p g g']: started in [g], the program has got to [g'], between
    two calls or at its end.  A process that dies in the middle has reached such
    a state. *)

Inductive reaches {E G} (env : environment E G) {A} : prog E A → G → G → Prop :=
| reaches_here p g : reaches env p g g
| reaches_call X (c : E X) k g x g1 g2 :
    env X c g x g1 → reaches env (k x) g1 g2 → reaches env (Vis c k) g g2.

(** An invariant that holds at every call and at the end holds throughout. *)
Lemma wp_reaches {E G} (env : environment E G) (I : G → Prop) {A} (p : prog E A) g g' :
  wp env (λ _ _ g, I g) p (λ _ g, I g) g → reaches env p g g' → I g'.
Proof.
  intros Hp Hr. induction Hr as [p g|X c k g x g1 g2 Hx Hr IH].
  - by destruct p; [|destruct Hp].
  - destruct Hp as [_ Hk]. by apply IH, Hk.
Qed.

Lemma run_reaches {E G} (env : environment E G) (h : handler E G) {A} (p : prog E A) g :
  (∀ X (c : E X) g, env X c g (h X c g).1 (h X c g).2) → reaches env p g (run h p g).2.
Proof.
  intros Hh. revert g. induction p as [a|X c k IH]; intros g; simpl; [constructor|].
  specialize (Hh X c g). destruct (h X c g) as [x g1]. by econstructor.
Qed.

(** A whole run: the answer and the state at its end. *)
Inductive runs {E G} (env : environment E G) {A} : prog E A → G → A → G → Prop :=
| runs_ret a g : runs env (Ret a) g a g
| runs_call X (c : E X) k g x g1 a g2 :
    env X c g x g1 → runs env (k x) g1 a g2 → runs env (Vis c k) g a g2.

Lemma wp_runs {E G} (env : environment E G) (may : permission E G) {A} (p : prog E A) Q g a g' :
  wp env may p Q g → runs env p g a g' → Q a g'.
Proof.
  intros Hp Hr. induction Hr as [a g|X c k g x g1 a g2 Hx Hr IH]; [done|].
  destruct Hp as [_ Hk]. by apply IH, Hk.
Qed.

(** A program whose every call is answered has a run. *)
Lemma runs_total {E G} (env : environment E G) {A} (p : prog E A) g :
  (∀ X (c : E X) g, ∃ x g', env X c g x g') → ∃ a g', runs env p g a g'.
Proof.
  intros Henv. revert g. induction p as [a|X c k IH]; intros g; [by eexists _, _; constructor|].
  destruct (Henv X c g) as (x & g1 & Hx). destruct (IH x g1) as (a & g2 & Hr).
  exists a, g2. by econstructor.
Qed.

(** Two worlds that see the same calls and answers. *)
Definition both {E G1 G2} (e1 : environment E G1) (e2 : environment E G2) : environment E (G1 * G2) :=
  λ X c w x w', e1 X c w.1 x w'.1 ∧ e2 X c w.2 x w'.2.

Lemma wp_both_may {E G1 G2} (e1 : environment E G1) (e2 : environment E G2) (may : permission E G2)
    {A} (p : prog E A) Q1 Q2 w :
  wp e1 anything p Q1 w.1 → wp e2 may p Q2 w.2 →
  wp (both e1 e2) (λ X c w, may X c w.2) p (λ x w', Q1 x w'.1 ∧ Q2 x w'.2) w.
Proof.
  revert w. induction p as [a|X c k IH]; intros w H1 H2; [done|]. destruct H1 as [_ H1], H2 as [Hc H2].
  split; [done|]. intros x w' [Hx1 Hx2]. apply IH; [by apply H1|by apply H2].
Qed.

Lemma wp_both {E G1 G2} (e1 : environment E G1) (e2 : environment E G2) {A} (p : prog E A) Q1 Q2 w :
  wp e1 anything p Q1 w.1 → wp e2 anything p Q2 w.2 →
  wp (both e1 e2) anything p (λ x w', Q1 x w'.1 ∧ Q2 x w'.2) w.
Proof. apply (wp_both_may e1 e2 anything). Qed.
