(* ===== verification/GoMemory.v ===== *)
(** * Go memory: pointers, slices, and values that share them

    The heap is the list of the blocks allocated so far, an address its index.  A
    variable is a block of one cell, the array under a slice a block of several.
    [rep n h τ v t] says that in the heap [h] the Go value [v] of type [τ] stands
    for the pure value [t], with every block it reaches at address [n] or above:
    with [n := 0] anywhere, with [n := length h0] in memory allocated after [h0]. *)

From stdpp Require Import base list strings gmap.
From S2P Require Import Prelude.

(** ** Values *)

Inductive base := BString (s : string) | BInt (z : Z) | BBool (b : bool).

(** [VZero] is the content of fresh memory, [VNil] a nil pointer or slice. *)
Inductive gval :=
| VZero
| VNil
| VBase (b : base)
| VPtr (l : nat)
| VSlice (l off len : nat)
| VStruct (fields : list (string * gval)).

Notation block := (list gval).
Notation heap := (list block).

(** Strings and numbers are [TBase]: they are never changed in place.  [TLib] is
    a type of a library with copying functions of its own. *)
Inductive gtype :=
| TBase
| TPtr (τ : gtype)
| TSlice (τ : gtype)
| TStruct (fields : list (string * gtype))
| TLib (name : string).

(** Pure values. *)
Inductive tree :=
| NBase (b : base)
| NNil
| NPtr (t : tree)
| NSlice (ts : list tree)
| NStruct (fields : list (string * tree)).

(** ** Effects: the heap, and the panic of a nil dereference *)

Definition M (A : Type) : Type := heap → option (A * heap).
#[export] Instance M_ret : MRet M := λ A a h, Some (a, h).
#[export] Instance M_bind : MBind M := λ A B f m h,
  match m h with Some (a, h') => f a h' | None => None end.

Definition alloc (b : block) : M nat := λ h, Some (length h, h ++ [b]).

Definition load (l i : nat) : M gval := λ h,
  match h !! l ≫= (λ b, b !! i) with Some v => Some (v, h) | None => None end.

Definition store (l i : nat) (v : gval) : M unit := λ h,
  match h !! l with
  | Some b => if decide (i < length b) then Some (tt, <[l := <[i := v]> b]> h) else None
  | None => None
  end.

(** The variable behind a pointer. *)
Definition deref (p : gval) : M gval :=
  match p with VPtr l => load l 0 | _ => λ _, None end.

(** ** What a value stands for *)

(** The layout of the types of libraries. *)
Class LibTypes := lib_rep : string → nat → heap → gval → tree → Prop.

(** Both heaps hold the same from address [n] on, as far as the first goes. *)
Definition agree (n : nat) (h h' : heap) : Prop :=
  ∀ l b, n ≤ l → h !! l = Some b → h' !! l = Some b.

Class LibLaws `{LibTypes} := {
  lib_rep_agree name n h h' v t : agree n h h' → lib_rep name n h v t → lib_rep name n h' v t;
  lib_rep_weaken name m n h v t : m ≤ n → lib_rep name n h v t → lib_rep name m h v t
}.

Section Rep.
Context `{LibTypes}.

Definition rep_fields (rep : string → gtype → gval → tree → Prop) :
    list (string * gtype) → list (string * gval) → list (string * tree) → Prop :=
  fix go fs vs ts :=
    match fs, vs, ts with
    | [], [], [] => True
    | (f, τ) :: fs, (g, v) :: vs, (k, t) :: ts => g = f ∧ k = f ∧ rep f τ v t ∧ go fs vs ts
    | _, _, _ => False
    end.

Fixpoint rep (n : nat) (h : heap) (τ : gtype) (v : gval) (t : tree) {struct τ} : Prop :=
  match τ with
  | TBase => ∃ b, v = VBase b ∧ t = NBase b
  | TPtr τ =>
      (v = VNil ∧ t = NNil) ∨
      ∃ l v' t', v = VPtr l ∧ t = NPtr t' ∧ n ≤ l ∧ h !! l = Some [v'] ∧ rep n h τ v' t'
  | TSlice τ =>
      (v = VNil ∧ t = NNil) ∨
      ∃ l off len b ts, v = VSlice l off len ∧ t = NSlice ts ∧ n ≤ l ∧ h !! l = Some b ∧
        off + len ≤ length b ∧ Forall2 (rep n h τ) (take len (drop off b)) ts
  | TStruct fs => ∃ vs ts, v = VStruct vs ∧ t = NStruct ts ∧ rep_fields (λ _, rep n h) fs vs ts
  | TLib name => lib_rep name n h v t
  end.

(** Types without pointers: an assignment copies all there is. *)
Fixpoint plain (τ : gtype) : bool :=
  match τ with
  | TBase => true
  | TStruct fs => forallb (λ f, plain f.2) fs
  | _ => false
  end.
End Rep.

(** ** Induction over types *)

Section TypeInd.
Context (P : gtype → Prop).
Context (Hbase : P TBase) (Hptr : ∀ τ, P τ → P (TPtr τ)) (Hslice : ∀ τ, P τ → P (TSlice τ)).
Context (Hstruct : ∀ fs, Forall (λ f, P f.2) fs → P (TStruct fs)) (Hlib : ∀ name, P (TLib name)).

Fixpoint gtype_nested_ind (τ : gtype) : P τ :=
  match τ with
  | TBase => Hbase
  | TPtr τ => Hptr τ (gtype_nested_ind τ)
  | TSlice τ => Hslice τ (gtype_nested_ind τ)
  | TStruct fs => Hstruct fs
      ((fix go (fs : list (string * gtype)) : Forall (λ f, P f.2) fs :=
          match fs with
          | [] => List.Forall_nil _
          | (s, τ) :: fs => List.Forall_cons _ (s, τ) fs (gtype_nested_ind τ) (go fs)
          end) fs)
  | TLib name => Hlib name
  end.
End TypeInd.

(** ** Moving a representation to another heap or bound *)

Section Moves.
Context `{LibLaws}.

(** Between two ways to represent, field by field. *)
Lemma rep_fields_mono (R R' : string → gtype → gval → tree → Prop) fs vs ts :
  Forall (λ f, ∀ v t, R f.1 f.2 v t → R' f.1 f.2 v t) fs → rep_fields R fs vs ts → rep_fields R' fs vs ts.
Proof.
  intros Hf. revert vs ts. induction Hf as [|[f τ] fs Hτ _ IH]; intros [|[g v] vs] [|[k t] ts]; try done.
  intros (-> & -> & Hv & Hr). split_and!; auto.
Qed.

Lemma rep_agree τ n h h' v t : agree n h h' → rep n h τ v t → rep n h' τ v t.
Proof.
  intros Ha. revert v t. induction τ as [|τ IH|τ IH|fs IH|name] using gtype_nested_ind; intros v t; cbn.
  - done.
  - intros [Hnil|(l & v' & t' & ? & ? & ? & Hl & Hr)]; [by left|]. right.
    exists l, v', t'. split_and!; eauto.
  - intros [Hnil|(l & off & len & b & ts & ? & ? & ? & Hl & ? & Hr)]; [by left|]. right.
    exists l, off, len, b, ts. split_and!; eauto. eapply Forall2_impl; eauto.
  - intros (vs & ts & ? & ? & Hr). exists vs, ts. split_and!; [done..|].
    by eapply (rep_fields_mono (λ _, rep n h)).
  - by apply lib_rep_agree.
Qed.

Lemma rep_weaken τ m n h v t : m ≤ n → rep n h τ v t → rep m h τ v t.
Proof.
  intros Hm. revert v t. induction τ as [|τ IH|τ IH|fs IH|name] using gtype_nested_ind; intros v t; cbn.
  - done.
  - intros [Hnil|(l & v' & t' & ? & ? & ? & Hl & Hr)]; [by left|]. right.
    exists l, v', t'. split_and!; eauto. lia.
  - intros [Hnil|(l & off & len & b & ts & ? & ? & ? & Hl & ? & Hr)]; [by left|]. right.
    exists l, off, len, b, ts. split_and!; eauto; [lia|]. eapply Forall2_impl; eauto.
  - intros (vs & ts & ? & ? & Hr). exists vs, ts. split_and!; [done..|].
    by eapply (rep_fields_mono (λ _, rep n h)).
  - by apply lib_rep_weaken.
Qed.

(** A plain value is the same value in every heap. *)
Lemma rep_plain τ n h n' h' v t : plain τ = true → rep n h τ v t → rep n' h' τ v t.
Proof.
  revert v t. induction τ as [|τ IH|τ IH|fs IH|name] using gtype_nested_ind; intros v t Hp; try done.
  intros (vs & ts & ? & ? & Hr). exists vs, ts. split_and!; [done..|].
  cbn in Hp. rewrite forallb_forall in Hp.
  eapply (rep_fields_mono (λ _, rep n h)); [|done]. rewrite Forall_forall in IH |- *. intros f Hf v' t'.
  apply IH; [done|]. by apply Hp, list_elem_of_In.
Qed.

Lemma prefix_agree n h h' : h `prefix_of` h' → agree n h h'.
Proof. intros [k ->] l b _ Hl. by apply lookup_app_l_Some. Qed.

Lemma rep_prefix τ n h h' v t : h `prefix_of` h' → rep n h τ v t → rep n h' τ v t.
Proof. intros Hp. by apply rep_agree, prefix_agree. Qed.
End Moves.

(** ** Fields *)

Fixpoint assoc {A} (f : string) (fs : list (string * A)) : option A :=
  match fs with
  | [] => None
  | (g, a) :: fs => if decide (g = f) then Some a else assoc f fs
  end.

Fixpoint assoc_set {A} (f : string) (a : A) (fs : list (string * A)) : option (list (string * A)) :=
  match fs with
  | [] => None
  | (g, b) :: fs => if decide (g = f) then Some ((g, a) :: fs) else cons (g, b) <$> assoc_set f a fs
  end.

Definition getField (f : string) (v : gval) : M gval := λ h,
  match v with
  | VStruct fs => match assoc f fs with Some v => Some (v, h) | None => None end
  | _ => None
  end.

Definition setField (f : string) (v : gval) (s : gval) : M gval := λ h,
  match s with
  | VStruct fs => match assoc_set f v fs with Some fs => Some (VStruct fs, h) | None => None end
  | _ => None
  end.

(** ** Copying *)

(** [*out = *in] *)
Definition assign (v : gval) : M gval := mret v.

(** [if in != nil { ... }], where [*out] is already [*in]. *)
Definition ifSet (f : gval → M gval) (v : gval) : M gval :=
  match v with VNil => mret VNil | _ => f v end.

(** [*out = new(T)], then the copy of [**in] into it. *)
Definition new (into : gval → M gval) (p : gval) : M gval :=
  l ← alloc [VZero];
  v ← deref p;
  v' ← into v;
  _ ← store l 0 v';
  mret (VPtr l).

Fixpoint copyElems (into : gval → M gval) (l off l' i n : nat) : M unit :=
  match n with
  | 0 => mret tt
  | S n =>
      v ← load l (off + i);
      v' ← into v;
      _ ← store l' i v';
      copyElems into l off l' (S i) n
  end.

(** [*out = make([]T, len( *in))], then the elements one by one. *)
Definition makeSlice (into : gval → M gval) (s : gval) : M gval :=
  match s with
  | VSlice l off len =>
      l' ← alloc (replicate len VZero);
      _ ← copyElems into l off l' 0 len;
      mret (VSlice l' 0 len)
  | _ => λ _, None
  end.

(** The statements after [*out = *in], each on one field. *)
Fixpoint copyFields (steps : list (string * (gval → M gval))) (in_ out : gval) : M gval :=
  match steps with
  | [] => mret out
  | (f, step) :: steps =>
      v ← getField f in_;
      v' ← step v;
      out ← setField f v' out;
      copyFields steps in_ out
  end.

Definition copyInto (steps : list (string * (gval → M gval))) (in_ : gval) : M gval :=
  copyFields steps in_ in_.

(** [func (in *T) DeepCopy() *T] *)
Definition DeepCopy (into : gval → M gval) (p : gval) : M gval := ifSet (new into) p.

(** [func (in *T) DeepCopyObject() runtime.Object]: [None] is the nil interface. *)
Definition DeepCopyObject (into : gval → M gval) (p : gval) : M (option gval) :=
  c ← DeepCopy into p;
  mret (match c with VNil => None | _ => Some c end).

(** ** Copies that share nothing *)

(** On every value of the type, [f] returns a value that stands for the same and
    lives in new memory; what was allocated before is as it was. *)
Definition copies `{LibTypes} (τ : gtype) (f : gval → M gval) : Prop := ∀ h v t,
  rep 0 h τ v t → ∃ v' h', f v h = Some (v', h') ∧ h `prefix_of` h' ∧ rep (length h) h' τ v' t.

Create HintDb deepcopy.
Create HintDb api_copies.

Lemma assoc_In {A} f (fs : list (string * A)) a : assoc f fs = Some a → (f, a) ∈ fs.
Proof.
  induction fs as [|[g b] fs IH]; simpl; [done|]. case_decide; intros Ha; simplify_eq; set_solver.
Qed.

Section Copying.
Context `{LibLaws}.

(** Writing to a block above [h0] leaves [h0], and everything above the block. *)
Lemma store_above h0 h l i b v :
  length h0 ≤ l → h0 `prefix_of` h → h !! l = Some b → i < length b →
  store l i v h = Some (tt, <[l := <[i := v]> b]> h) ∧ h0 `prefix_of` <[l := <[i := v]> b]> h ∧
  agree (S l) h (<[l := <[i := v]> b]> h).
Proof.
  intros Hl Hp Hb Hi. unfold store. rewrite Hb, decide_True by done. split_and!; [done| |].
  - destruct Hp as [k ->]. rewrite insert_app_r_alt by done. by apply prefix_app_r.
  - intros l' b' Hl' Hb'. rewrite list_lookup_insert_ne by lia. done.
Qed.

Lemma copies_assign τ : plain τ = true → copies τ assign.
Proof.
  intros Hp h v t Hr. exists v, h. split_and!; [done|done|]. by eapply rep_plain.
Qed.

Lemma copies_new τ into : copies τ into → copies (TPtr τ) (ifSet (new into)).
Proof.
  intros Hc h v t [[-> ->]|(l & v' & t' & -> & -> & _ & Hl & Hr)].
  { exists VNil, h. split_and!; [done..|by left]. }
  destruct (Hc (h ++ [[VZero]]) v' t') as (v2 & h2 & Hi & Hp & Hr2).
  { eapply rep_prefix; [by apply prefix_app_r|done]. }
  rewrite length_app, Nat.add_1_r in Hr2.
  assert (Hcell : h2 !! length h = Some [VZero]).
  { eapply prefix_lookup_Some; [|done]. by rewrite lookup_app_r, Nat.sub_diag by lia. }
  destruct (store_above h h2 (length h) 0 [VZero] v2) as (Hs & Hp2 & Ha); [done| |done|simpl; lia|].
  { etrans; [|done]. by apply prefix_app_r. }
  exists (VPtr (length h)), (<[length h := [v2]]> h2). split_and!; [|done|].
  - unfold ifSet, new, mbind, M_bind, alloc, deref, load. rewrite (lookup_app_l_Some _ _ _ _ Hl). cbn.
    rewrite Hi. cbn in Hs |- *. by rewrite Hs.
  - right. exists (length h), v2, t'. split_and!; [done..| |].
    + apply list_lookup_insert_eq. by eapply lookup_lt_Some.
    + eapply rep_weaken; [|by eapply rep_agree]. lia.
Qed.

(** The loop: the elements copied so far, the rest of the block still zero. *)
Lemma copyElems_spec τ into h0 l off b n i outs ts1 ts2 h :
  copies τ into → h0 !! l = Some b → length h0 < length h → h0 `prefix_of` h →
  h !! length h0 = Some (outs ++ replicate n VZero) → length outs = i →
  Forall2 (rep (S (length h0)) h τ) outs ts1 →
  Forall2 (rep 0 h0 τ) (take n (drop (off + i) b)) ts2 → off + i + n ≤ length b →
  ∃ outs' h', copyElems into l off (length h0) i n h = Some (tt, h') ∧ h0 `prefix_of` h' ∧
    h' !! length h0 = Some outs' ∧ length outs' = i + n ∧
    Forall2 (rep (S (length h0)) h' τ) outs' (ts1 ++ ts2).
Proof.
  intros Hc Hb. revert i outs ts1 ts2 h.
  induction n as [|n IH]; intros i outs ts1 ts2 h Hlen Hp Hcell Hi Hdone Htodo Hoff.
  { exists outs, h. apply Forall2_nil_inv_l in Htodo as ->. rewrite app_nil_r in *.
    split_and!; try done. lia. }
  destruct (lookup_lt_is_Some_2 b (off + i)) as [v Hv]; [lia|].
  rewrite (drop_S b v _ Hv) in Htodo. apply Forall2_cons_inv_l in Htodo as (t & ts2' & Hr & Htodo & ->).
  destruct (Hc h v t) as (v2 & h2 & Hinto & Hp2 & Hr2); [by eapply rep_prefix|].
  assert (Hcell2 : h2 !! length h0 = Some (outs ++ replicate (S n) VZero)) by (by eapply prefix_lookup_Some).
  destruct (store_above h0 h2 (length h0) i (outs ++ replicate (S n) VZero) v2) as (Hs & Hp3 & Ha);
    [done|by etrans|done|rewrite length_app, length_replicate; lia|].
  set (h3 := <[length h0 := _]> h2) in *.
  assert (Hb3 : h3 !! length h0 = Some ((outs ++ [v2]) ++ replicate n VZero)).
  { unfold h3. rewrite list_lookup_insert_eq by (by eapply lookup_lt_Some). f_equal.
    rewrite insert_app_r_alt by lia. replace (i - length outs) with 0 by lia. by rewrite <-app_assoc. }
  destruct (IH (S i) (outs ++ [v2]) (ts1 ++ [t]) ts2' h3) as (outs' & h' & Hrun & ? & ? & Hlen' & Hall).
  - apply lookup_lt_Some in Hb3. done.
  - done.
  - done.
  - rewrite length_app. simpl. lia.
  - apply Forall2_app.
    + eapply Forall2_impl; [done|]. intros v' t' Hr'. eapply rep_agree; [done|]. by eapply rep_prefix.
    + constructor; [|done]. eapply rep_agree; [done|]. eapply rep_weaken; [|done]. lia.
  - by rewrite Nat.add_succ_r.
  - lia.
  - exists outs', h'. rewrite <-app_assoc in Hall. split_and!; try done; [|lia].
    cbn [copyElems]. unfold mbind, M_bind, load.
    rewrite (prefix_lookup_Some _ _ _ _ Hb Hp). cbn. by rewrite Hv, Hinto, Hs.
Qed.

Lemma copies_make τ into : copies τ into → copies (TSlice τ) (ifSet (makeSlice into)).
Proof.
  intros Hc h v t [[-> ->]|(l & off & len & b & ts & -> & -> & _ & Hl & Hlen & Hr)].
  { exists VNil, h. split_and!; [done..|by left]. }
  destruct (copyElems_spec τ into h l off b len 0 [] [] ts (h ++ [replicate len VZero]))
    as (outs & h' & Hrun & Hp & Hcell & Hn & Hall); try done.
  - rewrite length_app. simpl. lia.
  - by apply prefix_app_r.
  - by rewrite lookup_app_r, Nat.sub_diag by lia.
  - by rewrite Nat.add_0_r.
  - lia.
  - exists (VSlice (length h) 0 len), h'. split_and!; [|done|].
    + unfold ifSet, makeSlice, mbind, M_bind, alloc. by rewrite Hrun.
    + right. exists (length h), 0, len, outs, ts. split_and!; [done..| |].
      * lia.
      * rewrite drop_0, take_ge by lia. eapply Forall2_impl; [done|]. intros. eapply rep_weaken; [|done]. lia.
Qed.

(** *** Structs *)

Lemma fields_get (R : string → gtype → gval → tree → Prop) fs vs ts f τ :
  rep_fields R fs vs ts → assoc f fs = Some τ →
  ∃ v t, assoc f vs = Some v ∧ assoc f ts = Some t ∧ R f τ v t.
Proof.
  revert vs ts. induction fs as [|[g σ] fs IH]; intros [|[g1 v] vs] [|[g2 t] ts]; try done.
  intros (-> & -> & Hr & Hrest). cbn. case_decide; [|by apply IH].
  intros [= ->]. subst. eauto.
Qed.

Lemma fields_set (R R' : string → gtype → gval → tree → Prop) fs vs ts f τ v t :
  NoDup fs.*1 → rep_fields R fs vs ts → assoc f fs = Some τ → assoc f ts = Some t → R' f τ v t →
  (∀ g σ w u, g ≠ f → R g σ w u → R' g σ w u) →
  ∃ vs', assoc_set f v vs = Some vs' ∧ rep_fields R' fs vs' ts.
Proof.
  intros Hnd Hr Hf Ht Hv Hother. revert vs ts Hr Hf Ht Hnd.
  induction fs as [|[g σ] fs IH]; intros [|[g1 w] vs] [|[g2 u] ts]; try done.
  cbn. intros (-> & -> & Hr & Hrest). rewrite NoDup_cons. intros Hf Ht [Hg Hnd].
  case_decide as Hgf.
  - simplify_eq. exists ((f, v) :: vs). split; [done|]. split_and!; [done..|].
    eapply rep_fields_mono; [|done]. apply Forall_forall. intros [k κ] Hk w' u'. apply Hother. cbn.
    intros ->. apply Hg. apply list_elem_of_fmap. by exists (f, κ).
  - destruct (IH vs ts Hrest Hf Ht Hnd) as (vs' & -> & Hr'). exists ((g, w) :: vs').
    split; [done|]. split_and!; auto.
Qed.

(** Fields already copied, and fields that are still those of [in]. *)
Definition mixed (done : list string) (n : nat) (h : heap) (f : string) (τ : gtype) (v : gval) (t : tree) : Prop :=
  if decide (f ∈ done) then rep n h τ v t else rep 0 h τ v t.

Lemma mixed_prefix done n h h' f τ v t : h `prefix_of` h' → mixed done n h f τ v t → mixed done n h' f τ v t.
Proof. intros Hp. unfold mixed. case_decide; by apply rep_prefix. Qed.

Definition step_ok (fs : list (string * gtype)) (s : string * (gval → M gval)) : Prop :=
  ∃ τ, assoc s.1 fs = Some τ ∧ copies τ s.2.

Lemma copyFields_spec n fs steps done h ins outs ts :
  NoDup fs.*1 → Forall (step_ok fs) steps → n ≤ length h →
  rep_fields (λ _, rep 0 h) fs ins ts → rep_fields (mixed done n h) fs outs ts →
  ∃ outs' h', copyFields steps (VStruct ins) (VStruct outs) h = Some (VStruct outs', h') ∧
    h `prefix_of` h' ∧ rep_fields (mixed (steps.*1 ++ done) n h') fs outs' ts.
Proof.
  intros Hnd Hs. revert done h outs. induction Hs as [|[f step] steps (τ & Hf & Hc) Hs IH];
    intros done h outs Hn Hin Hout; [by exists outs, h|].
  destruct (fields_get _ _ _ _ _ _ Hin Hf) as (v & t & Hv & Ht & Hr).
  destruct (Hc h v t Hr) as (v' & h1 & Hstep & Hp & Hr').
  destruct (fields_set _ (mixed (f :: done) n h1) fs outs ts f τ v' t Hnd Hout Hf Ht) as (outs1 & Hset & Hout1).
  { unfold mixed. rewrite decide_True by set_solver. by eapply rep_weaken. }
  { intros g σ w u Hg Hm. apply (mixed_prefix _ _ _ h1) in Hm; [|done]. revert Hm. unfold mixed.
    destruct (decide (g ∈ done)); [rewrite decide_True by set_solver|rewrite decide_False by set_solver]; done. }
  destruct (IH (f :: done) h1 outs1) as (outs' & h' & Hrun & Hp' & Hout').
  - etrans; [done|]. by apply prefix_length.
  - eapply (rep_fields_mono (λ _, rep 0 h)); [|done]. apply Forall_true. intros ???. by apply rep_prefix.
  - done.
  - exists outs', h'. split_and!.
    + cbn [copyFields]. unfold mbind, M_bind, getField, setField. cbn in Hv, Hset, Hstep. by rewrite Hv, Hstep, Hset.
    + by etrans.
    + eapply rep_fields_mono; [|done]. apply Forall_true. intros [g σ] w u. cbn. unfold mixed.
      rewrite !(decide_ext (g ∈ steps.*1 ++ f :: done) (g ∈ f :: steps.*1 ++ done)) by set_solver. done.
Qed.

(** The statements together copy every field that an assignment does not. *)
Lemma copies_struct fs steps :
  NoDup fs.*1 → Forall (step_ok fs) steps → Forall (λ f, plain f.2 = true ∨ f.1 ∈ steps.*1) fs →
  copies (TStruct fs) (copyInto steps).
Proof.
  intros Hnd Hs Hall h v t (vs & ts & -> & -> & Hr).
  destruct (copyFields_spec (length h) fs steps [] h vs vs ts) as (outs & h' & Hrun & Hp & Hout); try done.
  exists (VStruct outs), h'. split_and!; [done..|]. exists outs, ts. split_and!; [done..|].
  eapply rep_fields_mono; [|done]. eapply Forall_impl; [done|]. intros [f τ] Hf w u. cbn in *. unfold mixed.
  rewrite app_nil_r. case_decide; [done|]. destruct Hf; [|done]. by apply rep_plain.
Qed.

(** A copy is what the original was, and stays so whatever is done to memory that
    existed before. *)
Lemma copies_isolated τ f h v t :
  copies τ f → rep 0 h τ v t →
  ∃ v' h', f v h = Some (v', h') ∧ h `prefix_of` h' ∧
    ∀ h'', agree (length h) h' h'' → rep (length h) h'' τ v' t.
Proof.
  intros Hc Hr. destruct (Hc h v t Hr) as (v' & h' & ? & ? & ?). exists v', h'. split_and!; [done..|].
  intros h'' Ha. by eapply rep_agree.
Qed.
End Copying.
