(* ===== verification/DeepCopy.v ===== *)
(** * api/: zz_generated.deepcopy.go

    The types of both API groups with their pointers and slices, as the structs
    declare them, and the generated copying functions: [T_DeepCopyInto] lists the
    statements after [*out = *in] in their order, [T_DeepCopy] allocates first.
    [TypeMeta], [ObjectMeta], [ListMeta], [Time], [Condition] and [RawExtension]
    are types of the Kubernetes libraries, whose copying functions are parameters. *)

From stdpp Require Import base list strings gmap.
From S2P Require Import Prelude GoMemory.

(** ** The types *)

Definition SecretKeyRef_t : gtype := TStruct
  [("Name", TBase); ("Key", TBase)].

Definition ClusterCapabilities_t : gtype := TStruct
  [("Flux", TPtr TBase); ("Velero", TPtr TBase)].

Definition ClusterSpec_t : gtype := TStruct
  [ ("ClusterID", TBase);
    ("ControlPlaneEndpoint", TBase);
    ("ControlPlaneBaseURL", TBase);
    ("RegistrationTokenSecretRef", TPtr SecretKeyRef_t);
    ("RegistrationToken", TBase);
    ("Capabilities", TPtr ClusterCapabilities_t);
    ("RotateCredentials", TBase) ].

Definition SecretReference_t : gtype := TStruct
  [("Name", TBase); ("Namespace", TBase)].

Definition ClusterCredentialStatus_t : gtype := TStruct
  [ ("SecretName", TBase);
    ("SecretNamespace", TBase);
    ("RegisteredAt", TPtr (TLib "Time"));
    ("RegistrationTokenConsumed", TBase) ].

Definition ClusterStatus_t : gtype := TStruct
  [ ("Phase", TBase);
    ("Conditions", TSlice (TLib "Condition"));
    ("LastHeartbeat", TPtr (TLib "Time"));
    ("CredentialStatus", TPtr ClusterCredentialStatus_t);
    ("CredentialsSecretRef", TPtr SecretReference_t);
    ("ObservedToken", TBase) ].

Definition Cluster_t : gtype := TStruct
  [ ("TypeMeta", TLib "TypeMeta");
    ("ObjectMeta", TLib "ObjectMeta");
    ("Spec", ClusterSpec_t);
    ("Status", ClusterStatus_t) ].

Definition ClusterList_t : gtype := TStruct
  [ ("TypeMeta", TLib "TypeMeta");
    ("ListMeta", TLib "ListMeta");
    ("Items", TSlice Cluster_t) ].

Definition TargetRef_t : gtype := TStruct
  [("APIVersion", TBase); ("Kind", TBase); ("Name", TBase)].

Definition ApprovalsSpec_t : gtype := TStruct
  [ ("Required", TBase);
    ("Claim", TBase);
    ("ApprovedBy", TBase);
    ("ApprovedAt", TBase) ].

Definition OperationSpec_t : gtype := TStruct
  [ ("TargetRef", TargetRef_t);
    ("Type", TBase);
    ("Engine", TBase);
    ("Parameters", TPtr (TLib "RawExtension"));
    ("Approvals", TPtr ApprovalsSpec_t) ].

Definition LogsRef_t : gtype := TStruct
  [("Kind", TBase); ("Name", TBase); ("Namespace", TBase); ("URL", TBase)].

Definition EngineResourceRef_t : gtype := TStruct
  [("Kind", TBase); ("Name", TBase); ("Namespace", TBase)].

Definition OperationStatus_t : gtype := TStruct
  [ ("Phase", TBase);
    ("StartedAt", TPtr (TLib "Time"));
    ("FinishedAt", TPtr (TLib "Time"));
    ("EngineRef", TPtr EngineResourceRef_t);
    ("Conditions", TSlice (TLib "Condition"));
    ("Outputs", TLib "RawExtension");
    ("LogsRef", TPtr LogsRef_t) ].

Definition Operation_t : gtype := TStruct
  [ ("TypeMeta", TLib "TypeMeta");
    ("ObjectMeta", TLib "ObjectMeta");
    ("Spec", OperationSpec_t);
    ("Status", OperationStatus_t) ].

Definition OperationList_t : gtype := TStruct
  [ ("TypeMeta", TLib "TypeMeta");
    ("ListMeta", TLib "ListMeta");
    ("Items", TSlice Operation_t) ].

Definition AppRef_t : gtype := TStruct
  [("CatalogID", TBase)].

Definition ChartSpec_t : gtype := TStruct
  [("SourceType", TBase); ("URL", TBase); ("Name", TBase); ("Version", TBase)].

Definition ReleaseSpec_t : gtype := TStruct
  [("Name", TBase); ("Namespace", TBase)].

Definition ObjectKeyRef_t : gtype := TStruct
  [("Name", TBase); ("Key", TBase)].

Definition ValuesSpec_t : gtype := TStruct
  [ ("Source", TBase);
    ("Inline", TPtr (TLib "RawExtension"));
    ("SecretRef", TPtr ObjectKeyRef_t);
    ("ConfigMapRef", TPtr ObjectKeyRef_t) ].

Definition ExternalSecretsIntegration_t : gtype := TStruct
  [("Enabled", TBase)].

Definition CertManagerIntegration_t : gtype := TStruct
  [("Enabled", TBase)].

Definition IngressIntegration_t : gtype := TStruct
  [("Enabled", TBase); ("Host", TBase)].

Definition IntegrationsSpec_t : gtype := TStruct
  [ ("ExternalSecrets", TPtr ExternalSecretsIntegration_t);
    ("CertManager", TPtr CertManagerIntegration_t);
    ("Ingress", TPtr IngressIntegration_t) ].

Definition ApplicationInstanceSpec_t : gtype := TStruct
  [ ("AppRef", AppRef_t);
    ("Mode", TBase);
    ("Chart", TPtr ChartSpec_t);
    ("Release", TPtr ReleaseSpec_t);
    ("Values", TPtr ValuesSpec_t);
    ("Integrations", TPtr IntegrationsSpec_t) ].

Definition HelmReleaseRef_t : gtype := TStruct
  [("Name", TBase); ("Namespace", TBase)].

Definition ChartSnapshot_t : gtype := TStruct
  [("SourceType", TBase); ("URL", TBase); ("Name", TBase); ("Version", TBase)].

Definition EndpointStatus_t : gtype := TStruct
  [("Name", TBase); ("URL", TBase); ("Type", TBase); ("Notes", TBase)].

Definition ApplicationInstanceStatus_t : gtype := TStruct
  [ ("ObservedGeneration", TBase);
    ("Conditions", TSlice (TLib "Condition"));
    ("HelmReleaseRef", TPtr HelmReleaseRef_t);
    ("LastAppliedChart", TPtr ChartSnapshot_t);
    ("LastReconcileTime", TPtr (TLib "Time"));
    ("Endpoints", TSlice EndpointStatus_t) ].

Definition ApplicationInstance_t : gtype := TStruct
  [ ("TypeMeta", TLib "TypeMeta");
    ("ObjectMeta", TLib "ObjectMeta");
    ("Spec", ApplicationInstanceSpec_t);
    ("Status", ApplicationInstanceStatus_t) ].

Definition ApplicationInstanceList_t : gtype := TStruct
  [ ("TypeMeta", TLib "TypeMeta");
    ("ListMeta", TLib "ListMeta");
    ("Items", TSlice ApplicationInstance_t) ].

(** ** The functions *)

(** Copying functions of the libraries: [DeepCopyInto], and [DeepCopy] of a
    pointer. *)
Class LibCopies := {
  lib_DeepCopyInto : string → gval → M gval;
  lib_DeepCopy : string → gval → M gval
}.

(** They copy, and a [TypeMeta] holds strings only.  The layout a [LibTypes] gives a
    library type lists the memory that may be written: the [*Location] that copies of
    a [metav1.Time] share is never written and belongs to the value itself. *)
Class LibCopyLaws `{LibTypes} `{LibCopies} := {
  law_DeepCopyInto name : copies (TLib name) (lib_DeepCopyInto name);
  law_DeepCopy name : copies (TPtr (TLib name)) (ifSet (lib_DeepCopy name));
  law_TypeMeta : copies (TLib "TypeMeta") assign
}.

Section Functions.
Context `{LibCopies}.

Definition SecretKeyRef_DeepCopyInto : gval → M gval := copyInto [].
Definition SecretKeyRef_DeepCopy : gval → M gval := DeepCopy SecretKeyRef_DeepCopyInto.

Definition ClusterCapabilities_DeepCopyInto : gval → M gval := copyInto
  [("Flux", ifSet (new assign)); ("Velero", ifSet (new assign))].
Definition ClusterCapabilities_DeepCopy : gval → M gval := DeepCopy ClusterCapabilities_DeepCopyInto.

Definition ClusterSpec_DeepCopyInto : gval → M gval := copyInto
  [ ("RegistrationTokenSecretRef", ifSet (new assign));
    ("Capabilities", ifSet (new ClusterCapabilities_DeepCopyInto)) ].
Definition ClusterSpec_DeepCopy : gval → M gval := DeepCopy ClusterSpec_DeepCopyInto.

Definition SecretReference_DeepCopyInto : gval → M gval := copyInto [].
Definition SecretReference_DeepCopy : gval → M gval := DeepCopy SecretReference_DeepCopyInto.

Definition ClusterCredentialStatus_DeepCopyInto : gval → M gval := copyInto
  [("RegisteredAt", ifSet (lib_DeepCopy "Time"))].
Definition ClusterCredentialStatus_DeepCopy : gval → M gval := DeepCopy ClusterCredentialStatus_DeepCopyInto.

Definition ClusterStatus_DeepCopyInto : gval → M gval := copyInto
  [ ("Conditions", ifSet (makeSlice (lib_DeepCopyInto "Condition")));
    ("LastHeartbeat", ifSet (lib_DeepCopy "Time"));
    ("CredentialStatus", ifSet (new ClusterCredentialStatus_DeepCopyInto));
    ("CredentialsSecretRef", ifSet (new assign)) ].
Definition ClusterStatus_DeepCopy : gval → M gval := DeepCopy ClusterStatus_DeepCopyInto.

Definition Cluster_DeepCopyInto : gval → M gval := copyInto
  [ ("TypeMeta", assign);
    ("ObjectMeta", lib_DeepCopyInto "ObjectMeta");
    ("Spec", ClusterSpec_DeepCopyInto);
    ("Status", ClusterStatus_DeepCopyInto) ].
Definition Cluster_DeepCopy : gval → M gval := DeepCopy Cluster_DeepCopyInto.
Definition Cluster_DeepCopyObject : gval → M (option gval) := DeepCopyObject Cluster_DeepCopyInto.

Definition ClusterList_DeepCopyInto : gval → M gval := copyInto
  [ ("TypeMeta", assign);
    ("ListMeta", lib_DeepCopyInto "ListMeta");
    ("Items", ifSet (makeSlice Cluster_DeepCopyInto)) ].
Definition ClusterList_DeepCopy : gval → M gval := DeepCopy ClusterList_DeepCopyInto.
Definition ClusterList_DeepCopyObject : gval → M (option gval) := DeepCopyObject ClusterList_DeepCopyInto.

Definition TargetRef_DeepCopyInto : gval → M gval := copyInto [].
Definition TargetRef_DeepCopy : gval → M gval := DeepCopy TargetRef_DeepCopyInto.

Definition ApprovalsSpec_DeepCopyInto : gval → M gval := copyInto [].
Definition ApprovalsSpec_DeepCopy : gval → M gval := DeepCopy ApprovalsSpec_DeepCopyInto.

Definition OperationSpec_DeepCopyInto : gval → M gval := copyInto
  [ ("TargetRef", assign);
    ("Parameters", ifSet (new (lib_DeepCopyInto "RawExtension")));
    ("Approvals", ifSet (new assign)) ].
Definition OperationSpec_DeepCopy : gval → M gval := DeepCopy OperationSpec_DeepCopyInto.

Definition LogsRef_DeepCopyInto : gval → M gval := copyInto [].
Definition LogsRef_DeepCopy : gval → M gval := DeepCopy LogsRef_DeepCopyInto.

Definition EngineResourceRef_DeepCopyInto : gval → M gval := copyInto [].
Definition EngineResourceRef_DeepCopy : gval → M gval := DeepCopy EngineResourceRef_DeepCopyInto.

Definition OperationStatus_DeepCopyInto : gval → M gval := copyInto
  [ ("StartedAt", ifSet (lib_DeepCopy "Time"));
    ("FinishedAt", ifSet (lib_DeepCopy "Time"));
    ("EngineRef", ifSet (new assign));
    ("Conditions", ifSet (makeSlice (lib_DeepCopyInto "Condition")));
    ("Outputs", lib_DeepCopyInto "RawExtension");
    ("LogsRef", ifSet (new assign)) ].
Definition OperationStatus_DeepCopy : gval → M gval := DeepCopy OperationStatus_DeepCopyInto.

Definition Operation_DeepCopyInto : gval → M gval := copyInto
  [ ("TypeMeta", assign);
    ("ObjectMeta", lib_DeepCopyInto "ObjectMeta");
    ("Spec", OperationSpec_DeepCopyInto);
    ("Status", OperationStatus_DeepCopyInto) ].
Definition Operation_DeepCopy : gval → M gval := DeepCopy Operation_DeepCopyInto.
Definition Operation_DeepCopyObject : gval → M (option gval) := DeepCopyObject Operation_DeepCopyInto.

Definition OperationList_DeepCopyInto : gval → M gval := copyInto
  [ ("TypeMeta", assign);
    ("ListMeta", lib_DeepCopyInto "ListMeta");
    ("Items", ifSet (makeSlice Operation_DeepCopyInto)) ].
Definition OperationList_DeepCopy : gval → M gval := DeepCopy OperationList_DeepCopyInto.
Definition OperationList_DeepCopyObject : gval → M (option gval) := DeepCopyObject OperationList_DeepCopyInto.

Definition AppRef_DeepCopyInto : gval → M gval := copyInto [].
Definition AppRef_DeepCopy : gval → M gval := DeepCopy AppRef_DeepCopyInto.

Definition ChartSpec_DeepCopyInto : gval → M gval := copyInto [].
Definition ChartSpec_DeepCopy : gval → M gval := DeepCopy ChartSpec_DeepCopyInto.

Definition ReleaseSpec_DeepCopyInto : gval → M gval := copyInto [].
Definition ReleaseSpec_DeepCopy : gval → M gval := DeepCopy ReleaseSpec_DeepCopyInto.

Definition ObjectKeyRef_DeepCopyInto : gval → M gval := copyInto [].
Definition ObjectKeyRef_DeepCopy : gval → M gval := DeepCopy ObjectKeyRef_DeepCopyInto.

Definition ValuesSpec_DeepCopyInto : gval → M gval := copyInto
  [ ("Inline", ifSet (new (lib_DeepCopyInto "RawExtension")));
    ("SecretRef", ifSet (new assign));
    ("ConfigMapRef", ifSet (new assign)) ].
Definition ValuesSpec_DeepCopy : gval → M gval := DeepCopy ValuesSpec_DeepCopyInto.

Definition ExternalSecretsIntegration_DeepCopyInto : gval → M gval := copyInto [].
Definition ExternalSecretsIntegration_DeepCopy : gval → M gval := DeepCopy ExternalSecretsIntegration_DeepCopyInto.

Definition CertManagerIntegration_DeepCopyInto : gval → M gval := copyInto [].
Definition CertManagerIntegration_DeepCopy : gval → M gval := DeepCopy CertManagerIntegration_DeepCopyInto.

Definition IngressIntegration_DeepCopyInto : gval → M gval := copyInto [].
Definition IngressIntegration_DeepCopy : gval → M gval := DeepCopy IngressIntegration_DeepCopyInto.

Definition IntegrationsSpec_DeepCopyInto : gval → M gval := copyInto
  [ ("ExternalSecrets", ifSet (new assign));
    ("CertManager", ifSet (new assign));
    ("Ingress", ifSet (new assign)) ].
Definition IntegrationsSpec_DeepCopy : gval → M gval := DeepCopy IntegrationsSpec_DeepCopyInto.

Definition ApplicationInstanceSpec_DeepCopyInto : gval → M gval := copyInto
  [ ("AppRef", assign);
    ("Chart", ifSet (new assign));
    ("Release", ifSet (new assign));
    ("Values", ifSet (new ValuesSpec_DeepCopyInto));
    ("Integrations", ifSet (new IntegrationsSpec_DeepCopyInto)) ].
Definition ApplicationInstanceSpec_DeepCopy : gval → M gval := DeepCopy ApplicationInstanceSpec_DeepCopyInto.

Definition HelmReleaseRef_DeepCopyInto : gval → M gval := copyInto [].
Definition HelmReleaseRef_DeepCopy : gval → M gval := DeepCopy HelmReleaseRef_DeepCopyInto.

Definition ChartSnapshot_DeepCopyInto : gval → M gval := copyInto [].
Definition ChartSnapshot_DeepCopy : gval → M gval := DeepCopy ChartSnapshot_DeepCopyInto.

Definition EndpointStatus_DeepCopyInto : gval → M gval := copyInto [].
Definition EndpointStatus_DeepCopy : gval → M gval := DeepCopy EndpointStatus_DeepCopyInto.

Definition ApplicationInstanceStatus_DeepCopyInto : gval → M gval := copyInto
  [ ("Conditions", ifSet (makeSlice (lib_DeepCopyInto "Condition")));
    ("HelmReleaseRef", ifSet (new assign));
    ("LastAppliedChart", ifSet (new assign));
    ("LastReconcileTime", ifSet (lib_DeepCopy "Time"));
    ("Endpoints", ifSet (makeSlice assign)) ].
Definition ApplicationInstanceStatus_DeepCopy : gval → M gval := DeepCopy ApplicationInstanceStatus_DeepCopyInto.

Definition ApplicationInstance_DeepCopyInto : gval → M gval := copyInto
  [ ("TypeMeta", assign);
    ("ObjectMeta", lib_DeepCopyInto "ObjectMeta");
    ("Spec", ApplicationInstanceSpec_DeepCopyInto);
    ("Status", ApplicationInstanceStatus_DeepCopyInto) ].
Definition ApplicationInstance_DeepCopy : gval → M gval := DeepCopy ApplicationInstance_DeepCopyInto.
Definition ApplicationInstance_DeepCopyObject : gval → M (option gval) := DeepCopyObject ApplicationInstance_DeepCopyInto.

Definition ApplicationInstanceList_DeepCopyInto : gval → M gval := copyInto
  [ ("TypeMeta", assign);
    ("ListMeta", lib_DeepCopyInto "ListMeta");
    ("Items", ifSet (makeSlice ApplicationInstance_DeepCopyInto)) ].
Definition ApplicationInstanceList_DeepCopy : gval → M gval := DeepCopy ApplicationInstanceList_DeepCopyInto.
Definition ApplicationInstanceList_DeepCopyObject : gval → M (option gval) := DeepCopyObject ApplicationInstanceList_DeepCopyInto.

(** All types with their [DeepCopy]. *)
Definition api_types : list (gtype * (gval → M gval)) :=
  [ (SecretKeyRef_t, SecretKeyRef_DeepCopy);
    (ClusterCapabilities_t, ClusterCapabilities_DeepCopy);
    (ClusterSpec_t, ClusterSpec_DeepCopy);
    (SecretReference_t, SecretReference_DeepCopy);
    (ClusterCredentialStatus_t, ClusterCredentialStatus_DeepCopy);
    (ClusterStatus_t, ClusterStatus_DeepCopy);
    (Cluster_t, Cluster_DeepCopy);
    (ClusterList_t, ClusterList_DeepCopy);
    (TargetRef_t, TargetRef_DeepCopy);
    (ApprovalsSpec_t, ApprovalsSpec_DeepCopy);
    (OperationSpec_t, OperationSpec_DeepCopy);
    (LogsRef_t, LogsRef_DeepCopy);
    (EngineResourceRef_t, EngineResourceRef_DeepCopy);
    (OperationStatus_t, OperationStatus_DeepCopy);
    (Operation_t, Operation_DeepCopy);
    (OperationList_t, OperationList_DeepCopy);
    (AppRef_t, AppRef_DeepCopy);
    (ChartSpec_t, ChartSpec_DeepCopy);
    (ReleaseSpec_t, ReleaseSpec_DeepCopy);
    (ObjectKeyRef_t, ObjectKeyRef_DeepCopy);
    (ValuesSpec_t, ValuesSpec_DeepCopy);
    (ExternalSecretsIntegration_t, ExternalSecretsIntegration_DeepCopy);
    (CertManagerIntegration_t, CertManagerIntegration_DeepCopy);
    (IngressIntegration_t, IngressIntegration_DeepCopy);
    (IntegrationsSpec_t, IntegrationsSpec_DeepCopy);
    (ApplicationInstanceSpec_t, ApplicationInstanceSpec_DeepCopy);
    (HelmReleaseRef_t, HelmReleaseRef_DeepCopy);
    (ChartSnapshot_t, ChartSnapshot_DeepCopy);
    (EndpointStatus_t, EndpointStatus_DeepCopy);
    (ApplicationInstanceStatus_t, ApplicationInstanceStatus_DeepCopy);
    (ApplicationInstance_t, ApplicationInstance_DeepCopy);
    (ApplicationInstanceList_t, ApplicationInstanceList_DeepCopy) ].

(** The objects the API server keeps, with their [DeepCopyObject]. *)
Definition api_objects : list (gtype * (gval → M (option gval))) :=
  [ (Cluster_t, Cluster_DeepCopyObject);
    (ClusterList_t, ClusterList_DeepCopyObject);
    (Operation_t, Operation_DeepCopyObject);
    (OperationList_t, OperationList_DeepCopyObject);
    (ApplicationInstance_t, ApplicationInstance_DeepCopyObject);
    (ApplicationInstanceList_t, ApplicationInstanceList_DeepCopyObject) ].
End Functions.

(** ** They copy

    Every pointer and slice a struct declares is among the statements, with a
    function that copies its type. *)

Ltac copy_struct :=
  apply copies_struct;
  [ apply (bool_decide_unpack _); reflexivity
  | repeat constructor; eexists; (split; [reflexivity|cbn [fst snd]]); auto with deepcopy
  | repeat constructor; first [left; reflexivity | right; cbn; set_solver] ].

Section Copies.
Context `{!LibTypes} `{!LibLaws} `{!LibCopies} `{!LibCopyLaws}.

Hint Constants Opaque : deepcopy.
Lemma TypeMeta_copies : copies (TLib "TypeMeta") assign.
Proof. exact law_TypeMeta. Qed.

Hint Resolve copies_new copies_make law_DeepCopyInto law_DeepCopy TypeMeta_copies : deepcopy.
Hint Extern 1 (copies _ assign) => apply copies_assign; reflexivity : deepcopy.

Lemma DeepCopy_copies τ into : copies τ into → copies (TPtr τ) (DeepCopy into).
Proof. apply copies_new. Qed.

Lemma SecretKeyRef_copies : copies SecretKeyRef_t SecretKeyRef_DeepCopyInto.
Proof. copy_struct. Qed.
Hint Extern 0 (copies SecretKeyRef_t _) => exact SecretKeyRef_copies : deepcopy.

Lemma ClusterCapabilities_copies : copies ClusterCapabilities_t ClusterCapabilities_DeepCopyInto.
Proof. copy_struct. Qed.
Hint Extern 0 (copies ClusterCapabilities_t _) => exact ClusterCapabilities_copies : deepcopy.

Lemma ClusterSpec_copies : copies ClusterSpec_t ClusterSpec_DeepCopyInto.
Proof. copy_struct. Qed.
Hint Extern 0 (copies ClusterSpec_t _) => exact ClusterSpec_copies : deepcopy.

Lemma SecretReference_copies : copies SecretReference_t SecretReference_DeepCopyInto.
Proof. copy_struct. Qed.
Hint Extern 0 (copies SecretReference_t _) => exact SecretReference_copies : deepcopy.

Lemma ClusterCredentialStatus_copies : copies ClusterCredentialStatus_t ClusterCredentialStatus_DeepCopyInto.
Proof. copy_struct. Qed.
Hint Extern 0 (copies ClusterCredentialStatus_t _) => exact ClusterCredentialStatus_copies : deepcopy.

Lemma ClusterStatus_copies : copies ClusterStatus_t ClusterStatus_DeepCopyInto.
Proof. copy_struct. Qed.
Hint Extern 0 (copies ClusterStatus_t _) => exact ClusterStatus_copies : deepcopy.

Lemma Cluster_copies : copies Cluster_t Cluster_DeepCopyInto.
Proof. copy_struct. Qed.
Hint Extern 0 (copies Cluster_t _) => exact Cluster_copies : deepcopy.

Lemma ClusterList_copies : copies ClusterList_t ClusterList_DeepCopyInto.
Proof. copy_struct. Qed.
Hint Extern 0 (copies ClusterList_t _) => exact ClusterList_copies : deepcopy.

Lemma TargetRef_copies : copies TargetRef_t TargetRef_DeepCopyInto.
Proof. copy_struct. Qed.
Hint Extern 0 (copies TargetRef_t _) => exact TargetRef_copies : deepcopy.

Lemma ApprovalsSpec_copies : copies ApprovalsSpec_t ApprovalsSpec_DeepCopyInto.
Proof. copy_struct. Qed.
Hint Extern 0 (copies ApprovalsSpec_t _) => exact ApprovalsSpec_copies : deepcopy.

Lemma OperationSpec_copies : copies OperationSpec_t OperationSpec_DeepCopyInto.
Proof. copy_struct. Qed.
Hint Extern 0 (copies OperationSpec_t _) => exact OperationSpec_copies : deepcopy.

Lemma LogsRef_copies : copies LogsRef_t LogsRef_DeepCopyInto.
Proof. copy_struct. Qed.
Hint Extern 0 (copies LogsRef_t _) => exact LogsRef_copies : deepcopy.

Lemma EngineResourceRef_copies : copies EngineResourceRef_t EngineResourceRef_DeepCopyInto.
Proof. copy_struct. Qed.
Hint Extern 0 (copies EngineResourceRef_t _) => exact EngineResourceRef_copies : deepcopy.

Lemma OperationStatus_copies : copies OperationStatus_t OperationStatus_DeepCopyInto.
Proof. copy_struct. Qed.
Hint Extern 0 (copies OperationStatus_t _) => exact OperationStatus_copies : deepcopy.

Lemma Operation_copies : copies Operation_t Operation_DeepCopyInto.
Proof. copy_struct. Qed.
Hint Extern 0 (copies Operation_t _) => exact Operation_copies : deepcopy.

Lemma OperationList_copies : copies OperationList_t OperationList_DeepCopyInto.
Proof. copy_struct. Qed.
Hint Extern 0 (copies OperationList_t _) => exact OperationList_copies : deepcopy.

Lemma AppRef_copies : copies AppRef_t AppRef_DeepCopyInto.
Proof. copy_struct. Qed.
Hint Extern 0 (copies AppRef_t _) => exact AppRef_copies : deepcopy.

Lemma ChartSpec_copies : copies ChartSpec_t ChartSpec_DeepCopyInto.
Proof. copy_struct. Qed.
Hint Extern 0 (copies ChartSpec_t _) => exact ChartSpec_copies : deepcopy.

Lemma ReleaseSpec_copies : copies ReleaseSpec_t ReleaseSpec_DeepCopyInto.
Proof. copy_struct. Qed.
Hint Extern 0 (copies ReleaseSpec_t _) => exact ReleaseSpec_copies : deepcopy.

Lemma ObjectKeyRef_copies : copies ObjectKeyRef_t ObjectKeyRef_DeepCopyInto.
Proof. copy_struct. Qed.
Hint Extern 0 (copies ObjectKeyRef_t _) => exact ObjectKeyRef_copies : deepcopy.

Lemma ValuesSpec_copies : copies ValuesSpec_t ValuesSpec_DeepCopyInto.
Proof. copy_struct. Qed.
Hint Extern 0 (copies ValuesSpec_t _) => exact ValuesSpec_copies : deepcopy.

Lemma ExternalSecretsIntegration_copies : copies ExternalSecretsIntegration_t ExternalSecretsIntegration_DeepCopyInto.
Proof. copy_struct. Qed.
Hint Extern 0 (copies ExternalSecretsIntegration_t _) => exact ExternalSecretsIntegration_copies : deepcopy.

Lemma CertManagerIntegration_copies : copies CertManagerIntegration_t CertManagerIntegration_DeepCopyInto.
Proof. copy_struct. Qed.
Hint Extern 0 (copies CertManagerIntegration_t _) => exact CertManagerIntegration_copies : deepcopy.

Lemma IngressIntegration_copies : copies IngressIntegration_t IngressIntegration_DeepCopyInto.
Proof. copy_struct. Qed.
Hint Extern 0 (copies IngressIntegration_t _) => exact IngressIntegration_copies : deepcopy.

Lemma IntegrationsSpec_copies : copies IntegrationsSpec_t IntegrationsSpec_DeepCopyInto.
Proof. copy_struct. Qed.
Hint Extern 0 (copies IntegrationsSpec_t _) => exact IntegrationsSpec_copies : deepcopy.

Lemma ApplicationInstanceSpec_copies : copies ApplicationInstanceSpec_t ApplicationInstanceSpec_DeepCopyInto.
Proof. copy_struct. Qed.
Hint Extern 0 (copies ApplicationInstanceSpec_t _) => exact ApplicationInstanceSpec_copies : deepcopy.

Lemma HelmReleaseRef_copies : copies HelmReleaseRef_t HelmReleaseRef_DeepCopyInto.
Proof. copy_struct. Qed.
Hint Extern 0 (copies HelmReleaseRef_t _) => exact HelmReleaseRef_copies : deepcopy.

Lemma ChartSnapshot_copies : copies ChartSnapshot_t ChartSnapshot_DeepCopyInto.
Proof. copy_struct. Qed.
Hint Extern 0 (copies ChartSnapshot_t _) => exact ChartSnapshot_copies : deepcopy.

Lemma EndpointStatus_copies : copies EndpointStatus_t EndpointStatus_DeepCopyInto.
Proof. copy_struct. Qed.
Hint Extern 0 (copies EndpointStatus_t _) => exact EndpointStatus_copies : deepcopy.

Lemma ApplicationInstanceStatus_copies : copies ApplicationInstanceStatus_t ApplicationInstanceStatus_DeepCopyInto.
Proof. copy_struct. Qed.
Hint Extern 0 (copies ApplicationInstanceStatus_t _) => exact ApplicationInstanceStatus_copies : deepcopy.

Lemma ApplicationInstance_copies : copies ApplicationInstance_t ApplicationInstance_DeepCopyInto.
Proof. copy_struct. Qed.
Hint Extern 0 (copies ApplicationInstance_t _) => exact ApplicationInstance_copies : deepcopy.

Lemma ApplicationInstanceList_copies : copies ApplicationInstanceList_t ApplicationInstanceList_DeepCopyInto.
Proof. copy_struct. Qed.
Hint Extern 0 (copies ApplicationInstanceList_t _) => exact ApplicationInstanceList_copies : deepcopy.

Hint Unfold SecretKeyRef_DeepCopy ClusterCapabilities_DeepCopy ClusterSpec_DeepCopy SecretReference_DeepCopy
  ClusterCredentialStatus_DeepCopy ClusterStatus_DeepCopy Cluster_DeepCopy ClusterList_DeepCopy
  TargetRef_DeepCopy ApprovalsSpec_DeepCopy OperationSpec_DeepCopy LogsRef_DeepCopy
  EngineResourceRef_DeepCopy OperationStatus_DeepCopy Operation_DeepCopy OperationList_DeepCopy
  AppRef_DeepCopy ChartSpec_DeepCopy ReleaseSpec_DeepCopy ObjectKeyRef_DeepCopy
  ValuesSpec_DeepCopy ExternalSecretsIntegration_DeepCopy CertManagerIntegration_DeepCopy IngressIntegration_DeepCopy
  IntegrationsSpec_DeepCopy ApplicationInstanceSpec_DeepCopy HelmReleaseRef_DeepCopy ChartSnapshot_DeepCopy
  EndpointStatus_DeepCopy ApplicationInstanceStatus_DeepCopy ApplicationInstance_DeepCopy ApplicationInstanceList_DeepCopy : api_copies.

Lemma api_types_copy : Forall (λ e, copies (TPtr e.1) e.2) api_types.
Proof.
  unfold api_types. repeat first [apply Forall_nil_2 | apply Forall_cons_2; [cbn [fst snd]|]].
  all: autounfold with api_copies; apply DeepCopy_copies; auto 1 with deepcopy nocore.
Qed.

(** C35: a deep copy is equal and shares nothing: for every type of the API, on every
    value in memory (nil included), [DeepCopy] does not panic and returns a pointer
    that stands for the same value; whatever is afterwards written to memory that
    existed before, the copy keeps its value, and whatever is written to memory
    allocated by the copy or later, the original keeps its own.  The controllers
    rely on this when they take a copy as the base of a patch and then change the
    object. *)
Theorem deep_copy_shares_nothing (τ : gtype) (f : gval → M gval) (h : heap) (p : gval) (t : tree) :
  (τ, f) ∈ api_types → rep 0 h (TPtr τ) p t →
  ∃ p' h', f p h = Some (p', h') ∧
    (∀ h'', agree (length h) h' h'' → rep (length h) h'' (TPtr τ) p' t) ∧
    (∀ h'', h `prefix_of` h'' → rep 0 h'' (TPtr τ) p t) ∧ h `prefix_of` h'.
Proof.
  intros Hin Hr. pose proof api_types_copy as Hall. rewrite Forall_forall in Hall.
  destruct (copies_isolated (TPtr τ) f h p t (Hall _ Hin) Hr) as (p' & h' & ? & ? & ?).
  exists p', h'. split_and!; [done..| |done]. intros h'' Hp. by eapply rep_prefix.
Qed.

(** [DeepCopyObject] of a nil pointer is the nil interface, not an interface that
    holds a nil pointer; of anything else, the copy. *)
Lemma DeepCopyObject_spec (into : gval → M gval) (h : heap) (p : gval) (t : tree) (τ : gtype) :
  copies τ into → rep 0 h (TPtr τ) p t →
  ∃ c h', DeepCopyObject into p h = Some (c, h') ∧ (c = None ↔ p = VNil) ∧
    ∀ p', c = Some p' → rep (length h) h' (TPtr τ) p' t.
Proof.
  intros Hc Hr. destruct (DeepCopy_copies _ _ Hc h p t Hr) as (p' & h' & Hrun & _ & Hr').
  unfold DeepCopyObject, mbind, M_bind. rewrite Hrun. eexists _, h'. split; [done|].
  destruct Hr as [[-> ->]|(l & v & t' & -> & -> & _)], Hr' as [[-> ?]|(l' & v' & t'' & -> & ? & Hx)]; try done.
  split; [done|]. intros ? [= <-]. right. naive_solver.
Qed.

Lemma api_objects_copy :
  Forall (λ e, ∃ into, e.2 = DeepCopyObject into ∧ copies e.1 into) api_objects.
Proof.
  unfold api_objects. repeat first [apply Forall_nil_2 | apply Forall_cons_2; [cbn [fst snd]|]].
  all: eexists; split; [reflexivity|auto 1 with deepcopy nocore].
Qed.
End Copies.

(** ** Witness: library types as byte slices *)

Definition no_lib : LibTypes := λ _ _ _ _ _, False.
Lemma no_lib_laws : @LibLaws no_lib.
Proof. by split. Qed.

(** A [TypeMeta] is a string, every other type of the libraries a slice of bytes. *)
Definition lib_layout (name : string) : gtype :=
  if decide (name = "TypeMeta") then TBase else TSlice TBase.

Definition sample_types : LibTypes := λ name n h v t, @rep no_lib n h (lib_layout name) v t.
Lemma sample_laws : @LibLaws sample_types.
Proof.
  split; intros name *; unfold lib_rep, sample_types.
  - apply (@rep_agree no_lib no_lib_laws).
  - apply (@rep_weaken no_lib no_lib_laws).
Qed.

Definition sample_into (name : string) : gval → M gval :=
  if decide (name = "TypeMeta") then assign else ifSet (makeSlice assign).

Definition sample_copies : LibCopies :=
  {| lib_DeepCopyInto := sample_into; lib_DeepCopy name := new (sample_into name) |}.

Lemma sample_copy_laws : @LibCopyLaws sample_types sample_copies.
Proof.
  assert (Hinto : ∀ name, @copies sample_types (TLib name) (sample_into name)).
  { intros name h v t Hr. cbn in *. unfold lib_rep, sample_types in *. unfold lib_layout, sample_into in *.
    destruct (decide (name = "TypeMeta")); revert h v t Hr.
    - by apply (@copies_assign no_lib TBase).
    - apply (@copies_make no_lib no_lib_laws TBase). by apply (@copies_assign no_lib). }
  split.
  - apply Hinto.
  - intros name. apply (@copies_new sample_types sample_laws (TLib name)), Hinto.
  - apply (Hinto "TypeMeta").
Qed.

Definition text (s : string) : gval := VBase (BString s).
Definition endpoint (url : string) : list (string * gval) :=
  [("Name", text "s3"); ("URL", text url); ("Type", text ""); ("Notes", text "")].

(** The status of an instance with one endpoint. *)
Definition sample_heap : heap :=
  [ [VStruct (endpoint "http://a")];
    [VStruct [("ObservedGeneration", VBase (BInt 1)); ("Conditions", VNil); ("HelmReleaseRef", VNil);
              ("LastAppliedChart", VNil); ("LastReconcileTime", VNil); ("Endpoints", VSlice 0 0 1)]] ].

Definition ntext (s : string) : tree := NBase (BString s).
Definition sample_status : tree :=
  NPtr (NStruct [("ObservedGeneration", NBase (BInt 1)); ("Conditions", NNil); ("HelmReleaseRef", NNil);
    ("LastAppliedChart", NNil); ("LastReconcileTime", NNil);
    ("Endpoints", NSlice [NStruct [("Name", ntext "s3"); ("URL", ntext "http://a");
                                   ("Type", ntext ""); ("Notes", ntext "")]])]).

Lemma sample_status_rep : @rep sample_types 0 sample_heap (TPtr ApplicationInstanceStatus_t) (VPtr 1) sample_status.
Proof.
  right. eexists 1, _, _. split_and!; [done|done|lia|done|].
  eexists _, _. split_and!; [done..|]. repeat (split; [done|split; [done|split; [first [by left|by eexists]|]]]).
  split; [done|]. split; [done|]. split; [|done]. right. eexists 0, 0, 1, _, _.
  split_and!; [done|done|lia|done|simpl; lia|]. constructor; [|constructor].
  eexists _, _. split_and!; [done..|]. repeat (split; [done|split; [done|split; [by eexists|]]]). done.
Qed.

Lemma deep_copy_shares_nothing_witness :
  ∃ p' h', @ApplicationInstanceStatus_DeepCopy sample_copies (VPtr 1) sample_heap = Some (p', h') ∧
    (∀ h'', agree 2 h' h'' → @rep sample_types 2 h'' (TPtr ApplicationInstanceStatus_t) p' sample_status) ∧
    (∀ h'', sample_heap `prefix_of` h'' →
       @rep sample_types 0 h'' (TPtr ApplicationInstanceStatus_t) (VPtr 1) sample_status) ∧
    sample_heap `prefix_of` h'.
Proof.
  apply (@deep_copy_shares_nothing sample_types sample_laws sample_copies sample_copy_laws)
    with (h := sample_heap); [|apply sample_status_rep].
  unfold api_types. rewrite !elem_of_cons. do 29 right. left. reflexivity.
Defined.

(** A copy by assignment alone shares the array of the endpoints: a change through
    the original is seen through the copy. *)
Example assignment_shares :
  match (p ← new assign (VPtr 1); _ ← store 0 0 (VStruct (endpoint "http://b"));
         s ← deref p; e ← getField "Endpoints" s; mret e) sample_heap with
  | Some (VSlice l off _, h) => h !! l ≫= (.!! off) = Some (VStruct (endpoint "http://b"))
  | _ => False
  end.
Proof. reflexivity. Qed.
