(* ===== verification/GoStrings.v ===== *)
(** * The parts of Go's [strings] and [fmt] packages the operator uses

    Go strings are byte strings, as [string] is here.  [TrimSpace] removes
    Unicode white space, so the UTF-8 encodings of the non-ASCII spaces are
    listed with the ASCII ones.  [ToLower] is used only to compare with ASCII
    literals: it maps ASCII letters and the two non-ASCII letters whose lower
    case is ASCII (U+0130 and U+212A) and leaves other bytes, whose lower case
    is never ASCII, unchanged. *)

From stdpp Require Import base list strings pretty gmap.
From S2P Require Import Prelude.

(** ** Slicing *)

Fixpoint str_drop (n : nat) (s : string) : string :=
  match n, s with
  | S n, String _ s => str_drop n s
  | _, _ => s
  end.

Definition byte (n : nat) : Ascii.ascii := Ascii.ascii_of_nat n.
Definition bytes (l : list nat) : string := String.string_of_list_ascii (byte <$> l).
Definition dquote : string := String (byte 34) EmptyString.

Definition HasPrefix (s p : string) : bool := String.prefix p s.
Definition HasSuffix (s p : string) : bool := String.prefix (String.rev p) (String.rev s).
Definition TrimPrefix (s p : string) : string :=
  if HasPrefix s p then str_drop (String.length p) s else s.

Fixpoint Contains (s sub : string) : bool :=
  HasPrefix s sub ||
  match s with EmptyString => false | String _ s' => Contains s' sub end.

(** [strings.Split] with a separator of one byte. *)
Fixpoint Split (s : string) (sep : Ascii.ascii) : list string :=
  match s with
  | EmptyString => [EmptyString]
  | String c s' =>
      if bool_decide (c = sep) then EmptyString :: Split s' sep
      else match Split s' sep with
           | [] => [String c EmptyString]
           | w :: ws => String c w :: ws
           end
  end.

(** ** White space *)

(** Strings as lists of bytes. *)
Definition chars (s : string) : list Ascii.ascii := String.list_ascii_of_string s.
Definition str (l : list Ascii.ascii) : string := String.string_of_list_ascii l.

Definition space_runes : list (list Ascii.ascii) :=
  (fmap (M:=list) byte) <$>
    [[9]; [10]; [11]; [12]; [13]; [32]; [194; 133]; [194; 160]; [225; 154; 128];
     [226; 128; 128]; [226; 128; 129]; [226; 128; 130]; [226; 128; 131];
     [226; 128; 132]; [226; 128; 133]; [226; 128; 134]; [226; 128; 135];
     [226; 128; 136]; [226; 128; 137]; [226; 128; 138]; [226; 128; 168];
     [226; 128; 169]; [226; 128; 175]; [226; 129; 159]; [227; 128; 128]].

Section Trim.
Context {A : Type} `{EqDecision A}.
Implicit Types (p l : list A) (ps : list (list A)).

Fixpoint strip_prefix p l : option (list A) :=
  match p, l with
  | [], _ => Some l
  | x :: p, y :: l => if decide (x = y) then strip_prefix p l else None
  | _ :: _, [] => None
  end.

Fixpoint strip_any ps l : option (list A) :=
  match ps with
  | [] => None
  | p :: ps => match strip_prefix p l with
               | Some l' => Some l'
               | None => strip_any ps l
               end
  end.

(** Remove leading patterns; [n] bounds the number of removals. *)
Fixpoint trim_with ps (n : nat) l : list A :=
  match n with
  | O => l
  | S n => match strip_any ps l with
           | Some l' => trim_with ps n l'
           | None => l
           end
  end.

(** Every removal shortens the string, so its length is enough fuel. *)
Definition trim_patterns ps l : list A := trim_with ps (length l) l.

Definition trim_both ps l : list A :=
  reverse (trim_patterns (reverse <$> ps) (reverse (trim_patterns ps l))).

Lemma strip_prefix_spec p l l' : strip_prefix p l = Some l' ↔ l = p ++ l'.
Proof.
  revert l. induction p as [|x p IH]; intros [|y l]; simpl; try naive_solver.
  case_decide; [subst; rewrite IH|]; naive_solver.
Qed.

Lemma strip_any_Some ps l l' :
  strip_any ps l = Some l' → ∃ p, p ∈ ps ∧ l = p ++ l'.
Proof.
  induction ps as [|p ps IH]; simpl; [done|].
  destruct (strip_prefix p l) eqn:Hp; intros ?; simplify_eq.
  - apply strip_prefix_spec in Hp. exists p. set_solver.
  - destruct IH as (q & ? & ?); [done|]. exists q. set_solver.
Qed.

Lemma strip_any_None ps l :
  strip_any ps l = None ↔ ∀ p l', p ∈ ps → l ≠ p ++ l'.
Proof.
  induction ps as [|p ps IH]; simpl; [set_solver|].
  destruct (strip_prefix p l) eqn:Hp.
  - apply strip_prefix_spec in Hp. split; [done|]. intros H.
    by destruct (H p l0); [left|].
  - rewrite IH. split; intros H q l' Hq; [|apply H; by right].
    apply list_elem_of_In in Hq. destruct Hq as [<-|Hq%list_elem_of_In]; [|by apply H].
    intros Hl. apply strip_prefix_spec in Hl. congruence.
Qed.

(** A shorter string with the same start is not strippable either. *)
Lemma strip_any_None_app ps l k : strip_any ps (l ++ k) = None → strip_any ps l = None.
Proof.
  rewrite !strip_any_None. intros H p l' Hp ->. apply (H p (l' ++ k) Hp).
  by rewrite app_assoc.
Qed.

Lemma trim_with_suffix ps n l : ∃ k, l = k ++ trim_with ps n l.
Proof.
  revert l. induction n as [|n IH]; intros l; simpl; [by exists []|].
  destruct (strip_any ps l) as [l'|] eqn:Hs; [|by exists []].
  apply strip_any_Some in Hs as (p & _ & ->).
  destruct (IH l') as [k Hk]. exists (p ++ k). by rewrite <-app_assoc, <-Hk.
Qed.

Lemma trim_with_done ps n l :
  (∀ p, p ∈ ps → p ≠ []) → length l ≤ n → strip_any ps (trim_with ps n l) = None.
Proof.
  intros Hps. revert l. induction n as [|n IH]; intros l Hl; simpl.
  - destruct l; [|simpl in Hl; lia]. apply strip_any_None.
    intros p l' Hp ?%symmetry%app_nil. destruct (Hps p Hp); naive_solver.
  - destruct (strip_any ps l) as [l'|] eqn:Hs; [|done].
    apply strip_any_Some in Hs as (p & Hp & ->). apply IH.
    rewrite length_app in Hl. destruct p; [by destruct (Hps [])|simpl in Hl; lia].
Qed.

Lemma trim_with_id ps n l : strip_any ps l = None → trim_with ps n l = l.
Proof. intros H. destruct n; simpl; [done|]. by rewrite H. Qed.

Lemma trim_both_spec ps l :
  (∀ p, p ∈ ps → p ≠ []) →
  strip_any ps (trim_both ps l) = None ∧
  strip_any (reverse <$> ps) (reverse (trim_both ps l)) = None.
Proof.
  intros Hps. unfold trim_both. rewrite reverse_involutive. split.
  - pose proof (trim_with_done ps (length l) l Hps ltac:(done)) as HL.
    fold (trim_patterns ps l) in HL. set (L := trim_patterns ps l) in *.
    destruct (trim_with_suffix (reverse <$> ps) (length (reverse L)) (reverse L)) as [k Hk].
    apply (f_equal reverse) in Hk. rewrite reverse_involutive, reverse_app in Hk.
    rewrite Hk in HL. by apply strip_any_None_app in HL.
  - apply trim_with_done; [|done]. intros p (q & -> & Hq)%list_elem_of_fmap.
    intros Hq0. apply (Hps q Hq). by rewrite <-(reverse_involutive q), Hq0.
Qed.

Lemma trim_both_idemp ps l :
  (∀ p, p ∈ ps → p ≠ []) → trim_both ps (trim_both ps l) = trim_both ps l.
Proof.
  intros Hps. destruct (trim_both_spec ps l Hps) as [H1 H2].
  set (t := trim_both ps l) in *. unfold trim_both, trim_patterns.
  rewrite (trim_with_id ps) by done. rewrite trim_with_id by done.
  apply reverse_involutive.
Qed.
End Trim.

Definition TrimSpace (s : string) : string := str (trim_both space_runes (chars s)).

(** [strings.TrimRight(s, cutset)] with a cutset of one byte. *)
Definition TrimRight (s : string) (c : Ascii.ascii) : string :=
  str (reverse (trim_patterns [[c]] (reverse (chars s)))).

Lemma str_chars s : str (chars s) = s.
Proof. apply String.string_of_list_ascii_of_string. Qed.

Lemma chars_str l : chars (str l) = l.
Proof. apply String.list_ascii_of_string_of_list_ascii. Qed.

Lemma TrimSpace_idemp s : TrimSpace (TrimSpace s) = TrimSpace s.
Proof.
  unfold TrimSpace. rewrite chars_str. f_equal. apply trim_both_idemp.
  intros p Hp ->. revert Hp. apply (bool_decide_unpack _). by vm_compute.
Qed.

(** A byte that neither starts nor ends the encoding of a space. *)
Definition solid (c : Ascii.ascii) : bool :=
  forallb (λ p, bool_decide (head p ≠ Some c) && bool_decide (last p ≠ Some c)) space_runes.

Lemma strip_any_None_head {A} `{EqDecision A} (ps : list (list A)) c l :
  (∀ p, p ∈ ps → p ≠ [] ∧ head p ≠ Some c) → strip_any ps (c :: l) = None.
Proof.
  intros H. apply strip_any_None. intros p l' Hp Hl. destruct (H p Hp) as [H1 H2].
  destruct p as [|a p]; [done|]. simplify_eq/=.
Qed.

Lemma trim_both_id {A} `{EqDecision A} (ps : list (list A)) l :
  strip_any ps l = None → strip_any (reverse <$> ps) (reverse l) = None → trim_both ps l = l.
Proof.
  intros H1 H2. unfold trim_both, trim_patterns.
  rewrite (trim_with_id ps), trim_with_id by done. apply reverse_involutive.
Qed.

(** A string that starts and ends with a solid byte is not changed. *)
Lemma TrimSpace_id a s b t :
  solid a = true → solid b = true → String a s = t +:+ String b "" →
  TrimSpace (String a s) = String a s.
Proof.
  intros Ha Hb Hs. unfold solid in *. rewrite forallb_forall in Ha, Hb.
  assert (Hne : ∀ p, p ∈ space_runes → p ≠ []).
  { intros p Hp ->. revert Hp. apply (bool_decide_unpack _). by vm_compute. }
  unfold TrimSpace. rewrite trim_both_id; [apply str_chars|..].
  - apply strip_any_None_head. intros p Hp. split; [by apply Hne|].
    apply list_elem_of_In, Ha, andb_prop in Hp as [Hp _]. by apply bool_decide_eq_true in Hp.
  - rewrite Hs. assert (chars (t +:+ String b "") = chars t ++ [b]) as ->.
    { clear. induction t as [|x t IH]; [done|].
      change (x :: chars (t +:+ String b "") = x :: chars t ++ [b]). by rewrite IH. }
    rewrite reverse_app. apply strip_any_None_head.
    intros p (q & -> & Hq)%list_elem_of_fmap. split.
    + intros H%(f_equal reverse). rewrite reverse_involutive in H. by apply (Hne q).
    + rewrite head_reverse. apply list_elem_of_In, Hb, andb_prop in Hq as [_ Hq].
      by apply bool_decide_eq_true in Hq.
Qed.

(** ** Letter case *)

Definition lower_byte (c : Ascii.ascii) : Ascii.ascii :=
  let n := Ascii.nat_of_ascii c in
  if (65 <=? n) && (n <=? 90) then byte (n + 32) else c.

Fixpoint ToLower (s : string) : string :=
  match s with
  | EmptyString => EmptyString
  | String a s1 =>
      match s1 with
      | String b s2 =>
          if bool_decide (String a (String b EmptyString) = bytes [196; 176])
          then String (byte 105) (ToLower s2)
          else match s2 with
               | String c s3 =>
                   if bool_decide (String a (String b (String c EmptyString))
                                   = bytes [226; 132; 170])
                   then String (byte 107) (ToLower s3)
                   else String (lower_byte a) (ToLower s1)
               | EmptyString => String (lower_byte a) (ToLower s1)
               end
      | EmptyString => String (lower_byte a) EmptyString
      end
  end.

(** ** [fmt] verbs *)

(** [%d] *)
Definition itoa (z : Z) : string := pretty z.

Definition hex_digit (n : nat) : Ascii.ascii :=
  byte (if n <? 10 then 48 + n else 87 + n).

(** One byte of a [%q] string.  Bytes above 127 are printed as they are. *)
Definition quote_byte (c : Ascii.ascii) : string :=
  let n := Ascii.nat_of_ascii c in
  let esc k := bytes [92; k] in
  if n =? 34 then esc 34 else if n =? 92 then esc 92
  else if n =? 7 then esc 97 else if n =? 8 then esc 98
  else if n =? 12 then esc 102 else if n =? 10 then esc 110
  else if n =? 13 then esc 114 else if n =? 9 then esc 116
  else if n =? 11 then esc 118
  else if (n <? 32) || (n =? 127)
  then bytes [92; 120] +:+ String (hex_digit (n / 16)) (String (hex_digit (n mod 16)) EmptyString)
  else String c EmptyString.

Fixpoint quote_body (s : string) : string :=
  match s with
  | EmptyString => EmptyString
  | String c s => quote_byte c +:+ quote_body s
  end.

(** [%q] *)
Definition quote (s : string) : string := dquote +:+ quote_body s +:+ dquote.

Example TrimSpace_ex : TrimSpace (bytes [32; 9; 194; 160; 97; 32; 98; 227; 128; 128; 10]) = "a b".
Proof. reflexivity. Qed.
Example Split_ex : Split "a/b//c" (byte 47) = ["a"; "b"; ""; "c"].
Proof. reflexivity. Qed.

(** ** Splitting what was joined *)

Definition no_byte (c : Ascii.ascii) (s : string) : bool :=
  bool_decide (c ∉ chars s).

Lemma no_byte_cons c a s : no_byte c (String a s) = true ↔ a ≠ c ∧ no_byte c s = true.
Proof.
  unfold no_byte. rewrite !bool_decide_eq_true. unfold chars; simpl.
  rewrite not_elem_of_cons. naive_solver.
Qed.

Lemma Split_nonempty s c : Split s c ≠ [].
Proof. destruct s; simpl; [done|]. case_bool_decide; [done|]. by destruct (Split s c). Qed.

Lemma Split_join a c s :
  no_byte c a = true → Split (a +:+ String c s) c = a :: Split s c.
Proof.
  induction a as [|x a IH]; intros Ha.
  - change ("" +:+ String c s) with (String c s). simpl. by rewrite bool_decide_eq_true_2.
  - apply no_byte_cons in Ha as [Hx Ha].
    change (String x a +:+ String c s) with (String x (a +:+ String c s)). cbn [Split].
    rewrite bool_decide_eq_false_2, IH by done. done.
Qed.

Lemma Split_none s c : no_byte c s = true → Split s c = [s].
Proof.
  induction s as [|x s IH]; intros Hs; [done|].
  apply no_byte_cons in Hs as [Hx Hs]. cbn [Split].
  by rewrite bool_decide_eq_false_2, IH.
Qed.

(** What follows the last separator is the last part. *)
Lemma Split_last a c s : no_byte c s = true → last (Split (a +:+ String c s) c) = Some s.
Proof.
  intros Hs. induction a as [|x a IH].
  - change ("" +:+ String c s) with (String c s). cbn [Split].
    rewrite bool_decide_eq_true_2, Split_none by done. done.
  - change (String x a +:+ String c s) with (String x (a +:+ String c s)). cbn [Split].
    pose proof (Split_nonempty (a +:+ String c s) c) as Hne.
    case_bool_decide; destruct (Split (a +:+ String c s) c) as [|w ws] eqn:Hw; try done.
    destruct ws as [|w' ws]; [|done]. exfalso. clear -Hw. revert w Hw.
    induction a as [|y a IH]; intros w.
    + change ("" +:+ String c s) with (String c s). cbn [Split].
      rewrite bool_decide_eq_true_2 by done. pose proof (Split_nonempty s c). by destruct (Split s c).
    + change (String y a +:+ String c s) with (String y (a +:+ String c s)). cbn [Split].
      pose proof (Split_nonempty (a +:+ String c s) c).
      case_bool_decide; destruct (Split (a +:+ String c s) c) as [|v vs]; try done.
      intros [= _ ->]. by eapply IH.
Qed.

Lemma HasPrefix_app p s : HasPrefix (p +:+ s) p = true.
Proof.
  unfold HasPrefix. induction p as [|a p IH]; [by destruct s|].
  change (String a p +:+ s) with (String a (p +:+ s)). simpl.
  destruct (Ascii.ascii_dec a a); done.
Qed.

Lemma app_String_cons a s t : String a s +:+ t = String a (s +:+ t).
Proof. done. Qed.

Lemma no_byte_app c s t : no_byte c (s +:+ t) = no_byte c s && no_byte c t.
Proof.
  induction s as [|a s IH]; [done|]. rewrite app_String_cons. apply eq_bool_prop_intro.
  rewrite !Is_true_true, andb_true_iff, !no_byte_cons, IH, andb_true_iff. tauto.
Qed.

Lemma app_String_nil t : "" +:+ t = t.
Proof. done. Qed.
Lemma app_String_assoc s t u : (s +:+ t) +:+ u = s +:+ t +:+ u.
Proof. induction s as [|a s IH]; [done|]. rewrite !app_String_cons. by rewrite IH. Qed.
Lemma app_String_empty s : s +:+ "" = s.
Proof. induction s as [|a s IH]; [done|]. by rewrite app_String_cons, IH. Qed.

Lemma rev_app_spec s t : String.rev_app s t = String.rev s +:+ t.
Proof.
  unfold String.rev. revert t. induction s as [|a s IH]; intros t; [done|]. simpl.
  rewrite IH, (IH (String a "")). by rewrite app_String_assoc.
Qed.

Lemma rev_append s t : String.rev (s +:+ t) = String.rev t +:+ String.rev s.
Proof.
  induction s as [|a s IH].
  - change ("" +:+ t) with t. change (String.rev "") with "". by rewrite app_String_empty.
  - rewrite app_String_cons. change (String.rev (String a (s +:+ t))) with (String.rev_app (s +:+ t) (String a "")).
    change (String.rev (String a s)) with (String.rev_app s (String a "")).
    by rewrite !rev_app_spec, IH, app_String_assoc.
Qed.

Lemma HasSuffix_app s p : HasSuffix (s +:+ p) p = true.
Proof. unfold HasSuffix. rewrite rev_append. apply HasPrefix_app. Qed.

Lemma HasPrefix_true s p : HasPrefix s p = true ↔ ∃ r, s = p +:+ r.
Proof.
  split; [|intros [r ->]; apply HasPrefix_app]. unfold HasPrefix. revert s.
  induction p as [|a p IH]; intros s; [by exists s|]. destruct s as [|b s]; [done|]. simpl.
  destruct (Ascii.ascii_dec a b) as [->|]; [|done]. intros [r ->]%IH. by exists r.
Qed.

Lemma string_rev_involutive s : String.rev (String.rev s) = s.
Proof.
  induction s as [|a s IH]; [done|]. unfold String.rev at 2. cbn [String.rev_app].
  by rewrite rev_app_spec, rev_append, IH.
Qed.

Lemma HasSuffix_true s p : HasSuffix s p = true ↔ ∃ r, s = r +:+ p.
Proof.
  change (HasPrefix (String.rev s) (String.rev p) = true ↔ ∃ r, s = r +:+ p).
  rewrite HasPrefix_true. split.
  - intros [r Hr]. exists (String.rev r). rewrite <-(string_rev_involutive s), Hr.
    by rewrite rev_append, string_rev_involutive.
  - intros [r ->]. exists (String.rev r). apply rev_append.
Qed.

Lemma Contains_true s sub : Contains s sub = true ↔ ∃ a b, s = a +:+ sub +:+ b.
Proof.
  induction s as [|c s IH]; cbn [Contains]; rewrite orb_true_iff, HasPrefix_true.
  - split; [intros [[r Hr]|]; [by exists "", r|done]|]. intros (a & b & Hab). left.
    destruct a; [by exists b|done].
  - rewrite IH. split.
    + intros [[r Hr]|(a & b & ->)]; [by exists "", r|by exists (String c a), b].
    + intros ([|x a] & b & Hab); [left; by exists b|right]. injection Hab as _ ->. by exists a, b.
Qed.

