(* ===== verification/Api.v ===== *)
(** * The custom resources: api/ops/v1alpha1 and api/apps/v1alpha1

    The Go structs as records, field by field; JSON tags and kubebuilder
    markers have no counterpart.  A pointer is an [option], a Go map a [gmap]
    (reading a nil map and reading an empty one agree), a string type such as
    [OperationType] a [string] with its constants, a [metav1.Time] its instant
    as a [Z], a [runtime.RawExtension] its raw bytes. *)

From stdpp Require Import base list strings gmap.
From S2P Require Import Prelude.

(** ** k8s.io/apimachinery metadata *)

Record ObjectMeta := {
  Name : string;
  Namespace : string;
  UID : string;
  Generation : Z;
  Labels : gmap string string;
  Annotations : gmap string string;
  Finalizers : list string;
  OwnerReferences : list string; (** UIDs *)
  DeletionTimestamp : option Z
}.

Definition ConditionTrue : string := "True".
Definition ConditionFalse : string := "False".
Definition ConditionUnknown : string := "Unknown".

Record Condition := {
  c_Type : string;
  c_Status : string;
  c_Reason : string;
  c_Message : string;
  c_LastTransitionTime : Z
}.

(** ** Operation *)

Definition OperationFinalizer : string := "ops.vworkspace.io/finalizer".

Definition OperationTypeBackup : string := "Backup".
Definition OperationTypeRestore : string := "Restore".
Definition OperationTypeUpgrade : string := "Upgrade".
Definition OperationTypeMigration : string := "Migration".
Definition OperationTypeRunCommand : string := "RunCommand".
Definition OperationTypeRunbook : string := "Runbook".

Definition EngineVelero : string := "velero".
Definition EngineWorkflow : string := "workflow".
Definition EngineJob : string := "job".
Definition EngineHelm : string := "helm".
Definition EngineVolsync : string := "volsync".
Definition EngineHelmHookJob : string := "helmHookJob".

Definition PhasePending : string := "Pending".
Definition PhaseRunning : string := "Running".
Definition PhaseSucceeded : string := "Succeeded".
Definition PhaseFailed : string := "Failed".
Definition PhaseCancelled : string := "Cancelled".

Definition ConditionAccepted : string := "Accepted".
Definition ConditionRunning : string := "Running".
Definition ConditionSucceeded : string := "Succeeded".
Definition ConditionFailed : string := "Failed".
Definition ConditionCancelled : string := "Cancelled".
Definition ConditionBlocked : string := "Blocked".

Record TargetRef := { tr_APIVersion : string; tr_Kind : string; tr_Name : string }.

Record ApprovalsSpec := {
  ap_Required : bool;
  ap_Claim : string;
  ap_ApprovedBy : string;
  ap_ApprovedAt : string
}.

Record OperationSpec := {
  os_TargetRef : TargetRef;
  os_Type : string;
  os_Engine : string;
  os_Parameters : option string;
  os_Approvals : option ApprovalsSpec
}.

Record LogsRef := { lr_Kind : string; lr_Name : string; lr_Namespace : string; lr_URL : string }.

Record EngineResourceRef := { er_Kind : string; er_Name : string; er_Namespace : string }.

Record OperationStatus := {
  st_Phase : string;
  st_StartedAt : option Z;
  st_FinishedAt : option Z;
  st_EngineRef : option EngineResourceRef;
  st_Conditions : list Condition;
  st_Outputs : gmap string string; (** what [Outputs.Raw] encodes *)
  st_LogsRef : option LogsRef
}.

Record Operation := {
  op_Meta : ObjectMeta;
  op_Spec : OperationSpec;
  op_Status : OperationStatus
}.

Definition op_Name (o : Operation) : string := Name (op_Meta o).
Definition op_Namespace (o : Operation) : string := Namespace (op_Meta o).
Definition op_UID (o : Operation) : string := UID (op_Meta o).
Definition op_Type (o : Operation) : string := os_Type (op_Spec o).
Definition op_Engine (o : Operation) : string := os_Engine (op_Spec o).
Definition op_Phase (o : Operation) : string := st_Phase (op_Status o).
Definition op_Conditions (o : Operation) : list Condition := st_Conditions (op_Status o).
Definition op_Target (o : Operation) : string := tr_Name (os_TargetRef (op_Spec o)).

(** *** Field assignments *)

Definition with_status (o : Operation) (s : OperationStatus) : Operation :=
  {| op_Meta := op_Meta o; op_Spec := op_Spec o; op_Status := s |}.
Definition set_Phase (o : Operation) (p : string) : Operation :=
  let s := op_Status o in
  with_status o {| st_Phase := p; st_StartedAt := st_StartedAt s;
    st_FinishedAt := st_FinishedAt s; st_EngineRef := st_EngineRef s;
    st_Conditions := st_Conditions s; st_Outputs := st_Outputs s; st_LogsRef := st_LogsRef s |}.
Definition set_StartedAt (o : Operation) (t : option Z) : Operation :=
  let s := op_Status o in
  with_status o {| st_Phase := st_Phase s; st_StartedAt := t;
    st_FinishedAt := st_FinishedAt s; st_EngineRef := st_EngineRef s;
    st_Conditions := st_Conditions s; st_Outputs := st_Outputs s; st_LogsRef := st_LogsRef s |}.
Definition set_FinishedAt (o : Operation) (t : option Z) : Operation :=
  let s := op_Status o in
  with_status o {| st_Phase := st_Phase s; st_StartedAt := st_StartedAt s;
    st_FinishedAt := t; st_EngineRef := st_EngineRef s;
    st_Conditions := st_Conditions s; st_Outputs := st_Outputs s; st_LogsRef := st_LogsRef s |}.
Definition set_EngineRef (o : Operation) (r : option EngineResourceRef) : Operation :=
  let s := op_Status o in
  with_status o {| st_Phase := st_Phase s; st_StartedAt := st_StartedAt s;
    st_FinishedAt := st_FinishedAt s; st_EngineRef := r;
    st_Conditions := st_Conditions s; st_Outputs := st_Outputs s; st_LogsRef := st_LogsRef s |}.
Definition set_Conditions (o : Operation) (cs : list Condition) : Operation :=
  let s := op_Status o in
  with_status o {| st_Phase := st_Phase s; st_StartedAt := st_StartedAt s;
    st_FinishedAt := st_FinishedAt s; st_EngineRef := st_EngineRef s;
    st_Conditions := cs; st_Outputs := st_Outputs s; st_LogsRef := st_LogsRef s |}.
Definition set_Outputs (o : Operation) (m : gmap string string) : Operation :=
  let s := op_Status o in
  with_status o {| st_Phase := st_Phase s; st_StartedAt := st_StartedAt s;
    st_FinishedAt := st_FinishedAt s; st_EngineRef := st_EngineRef s;
    st_Conditions := st_Conditions s; st_Outputs := m; st_LogsRef := st_LogsRef s |}.

(** ** Cluster *)

Definition ConditionConnected : string := "Connected".
Definition ConditionDisconnected : string := "Disconnected".
Definition ConditionAuthenticated : string := "Authenticated".
Definition ConditionControllersHealthy : string := "ControllersHealthy".
Definition ConditionBufferOverflow : string := "BufferOverflow".

Definition ClusterFinalizer : string := "ops.vworkspace.io/cluster-cleanup".
Definition DefaultRegistrationTokenKey : string := "registrationToken".
Definition ClusterReRegisterAnnotation : string := "ops.vworkspace.io/reregister".

Definition ClusterPhasePending : string := "Pending".
Definition ClusterPhaseRegistering : string := "Registering".
Definition ClusterPhaseConnected : string := "Connected".
Definition ClusterPhaseDisconnected : string := "Disconnected".
Definition ClusterPhaseError : string := "Error".
Definition ClusterPhaseTerminating : string := "Terminating".

Record SecretKeyRef := { skr_Name : string; skr_Key : string }.
Record SecretReference := { sr_Name : string; sr_Namespace : string }.
Record ClusterCapabilities := { cap_Flux : option bool; cap_Velero : option bool }.

Record ClusterSpec := {
  cs_ClusterID : string;
  cs_ControlPlaneEndpoint : string;
  cs_ControlPlaneBaseURL : string;
  cs_RegistrationTokenSecretRef : option SecretKeyRef;
  cs_RegistrationToken : string;
  cs_Capabilities : option ClusterCapabilities;
  cs_RotateCredentials : bool
}.

Record ClusterCredentialStatus := {
  cc_SecretName : string;
  cc_SecretNamespace : string;
  cc_RegisteredAt : option Z;
  cc_RegistrationTokenConsumed : bool
}.

Record ClusterStatus := {
  cst_Phase : string;
  cst_Conditions : list Condition;
  cst_LastHeartbeat : option Z;
  cst_CredentialStatus : option ClusterCredentialStatus;
  cst_CredentialsSecretRef : option SecretReference;
  cst_ObservedToken : string
}.

Record Cluster := {
  cl_Meta : ObjectMeta;
  cl_Spec : ClusterSpec;
  cl_Status : ClusterStatus
}.

(** ** ApplicationInstance *)

Definition ApplicationInstanceFinalizer : string := "apps.vworkspace.io/finalizer".

Definition InstanceModeManaged : string := "managed".
Definition InstanceModePlaceholder : string := "placeholder".
Definition ChartSourceOCI : string := "oci".
Definition ChartSourceHelm : string := "helm".
Definition ValuesSourceInline : string := "inline".
Definition ValuesSourceSecretRef : string := "secretRef".
Definition ValuesSourceConfigMapRef : string := "configMapRef".

Definition ConditionReady : string := "Ready".
Definition ConditionReconciling : string := "Reconciling".
Definition ConditionDegraded : string := "Degraded".
Definition ConditionSuspended : string := "Suspended".
Definition ConditionDeleting : string := "Deleting".

Record ChartSpec := { ch_SourceType : string; ch_URL : string; ch_Name : string; ch_Version : string }.
Record ReleaseSpec := { rel_Name : string; rel_Namespace : string }.
Record ObjectKeyRef := { ok_Name : string; ok_Key : string }.
Record ValuesSpec := {
  vs_Source : string;
  vs_Inline : option string;
  vs_SecretRef : option ObjectKeyRef;
  vs_ConfigMapRef : option ObjectKeyRef
}.

Record IngressIntegration := { ing_Enabled : bool; ing_Host : string }.
Record IntegrationsSpec := {
  int_ExternalSecrets : option bool; (** [ExternalSecretsIntegration.Enabled] *)
  int_CertManager : option bool;     (** [CertManagerIntegration.Enabled] *)
  int_Ingress : option IngressIntegration
}.

Record ApplicationInstanceSpec := {
  as_CatalogID : string; (** AppRef.CatalogID *)
  as_Mode : string;
  as_Chart : option ChartSpec;
  as_Release : option ReleaseSpec;
  as_Values : option ValuesSpec;
  as_Integrations : option IntegrationsSpec
}.

Definition IsPlaceholder (s : ApplicationInstanceSpec) : bool :=
  bool_decide (as_Mode s = InstanceModePlaceholder).

Record HelmReleaseRef := { hr_Name : string; hr_Namespace : string }.
Record ChartSnapshot := {
  sn_SourceType : string; sn_URL : string; sn_Name : string; sn_Version : string }.
Record EndpointStatus := { ep_Name : string; ep_URL : string; ep_Type : string; ep_Notes : string }.

Record ApplicationInstanceStatus := {
  ast_ObservedGeneration : Z;
  ast_Conditions : list Condition;
  ast_HelmReleaseRef : option HelmReleaseRef;
  ast_LastAppliedChart : option ChartSnapshot;
  ast_LastReconcileTime : option Z;
  ast_Endpoints : list EndpointStatus
}.

Record ApplicationInstance := {
  ai_Meta : ObjectMeta;
  ai_Spec : ApplicationInstanceSpec;
  ai_Status : ApplicationInstanceStatus
}.

Definition ai_Name (a : ApplicationInstance) : string := Name (ai_Meta a).
Definition ai_Namespace (a : ApplicationInstance) : string := Namespace (ai_Meta a).

Definition appsGroupVersion : string := "apps.vworkspace.io/v1alpha1".
Definition opsGroupVersion : string := "ops.vworkspace.io/v1alpha1".

(** ** internal/labels *)

Definition ManagedByKey : string := "app.vworkspace.io/managed-by".
Definition ClusterIDKey : string := "app.vworkspace.io/cluster-id".
Definition ApplicationInstanceKey : string := "app.vworkspace.io/application-instance".
Definition NamespaceGateKey : string := "managed-by".
Definition NamespaceGateValue : string := "vworkspace".
Definition ManagedByControlPlane : string := "control-plane".
Definition ManagedByOperator : string := "vworkspace-operator".

Definition with_finalizers (m : ObjectMeta) (fs : list string) : ObjectMeta :=
  {| Name := Name m; Namespace := Namespace m; UID := UID m; Generation := Generation m;
     Labels := Labels m; Annotations := Annotations m; Finalizers := fs;
     OwnerReferences := OwnerReferences m; DeletionTimestamp := DeletionTimestamp m |}.
Definition with_labels (m : ObjectMeta) (ls : gmap string string) : ObjectMeta :=
  {| Name := Name m; Namespace := Namespace m; UID := UID m; Generation := Generation m;
     Labels := ls; Annotations := Annotations m; Finalizers := Finalizers m;
     OwnerReferences := OwnerReferences m; DeletionTimestamp := DeletionTimestamp m |}.
Definition with_annotations (m : ObjectMeta) (l : gmap string string) : ObjectMeta :=
  {| Name := Name m; Namespace := Namespace m; UID := UID m; Generation := Generation m;
     Labels := Labels m; Annotations := l; Finalizers := Finalizers m;
     OwnerReferences := OwnerReferences m; DeletionTimestamp := DeletionTimestamp m |}.
Definition with_owners (m : ObjectMeta) (us : list string) : ObjectMeta :=
  {| Name := Name m; Namespace := Namespace m; UID := UID m; Generation := Generation m;
     Labels := Labels m; Annotations := Annotations m; Finalizers := Finalizers m;
     OwnerReferences := us; DeletionTimestamp := DeletionTimestamp m |}.
(** [metav1.ObjectMeta{Namespace: ns, Name: name}] *)
Definition meta_of (ns name : string) : ObjectMeta :=
  {| Name := name; Namespace := ns; UID := ""; Generation := 0; Labels := ∅;
     Annotations := ∅; Finalizers := []; OwnerReferences := []; DeletionTimestamp := None |}.

Definition with_op_meta (o : Operation) (m : ObjectMeta) : Operation :=
  {| op_Meta := m; op_Spec := op_Spec o; op_Status := op_Status o |}.

#[export] Instance ObjectMeta_eq_dec : EqDecision ObjectMeta.
Proof. solve_decision. Defined.
#[export] Instance Condition_eq_dec : EqDecision Condition.
Proof. solve_decision. Defined.
#[export] Instance TargetRef_eq_dec : EqDecision TargetRef.
Proof. solve_decision. Defined.
#[export] Instance ApprovalsSpec_eq_dec : EqDecision ApprovalsSpec.
Proof. solve_decision. Defined.
#[export] Instance OperationSpec_eq_dec : EqDecision OperationSpec.
Proof. solve_decision. Defined.
