(* ===== verification/Conditions.v ===== *)
(** * internal/conditions: the condition list of a resource

    [Set_] takes the instant [now] that the code reads from the clock. *)

From stdpp Require Import base list strings gmap.
From S2P Require Import Prelude Api.

Module Conditions.

(** [conditions.Set]. *)
Fixpoint Set_ (now : Z) (existing : list Condition)
    (conditionType status reason message : string) : list Condition :=
  match existing with
  | [] => [{| c_Type := conditionType; c_Status := status; c_Reason := reason;
              c_Message := message; c_LastTransitionTime := now |}]
  | c :: cs =>
      if bool_decide (c_Type c = conditionType) then
        if bool_decide (c_Status c = status ∧ c_Reason c = reason ∧ c_Message c = message)
        then c :: cs
        else {| c_Type := c_Type c; c_Status := status; c_Reason := reason;
                c_Message := message; c_LastTransitionTime := now |} :: cs
      else c :: Set_ now cs conditionType status reason message
  end.

(** [conditions.Get]. *)
Fixpoint Get (conditions : list Condition) (conditionType : string) : option Condition :=
  match conditions with
  | [] => None
  | c :: cs => if bool_decide (c_Type c = conditionType) then Some c else Get cs conditionType
  end.

(** [conditions.IsTrue]. *)
Fixpoint IsTrue (conditions : list Condition) (conditionType : string) : bool :=
  match conditions with
  | [] => false
  | c :: cs => if bool_decide (c_Type c = conditionType)
               then bool_decide (c_Status c = ConditionTrue) else IsTrue cs conditionType
  end.

(** What a condition list says of a type: status, reason and message. *)
Definition reads (cs : list Condition) (t : string) : option (string * string * string) :=
  (λ c, (c_Status c, c_Reason c, c_Message c)) <$> Get cs t.

(** The list is a map keyed by type ([+listType=map], [+listMapKey=type]). *)
Definition keyed (cs : list Condition) : Prop := NoDup (c_Type <$> cs).

Section SetGet.
Context (now : Z).
Implicit Types (cs : list Condition) (t s r m : string).

Lemma Set_reads_same cs t s r m : reads (Set_ now cs t s r m) t = Some (s, r, m).
Proof.
  unfold reads. induction cs as [|c cs IH]; simpl.
  - by rewrite bool_decide_eq_true_2.
  - destruct (bool_decide_reflect (c_Type c = t)) as [Ht|Ht].
    + case_bool_decide as Hs; simpl; rewrite bool_decide_eq_true_2 by done; simpl; naive_solver.
    + simpl. by rewrite bool_decide_eq_false_2.
Qed.

Lemma Set_get_other cs t s r m t' :
  t' ≠ t → Get (Set_ now cs t s r m) t' = Get cs t'.
Proof.
  intros Hne. induction cs as [|c cs IH]; simpl.
  - by rewrite bool_decide_eq_false_2.
  - destruct (bool_decide_reflect (c_Type c = t)) as [Ht|Ht].
    + case_bool_decide; simpl; [done|].
      by rewrite !bool_decide_eq_false_2 by congruence.
    + simpl. by rewrite IH.
Qed.

Lemma Set_reads_other cs t s r m t' :
  t' ≠ t → reads (Set_ now cs t s r m) t' = reads cs t'.
Proof. intros. unfold reads. by rewrite Set_get_other. Qed.

Lemma Set_types cs t s r m :
  c_Type <$> Set_ now cs t s r m =
    if bool_decide (t ∈ c_Type <$> cs) then c_Type <$> cs else (c_Type <$> cs) ++ [t].
Proof.
  induction cs as [|c cs IH]; [done|].
  rewrite fmap_cons. cbn [Set_].
  destruct (bool_decide_reflect (c_Type c = t)) as [Ht|Ht].
  - rewrite (bool_decide_eq_true_2 (t ∈ _)) by (rewrite elem_of_cons; auto).
    clear IH. case_bool_decide; reflexivity.
  - rewrite fmap_cons, IH, (bool_decide_ext (t ∈ c_Type c :: _) (t ∈ c_Type <$> cs)).
    + case_bool_decide; reflexivity.
    + rewrite elem_of_cons. naive_solver.
Qed.

Lemma Set_keyed cs t s r m : keyed cs → keyed (Set_ now cs t s r m).
Proof.
  unfold keyed. rewrite Set_types. case_bool_decide; [done|].
  intros ?. apply NoDup_app. split_and!; [done|set_solver|by apply NoDup_singleton].
Qed.
End SetGet.

(** Setting a condition to what it already says changes nothing, the
    transition time included. *)
Lemma Set_noop now cs t s r m :
  reads cs t = Some (s, r, m) → Set_ now cs t s r m = cs.
Proof.
  unfold reads. induction cs as [|c cs IH]; simpl; [done|].
  destruct (bool_decide_reflect (c_Type c = t)) as [Ht|Ht]; simpl.
  - intros [= <- <- <-]. by rewrite bool_decide_eq_true_2.
  - intros ?. by rewrite IH.
Qed.

Lemma IsTrue_reads cs t :
  IsTrue cs t = match reads cs t with
                | Some (s, _, _) => bool_decide (s = ConditionTrue)
                | None => false
                end.
Proof.
  unfold reads. induction cs as [|c cs IH]; cbn; [done|].
  destruct (bool_decide_reflect (c_Type c = t)); [done|apply IH].
Qed.

End Conditions.

#[export] Hint Rewrite Conditions.Set_reads_same : operator.
#[export] Hint Resolve Conditions.Set_keyed : operator.
