(* ===== verification/Events.v ===== *)
(** * internal/agent/events.go and the wire types of internal/agent/client.go

    [EventBatcher] is the bounded outbound buffer.  Its methods run under one
    mutex; [Flush] releases it around [PostEvents], so it is two atomic steps
    with other calls in between: [flushTake] extracts a batch, and either
    [flushDelivered] or [requeue] ends it.  [bstep] is the interleaving. *)

From stdpp Require Import base list strings gmap.
From S2P Require Import Prelude Api.
From Stdlib Require Import Lia.

(** ** Wire types *)

Record AppliedRef := {
  ar_APIVersion : string;
  ar_Kind : string;
  ar_Namespace : string;
  ar_Name : string;
  ar_UID : string;
  ar_Generation : Z
}.

Record EndpointPayload := { epp_Name : string; epp_URL : string }.

Record ManagedStoragePayload := {
  msp_AccessKeyID : string;
  msp_SecretAccessKey : string;
  msp_BucketName : string
}.

Record EventExtras := {
  xs_Endpoints : list EndpointPayload;
  xs_ManagedStorage : option ManagedStoragePayload
}.

Record Event := {
  ev_EventKey : string;
  ev_Kind : string;
  ev_ResourceRef : AppliedRef;
  ev_Conditions : list Condition;
  ev_Endpoints : list EndpointPayload;
  ev_ManagedStorage : option ManagedStoragePayload;
  ev_Timestamp : option Z (** [None] is the zero time *)
}.

(** ** The batcher *)

Definition defaultMaxBatch : Z := 100.
Definition defaultMaxBuffer : Z := 1000.

(** [int64] addition. *)
Definition int64_add (a b : Z) : Z := (a + b + 2 ^ 63) `mod` 2 ^ 64 - 2 ^ 63.

Record EventBatcher := {
  eb_Client : bool; (** whether [Client] is set *)
  eb_events : list Event;
  eb_maxBatch : Z;
  eb_maxBuffer : Z;
  eb_overflowActive : bool;
  eb_overflowDropped : Z
}.

Definition NewEventBatcher (client : bool) : EventBatcher :=
  {| eb_Client := client; eb_events := []; eb_maxBatch := defaultMaxBatch;
     eb_maxBuffer := defaultMaxBuffer; eb_overflowActive := false; eb_overflowDropped := 0 |}.

Definition with_events (b : EventBatcher) (evs : list Event) : EventBatcher :=
  {| eb_Client := eb_Client b; eb_events := evs; eb_maxBatch := eb_maxBatch b;
     eb_maxBuffer := eb_maxBuffer b; eb_overflowActive := eb_overflowActive b;
     eb_overflowDropped := eb_overflowDropped b |}.
Definition with_overflow (b : EventBatcher) (active : bool) (dropped : Z) : EventBatcher :=
  {| eb_Client := eb_Client b; eb_events := eb_events b; eb_maxBatch := eb_maxBatch b;
     eb_maxBuffer := eb_maxBuffer b; eb_overflowActive := active; eb_overflowDropped := dropped |}.
Definition with_client (b : EventBatcher) (c : bool) : EventBatcher :=
  {| eb_Client := c; eb_events := eb_events b; eb_maxBatch := eb_maxBatch b;
     eb_maxBuffer := eb_maxBuffer b; eb_overflowActive := eb_overflowActive b;
     eb_overflowDropped := eb_overflowDropped b |}.
Definition with_timestamp (e : Event) (t : Z) : Event :=
  {| ev_EventKey := ev_EventKey e; ev_Kind := ev_Kind e; ev_ResourceRef := ev_ResourceRef e;
     ev_Conditions := ev_Conditions e; ev_Endpoints := ev_Endpoints e;
     ev_ManagedStorage := ev_ManagedStorage e; ev_Timestamp := Some t |}.

Definition Len (b : EventBatcher) : nat := length (eb_events b).

Definition HasEventKey (b : EventBatcher) (key : string) : bool :=
  if bool_decide (key = "") then false
  else existsb (λ e, bool_decide (ev_EventKey e = key)) (eb_events b).

Definition recordOverflowLocked (b : EventBatcher) (dropped : Z) : EventBatcher :=
  if bool_decide (dropped ≤ 0)%Z then b
  else with_overflow b true (int64_add (eb_overflowDropped b) dropped).

Definition clearOverflowLocked (b : EventBatcher) : EventBatcher := with_overflow b false 0.

Definition OverflowState (b : EventBatcher) : bool * Z :=
  (eb_overflowActive b, eb_overflowDropped b).

Definition effMaxBuffer (b : EventBatcher) : Z :=
  if bool_decide (eb_maxBuffer b ≤ 0)%Z then defaultMaxBuffer else eb_maxBuffer b.
Definition effMaxBatch (b : EventBatcher) : Z :=
  if bool_decide (eb_maxBatch b ≤ 0)%Z then defaultMaxBatch else eb_maxBatch b.

Definition stamp (now : Z) (e : Event) : Event :=
  match ev_Timestamp e with None => with_timestamp e now | Some _ => e end.

(** [Enqueue]. *)
Definition Enqueue (now : Z) (b : EventBatcher) (e : Event) : EventBatcher :=
  let e := stamp now e in
  let maxBuffer := effMaxBuffer b in
  let n := Z.of_nat (length (eb_events b)) in
  let b :=
    if bool_decide (maxBuffer ≤ n)%Z then
      let drop_ := (n - maxBuffer + 1)%Z in
      recordOverflowLocked (with_events b (drop (Z.to_nat drop_) (eb_events b))) drop_
    else b in
  with_events b (eb_events b ++ [e]).

(** [Flush] up to the first [Unlock]: the extracted batch, if any. *)
Definition flushTake (b : EventBatcher) : option (list Event) * EventBatcher :=
  match eb_events b with
  | [] => (None, b)
  | evs =>
      let end_ := Z.to_nat (Z.min (Z.of_nat (length evs)) (effMaxBatch b)) in
      (Some (take end_ evs), with_events b (drop end_ evs))
  end.

Definition requeue (b : EventBatcher) (batch : list Event) : EventBatcher :=
  let combined := batch ++ eb_events b in
  let n := Z.of_nat (length combined) in
  if bool_decide (effMaxBuffer b < n)%Z then
    let drop_ := (n - effMaxBuffer b)%Z in
    with_events (recordOverflowLocked b drop_) (drop (Z.to_nat drop_) combined)
  else with_events b combined.

(** [Flush] after a successful [PostEvents]. *)
Definition flushDelivered (b : EventBatcher) : EventBatcher :=
  match eb_events b with [] => clearOverflowLocked b | _ :: _ => b end.

(** [Flush] with nothing else running: [post] is the outcome of [PostEvents].
    The batch it delivered, and the new buffer. *)
Definition Flush (post : list Event → bool) (b : EventBatcher) : list Event * EventBatcher :=
  match flushTake b with
  | (None, b) => ([], b)
  | (Some batch, b) =>
      if eb_Client b then
        if post batch then (batch, flushDelivered b) else ([], requeue b batch)
      else ([], b)
  end.

(** [BufferOverflowMessage] is formatted in the cluster controller. *)
Definition ConditionTransitionEvent (now : Z) (ref : AppliedRef) (cs : list Condition) : Event :=
  {| ev_EventKey := ""; ev_Kind := "ConditionTransition"; ev_ResourceRef := ref;
     ev_Conditions := cs; ev_Endpoints := []; ev_ManagedStorage := None;
     ev_Timestamp := Some now |}.

(** ** Interleavings

    One flusher ([Start]) runs beside any number of goroutines that enqueue and
    the runtime that sets and clears [Client].  [accepted], [delivered] and
    [lost] record the history. *)

Record bsys := {
  bs_buf : EventBatcher;
  bs_inflight : option (list Event);
  bs_accepted : list Event;
  bs_delivered : list Event;
  bs_dropped : list Event;
  bs_discarded : list Event
}.

Definition binit (client : bool) : bsys :=
  {| bs_buf := NewEventBatcher client; bs_inflight := None; bs_accepted := [];
     bs_delivered := []; bs_dropped := []; bs_discarded := [] |}.

(** The events [Enqueue] and [requeue] push out of the buffer. *)
Definition enqueue_drops (b : EventBatcher) : list Event :=
  take (Z.to_nat (Z.of_nat (length (eb_events b)) - effMaxBuffer b + 1)) (eb_events b).
Definition requeue_drops (b : EventBatcher) (batch : list Event) : list Event :=
  take (Z.to_nat (Z.of_nat (length (batch ++ eb_events b)) - effMaxBuffer b))
       (batch ++ eb_events b).

Inductive bstep : bsys → bsys → Prop :=
| bstep_enqueue now e s :
    bstep s {| bs_buf := Enqueue now (bs_buf s) e; bs_inflight := bs_inflight s;
               bs_accepted := bs_accepted s ++ [stamp now e];
               bs_delivered := bs_delivered s;
               bs_dropped := bs_dropped s ++ enqueue_drops (bs_buf s);
               bs_discarded := bs_discarded s |}
| bstep_take s batch b :
    bs_inflight s = None → flushTake (bs_buf s) = (Some batch, b) → eb_Client b = true →
    bstep s {| bs_buf := b; bs_inflight := Some batch; bs_accepted := bs_accepted s;
               bs_delivered := bs_delivered s; bs_dropped := bs_dropped s;
               bs_discarded := bs_discarded s |}
| bstep_take_no_client s batch b :
    bs_inflight s = None → flushTake (bs_buf s) = (Some batch, b) → eb_Client b = false →
    bstep s {| bs_buf := b; bs_inflight := None; bs_accepted := bs_accepted s;
               bs_delivered := bs_delivered s; bs_dropped := bs_dropped s;
               bs_discarded := bs_discarded s ++ batch |}
| bstep_posted s batch :
    bs_inflight s = Some batch →
    bstep s {| bs_buf := flushDelivered (bs_buf s); bs_inflight := None;
               bs_accepted := bs_accepted s; bs_delivered := bs_delivered s ++ batch;
               bs_dropped := bs_dropped s; bs_discarded := bs_discarded s |}
| bstep_post_failed s batch :
    bs_inflight s = Some batch →
    bstep s {| bs_buf := requeue (bs_buf s) batch; bs_inflight := None;
               bs_accepted := bs_accepted s; bs_delivered := bs_delivered s;
               bs_dropped := bs_dropped s ++ requeue_drops (bs_buf s) batch;
               bs_discarded := bs_discarded s |}
| bstep_set_client s c :
    bstep s {| bs_buf := with_client (bs_buf s) c; bs_inflight := bs_inflight s;
               bs_accepted := bs_accepted s; bs_delivered := bs_delivered s;
               bs_dropped := bs_dropped s; bs_discarded := bs_discarded s |}.

Definition breachable (client : bool) (s : bsys) : Prop := rtc bstep (binit client) s.
