(* ===== verification/EventsProofs.v ===== *)
(** * Theorems on the event batcher

    The buffer stays within its bound, delivery keeps the order in which events
    were enqueued and repeats none, every accepted event is accounted for, and
    the overflow counter is the number of events pushed out since the last
    drain. *)

From stdpp Require Import base list strings gmap.
From S2P Require Import Prelude Api Events.
From Stdlib Require Import Lia.

(** Reduce the projections of the system state only. *)
Ltac bsimpl :=
  cbn [bs_buf bs_inflight bs_accepted bs_delivered bs_dropped bs_discarded
       default from_option id with_events with_client eb_events eb_Client] in *.

(** ** What the operations do to the fields *)

Lemma Enqueue_events now b e :
  eb_events (Enqueue now b e) =
    drop (Z.to_nat (Z.of_nat (length (eb_events b)) - effMaxBuffer b + 1)) (eb_events b)
    ++ [stamp now e].
Proof.
  unfold Enqueue, recordOverflowLocked. case_bool_decide; simpl.
  - rewrite bool_decide_eq_false_2 by lia. done.
  - replace (Z.to_nat _) with 0 by lia. done.
Qed.

Lemma requeue_events b batch :
  eb_events (requeue b batch) =
    drop (Z.to_nat (Z.of_nat (length (batch ++ eb_events b)) - effMaxBuffer b))
         (batch ++ eb_events b).
Proof.
  unfold requeue. case_bool_decide; simpl; [done|]. by replace (Z.to_nat _) with 0 by lia.
Qed.

Lemma flushDelivered_events b : eb_events (flushDelivered b) = eb_events b.
Proof. unfold flushDelivered. by destruct (eb_events b) eqn:?. Qed.

Lemma flushTake_split b batch b' :
  flushTake b = (Some batch, b') →
  eb_events b = batch ++ eb_events b' ∧
  (Z.of_nat (length batch) ≤ effMaxBatch b)%Z ∧ batch ≠ [] ∧
  b' = with_events b (eb_events b').
Proof.
  unfold flushTake, effMaxBatch, defaultMaxBatch.
  destruct (eb_events b) as [|e evs] eqn:Hev; [done|].
  intros [= <- <-]. simpl eb_events. rewrite take_drop, length_take.
  split_and!; [done|case_bool_decide; lia| |done].
  intros Hnil%(f_equal length). rewrite length_take in Hnil. simpl in *.
  case_bool_decide; lia.
Qed.

(** The configuration never changes. *)
Definition same_config (b b' : EventBatcher) : Prop :=
  eb_maxBatch b' = eb_maxBatch b ∧ eb_maxBuffer b' = eb_maxBuffer b.

Lemma Enqueue_config now b e : same_config b (Enqueue now b e).
Proof. unfold Enqueue, recordOverflowLocked. by repeat case_bool_decide. Qed.
Lemma requeue_config b batch : same_config b (requeue b batch).
Proof. unfold requeue, recordOverflowLocked. by repeat case_bool_decide. Qed.
Lemma flushDelivered_config b : same_config b (flushDelivered b).
Proof. unfold flushDelivered. by destruct (eb_events b). Qed.
#[export] Hint Resolve Enqueue_config requeue_config flushDelivered_config : operator.

Lemma effMaxBuffer_pos b : (0 < effMaxBuffer b)%Z.
Proof. unfold effMaxBuffer, defaultMaxBuffer. case_bool_decide; lia. Qed.

(** ** Bounds *)

Definition bounded (b : EventBatcher) : Prop :=
  (Z.of_nat (length (eb_events b)) ≤ effMaxBuffer b)%Z.

Lemma eff_config b b' :
  same_config b b' → effMaxBuffer b' = effMaxBuffer b ∧ effMaxBatch b' = effMaxBatch b.
Proof. intros [H1 H2]. unfold effMaxBuffer, effMaxBatch. by rewrite H1, H2. Qed.

Lemma Enqueue_bounded now b e : bounded b → bounded (Enqueue now b e).
Proof.
  unfold bounded. destruct (eff_config _ _ (Enqueue_config now b e)) as [-> _].
  rewrite Enqueue_events, length_app, length_drop. simpl.
  pose proof (effMaxBuffer_pos b). lia.
Qed.

Lemma requeue_bounded b batch : bounded (requeue b batch).
Proof.
  unfold bounded. destruct (eff_config _ _ (requeue_config b batch)) as [-> _].
  rewrite requeue_events, length_drop. pose proof (effMaxBuffer_pos b). lia.
Qed.

(** ** The system invariant *)

Record binv (s : bsys) : Prop := {
  bi_config : same_config (NewEventBatcher true) (bs_buf s);
  bi_bounded : bounded (bs_buf s);
  bi_batch : (Z.of_nat (length (default [] (bs_inflight s))) ≤ defaultMaxBatch)%Z;
  bi_order : bs_delivered s ++ default [] (bs_inflight s) ++ eb_events (bs_buf s)
             `sublist_of` bs_accepted s;
  bi_conserved :
    bs_accepted s ≡ₚ bs_delivered s ++ bs_dropped s ++ bs_discarded s ++
                     default [] (bs_inflight s) ++ eb_events (bs_buf s)
}.

Lemma binit_inv c : binv (binit c).
Proof. by split. Qed.

Lemma sublist_drop_mid {A} (k : nat) (d i evs : list A) :
  d ++ i ++ drop k evs `sublist_of` d ++ i ++ evs.
Proof. apply sublist_app, sublist_app; [done..|]. apply sublist_drop. Qed.

Lemma bstep_inv s s' : bstep s s' → binv s → binv s'.
Proof.
  intros Hstep [Hc Hb Hba Ho Hp].
  destruct Hstep as [now e s|s batch b Hi Ht Hcl|s batch b Hi Ht Hcl|s batch Hi|s batch Hi|s c];
    bsimpl; rewrite ?Hi in *; bsimpl.
  - split; bsimpl; try done.
    + destruct Hc, (Enqueue_config now (bs_buf s) e). split; congruence.
    + by apply Enqueue_bounded.
    + rewrite Enqueue_events, !app_assoc. apply sublist_app; [|done].
      rewrite <-!app_assoc. etrans; [apply sublist_drop_mid|done].
    + rewrite Hp, Enqueue_events. unfold enqueue_drops.
      set (k := Z.to_nat _). rewrite <-(take_drop k (eb_events _)) at 1.
      solve_Permutation.
  - apply flushTake_split in Ht as (He & Hl & _ & ->). rewrite He in *.
    destruct (eff_config _ _ Hc) as [_ Hb2]. rewrite Hb2 in Hl.
    split; bsimpl; try done.
    unfold bounded in *; bsimpl. rewrite He, length_app in Hb.
      change (effMaxBuffer (with_events _ _)) with (effMaxBuffer (bs_buf s)). lia.
  - apply flushTake_split in Ht as (He & Hl & _ & ->). rewrite He in *.
    split; bsimpl; try done.
    + unfold bounded in *; bsimpl. rewrite He, length_app in Hb.
      change (effMaxBuffer (with_events _ _)) with (effMaxBuffer (bs_buf s)). lia.
    + etrans; [|exact Ho]. apply sublist_app; [done|]. simpl. by apply sublist_inserts_l.
    + rewrite Hp. solve_Permutation.
  - split; bsimpl; try done; rewrite ?flushDelivered_events.
    + destruct Hc, (flushDelivered_config (bs_buf s)). split; congruence.
    + unfold bounded. rewrite flushDelivered_events.
      by destruct (eff_config _ _ (flushDelivered_config (bs_buf s))) as [-> _].
    + by rewrite <-app_assoc.
    + rewrite Hp. solve_Permutation.
  - split; bsimpl; try done; rewrite ?requeue_events.
    + destruct Hc, (requeue_config (bs_buf s) batch). split; congruence.
    + apply requeue_bounded.
    + etrans; [|exact Ho]. apply sublist_app; [done|]. apply sublist_drop.
    + rewrite Hp. unfold requeue_drops. set (k := Z.to_nat _).
      rewrite <-(take_drop k (batch ++ eb_events _)) at 1. solve_Permutation.
  - by split.
Qed.

Lemma breachable_inv c s : breachable c s → binv s.
Proof.
  unfold breachable. revert s. apply (rtc_ind_r (λ s, binv s)); [apply binit_inv|].
  intros s s' _ Hs IH. by eapply bstep_inv.
Qed.

(** ** The overflow counter *)

(** A step that leaves the buffer drained: a batch was delivered and nothing is left. *)
Definition drains (s s' : bsys) : bool :=
  bool_decide (length (bs_delivered s) < length (bs_delivered s') ∧ eb_events (bs_buf s') = []).

(** [bhistory client s recent]: an execution leads to [s], and [recent] are the events
    pushed out after its last draining step. *)
Inductive bhistory (client : bool) : bsys → list Event → Prop :=
| bh_start : bhistory client (binit client) []
| bh_step s s' recent more :
    bhistory client s recent → bstep s s' → bs_dropped s' = bs_dropped s ++ more →
    bhistory client s' (if drains s s' then [] else recent ++ more).

(** The counter after [d] more events were pushed out. *)
Definition counted (st : bool * Z) (d : list Event) : bool * Z :=
  match d with [] => st | _ => (true, int64_add st.2 (Z.of_nat (length d))) end.

Lemma recordOverflow_counted b d :
  OverflowState (recordOverflowLocked b (Z.of_nat (length d))) = counted (OverflowState b) d.
Proof.
  unfold recordOverflowLocked. destruct d; [done|]. by rewrite bool_decide_eq_false_2 by (simpl; lia).
Qed.

Lemma Enqueue_counted now b e :
  OverflowState (Enqueue now b e) = counted (OverflowState b) (enqueue_drops b).
Proof.
  rewrite <-recordOverflow_counted. pose proof (effMaxBuffer_pos b).
  unfold Enqueue, enqueue_drops. rewrite length_take.
  unfold recordOverflowLocked. case_bool_decide as Hn; [|by rewrite bool_decide_eq_true_2 by lia].
  rewrite !bool_decide_eq_false_2 by lia. unfold OverflowState, with_overflow; simpl.
  do 2 f_equal. lia.
Qed.

Lemma requeue_counted b batch :
  OverflowState (requeue b batch) = counted (OverflowState b) (requeue_drops b batch).
Proof.
  rewrite <-recordOverflow_counted. pose proof (effMaxBuffer_pos b).
  unfold requeue, requeue_drops. rewrite length_take. unfold recordOverflowLocked.
  case_bool_decide as Hn; [|by rewrite bool_decide_eq_true_2 by lia].
  rewrite !bool_decide_eq_false_2 by lia. unfold OverflowState, with_overflow; simpl.
  do 2 f_equal. lia.
Qed.

Lemma int64_add_small a b : (0 ≤ a → 0 ≤ b → a + b < 2 ^ 63 → int64_add a b = a + b)%Z.
Proof. intros. unfold int64_add. rewrite Z.mod_small by lia. lia. Qed.

(** Pushing out [d] after [recent]. *)
Lemma counted_ok recent d :
  (Z.of_nat (length (recent ++ d)) < 2 ^ 63)%Z →
  counted (bool_decide (recent ≠ []), Z.of_nat (length recent)) d
    = (bool_decide (recent ++ d ≠ []), Z.of_nat (length (recent ++ d))).
Proof.
  intros Hl. destruct d as [|e d]; [by rewrite app_nil_r|]. simpl.
  rewrite length_app in *. rewrite int64_add_small by (simpl in *; lia).
  rewrite bool_decide_eq_true_2 by (by destruct recent).
  by rewrite <-Nat2Z.inj_add.
Qed.

Lemma binv_dropped_le s : binv s → length (bs_dropped s) ≤ length (bs_accepted s).
Proof.
  intros [_ _ _ _ Hp]. apply Permutation_length in Hp. rewrite Hp, !length_app. lia.
Qed.

Lemma bstep_dropped s s' : bstep s s' → ∃ more, bs_dropped s' = bs_dropped s ++ more.
Proof. destruct 1; bsimpl; eauto using app_nil_r. Qed.

Lemma bstep_accepted s s' : bstep s s' → length (bs_accepted s) ≤ length (bs_accepted s').
Proof. destruct 1; bsimpl; rewrite ?length_app; lia. Qed.

Lemma bhistory_reachable c s recent : bhistory c s recent → breachable c s.
Proof. induction 1 as [|s s' recent more _ IH Hs _]; [apply rtc_refl|by eapply rtc_r]. Qed.

Lemma reachable_bhistory c s : breachable c s → ∃ recent, bhistory c s recent.
Proof.
  unfold breachable. revert s. apply (rtc_ind_r (λ s, ∃ recent, bhistory c s recent)).
  - eexists. constructor.
  - intros s s' _ Hs [recent IH]. destruct (bstep_dropped _ _ Hs) as [more Hm].
    eexists. by eapply bh_step.
Qed.

(** A batch in flight holds at least one event. *)
Lemma inflight_nonempty c s batch : breachable c s → bs_inflight s = Some batch → batch ≠ [].
Proof.
  unfold breachable. intros Hr. revert s Hr batch.
  apply (rtc_ind_r (λ s, ∀ batch, bs_inflight s = Some batch → batch ≠ [])); [done|].
  intros s s' _ Hs IH batch. destruct Hs; bsimpl; try done; [by apply IH| |by apply IH].
  intros [= <-]. by eapply flushTake_split.
Qed.

Lemma bhistory_recent_le c s recent :
  bhistory c s recent → length recent ≤ length (bs_dropped s).
Proof.
  induction 1 as [|s s' recent more _ IH _ Hm]; [done|]. rewrite Hm.
  destruct (drains s s'); rewrite ?length_app; simpl; lia.
Qed.

(** A step that delivers nothing does not drain. *)
Lemma drains_no_delivery s s' : bs_delivered s' = bs_delivered s → drains s s' = false.
Proof. intros Hd. unfold drains. rewrite Hd. apply bool_decide_eq_false_2. lia. Qed.

Lemma bstep_overflow c s s' recent more :
  bhistory c s recent → bstep s s' → bs_dropped s' = bs_dropped s ++ more →
  (Z.of_nat (length (bs_accepted s')) < 2 ^ 63)%Z →
  OverflowState (bs_buf s) = (bool_decide (recent ≠ []), Z.of_nat (length recent)) →
  let after := if drains s s' then [] else recent ++ more in
  OverflowState (bs_buf s') = (bool_decide (after ≠ []), Z.of_nat (length after)).
Proof.
  intros Hh Hs Hm Hlt Ho. assert (breachable c s') as Hr'.
  { eapply rtc_r; [by eapply bhistory_reachable|done]. }
  pose proof (binv_dropped_le _ (breachable_inv _ _ Hr')) as Hle.
  assert (Z.of_nat (length (recent ++ more)) < 2 ^ 63)%Z as Hsmall.
  { pose proof (bhistory_recent_le _ _ _ Hh). rewrite Hm, length_app in Hle. rewrite length_app. lia. }
  assert (∀ b, bs_buf s' = b → eb_overflowActive b = eb_overflowActive (bs_buf s) →
    eb_overflowDropped b = eb_overflowDropped (bs_buf s) → bs_dropped s' = bs_dropped s →
    OverflowState (bs_buf s') = (bool_decide (recent ++ more ≠ []), Z.of_nat (length (recent ++ more)))) as Hsame.
  { intros b -> Ha Hd He. rewrite He in Hm. apply (f_equal length) in Hm. rewrite length_app in Hm.
    destruct more; [|simpl in Hm; lia]. rewrite app_nil_r, <-Ho. unfold OverflowState. by rewrite Ha, Hd. }
  destruct Hs as [now e s|s batch b Hi Ht Hcl|s batch b Hi Ht Hcl|s batch Hi|s batch Hi|s cl]; cbn zeta;
    try rewrite drains_no_delivery by done.
  - bsimpl. apply app_inv_head in Hm as <-. by rewrite Enqueue_counted, Ho, counted_ok.
  - apply flushTake_split in Ht as (_ & _ & _ & Hb). apply (Hsame b); [done|by rewrite Hb..|done].
  - apply flushTake_split in Ht as (_ & _ & _ & Hb). apply (Hsame b); [done|by rewrite Hb..|done].
  - pose proof (inflight_nonempty c s batch (bhistory_reachable _ _ _ Hh) Hi) as Hne.
    assert (0 < length batch) as Hlen by (destruct batch; [done|simpl; lia]).
    set (s' := {| bs_buf := _ |}) in *. unfold flushDelivered in s'.
    destruct (eb_events (bs_buf s)) as [|e l] eqn:He.
    + assert (drains s s' = true) as ->; [|done]. apply bool_decide_eq_true_2.
      subst s'. bsimpl. rewrite length_app. split; [lia|done].
    + assert (drains s s' = false) as ->; [|by eapply Hsame]. apply bool_decide_eq_false_2.
      subst s'. bsimpl. rewrite He. naive_solver.
  - bsimpl. apply app_inv_head in Hm as <-. by rewrite requeue_counted, Ho, counted_ok.
  - by eapply Hsame.
Qed.

Lemma bhistory_overflow c s recent :
  bhistory c s recent → (Z.of_nat (length (bs_accepted s)) < 2 ^ 63)%Z →
  OverflowState (bs_buf s) = (bool_decide (recent ≠ []), Z.of_nat (length recent)).
Proof.
  induction 1 as [|s s' recent more Hh IH Hs Hm]; intros Hlt; [done|].
  eapply bstep_overflow; [done..|]. apply IH. pose proof (bstep_accepted _ _ Hs). lia.
Qed.

(** ** Draining *)

(** [n] ticks of [Start]'s loop with a control plane that accepts every batch. *)
Fixpoint flush_times (n : nat) (b : EventBatcher) : list Event * EventBatcher :=
  match n with
  | O => ([], b)
  | S n => let '(d, b) := Flush (λ _, true) b in
           let '(d', b) := flush_times n b in (d ++ d', b)
  end.

Lemma Flush_accepting b :
  eb_Client b = true →
  let '(d, b') := Flush (λ _, true) b in
  eb_events b = d ++ eb_events b' ∧ eb_Client b' = true ∧ same_config b b' ∧
  (eb_events b ≠ [] →
     length (eb_events b') = length (eb_events b) - Z.to_nat (effMaxBatch b) ∧
     (eb_events b' = [] → OverflowState b' = (false, 0%Z))).
Proof.
  intros Hc. unfold Flush, flushTake. destruct (eb_events b) as [|e evs] eqn:Hev; simpl.
  { by rewrite Hev. }
  rewrite Hc, flushDelivered_events; simpl. rewrite take_drop, length_drop. simpl.
  assert (0 < effMaxBatch b)%Z.
  { unfold effMaxBatch, defaultMaxBatch. case_bool_decide; lia. }
  split_and!; try done.
  - by unfold flushDelivered; case_match.
  - apply (flushDelivered_config (with_events b _)).
  - intros _. split; [lia|]. unfold flushDelivered. simpl. intros Hd. by rewrite Hd.
Qed.

Lemma flush_times_drains n b :
  eb_Client b = true → length (eb_events b) ≤ n * Z.to_nat (effMaxBatch b) →
  let '(d, b') := flush_times n b in d = eb_events b ∧ eb_events b' = [].
Proof.
  revert b. induction n as [|n IH]; intros b Hc Hl; simpl.
  - destruct (eb_events b); simpl in *; [done|lia].
  - pose proof (Flush_accepting b Hc) as HF.
    destruct (Flush (λ _, true) b) as [d b1]. destruct HF as (He & Hc1 & Hcfg & HF).
    destruct (eff_config _ _ Hcfg) as [_ Hb]. specialize (IH b1 Hc1).
    destruct (flush_times n b1) as [d' b2]. rewrite He.
    destruct IH as [-> ?]; [|done]. rewrite Hb.
    destruct (eb_events b) eqn:Hev; [symmetry in He; apply app_nil in He as [_ ->]; simpl; lia|].
    destruct HF as [-> _]; [done|lia].
Qed.

(** ** The theorems *)

(** C14: In every interleaving of producers, the flusher and client changes, the
    buffer never holds more than [defaultMaxBuffer] events and a batch never more
    than [defaultMaxBatch]. *)
Theorem batcher_bounded (client : bool) (s : bsys) :
  breachable client s →
  (Z.of_nat (Len (bs_buf s)) ≤ defaultMaxBuffer)%Z ∧
  (Z.of_nat (length (default [] (bs_inflight s))) ≤ defaultMaxBatch)%Z.
Proof.
  intros [Hc Hb Hba _ _]%breachable_inv. split; [|done].
  unfold bounded in Hb. destruct (eff_config _ _ Hc) as [Heq _]. by rewrite Heq in Hb.
Qed.

(** C15: Delivery is in the order of [Enqueue] and at most once: what was
    delivered, followed by what is in flight and what is buffered, is a
    subsequence of what was enqueued; and nothing is lost unseen, every enqueued
    event is delivered, in flight, buffered, pushed out by overflow, or was
    extracted while no client was set. *)
Theorem batcher_fifo_conservation (client : bool) (s : bsys) :
  breachable client s →
  (bs_delivered s ++ default [] (bs_inflight s) ++ eb_events (bs_buf s)
     `sublist_of` bs_accepted s) ∧
  bs_accepted s ≡ₚ bs_delivered s ++ bs_dropped s ++ bs_discarded s ++
                    default [] (bs_inflight s) ++ eb_events (bs_buf s).
Proof. by intros [_ _ _ Ho Hp]%breachable_inv. Qed.

(** C16: [OverflowState] reports exactly the events pushed out since the buffer last
    drained: in every execution, if [recent] are the events pushed out after the last
    step that delivered a batch and left the buffer empty (all of them if there was
    none), the state is active if and only if there are any, with their number, as
    long as fewer than 2^63 events were enqueued (the [int64] counter does not wrap).
    Every reachable state has such a history. *)
Theorem batcher_overflow_exact (client : bool) (s : bsys) :
  (breachable client s ↔ ∃ recent, bhistory client s recent) ∧
  ∀ recent, bhistory client s recent → (Z.of_nat (length (bs_accepted s)) < 2 ^ 63)%Z →
    OverflowState (bs_buf s) = (bool_decide (recent ≠ []), Z.of_nat (length recent)).
Proof.
  split; [|intros recent; apply bhistory_overflow].
  split; [apply reachable_bhistory|intros [recent Hh]; by eapply bhistory_reachable].
Qed.

(** C17: With a client set and a control plane that accepts every batch, the
    flush loop delivers the whole buffer in order: enough ticks empty it. *)
Theorem batcher_drains (b : EventBatcher) (n : nat) :
  eb_Client b = true → length (eb_events b) ≤ n * Z.to_nat (effMaxBatch b) →
  (flush_times n b).1 = eb_events b ∧ eb_events (flush_times n b).2 = [].
Proof.
  intros Hc Hl. pose proof (flush_times_drains n b Hc Hl). by destruct (flush_times n b).
Qed.

(** A flush while no client is set (before registration, or after the
    credentials disappear) removes the oldest events of the buffer, delivers none
    of them, and records no overflow. *)
Theorem flush_without_client_discards (post : list Event → bool) (b : EventBatcher) :
  eb_Client b = false → eb_events b ≠ [] →
  (Flush post b).1 = [] ∧
  eb_events (Flush post b).2 =
    drop (Z.to_nat (Z.min (Z.of_nat (Len b)) (effMaxBatch b))) (eb_events b) ∧
  length (eb_events (Flush post b).2) < Len b ∧
  OverflowState (Flush post b).2 = OverflowState b.
Proof.
  intros Hc Hne. unfold Flush, flushTake, Len.
  destruct (eb_events b) as [|e evs] eqn:Hev; [done|]. simpl. rewrite Hc; simpl.
  split_and!; try done. rewrite length_drop. simpl.
  assert (0 < effMaxBatch b)%Z; [|lia].
  unfold effMaxBatch, defaultMaxBatch. case_bool_decide; lia.
Qed.

(** ** Witnesses *)

Definition sample_event (k : string) : Event :=
  {| ev_EventKey := k; ev_Kind := "ConditionTransition";
     ev_ResourceRef := {| ar_APIVersion := opsGroupVersion; ar_Kind := "Operation";
       ar_Namespace := "apps"; ar_Name := "op"; ar_UID := "u1"; ar_Generation := 1 |};
     ev_Conditions := []; ev_Endpoints := []; ev_ManagedStorage := None;
     ev_Timestamp := None |}.

(** Two events enqueued, a flush that fails and one that succeeds. *)
Definition sample_batcher : EventBatcher :=
  Enqueue 2 (Enqueue 1 (NewEventBatcher true) (sample_event "a")) (sample_event "b").
Definition sample_sys : bsys :=
  {| bs_buf := sample_batcher; bs_inflight := None;
     bs_accepted := eb_events sample_batcher; bs_delivered := []; bs_dropped := [];
     bs_discarded := [] |}.

Lemma sample_reachable : breachable true sample_sys.
Proof.
  eapply rtc_l; [apply (bstep_enqueue 1 (sample_event "a"))|].
  eapply rtc_l; [apply (bstep_enqueue 2 (sample_event "b"))|]. apply rtc_refl.
Qed.

Lemma batcher_bounded_witness :
  (Z.of_nat (Len (bs_buf sample_sys)) ≤ defaultMaxBuffer)%Z ∧
  (Z.of_nat (length (default [] (bs_inflight sample_sys))) ≤ defaultMaxBatch)%Z.
Proof. exact (batcher_bounded true sample_sys sample_reachable). Defined.

Lemma batcher_fifo_conservation_witness :
  (bs_delivered sample_sys ++ default [] (bs_inflight sample_sys) ++
     eb_events (bs_buf sample_sys) `sublist_of` bs_accepted sample_sys) ∧
  bs_accepted sample_sys ≡ₚ bs_delivered sample_sys ++ bs_dropped sample_sys ++
    bs_discarded sample_sys ++ default [] (bs_inflight sample_sys) ++
    eb_events (bs_buf sample_sys).
Proof. exact (batcher_fifo_conservation true sample_sys sample_reachable). Defined.

Lemma batcher_overflow_exact_witness :
  bhistory true sample_sys [] ∧ OverflowState (bs_buf sample_sys) = (false, 0%Z).
Proof.
  assert (bhistory true sample_sys []) as Hh.
  { set (e1 := Enqueue 1 (NewEventBatcher true) (sample_event "a")).
    set (first := {| bs_buf := e1; bs_inflight := None; bs_accepted := eb_events e1; bs_delivered := [];
                     bs_dropped := []; bs_discarded := [] |}).
    refine (bh_step true first sample_sys [] [] _ (bstep_enqueue 2 (sample_event "b") first) eq_refl).
    exact (bh_step true (binit true) first [] [] (bh_start true) (bstep_enqueue 1 (sample_event "a") (binit true)) eq_refl). }
  split; [exact Hh|]. apply (proj2 (batcher_overflow_exact true sample_sys) [] Hh). by vm_compute.
Defined.

Lemma batcher_drains_witness :
  (flush_times 1 sample_batcher).1 = eb_events sample_batcher ∧
  eb_events (flush_times 1 sample_batcher).2 = [].
Proof. apply (batcher_drains sample_batcher 1); [reflexivity|vm_compute; lia]. Defined.

Lemma flush_without_client_discards_witness :
  let b := with_client sample_batcher false in
  (Flush (λ _, true) b).1 = [] ∧
  eb_events (Flush (λ _, true) b).2 =
    drop (Z.to_nat (Z.min (Z.of_nat (Len b)) (effMaxBatch b))) (eb_events b) ∧
  length (eb_events (Flush (λ _, true) b).2) < Len b ∧
  OverflowState (Flush (λ _, true) b).2 = OverflowState b.
Proof. apply (flush_without_client_discards (λ _, true)); [reflexivity|done]. Defined.
