(* ===== verification/Reporter.v ===== *)
(** * internal/agent/reporter.go: condition transitions as outbound events

    [StatusReporter] wraps the optional batcher; every method takes the instant
    [now] at which it runs (the timestamp of the events it builds).  The
    enqueueing methods return the batcher they leave behind. *)

From stdpp Require Import base list strings pretty gmap.
From S2P Require Import Prelude GoStrings Api Conditions Events.

Definition slash : Ascii.ascii := byte 47.

Definition StatusReporter : Type := option EventBatcher.
Definition NoopStatusReporter : StatusReporter := None.

(** [changedConditions]: [prevByType] keeps the last condition of each type. *)
Definition prevByType (prev : list Condition) : gmap string Condition :=
  foldl (λ m c, <[c_Type c := c]> m) ∅ prev.

Definition differs (pc : option Condition) (nc : Condition) : bool :=
  match pc with
  | None => true
  | Some pc => negb (bool_decide (c_Status pc = c_Status nc)) ||
               negb (bool_decide (c_Reason pc = c_Reason nc)) ||
               negb (bool_decide (c_Message pc = c_Message nc))
  end.

Definition changedConditions (prev next : list Condition) : list Condition :=
  filter (λ nc, differs (prevByType prev !! c_Type nc) nc = true) next.

Definition underscore_if_blank (s : string) : string :=
  let t := TrimSpace s in if bool_decide (t = "") then "_" else t.

Definition ConditionEventKey (ref : AppliedRef) (condition : Condition) : string :=
  "condition/" +:+ ar_APIVersion ref +:+ "/" +:+ ar_Kind ref +:+ "/" +:+
  underscore_if_blank (ar_Namespace ref) +:+ "/" +:+ ar_Name ref +:+ "/" +:+
  underscore_if_blank (ar_UID ref) +:+ "/" +:+ c_Type condition +:+ "/" +:+
  c_Status condition +:+ "@" +:+ itoa (ar_Generation ref).

Definition managedStorageEventKeyPrefix : string := "managedStorage/".
Definition endpointsEventKeyPrefix : string := "endpoints/".

Definition ManagedStorageEventKey (ref : AppliedRef) (ready : Condition) (reportKey : string) : string :=
  managedStorageEventKeyPrefix +:+ ar_Namespace ref +:+ "/" +:+ ar_Name ref +:+ "/" +:+
  c_Type ready +:+ "/" +:+ c_Status ready +:+ "/" +:+ reportKey.

Definition ManagedStorageReportKeyFromEventKey (eventKey : string) : option string :=
  if HasPrefix eventKey managedStorageEventKeyPrefix then
    let parts := Split eventKey slash in
    if bool_decide (length parts = 6) then parts !! 5 else None
  else None.

Definition EndpointsEventKey (ref : AppliedRef) (reportKey : string) : string :=
  endpointsEventKeyPrefix +:+ ar_Namespace ref +:+ "/" +:+ ar_Name ref +:+ "/" +:+ reportKey.

Definition EndpointsReportKeyFromEventKey (eventKey : string) : option string :=
  if HasPrefix eventKey endpointsEventKeyPrefix then
    let parts := Split eventKey slash in
    if bool_decide (length parts = 4) then parts !! 3 else None
  else None.

Definition HasPendingEvent (r : StatusReporter) (eventKey : string) : bool :=
  match r with
  | None => false
  | Some b => if bool_decide (eventKey = "") then false else HasEventKey b eventKey
  end.

Definition with_key (e : Event) (k : string) : Event :=
  {| ev_EventKey := k; ev_Kind := ev_Kind e; ev_ResourceRef := ev_ResourceRef e;
     ev_Conditions := ev_Conditions e; ev_Endpoints := ev_Endpoints e;
     ev_ManagedStorage := ev_ManagedStorage e; ev_Timestamp := ev_Timestamp e |}.
Definition with_extras (e : Event) (x : EventExtras) : Event :=
  {| ev_EventKey := ev_EventKey e; ev_Kind := ev_Kind e; ev_ResourceRef := ev_ResourceRef e;
     ev_Conditions := ev_Conditions e; ev_Endpoints := xs_Endpoints x;
     ev_ManagedStorage := xs_ManagedStorage x; ev_Timestamp := ev_Timestamp e |}.

Definition transitionEvent (now : Z) (ref : AppliedRef)
    (enrich : option (Condition → EventExtras)) (c : Condition) : Event :=
  let e := with_key (ConditionTransitionEvent now ref [c]) (ConditionEventKey ref c) in
  match enrich with Some f => with_extras e (f c) | None => e end.

Definition ReportConditionTransitions (now : Z) (r : StatusReporter) (ref : AppliedRef)
    (prev next : list Condition) (enrich : option (Condition → EventExtras)) : StatusReporter :=
  match r with
  | None => None
  | Some b => Some (foldl (λ b c, Enqueue now b (transitionEvent now ref enrich c)) b
                          (changedConditions prev next))
  end.

Definition ReportSeaweedEndpoints (now : Z) (r : StatusReporter) (ref : AppliedRef)
    (ready : Condition) (endpoints : list EndpointPayload) (reportKey : string)
    : bool * StatusReporter :=
  match r with
  | None => (false, r)
  | Some b =>
      if bool_decide (endpoints = []) then (false, r)
      else
        let e := with_key (ConditionTransitionEvent now ref [ready]) (EndpointsEventKey ref reportKey) in
        (true, Some (Enqueue now b (with_extras e
           {| xs_Endpoints := endpoints; xs_ManagedStorage := None |})))
  end.

Definition ReportManagedStorageReady (now : Z) (r : StatusReporter) (ref : AppliedRef)
    (ready : Condition) (extras : EventExtras) (reportKey : string) : bool * StatusReporter :=
  match r with
  | None => (false, r)
  | Some b =>
      let e := with_key (ConditionTransitionEvent now ref [ready])
                 (ManagedStorageEventKey ref ready reportKey) in
      (true, Some (Enqueue now b (with_extras e extras)))
  end.

Definition reportAudit (now : Z) (r : StatusReporter) (ref : AppliedRef) (kind : string)
    (conditions : list Condition) (eventKey : string) : StatusReporter :=
  match r with
  | None => None
  | Some b =>
      let key := if bool_decide (eventKey ≠ "") then eventKey
                 else match conditions with
                      | c :: _ => kind +:+ "/" +:+ ar_UID ref +:+ "/" +:+ c_Type c
                      | [] => ""
                      end in
      Some (Enqueue now b
        {| ev_EventKey := key; ev_Kind := kind; ev_ResourceRef := ref;
           ev_Conditions := conditions; ev_Endpoints := []; ev_ManagedStorage := None;
           ev_Timestamp := Some now |})
  end.
Definition ReportAudit (now : Z) r ref kind conditions := reportAudit now r ref kind conditions "".
Definition ReportAuditWithEventKey (now : Z) r ref kind conditions eventKey :=
  reportAudit now r ref kind conditions eventKey.

(** [ResourceRefFromMeta]; [gv] is the group and version. *)
Definition ResourceRefFromMeta (gv kind : string) (m : ObjectMeta) : AppliedRef :=
  {| ar_APIVersion := gv; ar_Kind := kind; ar_Namespace := Namespace m; ar_Name := Name m;
     ar_UID := UID m; ar_Generation := Generation m |}.

(** ** Changed conditions *)

Lemma foldl_prevByType_Get (m : gmap string Condition) prev t :
  Conditions.keyed prev →
  foldl (λ m c, <[c_Type c := c]> m) m prev !! t =
    match Conditions.Get prev t with Some c => Some c | None => m !! t end.
Proof.
  revert m. induction prev as [|c prev IH]; intros m Hk; simpl; [done|].
  apply NoDup_cons in Hk as [Hc Hk]. rewrite IH by done.
  destruct (bool_decide_reflect (c_Type c = t)) as [<-|Hne].
  - destruct (Conditions.Get prev (c_Type c)) eqn:Hg.
    + exfalso. apply Hc. clear -Hg. induction prev as [|d prev IH]; simpl in *; [done|].
      destruct (bool_decide_reflect (c_Type d = c_Type c)) as [He|He]; [by rewrite <-He; left|].
      right. by apply IH.
    + by rewrite lookup_insert_eq.
  - by rewrite lookup_insert_ne.
Qed.

Lemma differs_reads pc nc :
  differs pc nc = true ↔
  (λ c, (c_Status c, c_Reason c, c_Message c)) <$> pc ≠ Some (c_Status nc, c_Reason nc, c_Message nc).
Proof.
  destruct pc as [pc|]; simpl; [|done].
  repeat case_bool_decide; simpl; split; try done; intros; congruence.
Qed.

Lemma changedConditions_elem prev next nc :
  Conditions.keyed prev →
  nc ∈ changedConditions prev next ↔
    nc ∈ next ∧
    Conditions.reads prev (c_Type nc) ≠ Some (c_Status nc, c_Reason nc, c_Message nc).
Proof.
  intros Hk. unfold changedConditions. rewrite list_elem_of_filter, differs_reads.
  unfold prevByType, Conditions.reads. rewrite foldl_prevByType_Get by done.
  destruct (Conditions.Get prev (c_Type nc)); naive_solver.
Qed.

Lemma changedConditions_same prev : Conditions.keyed prev → changedConditions prev prev = [].
Proof.
  intros Hk. destruct (changedConditions prev prev) as [|c l] eqn:H; [done|exfalso].
  assert (Hc : c ∈ changedConditions prev prev) by (rewrite H; left).
  apply changedConditions_elem in Hc as [Hc Hr]; [|done]. apply Hr. clear -Hk Hc.
  unfold Conditions.reads. induction prev as [|d prev IH]; [by apply elem_of_nil in Hc|].
  apply NoDup_cons in Hk as [Hd Hk]. simpl.
  apply elem_of_cons in Hc as [->|Hc]; [by rewrite bool_decide_eq_true_2|].
  rewrite bool_decide_eq_false_2; [by apply IH|].
  intros He. apply Hd. rewrite He. by apply list_elem_of_fmap_2.
Qed.

(** A reconcile pass reports exactly the conditions it changed:
    [changedConditions] selects, in order, the conditions of [next] that say
    something else (status, reason or message) than [prev] says of their type,
    and selects none when nothing changed. *)
Theorem changedConditions_spec (prev next : list Condition) :
  Conditions.keyed prev →
  (∀ nc, nc ∈ changedConditions prev next ↔
     nc ∈ next ∧
     Conditions.reads prev (c_Type nc) ≠ Some (c_Status nc, c_Reason nc, c_Message nc)) ∧
  changedConditions prev next `sublist_of` next ∧
  changedConditions prev prev = [].
Proof.
  intros Hk. split_and!.
  - intros nc. by apply changedConditions_elem.
  - apply sublist_filter.
  - by apply changedConditions_same.
Qed.

Definition sample_condition (t s : string) : Condition :=
  {| c_Type := t; c_Status := s; c_Reason := "R"; c_Message := ""; c_LastTransitionTime := 0 |}.

Lemma changedConditions_spec_witness :
  let prev := [sample_condition "Ready" "True"] in
  let next := [sample_condition "Ready" "False"; sample_condition "Blocked" "True"] in
  (∀ nc, nc ∈ changedConditions prev next ↔
     nc ∈ next ∧
     Conditions.reads prev (c_Type nc) ≠ Some (c_Status nc, c_Reason nc, c_Message nc)) ∧
  changedConditions prev next `sublist_of` next ∧
  changedConditions prev prev = [].
Proof. apply changedConditions_spec. apply NoDup_singleton. Defined.

(** ** Event keys *)

(** The parts of a key that are Kubernetes names, condition types and hex
    digests contain no slash. *)
Definition slash_free (s : string) : bool := no_byte slash s.

Lemma slash_app s : "/" +:+ s = String slash s.
Proof. done. Qed.

(** A key that starts with another literal prefix is not recognised. *)
Lemma report_keys_prefix_clash k :
  HasPrefix k "condition/" = true →
  ManagedStorageReportKeyFromEventKey k = None ∧ EndpointsReportKeyFromEventKey k = None.
Proof.
  destruct k as [|a k]; [done|]. unfold HasPrefix. cbn [String.prefix].
  destruct (Ascii.ascii_dec (Ascii.Ascii true true false false false true true false) a) as [<-|]; [|done]. done.
Qed.

Lemma storage_key_recognised ref ready reportKey :
  slash_free (ar_Namespace ref) = true → slash_free (ar_Name ref) = true →
  slash_free (c_Type ready) = true → slash_free (c_Status ready) = true →
  slash_free reportKey = true →
  ManagedStorageReportKeyFromEventKey (ManagedStorageEventKey ref ready reportKey) = Some reportKey.
Proof.
  intros. unfold ManagedStorageReportKeyFromEventKey, ManagedStorageEventKey.
  rewrite HasPrefix_app. unfold managedStorageEventKeyPrefix.
  change "managedStorage/" with ("managedStorage" +:+ "/").
  rewrite app_String_assoc, !slash_app.
  rewrite !Split_join by done. by rewrite Split_none.
Qed.

(** Acknowledgements are routed by event key: the report key is recovered
    from a managed-storage key and from an endpoints key, each recogniser
    refuses the other family, and condition events are neither. *)
Theorem event_key_roundtrip (ref : AppliedRef) (ready c : Condition) (reportKey : string) :
  slash_free (ar_Namespace ref) = true → slash_free (ar_Name ref) = true →
  slash_free (c_Type ready) = true → slash_free (c_Status ready) = true →
  slash_free reportKey = true →
  ManagedStorageReportKeyFromEventKey (ManagedStorageEventKey ref ready reportKey)
    = Some reportKey ∧
  EndpointsReportKeyFromEventKey (EndpointsEventKey ref reportKey) = Some reportKey ∧
  ManagedStorageReportKeyFromEventKey (EndpointsEventKey ref reportKey) = None ∧
  EndpointsReportKeyFromEventKey (ManagedStorageEventKey ref ready reportKey) = None ∧
  ManagedStorageReportKeyFromEventKey (ConditionEventKey ref c) = None ∧
  EndpointsReportKeyFromEventKey (ConditionEventKey ref c) = None.
Proof.
  intros Hns Hn Ht Hs Hk.
  assert (HC := report_keys_prefix_clash (ConditionEventKey ref c) (HasPrefix_app _ _)).
  split_and!; try (by apply HC); try done.
  - by apply storage_key_recognised.
  - unfold EndpointsReportKeyFromEventKey, EndpointsEventKey.
    rewrite HasPrefix_app. unfold endpointsEventKeyPrefix.
    change "endpoints/" with ("endpoints" +:+ "/").
    rewrite app_String_assoc, !slash_app.
    rewrite !Split_join by done. by rewrite Split_none.
Qed.

Lemma event_key_roundtrip_witness :
  let ref := {| ar_APIVersion := appsGroupVersion; ar_Kind := "ApplicationInstance";
    ar_Namespace := "apps"; ar_Name := "s3"; ar_UID := "u"; ar_Generation := 3 |} in
  let ready := sample_condition "Ready" "True" in
  ManagedStorageReportKeyFromEventKey (ManagedStorageEventKey ref ready "00ff") = Some "00ff" ∧
  EndpointsReportKeyFromEventKey (EndpointsEventKey ref "00ff") = Some "00ff" ∧
  ManagedStorageReportKeyFromEventKey (EndpointsEventKey ref "00ff") = None ∧
  EndpointsReportKeyFromEventKey (ManagedStorageEventKey ref ready "00ff") = None ∧
  ManagedStorageReportKeyFromEventKey (ConditionEventKey ref ready) = None ∧
  EndpointsReportKeyFromEventKey (ConditionEventKey ref ready) = None.
Proof. apply event_key_roundtrip; reflexivity. Defined.
