(* ===== verification/Json.v ===== *)
(** * encoding/json: documents and decoding into structs

    The lexical part of [json.Unmarshal] (bytes to a document) is a parameter,
    [json_parse].  How a document is decoded into a struct is written out: keys
    match field names up to case folding, later members overwrite earlier ones,
    [null] leaves a value alone and resets a pointer, slice or map, unknown
    members are ignored and a value of another type is an error. *)

From stdpp Require Import base list strings pretty gmap.
From S2P Require Import Prelude GoStrings.

Inductive json :=
| JNull
| JBool (b : bool)
| JNum (lit : string) (** the literal *)
| JStr (s : string)
| JArr (l : list json)
| JObj (fields : list (string * json)).

Class JsonSyntax := { json_parse : string → result json }.

(** [foldName]: equal for two names that match case-insensitively. *)
Definition upper_byte (c : Ascii.ascii) : Ascii.ascii :=
  let n := Ascii.nat_of_ascii c in
  if (97 <=? n) && (n <=? 122) then byte (n - 32) else c.

Fixpoint fold_name (s : string) : string :=
  match s with
  | EmptyString => EmptyString
  | String a s1 =>
      match s1 with
      | String b s2 =>
          if bool_decide (String a (String b EmptyString) = bytes [197; 191])
          then String (byte 83) (fold_name s2)
          else match s2 with
               | String c s3 =>
                   if bool_decide (String a (String b (String c EmptyString))
                                   = bytes [226; 132; 170])
                   then String (byte 75) (fold_name s3)
                   else String (upper_byte a) (fold_name s1)
               | EmptyString => String (upper_byte a) (fold_name s1)
               end
      | EmptyString => String (upper_byte a) EmptyString
      end
  end.

Definition json_type_error : error := errorf "json: cannot unmarshal value into Go struct field".

(** ** Decoders: the current value and the document to the new value *)

Definition decoder (A : Type) : Type := A → json → result A.

Definition dec_string : decoder string := λ cur v,
  match v with JStr s => Ok s | JNull => Ok cur | _ => Err json_type_error end.

Definition dec_bool_ptr : decoder (option bool) := λ _ v,
  match v with JBool b => Ok (Some b) | JNull => Ok None | _ => Err json_type_error end.

Fixpoint dec_string_elems (l : list json) : result (list string) :=
  match l with
  | [] => Ok []
  | v :: l => do! s := dec_string "" v in do! ss := dec_string_elems l in Ok (s :: ss)
  end.

Definition dec_string_slice : decoder (list string) := λ _ v,
  match v with JArr l => dec_string_elems l | JNull => Ok [] | _ => Err json_type_error end.

Fixpoint dec_string_entries (fs : list (string * json)) (m : gmap string string)
    : result (gmap string string) :=
  match fs with
  | [] => Ok m
  | (k, v) :: fs => do! s := dec_string "" v in dec_string_entries fs (<[k := s]> m)
  end.

(** [map[string]string]; a nil map and an empty one are told apart. *)
Definition dec_string_map : decoder (option (gmap string string)) := λ cur v,
  match v with
  | JObj fs => do! m := dec_string_entries fs (default ∅ cur) in Ok (Some m)
  | JNull => Ok None
  | _ => Err json_type_error
  end.

Definition any_entries (fs : list (string * json)) : gmap string json :=
  foldl (λ m kv, <[kv.1 := kv.2]> m) ∅ fs.

Definition dec_any_map : decoder (gmap string json) := λ cur v,
  match v with
  | JObj fs => Ok (any_entries fs ∪ cur)
  | JNull => Ok ∅
  | _ => Err json_type_error
  end.

(** Integer literals: an optional minus and digits. *)
Fixpoint digits_value (acc : Z) (l : list Ascii.ascii) : option Z :=
  match l with
  | [] => Some acc
  | c :: l => match Ascii.is_nat c with
              | Some d => digits_value (acc * 10 + Z.of_nat d) l
              | None => None
              end
  end.

Definition int_value (lit : string) : option Z :=
  match chars lit with
  | [] => None
  | c :: l => if bool_decide (c = byte 45)
              then match l with [] => None | _ => Z.opp <$> digits_value 0 l end
              else digits_value 0 (c :: l)
  end.

(** [*int32] and [*int64] with their range. *)
Definition dec_int_ptr (bits : Z) : decoder (option Z) := λ _ v,
  match v with
  | JNum lit =>
      match int_value lit with
      | Some z => if bool_decide (- 2 ^ (bits - 1) ≤ z ∧ z < 2 ^ (bits - 1))%Z
                  then Ok (Some z) else Err json_type_error
      | None => Err json_type_error
      end
  | JNull => Ok None
  | _ => Err json_type_error
  end.

(** [int] and [int64]. *)
Definition dec_int (bits : Z) : decoder Z := λ cur v,
  match v with
  | JNull => Ok cur
  | _ => do! z := dec_int_ptr bits None v in Ok (default cur z)
  end.

(** ** Fields *)

Definition names (k name : string) : bool := bool_decide (fold_name k = fold_name name).

Fixpoint dec_field {A} (dec : decoder A) (name : string) (fs : list (string * json)) (cur : A)
    : result A :=
  match fs with
  | [] => Ok cur
  | (k, v) :: fs =>
      if names k name then do! a := dec cur v in dec_field dec name fs a
      else dec_field dec name fs cur
  end.

(** The members of the document an object is decoded from ([null] has none). *)
Definition members (v : json) : result (list (string * json)) :=
  match v with
  | JObj fs => Ok fs
  | JNull => Ok []
  | _ => Err json_type_error
  end.

(** A field no member names keeps its zero value. *)
Lemma dec_field_absent {A} (dec : decoder A) name fs cur :
  (∀ k v, (k, v) ∈ fs → names k name = false) → dec_field dec name fs cur = Ok cur.
Proof.
  induction fs as [|[k v] fs IH]; intros H; simpl; [done|].
  rewrite (H k v) by left. apply IH. intros k' v' Hk. apply (H k' v'). by right.
Qed.

(** ** [json.Marshal] of strings *)

Definition cont (n : nat) : bool := (128 <=? n) && (n <=? 191).

(** The length of the UTF-8 sequence a byte list starts with, 0 if invalid. *)
Definition rune_len (l : list nat) : nat :=
  match l with
  | [] => 0
  | a :: r =>
      if a <? 128 then 1
      else match r with
           | [] => 0
           | b :: r =>
               if (194 <=? a) && (a <=? 223) then (if cont b then 2 else 0)
               else match r with
                    | [] => 0
                    | c :: r =>
                        if (224 <=? a) && (a <=? 239) then
                          if cont b && cont c &&
                             ((negb (a =? 224) || (160 <=? b)) && (negb (a =? 237) || (b <=? 159)))
                          then 3 else 0
                        else match r with
                             | [] => 0
                             | d :: _ =>
                                 if (240 <=? a) && (a <=? 244) && cont b && cont c && cont d &&
                                    (negb (a =? 240) || (144 <=? b)) &&
                                    (negb (a =? 244) || (b <=? 143))
                                 then 4 else 0
                             end
                    end
           end
  end.

Definition u_escape (n : nat) : list nat :=
  let h k := Ascii.nat_of_ascii (hex_digit ((n / 16 ^ k) mod 16)) in [92; 117; h 3; h 2; h 1; h 0].

(** An ASCII byte; the HTML characters are escaped. *)
Definition json_ascii (n : nat) : list nat :=
  if (n =? 34) || (n =? 92) then [92; n]
  else if n =? 8 then [92; 98] else if n =? 12 then [92; 102] else if n =? 10 then [92; 110]
  else if n =? 13 then [92; 114] else if n =? 9 then [92; 116]
  else if (n <? 32) || (n =? 60) || (n =? 62) || (n =? 38) then u_escape n
  else [n].

(** Each step consumes at least one byte: the length is enough fuel. *)
Fixpoint json_body (fuel : nat) (l : list nat) : list nat :=
  match fuel, l with
  | O, _ | _, [] => []
  | S fuel, a :: r =>
      if a <? 128 then json_ascii a ++ json_body fuel r
      else match rune_len l with
           | O => u_escape 65533 ++ json_body fuel r
           | k => (if bool_decide (take k l = [226; 128; 168]) then u_escape 8232
                   else if bool_decide (take k l = [226; 128; 169]) then u_escape 8233
                   else take k l) ++ json_body fuel (drop k l)
           end
  end.

Definition json_string (s : string) : string :=
  let l := Ascii.nat_of_ascii <$> chars s in
  dquote +:+ bytes (json_body (length l) l) +:+ dquote.

Example json_string_ex : json_string (bytes [97; 34; 60; 10; 195; 169; 255]) =
  dquote +:+ bytes [97; 92; 34] +:+ "\u003c\n" +:+ bytes [195; 169] +:+ "\ufffd" +:+ dquote.
Proof. reflexivity. Qed.

(** ** Integer literals read back *)

Lemma is_nat_digit (d : N) : (d < 10)%N → Ascii.is_nat (pretty_N_char d) = Some (N.to_nat d).
Proof.
  intros Hd.
  assert (d = 0 ∨ d = 1 ∨ d = 2 ∨ d = 3 ∨ d = 4 ∨ d = 5 ∨ d = 6 ∨ d = 7 ∨ d = 8 ∨ d = 9)%N
    as Hc by lia. by repeat destruct Hc as [->|Hc]; subst.
Qed.

Lemma digits_value_pretty x : ∀ s,
  digits_value 0 (chars (pretty_N_go x s)) = digits_value (Z.of_N x) (chars s).
Proof.
  induction (N.lt_wf_0 x) as [x _ IH]; intros s.
  destruct (decide (x = 0)%N) as [->|Hx]; [by rewrite pretty_N_go_0|].
  rewrite pretty_N_go_step by lia.
  assert (Hm : (x `mod` 10 < 10)%N) by (apply N.mod_lt; lia).
  rewrite IH by (apply N.div_lt; lia).
  change (chars (String ?c s)) with (c :: chars s). cbn [digits_value].
  rewrite is_nat_digit by done. f_equal.
  rewrite N_nat_Z. pose proof (N.div_mod x 10 ltac:(lia)). lia.
Qed.

Lemma int_value_digits lit z :
  digits_value 0 (chars lit) = Some z → chars lit ≠ [] → int_value lit = Some z.
Proof.
  unfold int_value. destruct (chars lit) as [|c l]; [done|]. intros Hd _.
  case_bool_decide as Hc; [|done]. subst c. done.
Qed.

Lemma pretty_N_digits p :
  digits_value 0 (chars (pretty (Npos p))) = Some (Zpos p) ∧ chars (pretty (Npos p)) ≠ [].
Proof.
  assert (H : digits_value 0 (chars (pretty (Npos p))) = Some (Zpos p)).
  { unfold pretty, pretty_N. rewrite decide_False by done. apply (digits_value_pretty (Npos p) ""). }
  split; [done|]. intros He. by rewrite He in H.
Qed.

Lemma int_value_itoa z : int_value (itoa z) = Some z.
Proof.
  destruct z as [|p|p]; [done|..]; destruct (pretty_N_digits p) as [H1 H2].
  - by apply int_value_digits.
  - unfold itoa. change (pretty (Zneg p)) with (String (byte 45) (pretty (Npos p))).
    unfold int_value.
    assert (chars (String (byte 45) (pretty (Npos p))) = byte 45 :: chars (pretty (Npos p)))
      as -> by done.
    destruct (chars (pretty (Npos p))); [done|]. by rewrite bool_decide_eq_true_2, H1.
Qed.

Lemma dec_int_itoa cur z :
  (- 2 ^ 63 ≤ z < 2 ^ 63)%Z → dec_int 64 cur (JNum (itoa z)) = Ok z.
Proof.
  intros Hz. unfold dec_int, dec_int_ptr. rewrite int_value_itoa.
  by rewrite bool_decide_eq_true_2.
Qed.
