(* ===== verification/Templates.v ===== *)
(** * internal/operations/templates: the built-in template registry

    [builtin] and the input schemas are the source's tables.  The JSON Schema
    validator is third-party code: [schema_valid] is a parameter, and
    [SchemaLaws] states the parts of the JSON Schema specification used here
    (the meaning of [type], [required], [properties] and
    [additionalProperties: false]). *)

From stdpp Require Import base list strings gmap.
From S2P Require Import Prelude GoStrings Api Json.

Definition CapabilityAnnotationPrefix : string := "ops.vworkspace.io/".

Record Template := {
  tpl_Ref : string;
  tpl_Type : string;
  tpl_Engine : string;
  tpl_CapabilityVerb : string;
  tpl_RBACProfile : string;
  tpl_RequiresApproval : bool
}.

Definition RefBackupVelero : string := "backup.velero".
Definition RefRestoreVelero : string := "restore.velero".
Definition RefUpgradeHelm : string := "upgrade.helm".
Definition RefMigrationHelmHookJob : string := "migration.helmHookJob".
Definition RefRunCommandJob : string := "runCommand.job".
Definition RefRunbookWorkflow : string := "runbook.workflow".

Definition BuiltinRefs : list string :=
  [RefBackupVelero; RefRestoreVelero; RefUpgradeHelm; RefMigrationHelmHookJob;
   RefRunCommandJob; RefRunbookWorkflow].

Definition builtin : list Template := [
  {| tpl_Ref := RefBackupVelero; tpl_Type := OperationTypeBackup; tpl_Engine := EngineVelero;
     tpl_CapabilityVerb := "backup"; tpl_RBACProfile := RefBackupVelero;
     tpl_RequiresApproval := false |};
  {| tpl_Ref := RefRestoreVelero; tpl_Type := OperationTypeRestore; tpl_Engine := EngineVelero;
     tpl_CapabilityVerb := "restore"; tpl_RBACProfile := RefRestoreVelero;
     tpl_RequiresApproval := true |};
  {| tpl_Ref := RefUpgradeHelm; tpl_Type := OperationTypeUpgrade; tpl_Engine := EngineHelm;
     tpl_CapabilityVerb := "upgrade"; tpl_RBACProfile := RefUpgradeHelm;
     tpl_RequiresApproval := false |};
  {| tpl_Ref := RefMigrationHelmHookJob; tpl_Type := OperationTypeMigration;
     tpl_Engine := EngineHelmHookJob; tpl_CapabilityVerb := "migration";
     tpl_RBACProfile := RefMigrationHelmHookJob; tpl_RequiresApproval := false |};
  {| tpl_Ref := RefRunCommandJob; tpl_Type := OperationTypeRunCommand; tpl_Engine := EngineJob;
     tpl_CapabilityVerb := "runcommand"; tpl_RBACProfile := RefRunCommandJob;
     tpl_RequiresApproval := false |};
  {| tpl_Ref := RefRunbookWorkflow; tpl_Type := OperationTypeRunbook; tpl_Engine := EngineWorkflow;
     tpl_CapabilityVerb := "runbook"; tpl_RBACProfile := RefRunbookWorkflow;
     tpl_RequiresApproval := false |}].

(** [init]. *)
Definition byTypeEngine : gmap (string * string) Template :=
  foldl (λ m t, <[(tpl_Type t, tpl_Engine t) := t]> m) ∅ builtin.

Definition Lookup (typ engine : string) : option Template := byTypeEngine !! (typ, engine).

Definition CapabilityAnnotationKey (verb : string) : string :=
  CapabilityAnnotationPrefix +:+ TrimSpace verb.

(** ** Input schemas *)

Inductive schema :=
| SString (minLength : Z)
| SBoolean
| SInteger (minimum : Z)
| SArray (items : schema)
| SMap (values : schema)              (** additionalProperties: a schema *)
| SAnyObject                          (** type: object, nothing else *)
| SObject (required : list string) (properties : list (string * schema)).
                                      (** additionalProperties: false *)

Definition inputSchemaJSON : list (string * schema) := [
  (RefBackupVelero, SObject [] [
    ("retention", SString 0); ("ttl", SString 0); ("snapshotClassName", SString 0);
    ("csiSnapshotClassName", SString 0); ("snapshotVolumes", SBoolean);
    ("storageLocation", SString 0); ("includedResources", SArray (SString 0));
    ("excludedResources", SArray (SString 0))]);
  (RefRestoreVelero, SObject ["backupName"] [
    ("backupName", SString 1); ("namespaceMapping", SMap (SString 0));
    ("restorePVs", SBoolean); ("existingResourcePolicy", SString 0);
    ("includedResources", SArray (SString 0)); ("excludedResources", SArray (SString 0))]);
  (RefUpgradeHelm, SObject [] [
    ("targetVersion", SString 1); ("valuesPatch", SAnyObject)]);
  (RefMigrationHelmHookJob, SObject ["hookName"] [
    ("hookName", SString 1); ("activeDeadlineSeconds", SInteger 1);
    ("backoffLimit", SInteger 0)]);
  (RefRunCommandJob, SObject ["image"] [
    ("image", SString 1); ("command", SArray (SString 0)); ("args", SArray (SString 0));
    ("env", SArray (SObject ["name"] [
      ("name", SString 1); ("value", SString 0); ("valueFrom", SAnyObject)]));
    ("activeDeadlineSeconds", SInteger 1); ("timeoutSeconds", SInteger 1);
    ("backoffLimit", SInteger 0); ("serviceAccountName", SString 1)]);
  (RefRunbookWorkflow, SObject ["template"] [
    ("template", SString 1); ("targetChartVersion", SString 0);
    ("snapshotClassName", SString 0); ("timeoutSeconds", SInteger 1);
    ("failureAction", SString 0)])].

Fixpoint assoc {A} (k : string) (l : list (string * A)) : option A :=
  match l with
  | [] => None
  | (k', a) :: l => if bool_decide (k' = k) then Some a else assoc k l
  end.

Definition InputSchema (ref : string) : option schema := assoc ref inputSchemaJSON.

(** The value a JSON object gives a key: the last member wins. *)
Definition member (fs : list (string * json)) (k : string) : option json := any_entries fs !! k.

Class SchemaValidator := { schema_valid : schema → json → bool }.

(** JSON Schema 2020-12. *)
Class SchemaLaws `{SchemaValidator} : Prop := {
  law_type_object req props j :
    schema_valid (SObject req props) j = true → ∃ fs, j = JObj fs;
  law_required req props fs k :
    schema_valid (SObject req props) (JObj fs) = true → k ∈ req → is_Some (member fs k);
  law_closed req props fs k :
    schema_valid (SObject req props) (JObj fs) = true → k ∈ fs.*1 → k ∈ props.*1;
  law_property req props fs k s v :
    schema_valid (SObject req props) (JObj fs) = true →
    assoc k props = Some s → member fs k = Some v → schema_valid s v = true;
  law_type_array s j : schema_valid (SArray s) j = true → ∃ l, j = JArr l
}.


Section ValidateParameters.
Context `{JsonSyntax} `{SchemaValidator}.

(** [ValidateParameters]; caching the compiled schema has no effect on the answer
    ([compiledInputSchema_transparent] below), and the built-in documents compile. *)
Definition ValidateParameters (typ engine : string) (raw : string) : result unit :=
  match Lookup typ engine with
  | None => Ok tt
  | Some tpl =>
      match InputSchema (tpl_Ref tpl) with
      | None => Ok tt
      | Some schemaDoc =>
          let raw := if bool_decide (TrimSpace raw = "") then "{}" else raw in
          match json_parse raw with
          | Err e => Err (wrapf ("decode parameters for template " +:+ tpl_Ref tpl) e)
          | Ok doc =>
              if schema_valid schemaDoc doc then Ok tt
              else Err (errorf ("parameters invalid for template " +:+ tpl_Ref tpl))
          end
      end
  end.
End ValidateParameters.

(** ** The cache of compiled schemas

    Compiling is library code, a function of the template and its document. *)

Section Cache.
Context {C : Type} (compile : string → schema → result C).

Definition compiledInputSchema (ref : string) (schemaDoc : schema) (cache : gmap string C)
    : result C * gmap string C :=
  match cache !! ref with
  | Some c => (Ok c, cache)
  | None =>
      match compile ref schemaDoc with
      | Err e => (Err (wrapf ("compile parameters schema for template " +:+ ref) e), cache)
      | Ok c => (Ok c, <[ref := c]> cache)
      end
  end.

(** Everything cached is what compiling the template's document gives. *)
Definition cache_sound (cache : gmap string C) : Prop :=
  ∀ ref c, cache !! ref = Some c → ∃ doc, InputSchema ref = Some doc ∧ compile ref doc = Ok c.

(** The cache is not observable: a lookup answers what compiling answers. *)
Lemma compiledInputSchema_transparent ref doc cache :
  cache_sound cache → InputSchema ref = Some doc →
  cache_sound (compiledInputSchema ref doc cache).2 ∧
  (compiledInputSchema ref doc cache).1 =
    match compile ref doc with
    | Ok c => Ok c
    | Err e => Err (wrapf ("compile parameters schema for template " +:+ ref) e)
    end.
Proof.
  intros Hc Hd. unfold compiledInputSchema. destruct (cache !! ref) as [c|] eqn:Hr.
  - destruct (Hc ref c Hr) as (doc' & Hd' & Hcomp). rewrite Hd in Hd'. injection Hd' as <-. by rewrite Hcomp.
  - destruct (compile ref doc) as [c|e] eqn:Hcomp; [|done]. split; [|done].
    intros ref' c' Hl. cbn [snd] in Hl.
    apply lookup_insert_Some in Hl as [[<- <-]|[_ Hl]]; [by exists doc|by apply Hc].
Qed.
End Cache.

(** ** The registry and the schema table agree *)

Lemma Lookup_spec typ engine tpl :
  Lookup typ engine = Some tpl ↔
  tpl ∈ builtin ∧ tpl_Type tpl = typ ∧ tpl_Engine tpl = engine.
Proof.
  unfold Lookup, byTypeEngine, builtin. cbn [foldl tpl_Type tpl_Engine].
  rewrite !lookup_insert. repeat case_decide; simplify_eq; rewrite ?lookup_empty;
    set_solver.
Qed.

(** ** A validator that satisfies the laws *)

Fixpoint reference_valid (s : schema) (j : json) : bool :=
  match s, j with
  | SString n, JStr t => bool_decide (n ≤ Z.of_nat (String.length t))%Z
  | SBoolean, JBool _ => true
  | SInteger m, JNum lit => match int_value lit with
                            | Some z => bool_decide (m ≤ z)%Z
                            | None => false
                            end
  | SArray s, JArr l => forallb (reference_valid s) l
  | SMap s, JObj fs => forallb (λ kv, reference_valid s kv.2) fs
  | SAnyObject, JObj _ => true
  | SObject req props, JObj fs =>
      forallb (λ k, bool_decide (is_Some (member fs k))) req &&
      forallb (λ kv, bool_decide (kv.1 ∈ props.*1)) fs &&
      (fix go (ps : list (string * schema)) : bool :=
         match ps with
         | [] => true
         | (k, s) :: ps =>
             match member fs k with Some v => reference_valid s v | None => true end && go ps
         end) props
  | _, _ => false
  end.

Definition reference_validator : SchemaValidator := {| schema_valid := reference_valid |}.

#[export] Instance reference_validator_laws : @SchemaLaws reference_validator.
Proof.
  split; cbn [schema_valid reference_validator].
  - intros req props [| | | | |fs]; try done. by eexists.
  - intros req props fs k Hv Hk. cbn [reference_valid] in Hv.
    apply andb_prop in Hv as [[Hr _]%andb_prop _]. rewrite forallb_forall in Hr.
    apply list_elem_of_In, Hr in Hk. by apply bool_decide_eq_true in Hk.
  - intros req props fs k Hv (kv & -> & Hk)%list_elem_of_fmap. cbn [reference_valid] in Hv.
    apply andb_prop in Hv as [[_ Hc]%andb_prop _]. rewrite forallb_forall in Hc.
    apply list_elem_of_In, Hc in Hk. by apply bool_decide_eq_true in Hk.
  - intros req props fs k s v Hv Ha Hm. cbn [reference_valid] in Hv.
    apply andb_prop in Hv as [_ Hp]. induction props as [|[k' s'] props IH]; [done|].
    simpl in Ha. apply andb_prop in Hp as [Hp1 Hp2].
    case_bool_decide as Hk; [|by apply IH]. subst. simplify_eq. by rewrite Hm in Hp1.
  - intros s [| | | |l|]; try done. by eexists.
Qed.
