(* ===== verification/Kube.v ===== *)
(** * The Kubernetes side of the operation controller and its engines

    The API server is the environment: each client call is a constructor of
    [kcall], answered by whatever the server returns.  [CreateOrUpdate] of
    controller-runtime is such a call too; it carries the mutate function.
    A call that writes an object answers with the object the server sends back,
    which the client library stores into the caller's variable.

    [KubeLib] collects the pure helpers of apimachinery and controller-runtime
    that the code calls on objects; they are parameters, [KubeLaws] is what
    their documentation says of them, and [reference_lib] shows that the laws
    can hold. *)

From stdpp Require Import base list strings gmap.
From S2P Require Import Prelude Traces GoStrings Api Json Events.

(** ** Objects *)

Record EnvVar := { env_Name : string; env_Value : string }.

Record Container := {
  ct_Name : string;
  ct_Image : string;
  ct_Command : list string;
  ct_Args : list string;
  ct_Env : list EnvVar
}.

Record JobCondition := { jc_Type : string; jc_Status : string; jc_Message : string }.

Record Job := {
  job_Meta : ObjectMeta;
  job_BackoffLimit : option Z;
  job_ActiveDeadlineSeconds : option Z;
  job_TTLSecondsAfterFinished : option Z;
  job_TemplateMeta : ObjectMeta;
  job_RestartPolicy : string;
  job_ServiceAccountName : string;
  job_Containers : list Container;
  job_Conditions : list JobCondition
}.

(** [unstructured.Unstructured]: the kind, the metadata, and the remaining
    members of the object ([spec], [status]). *)
Record Unstructured := {
  u_Kind : string;
  u_Meta : ObjectMeta;
  u_Object : list (string * json)
}.

Definition with_job_meta (j : Job) (m : ObjectMeta) : Job :=
  {| job_Meta := m; job_BackoffLimit := job_BackoffLimit j;
     job_ActiveDeadlineSeconds := job_ActiveDeadlineSeconds j;
     job_TTLSecondsAfterFinished := job_TTLSecondsAfterFinished j;
     job_TemplateMeta := job_TemplateMeta j; job_RestartPolicy := job_RestartPolicy j;
     job_ServiceAccountName := job_ServiceAccountName j;
     job_Containers := job_Containers j; job_Conditions := job_Conditions j |}.

(** [SetName] *)
Definition with_name (m : ObjectMeta) (n : string) : ObjectMeta :=
  {| Name := n; Namespace := Namespace m; UID := UID m; Generation := Generation m;
     Labels := Labels m; Annotations := Annotations m; Finalizers := Finalizers m;
     OwnerReferences := OwnerReferences m; DeletionTimestamp := DeletionTimestamp m |}.

Definition with_u_meta (u : Unstructured) (m : ObjectMeta) : Unstructured :=
  {| u_Kind := u_Kind u; u_Meta := m; u_Object := u_Object u |}.
Definition with_u_object (u : Unstructured) (o : list (string * json)) : Unstructured :=
  {| u_Kind := u_Kind u; u_Meta := u_Meta u; u_Object := o |}.

(** ** Library helpers *)

Class KubeLib := {
  ContainsFinalizer : ObjectMeta → string → bool;
  AddFinalizer : ObjectMeta → string → ObjectMeta;
  RemoveFinalizer : ObjectMeta → string → ObjectMeta;
  (** [controllerutil.SetOwnerReference(owner, obj)] *)
  SetOwnerReference : ObjectMeta → ObjectMeta → result ObjectMeta;
  (** [unstructured.SetNestedField(obj, value, path...)] *)
  SetNestedField : list (string * json) → json → list string → result (list (string * json));
  (** [unstructured.NestedFieldNoCopy(obj, path...)], the value if found *)
  NestedField : list (string * json) → list string → option json
}.

Class KubeLaws `{KubeLib} : Prop := {
  law_contains m f : ContainsFinalizer m f = true ↔ f ∈ Finalizers m;
  law_add m f : ∃ fs, AddFinalizer m f = with_finalizers m fs ∧ f ∈ fs ∧ Finalizers m ⊆ fs;
  law_remove m f : ∃ fs, RemoveFinalizer m f = with_finalizers m fs ∧ f ∉ fs;
  law_owner owner m m' :
    SetOwnerReference owner m = Ok m' →
    ∃ us, m' = with_owners m us ∧ UID owner ∈ us;
  law_nested_set o v p o' : SetNestedField o v p = Ok o' → NestedField o' p = Some v;
  law_nested_other o v p q o' :
    SetNestedField o v p = Ok o' → ¬ p `prefix_of` q → ¬ q `prefix_of` p →
    NestedField o' q = NestedField o q
}.

(** [unstructured.NestedString] with its [found] and [err] results dropped. *)
Definition NestedString `{KubeLib} (o : list (string * json)) (p : list string) : string :=
  match NestedField o p with Some (JStr s) => s | _ => "" end.

(** [unstructured.NestedMap] likewise; [None] is the nil map. *)
Definition NestedMap `{KubeLib} (o : list (string * json)) (p : list string)
    : option (list (string * json)) :=
  match NestedField o p with Some (JObj fs) => Some fs | _ => None end.

(** A Go map as an association list: assignment replaces or adds. *)
Fixpoint map_put (k : string) (v : json) (o : list (string * json)) : list (string * json) :=
  match o with
  | [] => [(k, v)]
  | (k', v') :: o => if bool_decide (k' = k) then (k, v) :: o else (k', v') :: map_put k v o
  end.

Fixpoint map_get (k : string) (o : list (string * json)) : option json :=
  match o with
  | [] => None
  | (k', v) :: o => if bool_decide (k' = k) then Some v else map_get k o
  end.

Lemma map_get_put k v o : map_get k (map_put k v o) = Some v.
Proof.
  induction o as [|[k' v'] o IH]; simpl; [by rewrite bool_decide_eq_true_2|].
  destruct (bool_decide_reflect (k' = k)); simpl.
  - by rewrite bool_decide_eq_true_2.
  - by rewrite bool_decide_eq_false_2.
Qed.

(** *** An implementation of the helpers that satisfies the laws *)

Fixpoint set_path (o : list (string * json)) (v : json) (p : list string)
    : result (list (string * json)) :=
  match p with
  | [] => Err (errorf "empty path")
  | [k] => Ok (map_put k v o)
  | k :: p =>
      match map_get k o with
      | None => do! o' := set_path [] v p in Ok (map_put k (JObj o') o)
      | Some (JObj sub) => do! o' := set_path sub v p in Ok (map_put k (JObj o') o)
      | Some _ => Err (errorf "value cannot be set: not a map")
      end
  end.

Fixpoint get_path (o : list (string * json)) (p : list string) : option json :=
  match p with
  | [] => Some (JObj o)
  | [k] => map_get k o
  | k :: p => match map_get k o with Some (JObj sub) => get_path sub p | _ => None end
  end.

Definition reference_lib : KubeLib := {|
  ContainsFinalizer m f := bool_decide (f ∈ Finalizers m);
  AddFinalizer m f :=
    if bool_decide (f ∈ Finalizers m) then m else with_finalizers m (Finalizers m ++ [f]);
  RemoveFinalizer m f := with_finalizers m (filter (λ g, g ≠ f) (Finalizers m));
  SetOwnerReference o m := Ok (with_owners m (OwnerReferences m ++ [UID o]));
  SetNestedField := set_path;
  NestedField := get_path
|}.

Lemma map_get_put_ne k k' v o : k' ≠ k → map_get k' (map_put k v o) = map_get k' o.
Proof.
  intros Hne. induction o as [|[k2 v2] o IH]; simpl; [by rewrite bool_decide_eq_false_2|].
  destruct (bool_decide_reflect (k2 = k)) as [->|]; simpl.
  - by rewrite !bool_decide_eq_false_2.
  - by destruct (bool_decide (k2 = k')).
Qed.

(** One step down a path, and what setting below it changes. *)
Lemma get_path_cons o k q :
  q ≠ [] → get_path o (k :: q) =
    match map_get k o with Some (JObj sub) => get_path sub q | _ => None end.
Proof. by destruct q. Qed.

Lemma set_path_cons o v k p o' :
  p ≠ [] → set_path o v (k :: p) = Ok o' →
  ∃ sub sub', set_path sub v p = Ok sub' ∧ o' = map_put k (JObj sub') o ∧
    (map_get k o = Some (JObj sub) ∨ (map_get k o = None ∧ sub = [])).
Proof.
  destruct p as [|k2 p]; [done|]. intros _ Hs.
  change (set_path o v (k :: k2 :: p)) with
    (match map_get k o with
     | None => do! o' := set_path [] v (k2 :: p) in Ok (map_put k (JObj o') o)
     | Some (JObj sub) => do! o' := set_path sub v (k2 :: p) in Ok (map_put k (JObj o') o)
     | Some _ => Err (errorf "value cannot be set: not a map")
     end) in Hs.
  destruct (map_get k o) as [[| | | | |sub]|]; try done;
    match type of Hs with context [set_path ?s v (k2 :: p)] =>
      destruct (set_path s v (k2 :: p)) as [o2|] eqn:H2; [|done]; exists s, o2 end;
    injection Hs as <-; auto.
Qed.

Lemma get_path_nil q : q ≠ [] → get_path [] q = None.
Proof. by destruct q as [|? [|]]. Qed.

Lemma get_set_path p : ∀ o v o', set_path o v p = Ok o' → get_path o' p = Some v.
Proof.
  induction p as [|k p IH]; intros o v o' Hs; [done|].
  destruct (decide (p = [])) as [->|Hp].
  - simpl in Hs. simplify_eq/=. apply map_get_put.
  - destruct (set_path_cons _ _ _ _ _ Hp Hs) as (sub & sub' & H2 & -> & _).
    rewrite get_path_cons, map_get_put by done. by eapply IH.
Qed.

Lemma get_set_path_other p : ∀ o v q o', set_path o v p = Ok o' →
  ¬ p `prefix_of` q → ¬ q `prefix_of` p → get_path o' q = get_path o q.
Proof.
  induction p as [|k p IH]; intros o v q o' Hs Hpq Hqp; [done|].
  destruct q as [|k' q]; [by destruct Hqp; apply prefix_nil|].
  assert (Hget : ∀ o1 o2, map_get k' o1 = map_get k' o2 → get_path o1 (k' :: q) = get_path o2 (k' :: q)).
  { intros o1 o2 Ho. destruct q; simpl; [done|]. by rewrite Ho. }
  destruct (decide (p = [])) as [->|Hp].
  - simpl in Hs. injection Hs as <-. apply Hget, map_get_put_ne.
    intros ->. apply Hpq. apply prefix_cons, prefix_nil.
  - destruct (set_path_cons _ _ _ _ _ Hp Hs) as (sub & sub' & H2 & -> & Hsub).
    destruct (decide (k' = k)) as [->|Hk]; [|by apply Hget, map_get_put_ne].
    assert (q ≠ []) as Hq by (intros ->; apply Hqp, prefix_cons, prefix_nil).
    rewrite !get_path_cons, map_get_put by done.
    rewrite (IH sub v q sub' H2); [|intros ?; by apply Hpq, prefix_cons
                                   |intros ?; by apply Hqp, prefix_cons].
    destruct Hsub as [->|[-> ->]]; [done|]. by apply get_path_nil.
Qed.

#[export] Instance reference_laws : @KubeLaws reference_lib.
Proof.
  split; simpl.
  - intros. apply bool_decide_eq_true.
  - intros m f. case_bool_decide; [exists (Finalizers m)|eexists]; split_and!; try done.
    + by destruct m.
    + set_solver.
    + set_solver.
  - intros m f. eexists. split; [done|]. rewrite list_elem_of_filter. naive_solver.
  - intros o m m' [= <-]. eexists. split; [done|]. set_solver.
  - intros o v p o'. apply get_set_path.
  - intros o v p q o'. apply get_set_path_other.
Qed.

(** ** Results of a reconcile

    Durations are nanoseconds. *)

Definition second : Z := 1000000000.

(** [ctrl.Result]. *)
Record Result := { Requeue : bool; RequeueAfter : Z }.
Definition noResult : Result := {| Requeue := false; RequeueAfter := 0 |}.
Definition requeueNow : Result := {| Requeue := true; RequeueAfter := 0 |}.
Definition after (s : Z) : Result := {| Requeue := false; RequeueAfter := s * second |}.

Definition outcome : Type := Result * option error.
Definition finish {E} (r : Result) : prog E outcome := Ret (r, None).
Definition failWith {E} (r : Result) (e : error) : prog E outcome := Ret (r, Some e).

(** ** Calls *)

Inductive kcall : Type → Type :=
| Now : kcall Z
| GetOperation (ns name : string) : kcall (result Operation)
| ListOperations (ns : string) : kcall (result (list Operation))
| UpdateOperation (o : Operation) : kcall (result Operation)
| UpdateOperationStatus (o : Operation) : kcall (result Operation)
| GetInstance (ns name : string) : kcall (result ApplicationInstance)
| GetNamespace (name : string) : kcall (result ObjectMeta)
| GetJob (ns name : string) : kcall (result Job)
| CreateJob (j : Job) : kcall (result unit)
| DeleteJob (ns name : string) : kcall (result unit)
| ListJobs (key value : string) : kcall (result (list Job))
| GetObject (kind ns name : string) : kcall (result Unstructured)
| CreateObject (u : Unstructured) : kcall (result unit)
| DeleteObject (kind ns name : string) : kcall (result unit)
| ListObjects (kind key value : string) : kcall (result (list Unstructured))
| CreateOrUpdate (kind ns name : string) (mutate : Unstructured → result Unstructured)
    : kcall (result unit)
| Report (ref : AppliedRef) (prev next : list Condition) : kcall unit.

(** ** Traces of calls *)

Notation trace := (trace_of kcall).
Notation KEvent := (@Called kcall _).

(** Calls that change or remove a workload object. *)
Definition creates {X} (c : kcall X) : bool :=
  match c with CreateJob _ | CreateObject _ | CreateOrUpdate _ _ _ _ => true | _ => false end.
Definition deletes {X} (c : kcall X) : bool :=
  match c with DeleteJob _ _ | DeleteObject _ _ _ => true | _ => false end.
Definition writes_operation {X} (c : kcall X) : bool :=
  match c with UpdateOperation _ | UpdateOperationStatus _ | Report _ _ _ => true | _ => false end.
Definition reads_only {X} (c : kcall X) : bool :=
  negb (creates c) && negb (deletes c) && negb (writes_operation c).
