(* ===== verification/Crypto.v ===== *)
(** * crypto/sha256, crypto/hmac, encoding/hex and encoding/base64

    The standard-library functions the approval claims are built from, over
    byte lists ([Z] in [0, 255]): SHA-256 (FIPS 180-4) on 32-bit words kept
    modulo 2^32, HMAC (RFC 2104) with its 64-byte block, lower-case hex, and
    the unpadded URL-safe base64 of [RawURLEncoding]. *)

From stdpp Require Import base list strings gmap.
From S2P Require Import Prelude GoStrings.
From Stdlib Require Import ZArith Lia.

Open Scope Z_scope.

Definition to_bytes (s : string) : list Z := (λ c, Z.of_nat (Ascii.nat_of_ascii c)) <$> chars s.
Definition of_bytes (l : list Z) : string := str ((λ z, byte (Z.to_nat z)) <$> l).

(** ** SHA-256 *)

Definition w32 (x : Z) : Z := x `mod` 2 ^ 32.
Definition rotr (n x : Z) : Z := Z.lor (Z.shiftr x n) (w32 (Z.shiftl x (32 - n))).
Definition not32 (x : Z) : Z := 2 ^ 32 - 1 - x.

Definition Ch (x y z : Z) : Z := Z.lxor (Z.land x y) (Z.land (not32 x) z).
Definition Maj (x y z : Z) : Z := Z.lxor (Z.land x y) (Z.lxor (Z.land x z) (Z.land y z)).
Definition Sigma0 (x : Z) : Z := Z.lxor (rotr 2 x) (Z.lxor (rotr 13 x) (rotr 22 x)).
Definition Sigma1 (x : Z) : Z := Z.lxor (rotr 6 x) (Z.lxor (rotr 11 x) (rotr 25 x)).
Definition sigma0 (x : Z) : Z := Z.lxor (rotr 7 x) (Z.lxor (rotr 18 x) (Z.shiftr x 3)).
Definition sigma1 (x : Z) : Z := Z.lxor (rotr 17 x) (Z.lxor (rotr 19 x) (Z.shiftr x 10)).

(** The constants are the first 32 bits of the fractional parts of the cube
    roots of the first 64 primes and of the square roots of the first eight. *)
Definition prime (n : nat) : bool := forallb (λ d, negb (n mod d =? 0)%nat) (seq 2 (n - 2)).
Definition primes : list Z := Z.of_nat <$> List.filter prime (seq 2 310).

(** The integer cube root, bit by bit from the highest of 36. *)
Definition cube_root (n : Z) : Z :=
  foldl (λ x b, let y := x + 2 ^ b in if y * y * y <=? n then y else x) 0
    (Z.of_nat <$> reverse (seq 0 36)).

Definition K256 : list Z := Eval vm_compute in (λ p, w32 (cube_root (p * 2 ^ 96))) <$> primes.
Definition H256 : list Z := Eval vm_compute in (λ p, w32 (Z.sqrt (p * 2 ^ 64))) <$> take 8 primes.

Definition be_bytes (n : nat) (x : Z) : list Z :=
  (λ i, Z.shiftr x (8 * Z.of_nat (n - 1 - i)) `mod` 256) <$> seq 0 n.
Definition be_word (l : list Z) : Z := foldl (λ a b, a * 256 + b) 0 l.

Definition pad (m : list Z) : list Z :=
  let n := Z.of_nat (length m) in
  m ++ [0x80] ++ replicate (Z.to_nat ((55 - n) `mod` 64)) 0 ++ be_bytes 8 (8 * n).

(** Cut into pieces of [n] elements; [fuel] bounds their number. *)
Fixpoint chunks {A} (fuel n : nat) (l : list A) : list (list A) :=
  match fuel, l with
  | O, _ | _, [] => []
  | S fuel, _ => take n l :: chunks fuel n (drop n l)
  end.

(** The message schedule, newest word first. *)
Fixpoint schedule (k : nat) (w : list Z) : list Z :=
  match k with
  | O => w
  | S k =>
      let at_ i := default 0 (w !! i) in
      schedule k (w32 (sigma1 (at_ 1%nat) + at_ 6%nat + sigma0 (at_ 14%nat) + at_ 15%nat) :: w)
  end.

Definition round (s : list Z) (kw : Z * Z) : list Z :=
  match s with
  | [a; b; c; d; e; f; g; h] =>
      let t1 := w32 (h + Sigma1 e + Ch e f g + kw.1 + kw.2) in
      let t2 := w32 (Sigma0 a + Maj a b c) in
      [w32 (t1 + t2); a; b; c; w32 (d + t1); e; f; g]
  | _ => s
  end.

Definition compress (h : list Z) (block : list Z) : list Z :=
  let ws := be_word <$> chunks 16 4 block in
  let w := reverse (schedule 48 (reverse ws)) in
  zip_with (λ x y, w32 (x + y)) h (foldl round h (zip K256 w)).

Definition sha256 (m : list Z) : list Z :=
  let p := pad m in
  mjoin (be_bytes 4 <$> foldl compress H256 (chunks (length p) 64 p)).

(** ** HMAC *)

Definition hmac_block : nat := 64.

Definition hmac (key m : list Z) : list Z :=
  let key := if bool_decide (hmac_block < length key)%nat then sha256 key else key in
  let key := key ++ replicate (hmac_block - length key) 0 in
  sha256 ((Z.lxor 0x5c <$> key) ++ sha256 ((Z.lxor 0x36 <$> key) ++ m)).

(** ** Hex *)

Definition hex_digits (z : Z) : string :=
  String (hex_digit (Z.to_nat (z / 16))) (String (hex_digit (Z.to_nat (z `mod` 16))) "").
Definition hex_encode (l : list Z) : string := String.concat "" (hex_digits <$> l).

(** ** Base64 *)

Definition b64_alphabet : string :=
  "ABCDEFGHIJKLMNOPQRSTUVWXYZabcdefghijklmnopqrstuvwxyz0123456789-_".

Definition b64_char (d : Z) : Ascii.ascii := default (byte 0) (chars b64_alphabet !! Z.to_nat d).

Fixpoint index_of (c : Ascii.ascii) (l : list Ascii.ascii) (i : Z) : option Z :=
  match l with
  | [] => None
  | a :: l => if bool_decide (a = c) then Some i else index_of c l (i + 1)
  end.
Definition b64_value (c : Ascii.ascii) : option Z := index_of c (chars b64_alphabet) 0.

Fixpoint b64_digits (l : list Z) : list Z :=
  match l with
  | a :: b :: c :: l =>
      a / 4 :: (a `mod` 4) * 16 + b / 16 :: (b `mod` 16) * 4 + c / 64 :: c `mod` 64 :: b64_digits l
  | [a; b] => [a / 4; (a `mod` 4) * 16 + b / 16; (b `mod` 16) * 4]
  | [a] => [a / 4; (a `mod` 4) * 16]
  | [] => []
  end.

Definition b64_encode (l : list Z) : string := str (b64_char <$> b64_digits l).

(** Groups of four digits; a lone last digit is an error, and the unused low
    bits of the last digit are not looked at. *)
Fixpoint b64_undigits (l : list Z) : option (list Z) :=
  match l with
  | a :: b :: c :: d :: l =>
      (λ r, (a * 4 + b / 16) :: ((b `mod` 16) * 16 + c / 4) :: ((c `mod` 4) * 64 + d) :: r)
        <$> b64_undigits l
  | [a; b; c] => Some [a * 4 + b / 16; (b `mod` 16) * 16 + c / 4]
  | [a; b] => Some [a * 4 + b / 16]
  | [_] => None
  | [] => Some []
  end.

Definition b64_error : error := errorf "illegal base64 data".

(** Line breaks are skipped. *)
Definition b64_decode (s : string) : result (list Z) :=
  match mapM b64_value (filter (λ c, c ≠ byte 10 ∧ c ≠ byte 13) (chars s)) with
  | Some ds => match b64_undigits ds with Some l => Ok l | None => Err b64_error end
  | None => Err b64_error
  end.

(** ** Test vectors: FIPS 180-4, RFC 4231 and RFC 4648 *)

Example sha256_abc : hex_encode (sha256 (to_bytes "abc")) =
  "ba7816bf8f01cfea414140de5dae2223b00361a396177a9cb410ff61f20015ad".
Proof. vm_compute. reflexivity. Qed.

Example hmac_rfc4231_2 :
  hex_encode (hmac (to_bytes "Jefe") (to_bytes "what do ya want for nothing?")) =
  "5bdcc146bf60754e6a042426089575c75a003f089d2739839dec58b964ec3843".
Proof. vm_compute. reflexivity. Qed.

Example b64_foob : b64_encode (to_bytes "foob") = "Zm9vYg".
Proof. vm_compute. reflexivity. Qed.

(** ** Base64 round trip *)

Definition is_byte (z : Z) : Prop := 0 ≤ z < 256.
Definition is_digit (z : Z) : Prop := 0 ≤ z < 64.

Lemma list_ind3 {A} (P : list A → Prop) :
  P [] → (∀ a, P [a]) → (∀ a b, P [a; b]) → (∀ a b c l, P l → P (a :: b :: c :: l)) → ∀ l, P l.
Proof.
  intros H0 H1 H2 H3. fix IH 1. intros [|a [|b [|c l]]]; [done..|]. apply H3, IH.
Qed.

(** Splitting a byte or a digit at a power of two. *)
Ltac split_at z k :=
  pose proof (Z.div_mod z k ltac:(lia)); pose proof (Z.mod_pos_bound z k ltac:(lia));
  let q := fresh "q" in let r := fresh "r" in
  set (q := z / k) in *; set (r := z `mod` k) in *; clearbody q r.

Lemma div_sum a b k : 0 < k → 0 ≤ b < k → (a * k + b) / k = a.
Proof. intros. rewrite Z.div_add_l by lia. rewrite Z.div_small by lia. lia. Qed.
Lemma mod_sum a b k : 0 < k → 0 ≤ b < k → (a * k + b) `mod` k = b.
Proof. intros. rewrite Z.add_comm, Z.mod_add, Z.mod_small by lia. done. Qed.

Lemma b64_digits_range l : Forall is_byte l → Forall is_digit (b64_digits l).
Proof.
  unfold is_byte, is_digit.
  induction l as [| a | a b | a b c l IH] using list_ind3; intros Hl; simpl; [done|..];
    repeat match goal with H : Forall _ (_ :: _) |- _ => apply Forall_cons in H as [? H] end.
  - split_at a 4. repeat constructor; lia.
  - split_at a 4. split_at b 16. repeat constructor; lia.
  - split_at a 4. split_at b 16. split_at c 64. repeat constructor; try lia. by apply IH.
Qed.

Lemma b64_undigits_digits l : Forall is_byte l → b64_undigits (b64_digits l) = Some l.
Proof.
  unfold is_byte.
  induction l as [| a | a b | a b c l IH] using list_ind3; intros Hl; simpl; [done|..];
    repeat match goal with H : Forall _ (_ :: _) |- _ => apply Forall_cons in H as [? H] end.
  - split_at a 4. rewrite Z.div_mul by lia. do 2 f_equal. lia.
  - split_at a 4. split_at b 16.
    rewrite div_sum, mod_sum, Z.div_mul by lia. do 2 f_equal; [lia|]. f_equal. lia.
  - rewrite IH by done. simpl. split_at a 4. split_at b 16. split_at c 64.
    rewrite !div_sum, !mod_sum by lia. do 2 f_equal; [lia|]. f_equal; [lia|]. f_equal. lia.
Qed.

(** Every digit has its own character, and none is a line break or a dot. *)
Lemma b64_char_spec d :
  is_digit d → b64_value (b64_char d) = Some d ∧ b64_char d ≠ byte 10 ∧ b64_char d ≠ byte 13 ∧
  b64_char d ≠ byte 46.
Proof.
  intros Hd. unfold is_digit in Hd.
  assert (H : forallb (λ n, bool_decide (
     b64_value (b64_char (Z.of_nat n)) = Some (Z.of_nat n) ∧ b64_char (Z.of_nat n) ≠ byte 10 ∧
     b64_char (Z.of_nat n) ≠ byte 13 ∧ b64_char (Z.of_nat n) ≠ byte 46)) (seq 0 64) = true)
    by (vm_compute; reflexivity).
  rewrite forallb_forall in H. specialize (H (Z.to_nat d)).
  rewrite bool_decide_eq_true, Z2Nat.id in H by lia. apply H, in_seq. lia.
Qed.

Lemma b64_values ds :
  Forall is_digit ds →
  mapM b64_value (filter (λ c, c ≠ byte 10 ∧ c ≠ byte 13) (b64_char <$> ds)) = Some ds.
Proof.
  induction 1 as [|d ds Hd Hds IH]; [done|].
  destruct (b64_char_spec d Hd) as (Hv & H1 & H2 & _).
  rewrite fmap_cons, filter_cons_True by done.
  change (b64_value (b64_char d) ≫= (λ y, mapM b64_value
    (filter (λ c, c ≠ byte 10 ∧ c ≠ byte 13) (b64_char <$> ds)) ≫= (λ k, Some (y :: k)))
    = Some (d :: ds)).
  by rewrite Hv, IH.
Qed.

Lemma b64_roundtrip l : Forall is_byte l → b64_decode (b64_encode l) = Ok l.
Proof.
  intros Hl. unfold b64_decode, b64_encode. rewrite chars_str.
  rewrite b64_values by by apply b64_digits_range. by rewrite b64_undigits_digits.
Qed.

Lemma b64_no_dot l : Forall is_byte l → no_byte (byte 46) (b64_encode l) = true.
Proof.
  intros Hl. unfold no_byte, b64_encode. rewrite chars_str. apply bool_decide_eq_true.
  intros (d & Hd & Hin)%list_elem_of_fmap.
  apply b64_digits_range in Hl. rewrite Forall_forall in Hl.
  destruct (b64_char_spec d (Hl d Hin)) as (_ & _ & _ & H). by apply H.
Qed.

Lemma to_bytes_range s : Forall is_byte (to_bytes s).
Proof.
  unfold to_bytes. apply Forall_fmap, Forall_true. intros c. unfold is_byte. simpl.
  pose proof (Ascii.nat_ascii_bounded c). lia.
Qed.

Lemma of_to_bytes s : of_bytes (to_bytes s) = s.
Proof.
  unfold of_bytes, to_bytes. rewrite <-list_fmap_compose.
  rewrite <-(str_chars s) at 2. f_equal.
  rewrite <-(list_fmap_id (chars s)) at 2. apply list_fmap_ext. intros i c _. simpl.
  unfold byte. by rewrite Nat2Z.id, Ascii.ascii_nat_embedding.
Qed.

(** Hex digests contain no byte that is not a digit, no dot and no slash in
    particular. *)
Definition not_hex (c : Ascii.ascii) : Prop := ∀ n, (n < 16)%nat → hex_digit n ≠ c.

Lemma dot_not_hex : not_hex (byte 46).
Proof. intros n. do 16 (destruct n as [|n]; [done|]). lia. Qed.
Lemma slash_not_hex : not_hex (byte 47).
Proof. intros n. do 16 (destruct n as [|n]; [done|]). lia. Qed.

Lemma hex_digits_no_byte c z : not_hex c → is_byte z → no_byte c (hex_digits z) = true.
Proof.
  intros Hc Hz. unfold is_byte in Hz. unfold hex_digits. split_at z 16.
  rewrite !no_byte_cons. split_and!; [apply Hc; lia..|done].
Qed.

Lemma hex_encode_cons z l : hex_encode (z :: l) = hex_digits z +:+ hex_encode l.
Proof. unfold hex_encode. destruct l; simpl; done. Qed.

Lemma hex_encode_no_byte c l : not_hex c → Forall is_byte l → no_byte c (hex_encode l) = true.
Proof.
  intros Hc. induction 1 as [|z l Hz Hl IH]; [done|]. rewrite hex_encode_cons.
  rewrite no_byte_app, hex_digits_no_byte by done. done.
Qed.

(** ** The shape of a digest *)

Lemma be_bytes_range n x : Forall is_byte (be_bytes n x).
Proof.
  unfold be_bytes. apply Forall_fmap, Forall_true. intros i. unfold is_byte. simpl.
  apply Z.mod_pos_bound. lia.
Qed.

Lemma round_length s kw : length (round s kw) = length s.
Proof. destruct s as [|? [|? [|? [|? [|? [|? [|? [|? [|? s]]]]]]]]]; reflexivity. Qed.

Lemma rounds_length l s : length (foldl round s l) = length s.
Proof. revert s. induction l as [|kw l IH]; intros s; simpl; [done|]. by rewrite IH, round_length. Qed.

Lemma compress_length h b : length (compress h b) = length h.
Proof. unfold compress. by rewrite length_zip_with, rounds_length, Nat.min_id. Qed.

Lemma compresses_length bs h : length (foldl compress h bs) = length h.
Proof. revert h. induction bs as [|b bs IH]; intros h; simpl; [done|]. by rewrite IH, compress_length. Qed.

Lemma sha256_digest m : Forall is_byte (sha256 m) ∧ length (sha256 m) = 32%nat.
Proof.
  unfold sha256. set (st := foldl compress H256 _).
  assert (length st = 8%nat) as Hst by apply compresses_length. clearbody st. split.
  - apply Forall_join, Forall_fmap, Forall_true. intros x. apply be_bytes_range.
  - rewrite length_join, <-list_fmap_compose.
    destruct st as [|? [|? [|? [|? [|? [|? [|? [|? [|? st]]]]]]]]]; try discriminate. reflexivity.
Qed.

Lemma hmac_digest k m : Forall is_byte (hmac k m) ∧ length (hmac k m) = 32%nat.
Proof. apply sha256_digest. Qed.
