(* ===== verification/Scheme.v ===== *)
(** * Scheme registration

    groupversion_info.go and the [init] functions of both API groups, [init] of
    cmd/main.go, and the types the controllers and webhooks are set up for.  A
    scheme maps Go types to their group, version and kind; [scheme.Builder] and
    [runtime.Scheme] belong to the libraries, and what is used of them is their
    documented behaviour: a builder adds each of its types under its group version,
    with the name of the Go type as kind. *)

From stdpp Require Import base list strings gmap.
From S2P Require Import Prelude Api Kube.

Record GroupVersion := { gv_Group : string; gv_Version : string }.

(** [GroupVersion.String] *)
Definition gv_String (gv : GroupVersion) : string := gv_Group gv +:+ "/" +:+ gv_Version gv.

(** A Go type: package and name. *)
Notation gotype := (string * string)%type.

Record Builder := { b_GroupVersion : GroupVersion; b_types : list gotype }.

Definition Register (b : Builder) (types : list gotype) : Builder :=
  {| b_GroupVersion := b_GroupVersion b; b_types := b_types b ++ types |}.

Notation scheme := (gmap gotype (GroupVersion * string)).

Definition AddToScheme (b : Builder) (s : scheme) : scheme :=
  foldl (λ s t, <[t := (b_GroupVersion b, t.2)]> s) s (b_types b).

(** [apiutil.GVKForObject]: group/version and kind. *)
Definition GVKForObject (s : scheme) (t : gotype) : result (string * string) :=
  match s !! t with
  | Some (gv, kind) => Ok (gv_String gv, kind)
  | None => Err (errorf ("no kind is registered for the type " +:+ t.2))
  end.

(** ** The two groups *)

Definition apps_SchemeGroupVersion : GroupVersion :=
  {| gv_Group := "apps.vworkspace.io"; gv_Version := "v1alpha1" |}.
Definition ops_SchemeGroupVersion : GroupVersion :=
  {| gv_Group := "ops.vworkspace.io"; gv_Version := "v1alpha1" |}.

Definition apps (name : string) : gotype := ("api/apps/v1alpha1", name).
Definition ops (name : string) : gotype := ("api/ops/v1alpha1", name).

(** The builders before any [init]. *)
Definition apps_SchemeBuilder : Builder := {| b_GroupVersion := apps_SchemeGroupVersion; b_types := [] |}.
Definition ops_SchemeBuilder : Builder := {| b_GroupVersion := ops_SchemeGroupVersion; b_types := [] |}.

Definition init_ApplicationInstance (b : Builder) : Builder :=
  Register b [apps "ApplicationInstance"; apps "ApplicationInstanceList"].
Definition init_Cluster (b : Builder) : Builder := Register b [ops "Cluster"; ops "ClusterList"].
Definition init_Operation (b : Builder) : Builder := Register b [ops "Operation"; ops "OperationList"].

(** [init] of cmd/main.go, after those of the packages it imports, which run in the
    order of their file names; [clientgo] is the scheme with the types of
    client-go. *)
Definition main_scheme (clientgo : scheme) : scheme :=
  let s := AddToScheme (init_ApplicationInstance apps_SchemeBuilder) clientgo in
  AddToScheme (init_Operation (init_Cluster ops_SchemeBuilder)) s.

(** ** What is set up *)

(** [For] and [Named] of a controller; the instance controller's further watches
    are [watchedKinds]. *)
Record Controller := { ctl_For : gotype; ctl_Named : string }.

Definition operation_SetupWithManager : Controller :=
  {| ctl_For := ops "Operation"; ctl_Named := "operation" |}.
Definition cluster_SetupWithManager : Controller :=
  {| ctl_For := ops "Cluster"; ctl_Named := "cluster" |}.
Definition instance_SetupWithManager : Controller :=
  {| ctl_For := apps "ApplicationInstance"; ctl_Named := "applicationinstance" |}.

(** The types whose admission the webhooks validate. *)
Definition operation_webhook_For : gotype := ops "Operation".
Definition instance_webhook_For : gotype := apps "ApplicationInstance".

(** What is registered, whatever client-go registers. *)
Lemma main_scheme_registered (clientgo : scheme) :
  Forall (λ '(t, gv), GVKForObject (main_scheme clientgo) t = Ok (gv, t.2))
    [ (apps "ApplicationInstance", appsGroupVersion); (apps "ApplicationInstanceList", appsGroupVersion);
      (ops "Cluster", opsGroupVersion); (ops "ClusterList", opsGroupVersion);
      (ops "Operation", opsGroupVersion); (ops "OperationList", opsGroupVersion) ].
Proof.
  rewrite !Forall_cons, Forall_nil. unfold GVKForObject, main_scheme, AddToScheme.
  cbn -[lookup insert gv_String]. split_and!; try done;
    repeat (first [rewrite lookup_insert_eq | rewrite lookup_insert_ne by done]); reflexivity.
Qed.

(** Every type a controller or webhook is set up for is registered, under the group
    version that status reports and target references carry, and the controllers
    have different names. *)
Lemma set_up_types_registered (clientgo : scheme) :
  let controllers := [operation_SetupWithManager; cluster_SetupWithManager; instance_SetupWithManager] in
  NoDup (ctl_Named <$> controllers) ∧
  Forall (λ t, ∃ gv, gv ∈ [appsGroupVersion; opsGroupVersion] ∧
                     GVKForObject (main_scheme clientgo) t = Ok (gv, t.2))
    ((ctl_For <$> controllers) ++ [operation_webhook_For; instance_webhook_For]).
Proof.
  split; [apply (bool_decide_unpack _); reflexivity|].
  pose proof (main_scheme_registered clientgo) as Hall. rewrite !Forall_cons in Hall.
  destruct Hall as (Hi & _ & Hc & _ & Ho & _).
  cbn [fmap list_fmap app ctl_For]. rewrite !Forall_cons, Forall_nil.
  split_and!; try done; eexists; (split; [|eassumption]); set_solver.
Qed.
