(* ===== verification/Concurrency.v ===== *)
(** * internal/operations/concurrency: which operations exclude each other *)

From stdpp Require Import base list strings gmap.
From S2P Require Import Prelude Traces GoStrings Api Kube.

(** [Conflicts]. *)
Definition Conflicts (existing incoming : string) : bool :=
  if bool_decide (incoming = OperationTypeUpgrade) then
    bool_decide (existing = OperationTypeUpgrade)
  else if bool_decide (incoming = OperationTypeRestore) then
    bool_decide (existing = OperationTypeUpgrade) || bool_decide (existing = OperationTypeBackup)
  else if bool_decide (incoming = OperationTypeBackup) then
    bool_decide (existing = OperationTypeRestore)
  else false.

Definition terminal (phase : string) : bool :=
  bool_decide (phase = PhaseSucceeded) || bool_decide (phase = PhaseFailed) ||
  bool_decide (phase = PhaseCancelled).

(** [InFlight]. *)
Definition InFlight (op : Operation) : bool :=
  if terminal (op_Phase op) then false
  else if bool_decide (op_Phase op = PhaseRunning) || bool_decide (op_Phase op = PhasePending)
  then true
  else existsb (λ c, bool_decide (c_Type c = ConditionAccepted) &&
                     bool_decide (c_Status c = ConditionTrue)) (op_Conditions op).

Record Conflict := { cf_Name : string; cf_Type : string }.

(** The loop body of [FindConflict]. *)
Definition blocks (op item : Operation) : bool :=
  negb (bool_decide (op_Name item = op_Name op)) &&
  bool_decide (op_Target item = op_Target op) &&
  InFlight item && Conflicts (op_Type item) (op_Type op).

Fixpoint find_conflict (op : Operation) (items : list Operation) : option Conflict :=
  match items with
  | [] => None
  | item :: items =>
      if blocks op item then Some {| cf_Name := op_Name item; cf_Type := op_Type item |}
      else find_conflict op items
  end.

(** [FindConflict]. *)
Definition FindConflict (op : Operation) : prog kcall (result (option Conflict)) :=
  try* items := call (ListOperations (op_Namespace op))
    catch e => Ret (Err (wrapf "list operations" e)) in
  Ret (Ok (find_conflict op items)).

Definition FormatConflict (c : Conflict) : string :=
  "conflicts with operation " +:+ quote (cf_Name c) +:+ " (" +:+ cf_Type c +:+ ")".

(** ** The abstract contract: an exclusion relation on running operations *)

Lemma find_conflict_spec op items :
  match find_conflict op items with
  | Some c => ∃ before item after, items = before ++ item :: after ∧
                blocks op item = true ∧ Forall (λ i, blocks op i = false) before ∧
                c = {| cf_Name := op_Name item; cf_Type := op_Type item |}
  | None => Forall (λ i, blocks op i = false) items
  end.
Proof.
  induction items as [|i items IH]; simpl; [done|].
  destruct (blocks op i) eqn:Hb; [by exists [], i, items|].
  destruct (find_conflict op items); [|by constructor].
  destruct IH as (b & it & a & -> & ? & ? & ?). exists (i :: b), it, a. split_and!; try done.
  by constructor.
Qed.

Lemma find_conflict_None op items :
  find_conflict op items = None ↔ Forall (λ i, blocks op i = false) items.
Proof.
  pose proof (find_conflict_spec op items) as H.
  destruct (find_conflict op items); [|done]. split; [done|].
  destruct H as (b & it & a & -> & Hb & _). rewrite Forall_app, Forall_cons, Hb.
  intros (_ & ? & _). done.
Qed.

Lemma find_conflict_complete op items item :
  item ∈ items → blocks op item = true → is_Some (find_conflict op items).
Proof.
  intros Hin Hb. destruct (find_conflict op items) eqn:Hf; [by eexists|].
  apply find_conflict_None in Hf. rewrite Forall_forall in Hf. specialize (Hf item Hin).
  by rewrite Hb in Hf.
Qed.

(** The documented matrix: which type must wait for which (incoming, existing). *)
Definition conflict_matrix : list (string * string) :=
  [(OperationTypeUpgrade, OperationTypeUpgrade);
   (OperationTypeRestore, OperationTypeUpgrade);
   (OperationTypeRestore, OperationTypeBackup);
   (OperationTypeBackup, OperationTypeRestore)].

Lemma Conflicts_matrix existing incoming :
  Conflicts existing incoming = true ↔ (incoming, existing) ∈ conflict_matrix.
Proof.
  unfold Conflicts, conflict_matrix.
  rewrite !elem_of_cons, elem_of_nil.
  repeat case_bool_decide; subst; simpl; naive_solver.
Qed.

(** The conflict search implements the documented matrix: for any answer of
    the API server, [FindConflict] reports a conflict exactly when the list it
    received holds another operation of the same target that is in flight and
    whose type the matrix forbids beside the incoming type; it reports the first
    one in list order, and fails only when listing fails. *)
Theorem FindConflict_matrix (op : Operation) (h : handler kcall unit) :
  (run h (FindConflict op) tt).1 =
    match (h _ (ListOperations (op_Namespace op)) tt).1 with
    | Err e => Err (wrapf "list operations" e)
    | Ok items => Ok (find_conflict op items)
    end ∧
  (∀ items, find_conflict op items = None ↔
     ¬ ∃ item, item ∈ items ∧ op_Name item ≠ op_Name op ∧ op_Target item = op_Target op ∧
               InFlight item = true ∧ (op_Type op, op_Type item) ∈ conflict_matrix) ∧
  (∀ items c, find_conflict op items = Some c →
     ∃ before item after, items = before ++ item :: after ∧ cf_Name c = op_Name item ∧
       cf_Type c = op_Type item ∧ find_conflict op before = None).
Proof.
  assert (Hb : ∀ item, blocks op item = true ↔
    op_Name item ≠ op_Name op ∧ op_Target item = op_Target op ∧ InFlight item = true ∧
    (op_Type op, op_Type item) ∈ conflict_matrix).
  { intros item. unfold blocks. rewrite <-Conflicts_matrix, !andb_true_iff, negb_true_iff.
    rewrite bool_decide_eq_false, bool_decide_eq_true. tauto. }
  split_and!.
  - unfold FindConflict. rewrite run_bind. simpl.
    destruct (h _ (ListOperations (op_Namespace op)) tt) as [[items|e] []]; done.
  - intros items. rewrite find_conflict_None, Forall_forall. split.
    + intros H (item & Hin & Hc). apply Hb in Hc. rewrite (H item Hin) in Hc. done.
    + intros H item Hin. destruct (blocks op item) eqn:Hbl; [|done].
      destruct H. exists item. apply Hb in Hbl. done.
  - intros items c Hc. pose proof (find_conflict_spec op items) as H. rewrite Hc in H.
    destruct H as (b & item & a & -> & ? & ? & ->). exists b, item, a.
    split_and!; try done. by apply find_conflict_None.
Qed.
