(* ===== verification/Approvals.v ===== *)
(** * internal/operations/approvalclaim and internal/operations/approvals

    [Verify] and the functions above it read the clock: they take the Unix time
    [now].  Everything else is as in the source; HMAC, hex and base64 are those
    of [Crypto]. *)

From stdpp Require Import base list strings pretty gmap.
From S2P Require Import Prelude GoStrings Api Json Templates Crypto.

Definition Prefix : string := "vws1".
Definition dot : Ascii.ascii := byte 46.

Record Payload := {
  pl_Version : Z;
  pl_RequestID : Z;
  pl_OperationName : string;
  pl_ApprovedBy : string;
  pl_ApprovedAt : string;
  pl_ExpiresAt : Z
}.

Definition zeroPayload : Payload :=
  {| pl_Version := 0; pl_RequestID := 0; pl_OperationName := ""; pl_ApprovedBy := "";
     pl_ApprovedAt := ""; pl_ExpiresAt := 0 |}.

Definition splitClaim (claim : string) : result (string * string * string) :=
  match Split claim dot with
  | [p; b; d] => Ok (p, b, d)
  | _ => Err (errorf "malformed approval claim")
  end.

Definition hmacSHA256Hex (secret body : string) : string :=
  hex_encode (hmac (to_bytes secret) (to_bytes body)).

Definition member_line (key value : string) : string := dquote +:+ key +:+ dquote +:+ ":" +:+ value.

(** [marshalCanonicalPayload]; none of the encoders it calls can fail. *)
Definition marshalCanonicalPayload (p : Payload) : string :=
  "{" +:+ member_line "at" (json_string (pl_ApprovedAt p)) +:+
  "," +:+ member_line "by" (json_string (pl_ApprovedBy p)) +:+
  "," +:+ member_line "exp" (itoa (pl_ExpiresAt p)) +:+
  "," +:+ member_line "op" (json_string (pl_OperationName p)) +:+
  "," +:+ member_line "rid" (itoa (pl_RequestID p)) +:+
  "," +:+ member_line "v" (itoa (pl_Version p)) +:+ "}".

(** [Issue]. *)
Definition Issue (secret : string) (payload : Payload) : result string :=
  let secret := TrimSpace secret in
  if bool_decide (secret = "") then Err (errorf "secret is required")
  else
    let body := b64_encode (to_bytes (marshalCanonicalPayload payload)) in
    let digest := hmacSHA256Hex secret body in
    Ok (Prefix +:+ "." +:+ body +:+ "." +:+ digest).

Section Verify.
Context `{JsonSyntax}.

Definition unmarshalPayload (v : json) : result Payload :=
  do! fs := members v in
  do! ver := dec_field (dec_int 64) "v" fs 0%Z in
  do! rid := dec_field (dec_int 64) "rid" fs 0%Z in
  do! op := dec_field dec_string "op" fs "" in
  do! by_ := dec_field dec_string "by" fs "" in
  do! at_ := dec_field dec_string "at" fs "" in
  do! exp := dec_field (dec_int 64) "exp" fs 0%Z in
  Ok {| pl_Version := ver; pl_RequestID := rid; pl_OperationName := op; pl_ApprovedBy := by_;
        pl_ApprovedAt := at_; pl_ExpiresAt := exp |}.

Definition decodePayload (body : string) : result Payload :=
  match b64_decode body with
  | Err e => Err (wrapf "decode approval claim payload" e)
  | Ok raw =>
      match (do! v := json_parse (of_bytes raw) in unmarshalPayload v) with
      | Err e => Err (wrapf "parse approval claim payload" e)
      | Ok p => Ok p
      end
  end.

(** [Verify]. *)
Definition Verify (now : Z) (secret claim operationName : string) : result unit :=
  let secret := TrimSpace secret in
  if bool_decide (secret = "") then
    Err (errorf "approval claim verification requires a configured secret")
  else
    let claim := TrimSpace claim in
    if bool_decide (claim = "") then Err (errorf "approval claim is empty")
    else
      do! (prefix, body, digest) := splitClaim claim in
      if negb (bool_decide (prefix = Prefix)) then
        Err (errorf ("unsupported approval claim prefix " +:+ quote prefix))
      else
        let expected := hmacSHA256Hex secret body in
        if negb (bool_decide (expected = digest)) then
          Err (errorf "approval claim signature mismatch")
        else
          do! payload := decodePayload body in
          if negb (bool_decide (pl_Version payload = 1%Z)) then
            Err (errorf ("unsupported approval claim version " +:+ itoa (pl_Version payload)))
          else if negb (bool_decide (TrimSpace (pl_OperationName payload) = TrimSpace operationName))
          then Err (errorf ("approval claim operation " +:+ quote (pl_OperationName payload) +:+
                            " does not match " +:+ quote operationName))
          else if bool_decide (pl_ExpiresAt payload < now)%Z then
            Err (errorf "approval claim expired")
          else Ok tt.

(** ** approvals.go *)

Definition Required (op : Operation) : bool :=
  match os_Approvals (op_Spec op) with
  | Some a => ap_Required a
  | None => false
  end ||
  match Lookup (op_Type op) (op_Engine op) with
  | Some tpl => tpl_RequiresApproval tpl
  | None => false
  end.

Definition Claim (op : Operation) : string :=
  match os_Approvals (op_Spec op) with
  | None => ""
  | Some a => TrimSpace (ap_Claim a)
  end.

Definition ValidateClaim (now : Z) (secret claim operationName : string) : result unit :=
  if bool_decide (TrimSpace claim = "") then Ok tt else Verify now secret claim operationName.

Definition NeedsApprovalCheck (op : Operation) : bool :=
  bool_decide (op_Phase op = "") || bool_decide (op_Phase op = PhasePending).

(** [BlockReason]: [None] does not block. *)
Definition BlockReason (now : Z) (op : Operation) (secret : string) : option string :=
  if negb (Required op) then None
  else
    let claim := Claim op in
    if bool_decide (claim = "") then Some "approval claim required"
    else
      let secret := TrimSpace secret in
      if bool_decide (secret = "") then
        Some "approval claim present but operator approval-claim-secret is not configured"
      else
        match Verify now secret claim (op_Name op) with
        | Err e => Some ("invalid approval claim: " +:+ emsg e)
        | Ok _ => None
        end.

(** ** What an accepted claim is *)

(** A claim that the holder of the secret signed for this operation and that
    has not expired. *)
Definition valid_claim (now : Z) (secret claim operationName : string) : Prop :=
  TrimSpace secret ≠ "" ∧
  ∃ body payload,
    TrimSpace claim = Prefix +:+ "." +:+ body +:+ "." +:+ hmacSHA256Hex (TrimSpace secret) body ∧
    no_byte dot body = true ∧
    decodePayload body = Ok payload ∧
    pl_Version payload = 1%Z ∧
    TrimSpace (pl_OperationName payload) = TrimSpace operationName ∧
    (now ≤ pl_ExpiresAt payload)%Z.

Lemma dot_app s : "." +:+ s = String dot s.
Proof. done. Qed.

Lemma splitClaim_join a b c :
  no_byte dot a = true → no_byte dot b = true → no_byte dot c = true →
  splitClaim (a +:+ "." +:+ b +:+ "." +:+ c) = Ok (a, b, c).
Proof.
  intros Ha Hb Hc. unfold splitClaim. rewrite !dot_app, !Split_join by done.
  by rewrite Split_none.
Qed.

Lemma Split_no_byte s c w : w ∈ Split s c → no_byte c w = true.
Proof.
  revert w. induction s as [|x s IH]; intros w; simpl.
  - rewrite list_elem_of_singleton. by intros ->.
  - case_bool_decide as Hx.
    + rewrite elem_of_cons. intros [->|Hw]; [done|by apply IH].
    + destruct (Split s c) as [|v ws] eqn:Hs; [by destruct (Split_nonempty s c)|].
      rewrite elem_of_cons. intros [->|Hw].
      * apply no_byte_cons. split; [done|]. apply IH. by left.
      * apply IH. by right.
Qed.

Lemma Split_inv s c :
  ∀ ws, Split s c = ws → s = String.concat (String c "") ws.
Proof.
  induction s as [|x s IH]; intros ws <-; simpl; [done|].
  case_bool_decide as Hx.
  - subst x. destruct (Split s c) as [|v ws] eqn:Hs; [by destruct (Split_nonempty s c)|].
    rewrite (IH _ eq_refl) at 1. by destruct ws.
  - destruct (Split s c) as [|v ws] eqn:Hs; [by destruct (Split_nonempty s c)|].
    rewrite (IH _ eq_refl) at 1. by destruct ws.
Qed.

Lemma splitClaim_inv claim a b c :
  splitClaim claim = Ok (a, b, c) →
  claim = a +:+ "." +:+ b +:+ "." +:+ c ∧ no_byte dot b = true.
Proof.
  unfold splitClaim. destruct (Split claim dot) as [|? [|? [|? [|]]]] eqn:Hs; try done.
  intros [= -> -> ->]. split.
  - rewrite (Split_inv _ _ _ Hs). done.
  - apply (Split_no_byte claim dot). rewrite Hs. set_solver.
Qed.

Lemma hmacSHA256Hex_no_dot secret body : no_byte dot (hmacSHA256Hex secret body) = true.
Proof. apply hex_encode_no_byte; [exact dot_not_hex|apply hmac_digest]. Qed.

#[local] Opaque hmacSHA256Hex TrimSpace.

Lemma Verify_valid_claim now secret claim operationName :
  Verify now secret claim operationName = Ok tt ↔ valid_claim now secret claim operationName.
Proof.
  unfold Verify, valid_claim. split.
  - case_bool_decide as H1; [done|]. case_bool_decide as H2; [done|].
    destruct (splitClaim (TrimSpace claim)) as [[[p b] d]|] eqn:Hs; [|done].
    case_bool_decide as H3; [|done]. case_bool_decide as H4; [|done]. simpl.
    destruct (decodePayload b) as [pl|] eqn:Hd; [|done].
    case_bool_decide as H5; [|done]. case_bool_decide as H6; [|done]. simpl.
    case_bool_decide as H7; [done|]. intros _.
    apply splitClaim_inv in Hs as [Hs Hb]. split; [done|]. exists b, pl. subst.
    split_and!; try done. lia.
  - intros (H1 & b & pl & Hc & Hb & Hd & H5 & H6 & H7).
    rewrite (bool_decide_eq_false_2 (TrimSpace secret = "")) by done.
    rewrite Hc, (splitClaim_join Prefix b) by (done || apply hmacSHA256Hex_no_dot).
    rewrite (bool_decide_eq_false_2 (_ = "")) by done.
    rewrite (bool_decide_eq_true_2 (Prefix = Prefix)) by done. simpl.
    rewrite (bool_decide_eq_true_2 (_ = hmacSHA256Hex _ _)) by done. simpl.
    rewrite Hd, (bool_decide_eq_true_2 _ H5), (bool_decide_eq_true_2 _ H6). simpl.
    rewrite bool_decide_eq_false_2 by lia. done.
Qed.

#[local] Transparent hmacSHA256Hex TrimSpace.

End Verify.

(** ** Theorems *)

#[local] Opaque hmacSHA256Hex TrimSpace marshalCanonicalPayload.

(** C13: the approval gate is exact: an operation passes it if and only if it
    needs no approval or carries a claim that is signed with the configured
    secret, of version 1, issued for this operation's name and not expired.
    Every restore by Velero needs one, whatever its spec says. *)
Theorem approval_gate_exact `{JsonSyntax} (now : Z) (op : Operation) (secret : string) :
  (BlockReason now op secret = None ↔
     Required op = false ∨
     ∃ a, os_Approvals (op_Spec op) = Some a ∧
          valid_claim now secret (ap_Claim a) (op_Name op)) ∧
  (op_Type op = OperationTypeRestore → op_Engine op = EngineVelero → Required op = true).
Proof.
  split.
  - unfold BlockReason. destruct (Required op) eqn:Hr; simpl; [|naive_solver].
    unfold Claim. destruct (os_Approvals (op_Spec op)) as [a|].
    2: { rewrite bool_decide_eq_true_2 by done. split; [done|]. intros [?|(? & ? & _)]; done. }
    assert (Hv : Verify now (TrimSpace secret) (TrimSpace (ap_Claim a)) (op_Name op) = Ok tt ↔
      valid_claim now secret (ap_Claim a) (op_Name op)).
    { rewrite Verify_valid_claim. unfold valid_claim. by rewrite !TrimSpace_idemp. }
    case_bool_decide as Hc.
    { split; [done|]. intros [?|(? & [= <-] & (_ & b & pl & He & _))]; [done|].
      rewrite Hc in He. done. }
    case_bool_decide as Hs.
    { split; [done|]. intros [?|(? & [= <-] & (Hs' & _))]; done. }
    destruct (Verify now (TrimSpace secret) (TrimSpace (ap_Claim a)) (op_Name op)) as [[]|e] eqn:He.
    + split; [|done]. intros _. right. exists a. split; [done|]. by apply Hv.
    + split; [done|]. intros [?|(? & [= <-] & Hx)]; [done|]. by apply Hv in Hx.
  - intros Ht He. unfold Required. rewrite Ht, He. apply orb_true_iff. by right.
Qed.

(** C11: a claim is bound to one operation name: if the same claim is accepted
    for two names, at whatever times and with whatever secrets, the names agree
    up to surrounding space; and a claim accepted now was acceptable at any
    earlier time, so expiry is the only way time invalidates it. *)
Theorem claim_binds_operation `{JsonSyntax}
    (now1 now2 : Z) (secret1 secret2 claim name1 name2 : string) :
  Verify now1 secret1 claim name1 = Ok tt →
  (Verify now2 secret2 claim name2 = Ok tt → TrimSpace name1 = TrimSpace name2) ∧
  ((now2 ≤ now1)%Z → Verify now2 secret1 claim name1 = Ok tt).
Proof.
  intros H1%Verify_valid_claim. split.
  - intros H2%Verify_valid_claim.
    destruct H1 as (_ & b1 & p1 & Hc1 & Hb1 & Hd1 & _ & Hn1 & _).
    destruct H2 as (_ & b2 & p2 & Hc2 & Hb2 & Hd2 & _ & Hn2 & _).
    assert (Hs := splitClaim_join Prefix b1 _ eq_refl Hb1
      (hmacSHA256Hex_no_dot (TrimSpace secret1) b1)).
    rewrite <-Hc1, Hc2, splitClaim_join in Hs by (done || apply hmacSHA256Hex_no_dot).
    injection Hs as -> _. congruence.
  - intros Hle. apply Verify_valid_claim.
    destruct H1 as (Hs & b1 & p1 & H1). split; [done|]. exists b1, p1.
    destruct H1 as (? & ? & ? & ? & ? & ?). split_and!; try done. lia.
Qed.

(** The document that [marshalCanonicalPayload] writes. *)
Definition payload_document (p : Payload) : json :=
  JObj [("at", JStr (pl_ApprovedAt p)); ("by", JStr (pl_ApprovedBy p));
        ("exp", JNum (itoa (pl_ExpiresAt p))); ("op", JStr (pl_OperationName p));
        ("rid", JNum (itoa (pl_RequestID p))); ("v", JNum (itoa (pl_Version p)))].

Definition int64 (z : Z) : Prop := (- 2 ^ 63 ≤ z < 2 ^ 63)%Z.

Lemma unmarshal_payload_document `{JsonSyntax} p :
  int64 (pl_Version p) → int64 (pl_RequestID p) → int64 (pl_ExpiresAt p) →
  unmarshalPayload (payload_document p) = Ok p.
Proof.
  intros Hv Hr He. unfold unmarshalPayload, payload_document. cbn [members].
  cbn -[dec_int itoa dec_string]. rewrite !dec_int_itoa by done. by destruct p.
Qed.

Lemma claim_TrimSpace body secret :
  TrimSpace (Prefix +:+ "." +:+ body +:+ "." +:+ hmacSHA256Hex secret body) =
  Prefix +:+ "." +:+ body +:+ "." +:+ hmacSHA256Hex secret body.
Proof.
  assert (∃ t n, (n < 16)%nat ∧
    hmacSHA256Hex secret body = t +:+ String (hex_digit n) "") as (t & n & Hn & ->).
  { Transparent hmacSHA256Hex. unfold hmacSHA256Hex. Opaque hmacSHA256Hex.
    destruct (hmac_digest (to_bytes secret) (to_bytes body)) as [Hb Hl].
    set (d := hmac _ _) in *. clearbody d.
    induction d as [|z d _] using rev_ind; [done|].
    exists (hex_encode d +:+ String (hex_digit (Z.to_nat (z / 16))) "").
    exists (Z.to_nat (z `mod` 16)). split.
    - pose proof (Z.mod_pos_bound z 16 ltac:(lia)). lia.
    - clear. rewrite app_String_assoc. induction d as [|y d IH]; [done|].
      change ((y :: d) ++ [z]) with (y :: d ++ [z]).
      by rewrite !hex_encode_cons, IH, app_String_assoc. }
  unfold Prefix. change ("vws1" +:+ ?x) with (String (byte 118) ("ws1" +:+ x)).
  eapply (TrimSpace_id _ _ (hex_digit n) ("vws1" +:+ "." +:+ body +:+ "." +:+ t)).
  - done.
  - by do 16 (destruct n as [|n]; [reflexivity|]); lia.
  - rewrite !app_String_assoc. done.
Qed.

(** C12: claims round trip: what [Issue] signs for an operation, [Verify] accepts
    for that operation until it expires, with the same secret.  The hypothesis
    on the parser is that it reads back the document the encoder wrote. *)
Theorem issue_verify_roundtrip `{JsonSyntax} (now : Z) (secret claim : string) (p : Payload) :
  Issue secret p = Ok claim →
  json_parse (marshalCanonicalPayload p) = Ok (payload_document p) →
  pl_Version p = 1%Z → int64 (pl_RequestID p) → int64 (pl_ExpiresAt p) →
  (now ≤ pl_ExpiresAt p)%Z →
  Verify now secret claim (pl_OperationName p) = Ok tt.
Proof.
  intros Hi Hp Hv Hr He Hn. apply Verify_valid_claim. unfold Issue in Hi.
  case_bool_decide as Hs; [done|]. injection Hi as <-. split; [done|].
  eexists (b64_encode _), p. rewrite claim_TrimSpace. split_and!; try done.
  - apply b64_no_dot, to_bytes_range.
  - unfold decodePayload. rewrite b64_roundtrip by apply to_bytes_range.
    rewrite of_to_bytes, Hp, unmarshal_payload_document; [done|by rewrite Hv|done..].
Qed.

#[local] Transparent hmacSHA256Hex TrimSpace marshalCanonicalPayload.

(** ** Witnesses *)

Definition sample_payload : Payload :=
  {| pl_Version := 1; pl_RequestID := 42; pl_OperationName := "restore-1";
     pl_ApprovedBy := "ops"; pl_ApprovedAt := "2026-01-01T00:00:00Z"; pl_ExpiresAt := 2000000000 |}.

(** A parser that reads the sample document. *)
Definition sample_syntax : JsonSyntax :=
  {| json_parse s := if bool_decide (s = marshalCanonicalPayload sample_payload)
                     then Ok (payload_document sample_payload)
                     else Err (errorf "unexpected input") |}.

Definition sample_claim : string :=
  Eval vm_compute in match Issue " s3cret " sample_payload with Ok c => c | Err _ => "" end.

Lemma issue_verify_roundtrip_witness :
  @Verify sample_syntax 1999999999 " s3cret " sample_claim "restore-1" = Ok tt.
Proof.
  apply (@issue_verify_roundtrip sample_syntax 1999999999 " s3cret " sample_claim sample_payload).
  - vm_compute. reflexivity.
  - vm_compute. reflexivity.
  - reflexivity.
  - unfold int64; simpl; lia.
  - unfold int64; simpl; lia.
  - simpl; lia.
Defined.

Lemma claim_binds_operation_witness :
  (@Verify sample_syntax 5 "s3cret" sample_claim "restore-2" = Ok tt →
     TrimSpace "restore-1" = TrimSpace "restore-2") ∧
  ((5 ≤ 7)%Z → @Verify sample_syntax 5 "s3cret" sample_claim "restore-1" = Ok tt).
Proof.
  apply (@claim_binds_operation sample_syntax 7 5 "s3cret" "s3cret" sample_claim
           "restore-1" "restore-2").
  vm_compute. reflexivity.
Defined.
