(* ===== verification/Engines.v ===== *)
(** * internal/engines: how an operation becomes a workload

    Every engine is an [Engine]: a name and three programs over [kcall].  An
    [Operation] is read only here; the engines never write it. *)

From stdpp Require Import base list strings gmap.
From S2P Require Import Prelude Traces GoStrings Api Json Kube.

(** ** registry.go, errors.go, engine_ref.go, labels.go *)

Record Status := {
  es_Phase : string;
  es_Reason : string;
  es_Message : string;
  es_Outputs : gmap string string;
  es_Done : bool;
  es_Failed : bool
}.

Record Engine := {
  eng_Name : string;
  Materialize : Operation → ApplicationInstance → prog kcall (result unit);
  EngineStatus : Operation → prog kcall (result Status);
  Cancel : Operation → prog kcall (result unit)
}.

Definition Registry : Type := gmap string Engine.

Definition NewRegistry (items : list Engine) : Registry :=
  foldl (λ r e, <[eng_Name e := e]> r) ∅ items.

Definition registry_Get (r : Registry) (name : string) : result Engine :=
  match r !! name with
  | Some e => Ok e
  | None => Err (errorf ("engine " +:+ quote name +:+ " is not registered"))
  end.

Definition registry_Has (r : Registry) (name : string) : bool := bool_decide (is_Some (r !! name)).

Definition ErrWorkloadMissing : error := mkErr "engine workload not found" KWorkloadMissing.
Definition ErrWorkloadOwnership : error :=
  mkErr "engine workload ownership conflict" KWorkloadOwnership.
Definition ErrWorkloadAmbiguous : error := mkErr "ambiguous engine workload" KWorkloadAmbiguous.

Definition SupportsEngineRef (engine : string) : bool :=
  bool_decide (engine = EngineJob) || bool_decide (engine = EngineWorkflow) ||
  bool_decide (engine = EngineHelmHookJob).

Definition EngineResourceKind (engine : string) : string :=
  if bool_decide (engine = EngineJob) || bool_decide (engine = EngineHelmHookJob) then "Job"
  else if bool_decide (engine = EngineWorkflow) then "Workflow"
  else engine.

Definition OperationLabelKey : string := "ops.vworkspace.io/operation".

Definition applyOperationLabels (m : ObjectMeta) (op : Operation) : ObjectMeta :=
  with_labels m (<[OperationLabelKey := op_UID op]> (<[ManagedByKey := ManagedByOperator]> (Labels m))).

(** A missing label reads as the empty string, but a nil label map fails even
    for an operation without UID.  Labels are a map value here, so that an empty map
    counts as nil; this differs from the code only for an operation without UID, and
    the API server gives every object a UID. *)
Definition verifyOperationOwnership (m : ObjectMeta) (op : Operation) : result unit :=
  if bool_decide (Labels m = ∅) || negb (bool_decide (default "" (Labels m !! OperationLabelKey) = op_UID op))
  then Err (wrapf_post ErrWorkloadOwnership "existing engine workload belongs to a different operation")
  else Ok tt.

(** ** namespace.go *)

Definition maxK8sNameLen : nat := 63.

Definition materializedName (op : Operation) : string :=
  let base := op_Namespace op +:+ "--" +:+ op_Name op in
  if bool_decide (String.length base ≤ maxK8sNameLen) then base else op_UID op.

Definition targetNamespace (target : ApplicationInstance) : string :=
  match as_Release (ai_Spec target) with
  | Some r => if bool_decide (rel_Namespace r ≠ "") then rel_Namespace r else ai_Namespace target
  | None => ai_Namespace target
  end.

(** [None] is [skip]. *)
Definition resolveEngineLocationDetailed (op : Operation)
    : prog kcall (result (option (string * string))) :=
  let lookup :=
    let* r := call (GetInstance (op_Namespace op) (op_Target op)) in
    match r with
    | Err e => Ret (if IsNotFound e then Ok None
                    else Err (wrapf "get target ApplicationInstance" e))
    | Ok target => Ret (Ok (Some (targetNamespace target, materializedName op)))
    end in
  match st_EngineRef (op_Status op) with
  | Some ref =>
      if bool_decide (er_Namespace ref ≠ "" ∧ er_Name ref ≠ "")
      then Ret (Ok (Some (er_Namespace ref, er_Name ref))) else lookup
  | None => lookup
  end.

Definition resolveEngineLocationForStatus (op : Operation)
    (fallback : Operation → prog kcall (result (string * string)))
    : prog kcall (result (string * string)) :=
  try* loc := resolveEngineLocationDetailed op catch e => Ret (Err e) in
  match loc with
  | None => fallback op
  | Some loc => Ret (Ok loc)
  end.

Definition resolveEngineLocationForCancel (op : Operation) :=
  resolveEngineLocationDetailed op.

Definition NewEngineResourceRef (op : Operation) (target : ApplicationInstance) (kind : string)
    : EngineResourceRef :=
  {| er_Kind := kind; er_Name := materializedName op; er_Namespace := targetNamespace target |}.

(** ** cleanup.go *)

Definition no_workload (what : string) (op : Operation) : error :=
  wrapf_post ErrWorkloadMissing ("no " +:+ what +:+ " for operation " +:+ op_UID op).
Definition many_workloads (what : string) (op : Operation) : error :=
  wrapf_post ErrWorkloadAmbiguous ("multiple " +:+ what +:+ " labeled for operation " +:+ op_UID op).

Fixpoint delete_jobs (items : list Job) : prog kcall (result unit) :=
  match items with
  | [] => Ret (Ok tt)
  | job :: items =>
      let ns := Namespace (job_Meta job) in
      let name := Name (job_Meta job) in
      let* r := call (DeleteJob ns name) in
      match r with
      | Err e => if IsNotFound e then delete_jobs items
                 else Ret (Err (wrapf ("delete job " +:+ ns +:+ "/" +:+ name) e))
      | Ok _ => delete_jobs items
      end
  end.

Definition deleteJobsLabeledByOperation (op : Operation) : prog kcall (result unit) :=
  try* items := call (ListJobs OperationLabelKey (op_UID op))
    catch e => Ret (Err (wrapf ("list jobs for operation " +:+ op_UID op) e)) in
  delete_jobs items.

Definition findJobLocationByOperationLabel (op : Operation) : prog kcall (result (string * string)) :=
  try* items := call (ListJobs OperationLabelKey (op_UID op))
    catch e => Ret (Err (wrapf ("list jobs for operation " +:+ op_UID op) e)) in
  match items with
  | [] => Ret (Err (no_workload "job" op))
  | [j] => Ret (Ok (Namespace (job_Meta j), Name (job_Meta j)))
  | _ => Ret (Err (many_workloads "jobs" op))
  end.

Definition WorkflowKind : string := "argoproj.io/v1alpha1/Workflow".

Definition findWorkflowLocationByOperationLabel (op : Operation)
    : prog kcall (result (string * string)) :=
  try* items := call (ListObjects WorkflowKind OperationLabelKey (op_UID op))
    catch e => Ret (Err (wrapf ("list workflows for operation " +:+ op_UID op) e)) in
  match items with
  | [] => Ret (Err (no_workload "workflow" op))
  | [w] => Ret (Ok (Namespace (u_Meta w), Name (u_Meta w)))
  | _ => Ret (Err (many_workloads "workflows" op))
  end.

(** The deletion loop over unstructured objects, with the text of its error. *)
Fixpoint delete_objects (what kind : string) (items : list Unstructured)
    : prog kcall (result unit) :=
  match items with
  | [] => Ret (Ok tt)
  | u :: items =>
      let ns := Namespace (u_Meta u) in
      let name := Name (u_Meta u) in
      let* r := call (DeleteObject kind ns name) in
      match r with
      | Err e => if IsNotFound e then delete_objects what kind items
                 else Ret (Err (wrapf ("delete " +:+ what +:+ " " +:+ ns +:+ "/" +:+ name) e))
      | Ok _ => delete_objects what kind items
      end
  end.

Definition deleteWorkflowsLabeledByOperation (op : Operation) : prog kcall (result unit) :=
  try* items := call (ListObjects WorkflowKind OperationLabelKey (op_UID op))
    catch e => Ret (Err (wrapf ("list workflows for operation " +:+ op_UID op) e)) in
  delete_objects "workflow" WorkflowKind items.

(** ** Sorted maps *)

Fixpoint insert_sorted (k : string) (l : list string) : list string :=
  match l with
  | [] => [k]
  | x :: l => if String.leb k x then k :: x :: l else x :: insert_sorted k l
  end.
(** [sort.Strings] of the keys of a map. *)
Definition sorted_keys (m : gmap string string) : list string :=
  foldr insert_sorted [] (map_to_list m).*1.

Definition envFromMap (env : option (gmap string string)) : list EnvVar :=
  let m := default ∅ env in
  (λ k, {| env_Name := k; env_Value := default "" (m !! k) |}) <$> sorted_keys m.

(** ** job.go *)

Definition defaultJobServiceAccount : string := "vworkspace-operation-runner".

Record jobParameters := {
  jp_Image : string;
  jp_Command : list string;
  jp_Args : list string;
  jp_Env : option (gmap string string);
  jp_ServiceAccountName : string;
  jp_BackoffLimit : option Z;
  jp_ActiveDeadlineSeconds : option Z;
  jp_TTLSecondsAfterFinished : option Z
}.

(** [serviceAccountName] of the three parameter types. *)
Definition serviceAccountName (sa : string) : string :=
  if bool_decide (sa ≠ "") then sa else defaultJobServiceAccount.
(** [ttlSecondsAfterFinished] of the two job parameter types. *)
Definition ttlSecondsAfterFinished (ttl : option Z) : option Z :=
  match ttl with Some t => Some t | None => Some 86400%Z end.

Definition statusRunning (outputs : gmap string string) : Status :=
  {| es_Phase := PhaseRunning; es_Reason := "EngineStarted"; es_Message := "";
     es_Outputs := outputs; es_Done := false; es_Failed := false |}.
Definition statusSucceeded (reason : string) (outputs : gmap string string) : Status :=
  {| es_Phase := PhaseSucceeded; es_Reason := reason; es_Message := "";
     es_Outputs := outputs; es_Done := true; es_Failed := false |}.
Definition statusFailed (message : string) (outputs : gmap string string) : Status :=
  {| es_Phase := PhaseFailed; es_Reason := "EngineFailed"; es_Message := message;
     es_Outputs := outputs; es_Done := true; es_Failed := true |}.

Definition JobComplete : string := "Complete".
Definition JobFailed : string := "Failed".

Fixpoint statusFromConditions (name : string) (cs : list JobCondition) : Status :=
  match cs with
  | [] => statusRunning ∅
  | c :: cs =>
      if bool_decide (jc_Type c = JobComplete ∧ jc_Status c = ConditionTrue) then
        statusSucceeded "EngineCompleted" {[ "jobName" := name ]}
      else if bool_decide (jc_Type c = JobFailed ∧ jc_Status c = ConditionTrue) then
        statusFailed (jc_Message c) {[ "jobName" := name ]}
      else statusFromConditions name cs
  end.
Definition statusFromJob (job : Job) : Status :=
  statusFromConditions (Name (job_Meta job)) (job_Conditions job).

Section Engines.
Context `{JsonSyntax} `{KubeLib}.

Definition setOwnerReferenceIfSameNamespace (op : Operation) (m : ObjectMeta) (ns : string)
    : result ObjectMeta :=
  if negb (bool_decide (ns = op_Namespace op)) then Ok m else SetOwnerReference (op_Meta op) m.

Definition createMaterializedJob (op : Operation) (job : Job) (ns : string)
    : prog kcall (result unit) :=
  let name := materializedName op in
  let* r := call (GetJob ns name) in
  match r with
  | Ok existing => Ret (verifyOperationOwnership (job_Meta existing) op)
  | Err e =>
      if negb (IsNotFound e) then Ret (Err (wrapf "get job" e))
      else
        match setOwnerReferenceIfSameNamespace op (with_name (job_Meta job) name) ns with
        | Err e => Ret (Err e)
        | Ok m => call (CreateJob (with_job_meta job m))
        end
  end.

(** [json.Unmarshal(op.Spec.Parameters.Raw, &params)] with its error wrapped. *)
Definition unmarshalParameters {A} (what : string) (op : Operation) (zero : A)
    (dec : list (string * json) → result A) : result A :=
  match os_Parameters (op_Spec op) with
  | None => Ok zero
  | Some raw =>
      match (do! v := json_parse raw in do! fs := members v in dec fs) with
      | Err e => Err (wrapf ("decode " +:+ what) e)
      | Ok a => Ok a
      end
  end.

Definition decodeJobParameters (fs : list (string * json)) : result jobParameters :=
  do! image := dec_field dec_string "image" fs "" in
  do! command := dec_field dec_string_slice "command" fs [] in
  do! args := dec_field dec_string_slice "args" fs [] in
  do! env := dec_field dec_string_map "env" fs None in
  do! sa := dec_field dec_string "serviceAccountName" fs "" in
  do! backoff := dec_field (dec_int_ptr 32) "backoffLimit" fs None in
  do! deadline := dec_field (dec_int_ptr 64) "activeDeadlineSeconds" fs None in
  do! ttl := dec_field (dec_int_ptr 32) "ttlSecondsAfterFinished" fs None in
  Ok {| jp_Image := image; jp_Command := command; jp_Args := args; jp_Env := env;
        jp_ServiceAccountName := sa; jp_BackoffLimit := backoff;
        jp_ActiveDeadlineSeconds := deadline; jp_TTLSecondsAfterFinished := ttl |}.

Definition zeroJobParameters : jobParameters :=
  {| jp_Image := ""; jp_Command := []; jp_Args := []; jp_Env := None; jp_ServiceAccountName := "";
     jp_BackoffLimit := None; jp_ActiveDeadlineSeconds := None;
     jp_TTLSecondsAfterFinished := None |}.

Definition parseJobParameters (op : Operation) : result jobParameters :=
  unmarshalParameters "job parameters" op zeroJobParameters decodeJobParameters.

Definition jobFor (op : Operation) (ns : string) (params : jobParameters) : Job :=
  {| job_Meta := applyOperationLabels (meta_of ns "") op;
     job_BackoffLimit := jp_BackoffLimit params;
     job_ActiveDeadlineSeconds := jp_ActiveDeadlineSeconds params;
     job_TTLSecondsAfterFinished := ttlSecondsAfterFinished (jp_TTLSecondsAfterFinished params);
     job_TemplateMeta := applyOperationLabels (meta_of "" "") op;
     job_RestartPolicy := "Never";
     job_ServiceAccountName := serviceAccountName (jp_ServiceAccountName params);
     job_Containers := [{| ct_Name := "runner"; ct_Image := jp_Image params;
       ct_Command := jp_Command params; ct_Args := jp_Args params;
       ct_Env := envFromMap (jp_Env params) |}];
     job_Conditions := [] |}.

Definition job_Materialize (op : Operation) (target : ApplicationInstance)
    : prog kcall (result unit) :=
  match parseJobParameters op with
  | Err e => Ret (Err e)
  | Ok params =>
      if bool_decide (jp_Image params = "") then Ret (Err (errorf "parameters.image is required"))
      else
        let ns := targetNamespace target in
        createMaterializedJob op (jobFor op ns params) ns
  end.

(** [Status] of the two job engines up to the job they find. *)
Definition locateJob (what : string) (op : Operation) : prog kcall (result Job) :=
  try* (ns, name) := resolveEngineLocationForStatus op findJobLocationByOperationLabel
    catch e => Ret (Err e) in
  let* r := call (GetJob ns name) in
  match r with
  | Err e => Ret (Err (if IsNotFound e then ErrWorkloadMissing else wrapf ("get " +:+ what) e))
  | Ok job => Ret (Ok job)
  end.

Definition job_Status (op : Operation) : prog kcall (result Status) :=
  try* job := locateJob "job" op catch e => Ret (Err e) in
  Ret (check! verifyOperationOwnership (job_Meta job) op; Ok (statusFromJob job)).

(** [Cancel] of both job engines (their bodies are the same). *)
Definition job_Cancel (op : Operation) : prog kcall (result unit) :=
  try* loc := resolveEngineLocationForCancel op catch e => Ret (Err e) in
  match loc with
  | None => deleteJobsLabeledByOperation op
  | Some (ns, name) =>
      let* r := call (GetJob ns name) in
      match r with
      | Err e => if IsNotFound e then deleteJobsLabeledByOperation op else Ret (Err e)
      | Ok job => call (DeleteJob (Namespace (job_Meta job)) (Name (job_Meta job)))
      end
  end.

Definition JobEngine : Engine :=
  {| eng_Name := EngineJob; Materialize := job_Materialize; EngineStatus := job_Status;
     Cancel := job_Cancel |}.

(** ** helm_hook_job.go *)

Definition helmHookNameLabel : string := "ops.vworkspace.io/hook-name".

Record helmHookJobParameters := {
  hp_HookName : string;
  hp_Image : string;
  hp_Command : list string;
  hp_Args : list string;
  hp_ServiceAccountName : string;
  hp_BackoffLimit : option Z;
  hp_ActiveDeadlineSeconds : option Z;
  hp_TTLSecondsAfterFinished : option Z
}.

Definition decodeHelmHookJobParameters (fs : list (string * json)) : result helmHookJobParameters :=
  do! hook := dec_field dec_string "hookName" fs "" in
  do! image := dec_field dec_string "image" fs "" in
  do! command := dec_field dec_string_slice "command" fs [] in
  do! args := dec_field dec_string_slice "args" fs [] in
  do! sa := dec_field dec_string "serviceAccountName" fs "" in
  do! backoff := dec_field (dec_int_ptr 32) "backoffLimit" fs None in
  do! deadline := dec_field (dec_int_ptr 64) "activeDeadlineSeconds" fs None in
  do! ttl := dec_field (dec_int_ptr 32) "ttlSecondsAfterFinished" fs None in
  Ok {| hp_HookName := hook; hp_Image := image; hp_Command := command; hp_Args := args;
        hp_ServiceAccountName := sa; hp_BackoffLimit := backoff;
        hp_ActiveDeadlineSeconds := deadline; hp_TTLSecondsAfterFinished := ttl |}.

Definition zeroHelmHookJobParameters : helmHookJobParameters :=
  {| hp_HookName := ""; hp_Image := ""; hp_Command := []; hp_Args := [];
     hp_ServiceAccountName := ""; hp_BackoffLimit := None; hp_ActiveDeadlineSeconds := None;
     hp_TTLSecondsAfterFinished := None |}.

Definition parseHelmHookJobParameters (op : Operation) : result helmHookJobParameters :=
  unmarshalParameters "helmHookJob parameters" op zeroHelmHookJobParameters
    decodeHelmHookJobParameters.

Definition hookJobFor (op : Operation) (ns : string) (params : helmHookJobParameters) : Job :=
  let hook_labels := {[ helmHookNameLabel := hp_HookName params ]} in
  {| job_Meta := applyOperationLabels
       (with_annotations (with_labels (meta_of ns "") hook_labels)
          {[ "helm.sh/hook" := hp_HookName params ]}) op;
     job_BackoffLimit := hp_BackoffLimit params;
     job_ActiveDeadlineSeconds := hp_ActiveDeadlineSeconds params;
     job_TTLSecondsAfterFinished := ttlSecondsAfterFinished (hp_TTLSecondsAfterFinished params);
     job_TemplateMeta := applyOperationLabels (with_labels (meta_of "" "") hook_labels) op;
     job_RestartPolicy := "Never";
     job_ServiceAccountName := serviceAccountName (hp_ServiceAccountName params);
     job_Containers := [{| ct_Name := "hook"; ct_Image := hp_Image params;
       ct_Command := hp_Command params; ct_Args := hp_Args params; ct_Env := [] |}];
     job_Conditions := [] |}.

Definition hook_Materialize (op : Operation) (target : ApplicationInstance)
    : prog kcall (result unit) :=
  match parseHelmHookJobParameters op with
  | Err e => Ret (Err e)
  | Ok params =>
      if bool_decide (hp_HookName params = "") then
        Ret (Err (errorf "parameters.hookName is required"))
      else if bool_decide (hp_Image params = "") then
        Ret (Err (errorf "parameters.image is required until hook template resolution is implemented"))
      else
        let ns := targetNamespace target in
        createMaterializedJob op (hookJobFor op ns params) ns
  end.

Definition hookStatusFromJob (op : Operation) (job : Job) : result Status :=
  check! verifyOperationOwnership (job_Meta job) op;
  let s := statusFromJob job in
  Ok {| es_Phase := es_Phase s; es_Reason := es_Reason s; es_Message := es_Message s;
        es_Outputs := <["jobName" := Name (job_Meta job)]> (es_Outputs s);
        es_Done := es_Done s; es_Failed := es_Failed s |}.

Definition hook_Status (op : Operation) : prog kcall (result Status) :=
  try* job := locateJob "hook job" op catch e => Ret (Err e) in
  Ret (hookStatusFromJob op job).

Definition HelmHookJobEngine : Engine :=
  {| eng_Name := EngineHelmHookJob; Materialize := hook_Materialize; EngineStatus := hook_Status;
     Cancel := job_Cancel |}.

(** ** workflow.go *)

Record workflowParameters := {
  wp_WorkflowTemplate : string;
  wp_Template : string;
  wp_WorkflowTemplateParameters : option (gmap string string);
  wp_ServiceAccountName : string
}.

Definition decodeWorkflowParameters (fs : list (string * json)) : result workflowParameters :=
  do! wt := dec_field dec_string "workflowTemplate" fs "" in
  do! t := dec_field dec_string "template" fs "" in
  do! ps := dec_field dec_string_map "workflowTemplateParameters" fs None in
  do! sa := dec_field dec_string "serviceAccountName" fs "" in
  Ok {| wp_WorkflowTemplate := wt; wp_Template := t; wp_WorkflowTemplateParameters := ps;
        wp_ServiceAccountName := sa |}.

Definition parseWorkflowParameters (op : Operation) : result workflowParameters :=
  unmarshalParameters "workflow parameters" op
    {| wp_WorkflowTemplate := ""; wp_Template := ""; wp_WorkflowTemplateParameters := None;
       wp_ServiceAccountName := "" |} decodeWorkflowParameters.

Definition templateName (p : workflowParameters) : string :=
  if bool_decide (wp_WorkflowTemplate p ≠ "") then wp_WorkflowTemplate p else wp_Template p.

(** [SetNestedField] and its variants on the object itself. *)
Definition set_field (v : json) (p : list string) (u : Unstructured) : result Unstructured :=
  do! o := SetNestedField (u_Object u) v p in Ok (with_u_object u o).

Definition set_if (b : bool) (v : json) (p : list string) (u : Unstructured) : result Unstructured :=
  if b then set_field v p u else Ok u.

Definition strings (l : list string) : json := JArr (JStr <$> l).

(** The body of the workflow, after its owner reference. *)
Definition workflowBody (templateName_ : string) (params : workflowParameters) (wf : Unstructured)
    : result Unstructured :=
  let ps := default ∅ (wp_WorkflowTemplateParameters params) in
  do! wf := set_field (JObj [("name", JStr templateName_)]) ["spec"; "workflowTemplateRef"] wf in
  let sa := serviceAccountName (wp_ServiceAccountName params) in
  do! wf := set_if (bool_decide (sa ≠ "")) (JStr sa) ["spec"; "serviceAccountName"] wf in
  set_if (negb (bool_decide (ps = ∅)))
    (JArr ((λ k, JObj [("name", JStr k); ("value", JStr (default "" (ps !! k)))]) <$> sorted_keys ps))
    ["spec"; "arguments"; "parameters"] wf.

Definition workflow_Materialize (op : Operation) (target : ApplicationInstance)
    : prog kcall (result unit) :=
  match parseWorkflowParameters op with
  | Err e => Ret (Err e)
  | Ok params =>
      let tn := templateName params in
      if bool_decide (tn = "") then Ret (Err (errorf "parameters.workflowTemplate is required"))
      else
        let ns := targetNamespace target in
        let name := materializedName op in
        let wf := {| u_Kind := WorkflowKind;
                     u_Meta := applyOperationLabels (meta_of ns name) op; u_Object := [] |} in
        let* r := call (GetObject WorkflowKind ns name) in
        match r with
        | Ok existing => Ret (verifyOperationOwnership (u_Meta existing) op)
        | Err e =>
            if negb (IsNotFound e) then Ret (Err (wrapf "get workflow" e))
            else
              match (do! m := setOwnerReferenceIfSameNamespace op (u_Meta wf) ns in
                     workflowBody tn params (with_u_meta wf m)) with
              | Err e => Ret (Err e)
              | Ok wf =>
                  try* _ := call (CreateObject wf)
                    catch e => Ret (Err (wrapf "create workflow" e)) in
                  Ret (Ok tt)
              end
        end
  end.

Definition workflowStatus (wf : Unstructured) : Status :=
  let phase := NestedString (u_Object wf) ["status"; "phase"] in
  let outputs := {[ "workflowName" := Name (u_Meta wf) ]} in
  if bool_decide (phase = "Succeeded") then statusSucceeded "EngineCompleted" outputs
  else if bool_decide (phase = "Skipped") then statusSucceeded "EngineSkipped" outputs
  else if bool_decide (phase ∈ ["Failed"; "Error"; "Terminated"]) then
    statusFailed (NestedString (u_Object wf) ["status"; "message"]) outputs
  else statusRunning outputs.

Definition workflow_Status (op : Operation) : prog kcall (result Status) :=
  try* (ns, name) := resolveEngineLocationForStatus op findWorkflowLocationByOperationLabel
    catch e => Ret (Err e) in
  let* r := call (GetObject WorkflowKind ns name) in
  match r with
  | Err e => Ret (Err (if IsNotFound e then ErrWorkloadMissing else wrapf "get workflow" e))
  | Ok wf => Ret (check! verifyOperationOwnership (u_Meta wf) op; Ok (workflowStatus wf))
  end.

Definition workflow_Cancel (op : Operation) : prog kcall (result unit) :=
  try* loc := resolveEngineLocationForCancel op catch e => Ret (Err e) in
  match loc with
  | None => deleteWorkflowsLabeledByOperation op
  | Some (ns, name) =>
      let* r := call (GetObject WorkflowKind ns name) in
      match r with
      | Err e => if IsNotFound e then deleteWorkflowsLabeledByOperation op else Ret (Err e)
      | Ok wf => call (DeleteObject WorkflowKind (Namespace (u_Meta wf)) (Name (u_Meta wf)))
      end
  end.

Definition WorkflowEngine : Engine :=
  {| eng_Name := EngineWorkflow; Materialize := workflow_Materialize;
     EngineStatus := workflow_Status; Cancel := workflow_Cancel |}.

(** ** velero.go *)

Record veleroParameters := {
  vp_Retention : string;
  vp_TTL : string;
  vp_SnapshotClassName : string;
  vp_CSISnapshotClassName : string;
  vp_SnapshotVolumes : option bool;
  vp_StorageLocation : string;
  vp_IncludedResources : list string;
  vp_ExcludedResources : list string;
  vp_BackupName : string;
  vp_NamespaceMapping : option (gmap string string);
  vp_RestorePVs : option bool;
  vp_ExistingResourcePolicy : string
}.

Definition decodeVeleroParameters (fs : list (string * json)) : result veleroParameters :=
  do! retention := dec_field dec_string "retention" fs "" in
  do! ttl := dec_field dec_string "ttl" fs "" in
  do! sc := dec_field dec_string "snapshotClassName" fs "" in
  do! csi := dec_field dec_string "csiSnapshotClassName" fs "" in
  do! sv := dec_field dec_bool_ptr "snapshotVolumes" fs None in
  do! sl := dec_field dec_string "storageLocation" fs "" in
  do! inc := dec_field dec_string_slice "includedResources" fs [] in
  do! exc := dec_field dec_string_slice "excludedResources" fs [] in
  do! bn := dec_field dec_string "backupName" fs "" in
  do! nm := dec_field dec_string_map "namespaceMapping" fs None in
  do! pvs := dec_field dec_bool_ptr "restorePVs" fs None in
  do! pol := dec_field dec_string "existingResourcePolicy" fs "" in
  Ok {| vp_Retention := retention; vp_TTL := ttl; vp_SnapshotClassName := sc;
        vp_CSISnapshotClassName := csi; vp_SnapshotVolumes := sv; vp_StorageLocation := sl;
        vp_IncludedResources := inc; vp_ExcludedResources := exc; vp_BackupName := bn;
        vp_NamespaceMapping := nm; vp_RestorePVs := pvs; vp_ExistingResourcePolicy := pol |}.

Definition zeroVeleroParameters : veleroParameters :=
  {| vp_Retention := ""; vp_TTL := ""; vp_SnapshotClassName := ""; vp_CSISnapshotClassName := "";
     vp_SnapshotVolumes := None; vp_StorageLocation := ""; vp_IncludedResources := [];
     vp_ExcludedResources := []; vp_BackupName := ""; vp_NamespaceMapping := None;
     vp_RestorePVs := None; vp_ExistingResourcePolicy := "" |}.

Definition parseVeleroParameters (op : Operation) : result veleroParameters :=
  unmarshalParameters "velero parameters" op zeroVeleroParameters decodeVeleroParameters.

Definition backupTTL (p : veleroParameters) : string :=
  if bool_decide (vp_Retention p ≠ "") then vp_Retention p else vp_TTL p.
Definition csiSnapshotClassName (p : veleroParameters) : string :=
  if bool_decide (vp_CSISnapshotClassName p ≠ "") then vp_CSISnapshotClassName p
  else vp_SnapshotClassName p.

Definition DefaultVeleroNamespace : string := "velero".

(** [veleroNamespace]; the constructors replace an empty namespace too. *)
Definition veleroNamespace (ns : string) : string :=
  if bool_decide (ns = "") then DefaultVeleroNamespace else ns.

Definition VeleroBackup : string := "velero.io/v1/Backup".
Definition VeleroRestore : string := "velero.io/v1/Restore".

Definition outputKey (opType : string) : string :=
  if bool_decide (opType = OperationTypeRestore) then "restoreName" else "backupName".

Definition toStringMap (m : gmap string string) : list (string * json) :=
  (λ kv, (kv.1, JStr kv.2)) <$> map_to_list m.

(** Labels and owner reference, the first steps of both mutate functions. *)
Definition adopt (op : Operation) (u : Unstructured) : result Unstructured :=
  let m := applyOperationLabels (u_Meta u) op in
  if bool_decide (op_Namespace op = Namespace m) then
    do! m := SetOwnerReference (op_Meta op) m in Ok (with_u_meta u m)
  else Ok (with_u_meta u m).

Definition bool_field (b : option bool) (p : list string) (u : Unstructured) : result Unstructured :=
  match b with Some b => set_field (JBool b) p u | None => Ok u end.

Definition mutateBackup (op : Operation) (target : ApplicationInstance) (params : veleroParameters)
    (backup : Unstructured) : result Unstructured :=
  do! u := adopt op backup in
  do! u := set_field (strings [targetNamespace target]) ["spec"; "includedNamespaces"] u in
  let storageLocation := if bool_decide (vp_StorageLocation params = "") then "default"
                         else vp_StorageLocation params in
  do! u := set_field (JStr storageLocation) ["spec"; "storageLocation"] u in
  do! u := bool_field (vp_SnapshotVolumes params) ["spec"; "snapshotVolumes"] u in
  let csiClass := csiSnapshotClassName params in
  do! u := set_if (bool_decide (csiClass ≠ "")) (JStr csiClass) ["spec"; "csiSnapshotClassName"] u in
  do! u := set_if (bool_decide (vp_IncludedResources params ≠ []))
             (strings (vp_IncludedResources params)) ["spec"; "includedResources"] u in
  do! u := set_if (bool_decide (vp_ExcludedResources params ≠ []))
             (strings (vp_ExcludedResources params)) ["spec"; "excludedResources"] u in
  let ttl := backupTTL params in
  set_if (bool_decide (ttl ≠ "")) (JStr ttl) ["spec"; "ttl"] u.

Definition materializeBackup (veleroNS : string) (op : Operation) (target : ApplicationInstance)
    (params : veleroParameters) : prog kcall (result unit) :=
  call (CreateOrUpdate VeleroBackup (veleroNamespace veleroNS) (op_Name op)
          (mutateBackup op target params)).

Definition mutateRestore (op : Operation) (params : veleroParameters) (restore : Unstructured)
    : result Unstructured :=
  do! u := adopt op restore in
  do! u := set_field (JStr (vp_BackupName params)) ["spec"; "backupName"] u in
  do! u := match vp_NamespaceMapping params with
           | Some m => set_field (JObj (toStringMap m)) ["spec"; "namespaceMapping"] u
           | None => Ok u
           end in
  do! u := bool_field (vp_RestorePVs params) ["spec"; "restorePVs"] u in
  do! u := set_if (bool_decide (vp_ExistingResourcePolicy params ≠ ""))
             (JStr (vp_ExistingResourcePolicy params)) ["spec"; "existingResourcePolicy"] u in
  do! u := set_if (bool_decide (vp_IncludedResources params ≠ []))
             (strings (vp_IncludedResources params)) ["spec"; "includedResources"] u in
  set_if (bool_decide (vp_ExcludedResources params ≠ []))
    (strings (vp_ExcludedResources params)) ["spec"; "excludedResources"] u.

Definition materializeRestore (veleroNS : string) (op : Operation) (target : ApplicationInstance)
    (params : veleroParameters) : prog kcall (result unit) :=
  if bool_decide (vp_BackupName params = "") then
    Ret (Err (errorf "parameters.backupName is required for restore operations"))
  else
    call (CreateOrUpdate VeleroRestore (veleroNamespace veleroNS) (op_Name op)
            (mutateRestore op params)).

Definition velero_Materialize (veleroNS : string) (op : Operation) (target : ApplicationInstance)
    : prog kcall (result unit) :=
  match parseVeleroParameters op with
  | Err e => Ret (Err e)
  | Ok params =>
      if bool_decide (op_Type op = OperationTypeBackup) then
        materializeBackup veleroNS op target params
      else if bool_decide (op_Type op = OperationTypeRestore) then
        materializeRestore veleroNS op target params
      else Ret (Err (errorf ("velero engine does not support operation type " +:+ quote (op_Type op))))
  end.

Definition veleroKind (op : Operation) : string :=
  if bool_decide (op_Type op = OperationTypeRestore) then VeleroRestore else VeleroBackup.
Definition veleroKindName (op : Operation) : string :=
  if bool_decide (op_Type op = OperationTypeRestore) then "Restore" else "Backup".

Definition veleroStatus (op : Operation) (obj : Unstructured) : Status :=
  let phase := NestedString (u_Object obj) ["status"; "phase"] in
  if bool_decide (phase = "Completed") then
    statusSucceeded "EngineCompleted" {[ outputKey (op_Type op) := op_Name op ]}
  else if bool_decide (phase ∈ ["Failed"; "PartiallyFailed"]) then
    statusFailed (NestedString (u_Object obj) ["status"; "failureReason"]) ∅
  else statusRunning ∅.

Definition velero_Status (veleroNS : string) (op : Operation) : prog kcall (result Status) :=
  try* obj := call (GetObject (veleroKind op) (veleroNamespace veleroNS) (op_Name op))
    catch e => Ret (Err (wrapf "get velero resource" e)) in
  Ret (Ok (veleroStatus op obj)).

Definition deleteVeleroCRsLabeledByOperation (op : Operation) : prog kcall (result unit) :=
  try* items := call (ListObjects (veleroKind op) OperationLabelKey (op_UID op))
    catch e => Ret (Err (wrapf ("list velero " +:+ veleroKindName op +:+ "s for operation " +:+
                                op_UID op) e)) in
  delete_objects ("velero " +:+ veleroKindName op) (veleroKind op) items.

Definition velero_Cancel (veleroNS : string) (op : Operation) : prog kcall (result unit) :=
  let kind := veleroKindName op in
  let ns := veleroNamespace veleroNS in
  let legacy :=
    let* r := call (DeleteObject (veleroKind op) (op_Namespace op) (op_Name op)) in
    match r with
    | Err e => Ret (if IsNotFound e then Ok tt
                    else Err (wrapf ("delete legacy velero " +:+ kind +:+ " " +:+ op_Namespace op +:+
                                     "/" +:+ op_Name op) e))
    | Ok _ => Ret (Ok tt)
    end in
  let labeled :=
    try* _ := deleteVeleroCRsLabeledByOperation op catch e => Ret (Err e) in legacy in
  let* r := call (DeleteObject (veleroKind op) ns (op_Name op)) in
  match r with
  | Err e => if IsNotFound e then labeled
             else Ret (Err (wrapf ("delete velero " +:+ kind +:+ " " +:+ ns +:+ "/" +:+ op_Name op) e))
  | Ok _ => labeled
  end.

Definition VeleroEngine (veleroNS : string) : Engine :=
  {| eng_Name := EngineVelero; Materialize := velero_Materialize veleroNS;
     EngineStatus := velero_Status veleroNS; Cancel := velero_Cancel veleroNS |}.

(** ** helm.go *)

Record helmParameters := { hep_TargetVersion : string; hep_ValuesPatch : gmap string json }.

Definition parseHelmParameters (op : Operation) : result helmParameters :=
  unmarshalParameters "helm parameters" op {| hep_TargetVersion := ""; hep_ValuesPatch := ∅ |}
    (λ fs, do! v := dec_field dec_string "targetVersion" fs "" in
           do! p := dec_field dec_any_map "valuesPatch" fs ∅ in
           Ok {| hep_TargetVersion := v; hep_ValuesPatch := p |}).

Definition HelmReleaseKind : string := "helm.toolkit.fluxcd.io/v2/HelmRelease".

(** [maps.Copy(dst, src)] *)
Definition maps_copy (dst : list (string * json)) (src : gmap string json) : list (string * json) :=
  foldl (λ m kv, map_put kv.1 kv.2 m) dst (map_to_list src).

Definition mutateHelmRelease (params : helmParameters) (hr : Unstructured) : result Unstructured :=
  do! hr := set_if (bool_decide (hep_TargetVersion params ≠ "")) (JStr (hep_TargetVersion params))
              ["spec"; "chart"; "spec"; "version"] hr in
  if bool_decide (hep_ValuesPatch params = ∅) then Ok hr
  else
    let current := default [] (NestedMap (u_Object hr) ["spec"; "values"]) in
    set_field (JObj (maps_copy current (hep_ValuesPatch params))) ["spec"; "values"] hr.

Definition helm_Materialize (op : Operation) (target : ApplicationInstance)
    : prog kcall (result unit) :=
  match parseHelmParameters op with
  | Err e => Ret (Err e)
  | Ok params =>
      match as_Release (ai_Spec target) with
      | None => Ret (Err (errorf ("target " +:+ quote (ai_Name target) +:+
          " has no release (placeholder instances do not support helm upgrade)")))
      | Some release =>
          try* hr := call (GetObject HelmReleaseKind (ai_Namespace target) (rel_Name release))
            catch e => Ret (Err (wrapf "get helmrelease" e)) in
          call (CreateOrUpdate HelmReleaseKind (Namespace (u_Meta hr)) (Name (u_Meta hr))
                  (mutateHelmRelease params))
      end
  end.

Definition helm_Status (op : Operation) : prog kcall (result Status) := Ret (Ok (statusRunning ∅)).
Definition helm_Cancel (op : Operation) : prog kcall (result unit) := Ret (Ok tt).

Definition HelmEngine : Engine :=
  {| eng_Name := EngineHelm; Materialize := helm_Materialize; EngineStatus := helm_Status;
     Cancel := helm_Cancel |}.

(** ** validation.go *)

Definition DefaultOperationRunnerServiceAccount : string := defaultJobServiceAccount.

Record runtimeParameters := {
  rp_Image : string;
  rp_HookName : string;
  rp_WorkflowTemplate : string;
  rp_Template : string;
  rp_ServiceAccountName : string
}.

Definition decodeRuntimeParameters (fs : list (string * json)) : result runtimeParameters :=
  do! image := dec_field dec_string "image" fs "" in
  do! hook := dec_field dec_string "hookName" fs "" in
  do! wt := dec_field dec_string "workflowTemplate" fs "" in
  do! t := dec_field dec_string "template" fs "" in
  do! sa := dec_field dec_string "serviceAccountName" fs "" in
  Ok {| rp_Image := image; rp_HookName := hook; rp_WorkflowTemplate := wt; rp_Template := t;
        rp_ServiceAccountName := sa |}.

Definition validateRequiredRuntimeFields (engine : string) (params : runtimeParameters)
    : result unit :=
  if bool_decide (engine = EngineJob) then
    if bool_decide (rp_Image params = "") then Err (errorf "parameters.image is required") else Ok tt
  else if bool_decide (engine = EngineHelmHookJob) then
    if bool_decide (rp_HookName params = "") then Err (errorf "parameters.hookName is required")
    else if bool_decide (rp_Image params = "") then Err (errorf "parameters.image is required")
    else Ok tt
  else if bool_decide (engine = EngineWorkflow) then
    if bool_decide (rp_WorkflowTemplate params = "" ∧ rp_Template params = "")
    then Err (errorf "parameters.workflowTemplate is required") else Ok tt
  else Ok tt.

Definition ValidateRuntimeParameters (op : Operation) : result unit :=
  if negb (SupportsEngineRef (op_Engine op)) then Ok tt
  else
    match os_Parameters (op_Spec op) with
    | None => validateRequiredRuntimeFields (op_Engine op)
        {| rp_Image := ""; rp_HookName := ""; rp_WorkflowTemplate := ""; rp_Template := "";
           rp_ServiceAccountName := "" |}
    | Some raw =>
        match (do! v := json_parse raw in do! fs := members v in decodeRuntimeParameters fs) with
        | Err e => Err (wrapf "decode runtime parameters" e)
        | Ok params =>
            check! validateRequiredRuntimeFields (op_Engine op) params;
            if bool_decide (rp_ServiceAccountName params ≠ "" ∧
                            rp_ServiceAccountName params ≠ DefaultOperationRunnerServiceAccount)
            then Err (errorf ("parameters.serviceAccountName must be " +:+
                              quote DefaultOperationRunnerServiceAccount +:+ " or omitted"))
            else Ok tt
        end
    end.

End Engines.

(** The registry that cmd/main.go builds. *)
Definition engineRegistry `{JsonSyntax} `{KubeLib} (veleroNS : string) : Registry :=
  NewRegistry [HelmEngine; VeleroEngine veleroNS; JobEngine; WorkflowEngine; HelmHookJobEngine].
