(* ===== verification/EnginesProofs.v ===== *)
(** * Theorems on the engines

    [EngineContract] is what the reconciler relies on; each engine has an
    instance.  Then: what [Materialize] creates, which service account runs it,
    when two operations share a workload name, and what [Cancel] deletes. *)

From stdpp Require Import base list strings gmap.
From S2P Require Import Prelude Traces GoStrings Api Json Kube Engines.

(** ** The contract of an engine *)

(** A finished status says how it finished; an unfinished one says [Running]. *)
Definition status_wf (s : Status) : Prop :=
  if es_Done s
  then (es_Failed s = true ∧ es_Phase s = PhaseFailed) ∨
       (es_Failed s = false ∧ es_Phase s = PhaseSucceeded)
  else es_Failed s = false ∧ es_Phase s = PhaseRunning.

Class EngineContract (e : Engine) : Prop := {
  contract_status op :
    only (λ X c, reads_only c = true) (EngineStatus e op)
      (λ r, match r with Ok s => status_wf s | Err _ => True end);
  contract_materialize op target :
    only (λ X c, deletes c = false ∧ writes_operation c = false) (Materialize e op target)
      (λ _, True);
  contract_cancel op :
    only (λ X c, creates c = false ∧ writes_operation c = false) (Cancel e op) (λ _, True)
}.

Section OnlyLemmas.
Context (P : ∀ X, kcall X → Prop).

Lemma only_resolve op :
  (∀ ns n, P _ (GetInstance ns n)) → only P (resolveEngineLocationDetailed op) (λ _, True).
Proof. intros. unfold resolveEngineLocationDetailed. only_go; auto. Qed.

Lemma only_resolve_status op fb :
  (∀ ns n, P _ (GetInstance ns n)) → only P (fb op) (λ _, True) →
  only P (resolveEngineLocationForStatus op fb) (λ _, True).
Proof.
  intros. unfold resolveEngineLocationForStatus.
  apply only_bind_any; [by apply only_resolve|]. intros [[loc|]|e]; only_go; auto.
Qed.

Lemma only_delete_jobs items :
  (∀ ns n, P _ (DeleteJob ns n)) → only P (delete_jobs items) (λ _, True).
Proof. intros. induction items as [|j items IH]; cbn [delete_jobs delete_objects]; only_go; auto. Qed.

Lemma only_delete_objects w k items :
  (∀ ns n, P _ (DeleteObject k ns n)) → only P (delete_objects w k items) (λ _, True).
Proof. intros. induction items as [|j items IH]; cbn [delete_jobs delete_objects]; only_go; auto. Qed.

Lemma only_delete_labeled_jobs op :
  (∀ ns n, P _ (DeleteJob ns n)) → (∀ k v, P _ (ListJobs k v)) →
  only P (deleteJobsLabeledByOperation op) (λ _, True).
Proof. intros. unfold deleteJobsLabeledByOperation. only_go; auto using only_delete_jobs. Qed.

Lemma only_delete_labeled_workflows op :
  (∀ ns n, P _ (DeleteObject WorkflowKind ns n)) → (∀ k kv v, P _ (ListObjects k kv v)) →
  only P (deleteWorkflowsLabeledByOperation op) (λ _, True).
Proof.
  intros. unfold deleteWorkflowsLabeledByOperation. only_go; auto using only_delete_objects.
Qed.
End OnlyLemmas.

Lemma statusFromConditions_wf name cs : status_wf (statusFromConditions name cs).
Proof.
  induction cs as [|c cs IH]; simpl; [done|].
  case_bool_decide; [by right|]. case_bool_decide; [by left|]. done.
Qed.

Section Contracts.
Context `{JsonSyntax} `{KubeLib}.

Lemma only_createMaterializedJob (P : ∀ X, kcall X → Prop) op job ns :
  (∀ n, P _ (GetJob ns n)) →
  (∀ m, setOwnerReferenceIfSameNamespace op (with_name (job_Meta job) (materializedName op)) ns = Ok m →
        P _ (CreateJob (with_job_meta job m))) →
  only P (createMaterializedJob op job ns) (λ _, True).
Proof. intros. unfold createMaterializedJob. only_go; auto. Qed.

Lemma only_locateJob (P : ∀ X, kcall X → Prop) what op :
  (∀ ns n, P _ (GetInstance ns n)) → (∀ ns n, P _ (GetJob ns n)) → (∀ k v, P _ (ListJobs k v)) →
  only P (locateJob what op) (λ _, True).
Proof.
  intros. unfold locateJob. apply only_bind_any.
  - apply only_resolve_status; [done|]. unfold findJobLocationByOperationLabel. only_go; auto.
  - intros a. only_go; auto.
Qed.

Lemma only_job_Cancel (P : ∀ X, kcall X → Prop) op :
  (∀ ns n, P _ (GetInstance ns n)) → (∀ ns n, P _ (GetJob ns n)) → (∀ k v, P _ (ListJobs k v)) →
  (∀ ns n, P _ (DeleteJob ns n)) → only P (job_Cancel op) (λ _, True).
Proof.
  intros. unfold job_Cancel, resolveEngineLocationForCancel.
  apply only_bind_any; [by apply only_resolve|]. intros a.
  only_go; auto using only_delete_labeled_jobs.
Qed.

#[export] Instance JobEngine_contract : EngineContract JobEngine.
Proof.
  split; simpl.
  - intros op. unfold job_Status. apply only_bind_any; [by apply only_locateJob|].
    intros [job|e]; only_go; [|done]. destruct (verifyOperationOwnership _ _); [|done].
    apply statusFromConditions_wf.
  - intros op target. unfold job_Materialize. only_go; try done.
    by apply only_createMaterializedJob.
  - intros op. by apply only_job_Cancel.
Qed.

#[export] Instance HelmHookJobEngine_contract : EngineContract HelmHookJobEngine.
Proof.
  split; simpl.
  - intros op. unfold hook_Status. apply only_bind_any; [by apply only_locateJob|].
    intros [job|e]; only_go; [|done]. unfold hookStatusFromJob.
    destruct (verifyOperationOwnership _ _); [|done].
    apply (statusFromConditions_wf (Name (job_Meta job)) (job_Conditions job)).
  - intros op target. unfold hook_Materialize. only_go; try done.
    by apply only_createMaterializedJob.
  - intros op. by apply only_job_Cancel.
Qed.

#[export] Instance WorkflowEngine_contract : EngineContract WorkflowEngine.
Proof.
  split; simpl.
  - intros op. unfold workflow_Status. apply only_bind_any.
    + apply only_resolve_status; [done|]. unfold findWorkflowLocationByOperationLabel.
      only_go; auto.
    + intros a. only_go; auto. destruct (verifyOperationOwnership _ _); [|done].
      unfold workflowStatus. repeat case_bool_decide; (by right) || (by left) || done.
  - intros op target. unfold workflow_Materialize. only_go; auto.
  - intros op. unfold workflow_Cancel, resolveEngineLocationForCancel.
    apply only_bind_any; [by apply only_resolve|]. intros a.
    only_go; auto using only_delete_labeled_workflows.
Qed.

#[export] Instance VeleroEngine_contract ns : EngineContract (VeleroEngine ns).
Proof.
  split; simpl.
  - intros op. unfold velero_Status. only_go; auto.
    unfold veleroStatus. repeat case_bool_decide; (by right) || (by left) || done.
  - intros op target. unfold velero_Materialize, materializeBackup, materializeRestore. only_go; auto.
  - intros op. unfold velero_Cancel, deleteVeleroCRsLabeledByOperation.
    only_go; auto using only_delete_objects.
Qed.

#[export] Instance HelmEngine_contract : EngineContract HelmEngine.
Proof.
  split; simpl.
  - intros op. by apply only_ret.
  - intros op target. unfold helm_Materialize. only_go; auto.
  - intros op. by apply only_ret.
Qed.

(** C18: every engine keeps its contract with the reconciler, whatever the API
    server answers: [Status] only reads and reports a phase consistent with its
    [Done] and [Failed] flags, [Materialize] never deletes anything, [Cancel]
    never creates anything, and none of them writes the [Operation] itself. *)
Theorem engines_keep_contract (veleroNS : string) (e : Engine) :
  e ∈ [JobEngine; HelmHookJobEngine; WorkflowEngine; VeleroEngine veleroNS; HelmEngine] →
  EngineContract e.
Proof. rewrite !elem_of_cons, elem_of_nil. intros Hin. destruct_or! Hin; subst; apply _ || done. Qed.


(** ** What the runtime engines create *)

Definition member_sa (op : Operation) (sa : string) : Prop :=
  match os_Parameters (op_Spec op) with
  | None => sa = ""
  | Some raw => ∃ v fs, json_parse raw = Ok v ∧ members v = Ok fs ∧
                        dec_field dec_string "serviceAccountName" fs "" = Ok sa
  end.

(** Admitted parameters name the runner's service account or none. *)
Lemma runtime_sa op sa :
  ValidateRuntimeParameters op = Ok tt → SupportsEngineRef (op_Engine op) = true →
  member_sa op sa → serviceAccountName sa = DefaultOperationRunnerServiceAccount.
Proof.
  unfold ValidateRuntimeParameters, member_sa. intros Hv Hs Hm. rewrite Hs in Hv. simpl in Hv.
  destruct (os_Parameters (op_Spec op)) as [raw|]; [|by rewrite Hm].
  destruct Hm as (v & fs & Hp & Hf & Hsa). rewrite Hp, Hf in Hv.
  destruct (decodeRuntimeParameters fs) as [rp|] eqn:Hd; [|done].
  unfold decodeRuntimeParameters in Hd. inv_do Hd. simplify_eq. cbn [rp_ServiceAccountName] in Hv.
  destruct (validateRequiredRuntimeFields _ _); [|done].
  case_bool_decide as Hc; [done|]. unfold serviceAccountName.
  case_bool_decide; [|done]. destruct (decide (sa = DefaultOperationRunnerServiceAccount)); [done|].
  by destruct Hc.
Qed.

Lemma unmarshalParameters_inv {A} what op (zero : A) dec a :
  unmarshalParameters what op zero dec = Ok a →
  match os_Parameters (op_Spec op) with
  | None => a = zero
  | Some raw => ∃ v fs, json_parse raw = Ok v ∧ members v = Ok fs ∧ dec fs = Ok a
  end.
Proof.
  unfold unmarshalParameters. destruct (os_Parameters (op_Spec op)) as [raw|]; [|naive_solver].
  destruct (json_parse raw) as [v|]; [|done]. destruct (members v) as [fs|] eqn:Hm; [|done].
  destruct (dec fs) eqn:Hd; [|done]. intros [= <-]. eauto 10.
Qed.

Lemma job_sa op p : parseJobParameters op = Ok p → member_sa op (jp_ServiceAccountName p).
Proof.
  intros Hp%unmarshalParameters_inv. unfold member_sa.
  destruct (os_Parameters (op_Spec op)); [|by subst].
  destruct Hp as (v & fs & ? & ? & Hd). exists v, fs. split_and!; try done.
  unfold decodeJobParameters in Hd. inv_do Hd. by simplify_eq.
Qed.

Lemma hook_sa op p : parseHelmHookJobParameters op = Ok p → member_sa op (hp_ServiceAccountName p).
Proof.
  intros Hp%unmarshalParameters_inv. unfold member_sa.
  destruct (os_Parameters (op_Spec op)); [|by subst].
  destruct Hp as (v & fs & ? & ? & Hd). exists v, fs. split_and!; try done.
  unfold decodeHelmHookJobParameters in Hd. inv_do Hd. by simplify_eq.
Qed.

Lemma workflow_sa op p : parseWorkflowParameters op = Ok p → member_sa op (wp_ServiceAccountName p).
Proof.
  intros Hp%unmarshalParameters_inv. unfold member_sa.
  destruct (os_Parameters (op_Spec op)); [|by subst].
  destruct Hp as (v & fs & ? & ? & Hd). exists v, fs. split_and!; try done.
  unfold decodeWorkflowParameters in Hd. inv_do Hd. by simplify_eq.
Qed.

Context `{!KubeLaws}.

(** Metadata of a workload the operation owns. *)
Definition owned (op : Operation) (target : ApplicationInstance) (m : ObjectMeta) : Prop :=
  Namespace m = targetNamespace target ∧ Name m = materializedName op ∧
  Labels m !! OperationLabelKey = Some (op_UID op) ∧
  Labels m !! ManagedByKey = Some ManagedByOperator.

(** The calls [Materialize] may make: reads, and the creation of one owned
    workload, run by the runner's service account, at a location the server just
    said is free. *)
Definition creates_owned (op : Operation) (target : ApplicationInstance) : permission kcall trace :=
  λ X c g,
    match c with
    | CreateJob j =>
        owned op target (job_Meta j) ∧
        job_ServiceAccountName j = DefaultOperationRunnerServiceAccount ∧
        ∃ e, IsNotFound e = true ∧
          last g = Some (KEvent (GetJob (targetNamespace target) (materializedName op)) (Err e))
    | CreateObject u =>
        u_Kind u = WorkflowKind ∧ owned op target (u_Meta u) ∧
        NestedField (u_Object u) ["spec"; "serviceAccountName"] =
          Some (JStr DefaultOperationRunnerServiceAccount) ∧
        ∃ e, IsNotFound e = true ∧
          last g = Some (KEvent (GetObject WorkflowKind (targetNamespace target)
                                   (materializedName op)) (Err e))
    | c => reads_only c = true
    end.

(** On success a workload of the operation is there: found, and its own, or
    just created. *)
Definition workload_present (op : Operation) (target : ApplicationInstance) (g : trace) : Prop :=
  let ns := targetNamespace target in
  let name := materializedName op in
  (∃ j, last g = Some (KEvent (GetJob ns name) (Ok j)) ∧
        verifyOperationOwnership (job_Meta j) op = Ok tt) ∨
  (∃ j, last g = Some (KEvent (CreateJob j) (Ok tt))) ∨
  (∃ u, last g = Some (KEvent (GetObject WorkflowKind ns name) (Ok u)) ∧
        verifyOperationOwnership (u_Meta u) op = Ok tt) ∨
  (∃ u, last g = Some (KEvent (CreateObject u) (Ok tt))).

Lemma owner_keeps op m ns m' :
  setOwnerReferenceIfSameNamespace op m ns = Ok m' →
  Namespace m' = Namespace m ∧ Name m' = Name m ∧ Labels m' = Labels m.
Proof.
  unfold setOwnerReferenceIfSameNamespace. case_bool_decide; simpl; [|naive_solver].
  intros Hm. apply law_owner in Hm as (us & -> & _). done.
Qed.

Lemma applied_labels m op :
  Labels (applyOperationLabels m op) !! OperationLabelKey = Some (op_UID op) ∧
  Labels (applyOperationLabels m op) !! ManagedByKey = Some ManagedByOperator.
Proof.
  simpl. split; [by rewrite lookup_insert_eq|].
  by rewrite lookup_insert_ne, lookup_insert_eq.
Qed.

Lemma createMaterializedJob_owned op target job :
  (∃ m, job_Meta job = applyOperationLabels m op ∧ Namespace m = targetNamespace target) →
  job_ServiceAccountName job = DefaultOperationRunnerServiceAccount →
  ∀ g, wp traced (creates_owned op target) (createMaterializedJob op job (targetNamespace target))
         (λ r g', r = Ok tt → workload_present op target g') g.
Proof.
  intros (m & Hm & Hns) Hsa g. unfold createMaterializedJob. apply wp_bind. split; [done|].
  intros r g1 ->. destruct r as [existing|e].
  - intros Hv. left. exists existing. by rewrite last_snoc.
  - simpl. destruct (IsNotFound e) eqn:He; simpl; [|done].
    destruct (setOwnerReferenceIfSameNamespace _ _ _) as [m'|e'] eqn:Ho; [|done].
    apply owner_keeps in Ho as (Ho1 & Ho2 & Ho3). rewrite Hm in Ho1, Ho2, Ho3.
    split.
    + split_and!; [|done|exists e; by rewrite last_snoc].
      unfold owned. cbn [job_Meta with_job_meta]. rewrite Ho1, Ho2, Ho3.
      split_and!; [done|done|apply applied_labels..].
    + intros [[]|e2] g2 ->; [|done]. intros _. right. left. eexists. by rewrite last_snoc.
Qed.

Lemma set_field_keeps v p u u' :
  set_field v p u = Ok u' →
  u_Kind u' = u_Kind u ∧ u_Meta u' = u_Meta u ∧ NestedField (u_Object u') p = Some v ∧
  ∀ q, ¬ p `prefix_of` q → ¬ q `prefix_of` p →
       NestedField (u_Object u') q = NestedField (u_Object u) q.
Proof.
  unfold set_field. destruct (SetNestedField _ _ _) eqn:Hs; [|done]. intros [= <-].
  split_and!; try done; cbn [u_Object with_u_object].
  - by apply law_nested_set in Hs.
  - intros q ? ?. by apply (law_nested_other _ _ _ q) in Hs.
Qed.

Lemma set_if_keeps b v p u u' :
  set_if b v p u = Ok u' →
  u_Kind u' = u_Kind u ∧ u_Meta u' = u_Meta u ∧
  (b = true → NestedField (u_Object u') p = Some v) ∧
  ∀ q, ¬ p `prefix_of` q → ¬ q `prefix_of` p →
       NestedField (u_Object u') q = NestedField (u_Object u) q.
Proof.
  destruct b; simpl; [|naive_solver]. intros Hs%set_field_keeps. naive_solver.
Qed.

(** Distinct paths into a spec do not overlap. *)
Ltac disjoint_paths := let k := fresh in let Hk := fresh in intros [k Hk]; discriminate Hk.

Lemma workflowBody_keeps tn params wf wf' :
  workflowBody tn params wf = Ok wf' →
  u_Kind wf' = u_Kind wf ∧ u_Meta wf' = u_Meta wf ∧
  NestedField (u_Object wf') ["spec"; "serviceAccountName"] =
    Some (JStr (serviceAccountName (wp_ServiceAccountName params))).
Proof.
  unfold workflowBody. destruct (set_field _ _ wf) as [w1|] eqn:Hw1; [|done].
  destruct (set_if _ _ _ w1) as [w2|] eqn:Hw2; [|done]. intros Hw3.
  apply set_field_keeps in Hw1 as (? & ? & _ & _).
  apply set_if_keeps in Hw2 as (? & ? & Hsa & _).
  apply set_if_keeps in Hw3 as (? & ? & _ & Hq).
  split_and!; [congruence..|]. rewrite Hq; [|disjoint_paths..].
  apply Hsa, bool_decide_eq_true. clear. unfold serviceAccountName. by case_bool_decide.
Qed.

Lemma workflow_Materialize_owned op target :
  op_Engine op = EngineWorkflow → ValidateRuntimeParameters op = Ok tt →
  wp traced (creates_owned op target) (workflow_Materialize op target)
    (λ r g, r = Ok tt → workload_present op target g) [].
Proof.
  intros He Hv. unfold workflow_Materialize.
  destruct (parseWorkflowParameters op) as [p|] eqn:Hp; [|done].
  case_bool_decide; [done|]. apply wp_bind. split; [done|]. intros r g1 ->.
  destruct r as [existing|e].
  - intros Hx. do 2 right. left. exists existing. done.
  - simpl. destruct (IsNotFound e) eqn:Hn; simpl; [|done].
    destruct (setOwnerReferenceIfSameNamespace _ _ _) as [m|] eqn:Ho; [|done].
    destruct (workflowBody _ _ _) as [wf|] eqn:Hb; [|done].
    apply owner_keeps in Ho as (Ho1 & Ho2 & Ho3).
    apply workflowBody_keeps in Hb as (Hb1 & Hb2 & Hb3).
    split.
    + split_and!; [done| |by rewrite Hb3, (runtime_sa op); rewrite ?He; eauto using workflow_sa
                   |by exists e].
      unfold owned. rewrite Hb2. cbn [u_Meta with_u_meta]. rewrite Ho1, Ho2, Ho3.
      split_and!; [done|done|apply applied_labels..].
    + intros [[]|e2] g2 ->; [|done]. intros _. do 3 right. by eexists.
Qed.

Lemma job_Materialize_owned op target :
  op_Engine op = EngineJob → ValidateRuntimeParameters op = Ok tt →
  wp traced (creates_owned op target) (job_Materialize op target)
    (λ r g, r = Ok tt → workload_present op target g) [].
Proof.
  intros He Hv. unfold job_Materialize.
  destruct (parseJobParameters op) as [p|] eqn:Hp; [|done].
  case_bool_decide; [done|]. apply createMaterializedJob_owned; [by eexists|].
  apply (runtime_sa op); [done|by rewrite He|by apply job_sa].
Qed.

Lemma hook_Materialize_owned op target :
  op_Engine op = EngineHelmHookJob → ValidateRuntimeParameters op = Ok tt →
  wp traced (creates_owned op target) (hook_Materialize op target)
    (λ r g, r = Ok tt → workload_present op target g) [].
Proof.
  intros He Hv. unfold hook_Materialize.
  destruct (parseHelmHookJobParameters op) as [p|] eqn:Hp; [|done].
  case_bool_decide; [done|]. case_bool_decide; [done|].
  apply createMaterializedJob_owned; [by eexists|].
  apply (runtime_sa op); [done|by rewrite He|by apply hook_sa].
Qed.


End Contracts.

(** ** Workload names *)

(** No double dash in a namespace, nor a dash at its end (a DNS label never ends
    with one, but may contain a double dash). *)
Definition dash_safe (ns : string) : bool := negb (Contains (ns +:+ "-") "--").

Lemma Contains_cons a s sub : Contains (String a s) sub = HasPrefix (String a s) sub || Contains s sub.
Proof. done. Qed.

Lemma dash_safe_cons a s : dash_safe (String a s) = true → dash_safe s = true.
Proof.
  unfold dash_safe. rewrite app_String_cons, Contains_cons, !negb_true_iff.
  by intros [_ ?]%orb_false_iff.
Qed.

(** A string that begins with a double dash is not a safe namespace's start. *)
Lemma dash_safe_no_prefix a s n1 n2 :
  dash_safe (String a s) = true → "--" +:+ n1 ≠ String a s +:+ "--" +:+ n2.
Proof.
  unfold dash_safe. rewrite negb_true_iff, app_String_cons, Contains_cons.
  intros [Hp _]%orb_false_iff Heq. rewrite app_String_cons in Heq.
  change ("--" +:+ n1) with (String (byte 45) (String (byte 45) n1)) in Heq.
  injection Heq as <- Heq. destruct s as [|b s]; [done|].
  rewrite app_String_cons in Heq. injection Heq as <- _. by destruct s.
Qed.

Lemma base_injective ns1 : ∀ n1 ns2 n2,
  dash_safe ns1 = true → dash_safe ns2 = true →
  ns1 +:+ "--" +:+ n1 = ns2 +:+ "--" +:+ n2 → ns1 = ns2 ∧ n1 = n2.
Proof.
  induction ns1 as [|a ns1 IH]; intros n1 [|b ns2] n2 H1 H2 Heq.
  - split; [done|]. by injection Heq.
  - by apply dash_safe_no_prefix in Heq.
  - symmetry in Heq. by apply dash_safe_no_prefix in Heq.
  - rewrite !app_String_cons in Heq. injection Heq as <- Heq.
    apply IH in Heq as [-> ->]; [done|by eapply dash_safe_cons..].
Qed.

Lemma Contains_app_r s t sub : Contains t sub = true → Contains (s +:+ t) sub = true.
Proof.
  intros Ht. induction s as [|a s IH]; [done|].
  rewrite app_String_cons, Contains_cons, IH. apply orb_true_r.
Qed.

(** Workload names identify their operation, as long as no namespace involved
    contains a double dash or ends in one: two operations with the same
    materialized name have the same namespace and name, or (when the name is too
    long and the UID stands in) the same UID.  UIDs contain no double dash. *)
Theorem materializedName_injective (op1 op2 : Operation) :
  dash_safe (op_Namespace op1) = true → dash_safe (op_Namespace op2) = true →
  Contains (op_UID op1) "--" = false → Contains (op_UID op2) "--" = false →
  materializedName op1 = materializedName op2 →
  (op_Namespace op1 = op_Namespace op2 ∧ op_Name op1 = op_Name op2) ∨ op_UID op1 = op_UID op2.
Proof.
  intros Hs1 Hs2 Hu1 Hu2. unfold materializedName.
  assert (Hb : ∀ o, Contains (op_Namespace o +:+ "--" +:+ op_Name o) "--" = true).
  { intros o. apply Contains_app_r. change ("--" +:+ op_Name o) with
      (String (byte 45) (String (byte 45) (op_Name o))). by destruct (op_Name o). }
  case_bool_decide; case_bool_decide; intros Heq.
  - left. by apply base_injective.
  - rewrite <-Heq, Hb in Hu2. done.
  - rewrite Heq, Hb in Hu1. done.
  - by right.
Qed.

(** ** What [Cancel] deletes *)

(** cancelling does not look at the owner of the workload it deletes: when the
    job found at the operation's location belongs to another operation (which
    [Materialize] and [Status] refuse as an ownership conflict), [Cancel] deletes
    it all the same. *)
Theorem cancel_ignores_ownership (h : ∀ X, kcall X → X) (op : Operation)
    (target : ApplicationInstance) (job : Job) :
  st_EngineRef (op_Status op) = None →
  h _ (GetInstance (op_Namespace op) (op_Target op)) = Ok target →
  h _ (GetJob (targetNamespace target) (materializedName op)) = Ok job →
  verifyOperationOwnership (job_Meta job) op ≠ Ok tt →
  let deleted := DeleteJob (Namespace (job_Meta job)) (Name (job_Meta job)) in
  last (run (trace_handler h) (job_Cancel op) []).2 = Some (KEvent deleted (h _ deleted)).
Proof.
  intros Hr Hi Hj _. unfold job_Cancel, resolveEngineLocationForCancel, resolveEngineLocationDetailed.
  rewrite Hr. simpl. rewrite Hi. simpl. by rewrite Hj.
Qed.

(** ** Witnesses *)

Definition sample_meta (ns name uid : string) : ObjectMeta :=
  {| Name := name; Namespace := ns; UID := uid; Generation := 1; Labels := ∅; Annotations := ∅;
     Finalizers := [OperationFinalizer]; OwnerReferences := []; DeletionTimestamp := None |}.

Definition sample_operation (ns name uid typ engine : string) (params : option string) : Operation :=
  {| op_Meta := sample_meta ns name uid;
     op_Spec := {| os_TargetRef := {| tr_APIVersion := appsGroupVersion;
                     tr_Kind := "ApplicationInstance"; tr_Name := "app" |};
                   os_Type := typ; os_Engine := engine; os_Parameters := params;
                   os_Approvals := None |};
     op_Status := {| st_Phase := ""; st_StartedAt := None; st_FinishedAt := None;
                     st_EngineRef := None; st_Conditions := []; st_Outputs := ∅;
                     st_LogsRef := None |} |}.

Definition sample_instance (ns releaseNS : string) : ApplicationInstance :=
  {| ai_Meta := sample_meta ns "app" "i";
     ai_Spec := {| as_CatalogID := "c"; as_Mode := InstanceModeManaged; as_Chart := None;
                   as_Release := Some {| rel_Name := "app"; rel_Namespace := releaseNS |};
                   as_Values := None; as_Integrations := None |};
     ai_Status := {| ast_ObservedGeneration := 0; ast_Conditions := []; ast_HelmReleaseRef := None;
                     ast_LastAppliedChart := None; ast_LastReconcileTime := None;
                     ast_Endpoints := [] |} |}.

(** A parser for the one document the samples use. *)
Definition image_syntax : JsonSyntax :=
  {| json_parse s := if bool_decide (s = "image") then Ok (JObj [("image", JStr "busybox")])
                     else Err (errorf "unexpected input") |}.

Lemma engines_keep_contract_witness :
  @EngineContract (@JobEngine image_syntax reference_lib).
Proof. apply (@engines_keep_contract image_syntax reference_lib "velero"). set_solver. Defined.


Lemma materializedName_injective_witness :
  let op1 := sample_operation "a" "b" "u1" "T" "E" None in
  let op2 := sample_operation "a" "b" "u2" "T" "E" None in
  (op_Namespace op1 = op_Namespace op2 ∧ op_Name op1 = op_Name op2) ∨ op_UID op1 = op_UID op2.
Proof. apply materializedName_injective; reflexivity. Defined.

(** The job of operation [c] in namespace [a--b] has the name that operation
    [b--c] in namespace [a] would use. *)
Definition colliding : Operation := sample_operation "a" "b--c" "u2" OperationTypeRunCommand EngineJob None.
Definition foreign_job : Job :=
  let other := sample_operation "a--b" "c" "u1" OperationTypeRunCommand EngineJob None in
  with_job_meta (@jobFor other "rel" zeroJobParameters)
    (applyOperationLabels (meta_of "rel" (materializedName other)) other).
Definition foreign_server : ∀ X, kcall X → X := λ X c,
  match c in kcall Y return Y with
  | Now => 0%Z
  | GetInstance _ _ => Ok (sample_instance "a" "rel")
  | GetJob _ _ => Ok foreign_job
  | CreateJob _ | DeleteJob _ _ | CreateObject _ | DeleteObject _ _ _
  | CreateOrUpdate _ _ _ _ => Ok tt
  | ListJobs _ _ => Ok []
  | GetNamespace n => Ok (meta_of "" n)
  | ListOperations _ => Ok []
  | ListObjects _ _ _ => Ok []
  | GetOperation _ _ | GetObject _ _ _ => Err (mkErr "not found" KNotFound)
  | UpdateOperation o | UpdateOperationStatus o => Ok o
  | Report _ _ _ => tt
  end.

Lemma cancel_ignores_ownership_witness :
  materializedName colliding = Name (job_Meta foreign_job) ∧
  last (run (trace_handler foreign_server) (job_Cancel colliding) []).2 =
    Some (KEvent (DeleteJob "rel" "a--b--c") (Ok tt)).
Proof.
  split; [reflexivity|].
  apply (cancel_ignores_ownership foreign_server colliding (sample_instance "a" "rel") foreign_job);
    [reflexivity..|]. vm_compute. discriminate.
Defined.
