(* ===== verification/OperationReconciler.v ===== *)
(** * internal/controller/operation_controller.go and operation_validation.go

    [Reconcile] is one pass over one [Operation], as a program over [kcall].
    Instants and durations are nanoseconds.  A status update answers with the
    object the server stored, which replaces [op], as the client library does. *)

From stdpp Require Import base list strings gmap.
From S2P Require Import Prelude Traces GoStrings Api Conditions Reporter Json Templates Kube Concurrency.
From S2P Require Import Approvals Engines.

Definition Unix (t : Z) : Z := (t / second)%Z.

Section Reconciler.
Context `{JsonSyntax} `{KubeLib}.

Definition ValidateOperationSpec (op : Operation) : result unit :=
  let spec := op_Spec op in
  let target := os_TargetRef spec in
  if negb (bool_decide (tr_APIVersion target = appsGroupVersion)) then
    Err (errorf ("spec.targetRef.apiVersion must be " +:+ appsGroupVersion))
  else if negb (bool_decide (tr_Kind target = "ApplicationInstance")) then
    Err (errorf "spec.targetRef.kind must be ApplicationInstance")
  else if bool_decide (TrimSpace (tr_Name target) = "") then
    Err (errorf "spec.targetRef.name is required")
  else if bool_decide (TrimSpace (os_Type spec) = "") then Err (errorf "spec.type is required")
  else if bool_decide (TrimSpace (os_Engine spec) = "") then Err (errorf "spec.engine is required")
  else ValidateRuntimeParameters op.

(** [OperationReconciler], without the client. *)
Record OperationReconciler := {
  or_Registry : option Registry;
  or_ApprovalClaimSecret : string
}.

Definition operationRef (op : Operation) : Events.AppliedRef :=
  ResourceRefFromMeta opsGroupVersion "Operation" (op_Meta op).

Definition reportConditions (op : Operation) (prev : list Condition) : prog kcall unit :=
  call (Report (operationRef op) prev (op_Conditions op)).

Definition setCondition (now : Z) (op : Operation) (t s reason message : string) : Operation :=
  set_Conditions op (Conditions.Set_ now (op_Conditions op) t s reason message).

Definition blocked (now : Z) (op : Operation) (reason message : string) : Operation :=
  let op := set_Phase op PhasePending in
  let op := setCondition now op ConditionBlocked ConditionTrue reason message in
  setCondition now op ConditionAccepted ConditionFalse reason message.

Definition blockOperation (op : Operation) (reason message : string) : prog kcall outcome :=
  let prevConditions := op_Conditions op in
  let* now := call Now in
  try* op := call (UpdateOperationStatus (blocked now op reason message))
    catch e => failWith noResult (wrapf "update blocked status" e) in
  let* _ := reportConditions op prevConditions in
  finish (after 30).

Definition failed (now : Z) (op : Operation) (message : string) : Operation :=
  let op := set_Phase op PhaseFailed in
  let op := set_FinishedAt op (Some now) in
  setCondition now op ConditionFailed ConditionTrue "EngineFailed" message.

Definition failOperation (op : Operation) (message : string) : prog kcall outcome :=
  let prevConditions := op_Conditions op in
  let* now := call Now in
  try* op := call (UpdateOperationStatus (failed now op message))
    catch e => failWith noResult (wrapf "update failed status" e) in
  let* _ := reportConditions op prevConditions in
  finish noResult.

(** [hasConflictingOperation]. *)
Definition hasConflictingOperation (op : Operation) : prog kcall (result (option string)) :=
  try* conflict := FindConflict op catch e => Ret (Err e) in
  Ret (Ok (FormatConflict <$> conflict)).

Definition isRunning (op : Operation) : bool := bool_decide (op_Phase op = PhaseRunning).

(** The object [backfillEngineRefIfNeeded] persists, if it changes anything. *)
Definition backfilled (now : Z) (op : Operation) (target : ApplicationInstance) : option Operation :=
  let startedMissing := bool_decide (st_StartedAt (op_Status op) = None) in
  let refMissing := match st_EngineRef (op_Status op) with
                    | None => SupportsEngineRef (op_Engine op)
                    | Some _ => false
                    end in
  let op := if startedMissing then set_StartedAt op (Some now) else op in
  let op := if refMissing
            then set_EngineRef op (Some (NewEngineResourceRef op target (EngineResourceKind (op_Engine op))))
            else op in
  if startedMissing || refMissing then Some op else None.

Definition backfillEngineRefIfNeeded (op : Operation) (target : ApplicationInstance)
    : prog kcall (result Operation) :=
  if negb (isRunning op) then Ret (Ok op)
  else
    let* now := call Now in
    match backfilled now op target with
    | None => Ret (Ok op)
    | Some op =>
        try* op := call (UpdateOperationStatus op)
          catch e => Ret (Err (wrapf "persist running status backfill" e)) in
        Ret (Ok op)
    end.

Definition workloadGrace : Z := 60 * second.

Definition handleEngineStatusError (op : Operation) (err : error) : prog kcall outcome :=
  if bool_decide (ekind err = KWorkloadOwnership ∨ ekind err = KWorkloadAmbiguous) then
    failOperation op (emsg err)
  else if bool_decide (ekind err = KWorkloadMissing) then
    if isRunning op then
      match st_StartedAt (op_Status op) with
      | None =>
          let* now := call Now in
          try* _ := call (UpdateOperationStatus (set_StartedAt op (Some now)))
            catch e => failWith noResult (wrapf "record startedAt for workload-missing grace" e) in
          finish (after 5)
      | Some started =>
          let* now := call Now in
          if bool_decide (now - started < workloadGrace)%Z then finish (after 5)
          else failOperation op (emsg err)
      end
    else failOperation op (emsg err)
  else failWith noResult (wrapf "engine status" err).

Definition finalizeOperation (r : OperationReconciler) (op : Operation) : prog kcall outcome :=
  let removeFinalizer :=
    try* _ := call (UpdateOperation (with_op_meta op (RemoveFinalizer (op_Meta op) OperationFinalizer)))
      catch e => failWith noResult (wrapf "remove finalizer" e) in
    finish noResult in
  match or_Registry r with
  | None => removeFinalizer
  | Some reg =>
      if registry_Has reg (op_Engine op) then
        match registry_Get reg (op_Engine op) with
        | Err e => failWith noResult e
        | Ok engine =>
            try* _ := Cancel engine op
              catch e => failWith (after 15) (wrapf "cancel engine resources" e) in
            removeFinalizer
        end
      else removeFinalizer
  end.

(** *** Starting *)

Definition started (now : Z) (op : Operation) (target : ApplicationInstance) : Operation :=
  let op := set_EngineRef op
    (Some (NewEngineResourceRef op target (EngineResourceKind (op_Engine op)))) in
  let op := set_Phase op PhaseRunning in
  let op := set_StartedAt op (Some now) in
  let op := setCondition now op ConditionAccepted ConditionTrue "AdmissionPassed" "Operation accepted" in
  let op := setCondition now op ConditionRunning ConditionTrue "EngineStarted" "Engine is running" in
  setCondition now op ConditionBlocked ConditionFalse "Unblocked" "Operation started".

(** *** Finishing *)

Definition finished (now : Z) (op : Operation) (status : Status) : Operation :=
  let op := set_FinishedAt op (Some now) in
  let op := set_Phase op (es_Phase status) in
  let op :=
    if es_Failed status then
      let op := setCondition now op ConditionFailed ConditionTrue (es_Reason status) (es_Message status) in
      setCondition now op ConditionRunning ConditionFalse "EngineNotStarted" "Engine finished with failure"
    else
      let op := setCondition now op ConditionSucceeded ConditionTrue (es_Reason status) (es_Message status) in
      setCondition now op ConditionRunning ConditionFalse "EngineNotStarted" "Engine completed" in
  if bool_decide (es_Outputs status = ∅) then op else set_Outputs op (es_Outputs status).

(** The rest of [Reconcile] once the workload exists. *)
Definition trackEngine (engine : Engine) (op : Operation) (target : ApplicationInstance)
    (prevConditions : list Condition) : prog kcall outcome :=
  try* op := backfillEngineRefIfNeeded op target catch e => failWith noResult e in
  let* r := EngineStatus engine op in
  match r with
  | Err e => handleEngineStatusError op e
  | Ok status =>
      if es_Done status then
        let* now := call Now in
        try* op := call (UpdateOperationStatus (finished now op status))
          catch e => failWith noResult (wrapf "update terminal status" e) in
        let* _ := reportConditions op prevConditions in
        finish noResult
      else
        try* op := call (UpdateOperationStatus (set_Phase op (es_Phase status)))
          catch e => failWith noResult (wrapf "update in-flight status" e) in
        let* _ := reportConditions op prevConditions in
        finish (after 5)
  end.

Definition notStarted (op : Operation) : bool :=
  bool_decide (op_Phase op = "") || bool_decide (op_Phase op = PhasePending).

(** From the engine lookup on. *)
Definition runEngine (engine : Engine) (op : Operation) (target : ApplicationInstance)
    : prog kcall outcome :=
  let prevConditions := op_Conditions op in
  if notStarted op then
    try* _ := Materialize engine op target catch e => failOperation op (emsg e) in
    let* now := call Now in
    try* op := call (UpdateOperationStatus (started now op target))
      catch e => failWith noResult (wrapf "update running status" e) in
    let* _ := reportConditions op prevConditions in
    trackEngine engine op target (op_Conditions op)
  else trackEngine engine op target prevConditions.

(** The gates between reading the target and running the engine. *)
Definition gates (r : OperationReconciler) (op : Operation) (target : ApplicationInstance)
    : prog kcall outcome :=
  let* now := call Now in
  match (if NeedsApprovalCheck op then BlockReason (Unix now) op (or_ApprovalClaimSecret r) else None) with
  | Some reason => blockOperation op "AwaitingApproval" reason
  | None =>
      try* conflict := hasConflictingOperation op catch e => failWith noResult e in
      match conflict with
      | Some reason => blockOperation op "ConflictingOperation" reason
      | None =>
          let missing := blockOperation op "DependencyMissing"
            ("engine " +:+ quote (op_Engine op) +:+ " is not registered") in
          match or_Registry r with
          | None => missing
          | Some reg =>
              if negb (registry_Has reg (op_Engine op)) then missing
              else
                match registry_Get reg (op_Engine op) with
                | Err e => failWith noResult e
                | Ok engine => runEngine engine op target
                end
          end
      end
  end.

(** [Reconcile]. *)
Definition Reconcile (r : OperationReconciler) (ns name : string) : prog kcall outcome :=
  let* got := call (GetOperation ns name) in
  match got with
  | Err e => if IsNotFound e then finish noResult else failWith noResult e
  | Ok op =>
      if negb (ContainsFinalizer (op_Meta op) OperationFinalizer) then
        try* _ := call (UpdateOperation (with_op_meta op (AddFinalizer (op_Meta op) OperationFinalizer)))
          catch e => failWith noResult (wrapf "add finalizer" e) in
        finish requeueNow
      else if bool_decide (DeletionTimestamp (op_Meta op) ≠ None) then finalizeOperation r op
      else
        match ValidateOperationSpec op with
        | Err e => blockOperation op "ValidationFailed" (emsg e)
        | Ok _ =>
            let* got := call (GetInstance (op_Namespace op) (op_Target op)) in
            match got with
            | Err e =>
                if IsNotFound e then
                  blockOperation op "TargetNotReady" "target ApplicationInstance not found"
                else failWith noResult (wrapf "get target" e)
            | Ok target => gates r op target
            end
        end
  end.

End Reconciler.
