(* ===== verification/OperationProofs.v ===== *)
(** * Theorems on the operation reconciler

    Proved against the engine contract: for any registry of engines that keep
    it, whatever the API server answers. *)

From stdpp Require Import base list strings gmap.
From S2P Require Import Prelude Traces GoStrings Api Conditions Reporter Json Templates Kube Concurrency.
From S2P Require Import Approvals Engines EnginesProofs OperationReconciler.

(** ** Programs that leave workloads alone *)

Definition quiet {X} (c : kcall X) : Prop := creates c = false ∧ deletes c = false.

Section Gate.
Context `{JsonSyntax} `{KubeLib}.

Lemma quiet_block op reason message :
  only (λ X, quiet) (blockOperation op reason message) (λ _, True).
Proof. unfold blockOperation, reportConditions. only_go; done. Qed.

Lemma quiet_fail op message : only (λ X, quiet) (failOperation op message) (λ _, True).
Proof. unfold failOperation, reportConditions. only_go; done. Qed.

Lemma quiet_status_error op e : only (λ X, quiet) (handleEngineStatusError op e) (λ _, True).
Proof. unfold handleEngineStatusError. only_go; auto using quiet_fail; done. Qed.

Lemma reads_only_quiet {X} (c : kcall X) : reads_only c = true → quiet c.
Proof.
  unfold reads_only. rewrite !andb_true_iff, !negb_true_iff. intros [[? ?] ?]. done.
Qed.

Lemma quiet_track engine op target prev :
  EngineContract engine → only (λ X, quiet) (trackEngine engine op target prev) (λ _, True).
Proof.
  intros He. unfold trackEngine. apply only_bind_any.
  - unfold backfillEngineRefIfNeeded. only_go; done.
  - intros [op'|e]; [|only_go; done]. apply only_bind_any.
    + eapply only_mono; [|done|apply contract_status]. intros X c. apply reads_only_quiet.
    + intros [status|e]; [|apply quiet_status_error]. unfold reportConditions. only_go; done.
Qed.

(** ** Admission of a workload *)

(** What the trace shows before anything may be created for the operation. *)
Definition admitted (r : OperationReconciler) (ns name : string) (g : trace) : Prop :=
  ∃ op target now others,
    KEvent (GetOperation ns name) (Ok op) ∈ g ∧
    ContainsFinalizer (op_Meta op) OperationFinalizer = true ∧
    DeletionTimestamp (op_Meta op) = None ∧
    ValidateOperationSpec op = Ok tt ∧
    notStarted op = true ∧
    KEvent (GetInstance (op_Namespace op) (op_Target op)) (Ok target) ∈ g ∧
    KEvent Now now ∈ g ∧
    BlockReason (Unix now) op (or_ApprovalClaimSecret r) = None ∧
    KEvent (ListOperations (op_Namespace op)) (Ok others) ∈ g ∧
    find_conflict op others = None.

Definition deleting (ns name : string) (g : trace) : Prop :=
  ∃ op, KEvent (GetOperation ns name) (Ok op) ∈ g ∧ DeletionTimestamp (op_Meta op) ≠ None.

Definition gated (r : OperationReconciler) (ns name : string) : permission kcall trace := λ X c g,
  (creates c = true → admitted r ns name g) ∧ (deletes c = true → deleting ns name g).

Lemma quiet_gated r ns name X (c : kcall X) g : quiet c → gated r ns name X c g.
Proof. intros [Hc Hd]. split; congruence. Qed.

Lemma wp_only (may : permission kcall trace) (P : ∀ X, kcall X → Prop) {A} (p : prog kcall A) g :
  only P p (λ _, True) → (∀ X c g', P X c → g `prefix_of` g' → may X c g') →
  wp traced may p (λ _ g', g `prefix_of` g') g.
Proof.
  intros Hp Hm. eapply wp_mono; [|by eapply (only_wp P)]. naive_solver.
Qed.

Lemma wp_quiet r ns name {A} (p : prog kcall A) g :
  only (λ X, quiet) p (λ _, True) → wp traced (gated r ns name) p (λ _ _, True) g.
Proof.
  intros Hp. eapply wp_mono; [|eapply wp_only; [done|]]; [done|].
  intros X c g' Hc _. by apply quiet_gated.
Qed.

Lemma prefix_elem {A} (x : A) (g g' : list A) : g `prefix_of` g' → x ∈ g → x ∈ g'.
Proof. intros [k ->]. set_solver. Qed.

Lemma admitted_mono r ns name g g' :
  g `prefix_of` g' → admitted r ns name g → admitted r ns name g'.
Proof.
  intros Hg (op & target & now & others & H1 & ? & ? & ? & ? & H2 & H3 & ? & H4 & ?).
  exists op, target, now, others. split_and!; eauto using prefix_elem.
Qed.

Lemma deleting_mono ns name g g' : g `prefix_of` g' → deleting ns name g → deleting ns name g'.
Proof. intros Hg (op & ? & ?). exists op. eauto using prefix_elem. Qed.

Context (r : OperationReconciler) (ns name : string).
Context (Hreg : ∀ reg engine e, or_Registry r = Some reg → reg !! engine = Some e → EngineContract e).

Lemma registry_Get_contract reg engine e :
  or_Registry r = Some reg → registry_Get reg engine = Ok e → EngineContract e.
Proof.
  unfold registry_Get. intros Hr. destruct (reg !! engine) eqn:He; [|done].
  intros [= <-]. by eapply Hreg.
Qed.

Lemma runEngine_gated engine op target g :
  EngineContract engine → (notStarted op = true → admitted r ns name g) →
  wp traced (gated r ns name) (runEngine engine op target) (λ _ _, True) g.
Proof.
  intros He Hg. unfold runEngine. destruct (notStarted op) eqn:Hn; [|by apply wp_quiet, quiet_track].
  apply wp_bind. eapply wp_mono; [|eapply wp_only; [apply contract_materialize|]].
  - intros [[]|e] g' Hg'; [|apply wp_quiet, quiet_fail]. apply wp_quiet.
    apply only_bind_any; [by apply only_call|]. intros now.
    apply only_bind_any; [by apply only_call|]. intros [op'|e]; [|by apply only_ret].
    apply only_bind_any; [by apply only_call|]. intros _. by apply quiet_track.
  - intros X c g' [Hd _] Hp. split; [|congruence]. intros _. eapply admitted_mono; eauto.
Qed.

Lemma finalize_gated op g :
  deleting ns name g →
  wp traced (gated r ns name) (finalizeOperation r op) (λ _ _, True) g.
Proof.
  intros Hg. unfold finalizeOperation. set (rm := prog_bind _ (call (UpdateOperation _))).
  assert (Hrm : only (λ X, quiet) rm (λ _, True)) by (unfold rm; only_go; done). clearbody rm.
  pose proof registry_Get_contract as Hget.
  destruct (or_Registry r) as [reg|]; [|by apply wp_quiet].
  destruct (registry_Has reg (op_Engine op)); [|by apply wp_quiet].
  destruct (registry_Get reg (op_Engine op)) as [e|] eqn:He; [|by apply wp_quiet, only_ret].
  apply Hget in He; [|done]. apply wp_bind.
  eapply wp_mono; [|eapply wp_only; [apply contract_cancel|]].
  - intros [[]|e'] g' _; apply wp_quiet; [done|by apply only_ret].
  - intros X c g' [Hc _] Hp. split; [congruence|]. intros _. by eapply deleting_mono.
Qed.

(** From the gates on, with what the trace already shows. *)
Lemma gates_gated op target g :
  KEvent (GetOperation ns name) (Ok op) ∈ g →
  ContainsFinalizer (op_Meta op) OperationFinalizer = true →
  DeletionTimestamp (op_Meta op) = None → ValidateOperationSpec op = Ok tt →
  KEvent (GetInstance (op_Namespace op) (op_Target op)) (Ok target) ∈ g →
  wp traced (gated r ns name) (gates r op target) (λ _ _, True) g.
Proof.
  intros Hop Hf Hd Hv Ht. unfold gates. apply wp_vis; [by apply quiet_gated|].
  intros now g1 ->. cbn beta.
  destruct (if NeedsApprovalCheck op then BlockReason (Unix now) op (or_ApprovalClaimSecret r)
            else None) eqn:Hb; [by apply wp_quiet, quiet_block|].
  apply wp_bind. unfold hasConflictingOperation. apply wp_bind. unfold FindConflict.
  apply wp_vis; [by apply quiet_gated|]. intros [others|e] g2 ->; cbn [wp]; [|done].
  destruct (find_conflict op others) eqn:Hc; cbn [fmap option_fmap option_map];
    [by apply wp_quiet, quiet_block|].
  pose proof registry_Get_contract as Hget.
  destruct (or_Registry r) as [reg|] eqn:Hr; [|by apply wp_quiet, quiet_block].
  destruct (negb (registry_Has reg (op_Engine op))); [by apply wp_quiet, quiet_block|].
  destruct (registry_Get reg (op_Engine op)) as [e|] eqn:He; [|done].
  apply runEngine_gated; [by eapply Hget|]. intros Hn.
  exists op, target, now, others. change (NeedsApprovalCheck op) with (notStarted op) in Hb.
  rewrite Hn in Hb. split_and!; try done; set_solver.
Qed.

(** C1: nothing runs ungated: whatever the API server answers, a reconcile pass
    creates or patches a workload only for an operation that it read, that has
    the finalizer, is not being deleted, passed spec validation, has not started,
    whose target it read, whose approval the gate accepted at a clock reading of
    this pass, and for which the list it read shows no conflicting operation in
    flight; and it deletes workloads only for an operation being deleted. *)
Theorem reconcile_gated :
  wp traced (gated r ns name) (Reconcile r ns name) (λ _ _, True) [].
Proof.
  unfold Reconcile. apply wp_vis; [by apply quiet_gated|].
  intros [op|e] g1 ->; cbn beta match; [|by destruct (IsNotFound e)].
  destruct (ContainsFinalizer (op_Meta op) OperationFinalizer) eqn:Hf; cbn [negb];
    [|by apply wp_quiet; only_go].
  case_bool_decide as Hd.
  { apply finalize_gated. exists op. split; [set_solver|done]. }
  destruct (ValidateOperationSpec op) as [[]|e] eqn:Hv; [|by apply wp_quiet, quiet_block].
  apply wp_vis; [by apply quiet_gated|]. intros [target|e] g2 ->; cbn beta match.
  - apply gates_gated; [set_solver|done| |done|set_solver].
    destruct (DeletionTimestamp (op_Meta op)); [by destruct Hd|done].
  - destruct (IsNotFound e); [by apply wp_quiet, quiet_block|done].
Qed.

End Gate.

(** ** Coherent status *)

Section Coherence.
Context `{JsonSyntax} `{KubeLib}.

Definition says (o : Operation) (t s : string) : Prop :=
  ∃ reason message, Conditions.reads (op_Conditions o) t = Some (s, reason, message).

(** What the phase of a written status guarantees of its other fields. *)
Definition coherent (o : Operation) : Prop :=
  (op_Phase o = PhasePending ∧ says o ConditionBlocked ConditionTrue ∧
     says o ConditionAccepted ConditionFalse) ∨
  (op_Phase o = PhaseRunning ∧ st_StartedAt (op_Status o) ≠ None) ∨
  (op_Phase o = PhaseSucceeded ∧ st_FinishedAt (op_Status o) ≠ None ∧
     says o ConditionSucceeded ConditionTrue ∧ says o ConditionRunning ConditionFalse) ∨
  (op_Phase o = PhaseFailed ∧ st_FinishedAt (op_Status o) ≠ None ∧
     says o ConditionFailed ConditionTrue).

Definition unfinished (o : Operation) : Prop := op_Phase o ∈ [""; PhasePending; PhaseRunning].

(** A server that stores the status it is sent, and an operation that was not
    finished when it was read. *)
Definition answer {X} (c : kcall X) : X → Prop :=
  match c in kcall Y return Y → Prop with
  | GetOperation _ _ => λ r, ∀ op, r = Ok op → unfinished op
  | UpdateOperationStatus o => λ r, ∀ o', r = Ok o' → op_Status o' = op_Status o
  | _ => λ _, True
  end.
Definition faithful : environment kcall unit := λ X c _ x _, answer c x.

Definition writes_coherent : permission kcall unit := λ X c _,
  match c with UpdateOperationStatus o => coherent o | _ => True end.

Lemma says_set_same now o t s reason message : says (setCondition now o t s reason message) t s.
Proof. exists reason, message. apply Conditions.Set_reads_same. Qed.

Lemma says_set_other now o t s reason message t' s' :
  t' ≠ t → says o t' s' → says (setCondition now o t s reason message) t' s'.
Proof.
  intros Hne (r & m & Hr). exists r, m. etrans; [by apply Conditions.Set_reads_other|done].
Qed.

Lemma coherent_blocked now o reason message : coherent (blocked now o reason message).
Proof.
  left. split_and!; [done| |apply says_set_same].
  apply says_set_other; [done|]. apply says_set_same.
Qed.

Lemma coherent_failed now o message : coherent (failed now o message).
Proof. do 3 right. split_and!; [done|done|apply says_set_same]. Qed.

Lemma coherent_finished now o s : status_wf s → es_Done s = true → coherent (finished now o s).
Proof.
  unfold status_wf. intros Hs Hd. rewrite Hd in Hs. unfold finished.
  set (b := bool_decide (es_Outputs s = ∅)).
  destruct Hs as [[Hf Hp]|[Hf Hp]]; rewrite Hf, Hp; do 2 right; [right|left];
    destruct b; (split_and!; [done|done|..]);
    try (apply says_set_same); (apply says_set_other; [done|]; apply says_set_same).
Qed.

Local Notation wpc p Q := (wp faithful writes_coherent p Q tt).

Lemma coherent_block op reason message : wpc (blockOperation op reason message) (λ _ _, True).
Proof.
  apply wp_vis; [done|]. intros now [] _. apply wp_vis; [apply coherent_blocked|].
  intros [o|e] [] _; [|done]. by apply wp_vis.
Qed.

Lemma coherent_fail op message : wpc (failOperation op message) (λ _ _, True).
Proof.
  apply wp_vis; [done|]. intros now [] _. apply wp_vis; [apply coherent_failed|].
  intros [o|e] [] _; [|done]. by apply wp_vis.
Qed.

Lemma coherent_running op t : op_Phase op = PhaseRunning → coherent (set_StartedAt op (Some t)).
Proof. intros Hp. right. left. by split. Qed.

Lemma coherent_status_error op e : wpc (handleEngineStatusError op e) (λ _ _, True).
Proof.
  unfold handleEngineStatusError. case_bool_decide; [apply coherent_fail|].
  case_bool_decide; [|done]. destruct (isRunning op) eqn:Hr; [|apply coherent_fail].
  apply bool_decide_eq_true in Hr. destruct (st_StartedAt (op_Status op)) as [s|].
  - apply wp_vis; [done|]. intros now [] _. cbn beta.
    case_bool_decide; [done|apply coherent_fail].
  - apply wp_vis; [done|]. intros now [] _. apply wp_vis; [by apply coherent_running|].
    by intros [o|e'] [] _.
Qed.

Lemma coherent_backfill op target :
  op_Phase op = PhaseRunning →
  wpc (backfillEngineRefIfNeeded op target) (λ r _, ∀ o, r = Ok o →
     op_Phase o = PhaseRunning ∧ st_StartedAt (op_Status o) ≠ None).
Proof.
  intros Hp. unfold backfillEngineRefIfNeeded, isRunning. rewrite bool_decide_eq_true_2 by done.
  apply wp_vis; [done|]. intros now [] _. cbn beta.
  assert (Hb : match backfilled now op target with
               | Some o => op_Phase o = PhaseRunning ∧ st_StartedAt (op_Status o) ≠ None
               | None => st_StartedAt (op_Status op) ≠ None
               end).
  { unfold backfilled. destruct (st_EngineRef (op_Status op));
      [|destruct (SupportsEngineRef (op_Engine op))]; case_bool_decide; simpl; by rewrite ?Hp. }
  destruct (backfilled now op target) as [o|].
  - apply wp_vis; [by right; left|]. intros [o'|e] [] Ha; cbn beta match; [|done].
    intros ? [= <-]. specialize (Ha _ eq_refl). unfold op_Phase. by rewrite Ha.
  - by intros ? [= <-].
Qed.

Lemma coherent_track engine op target prev :
  EngineContract engine → op_Phase op = PhaseRunning →
  wpc (trackEngine engine op target prev) (λ _ _, True).
Proof.
  intros He Hp. apply wp_bind. eapply wp_mono; [|by apply coherent_backfill].
  intros [o|e] [] Ho; [|done]. destruct (Ho o eq_refl) as [Hr Hs].
  apply wp_bind. eapply wp_mono; [|eapply only_env; [apply contract_status|]].
  - intros [s|e] [] Hwf; [|apply coherent_status_error]. cbn beta match.
    destruct (es_Done s) eqn:Hd.
    + apply wp_vis; [done|]. intros now [] _. apply wp_vis; [by apply coherent_finished|].
      intros [o'|e] [] _; [|done]. by apply wp_vis.
    + unfold status_wf in Hwf. rewrite Hd in Hwf. destruct Hwf as [_ Hph].
      apply wp_vis; [right; left; by rewrite Hph|].
      intros [o'|e] [] _; [|done]. by apply wp_vis.
  - intros X c g' Hc. by destruct c.
Qed.

Lemma coherent_runEngine engine op target :
  EngineContract engine → unfinished op → wpc (runEngine engine op target) (λ _ _, True).
Proof.
  intros He Hu. unfold runEngine. destruct (notStarted op) eqn:Hn.
  - apply wp_bind. eapply wp_mono; [|eapply only_env; [apply contract_materialize|]].
    + intros [[]|e] [] _; [|apply coherent_fail]. apply wp_vis; [done|]. intros now [] _.
      apply wp_vis; [by right; left|]. intros [o|e] [] Ha; [|done].
      apply wp_vis; [done|]. intros [] [] _. apply coherent_track; [done|].
      unfold op_Phase. by rewrite (Ha o eq_refl).
    + intros X c g' [_ Hw]. by destruct c.
  - apply coherent_track; [done|]. unfold unfinished in Hu. unfold notStarted in Hn.
    apply orb_false_iff in Hn as [Hn1%bool_decide_eq_false Hn2%bool_decide_eq_false].
    set_solver.
Qed.


End Coherence.

(** ** Runs of a pass *)

Section Runs.
Context `{JsonSyntax} `{KubeLib}.

(** One call of a run against [h], its answer known from [Hh]. *)
Ltac answered Hh := apply wp_vis; [done|]; intros ? ? [-> ->]; rewrite ?Hh; cbn beta match.

(** What it takes for an operation to start in this pass: the server returns it (not
    started, finalizer present, valid), its target and a list without conflict, its
    approval is accepted, and its engine is registered. *)
Record startable (h : ∀ X, kcall X → X) (r : OperationReconciler) (ns name : string)
    (op : Operation) (target : ApplicationInstance) (engine : Engine) : Prop := {
  startable_read : h _ (GetOperation ns name) = Ok op;
  startable_finalizer : ContainsFinalizer (op_Meta op) OperationFinalizer = true;
  startable_live : DeletionTimestamp (op_Meta op) = None;
  startable_valid : ValidateOperationSpec op = Ok tt;
  startable_new : notStarted op = true;
  startable_target : h _ (GetInstance (op_Namespace op) (op_Target op)) = Ok target;
  startable_approved : BlockReason (Unix (h _ Now)) op (or_ApprovalClaimSecret r) = None;
  startable_free : ∃ others, h _ (ListOperations (op_Namespace op)) = Ok others ∧ find_conflict op others = None;
  startable_engine : ∃ reg, or_Registry r = Some reg ∧ reg !! op_Engine op = Some engine
}.

(** The event of a status update. *)
Definition wrote (h : ∀ X, kcall X → X) (o : Operation) (g : trace) : Prop :=
  KEvent (UpdateOperationStatus o) (h _ (UpdateOperationStatus o)) ∈ g.

Lemma startable_starts h r ns name op target engine :
  startable h r ns name op target engine →
  (∀ g, (run (trace_handler h) (Materialize engine op target) g).1 = Ok tt) →
  wrote h (started (h _ Now) op target) (run (trace_handler h) (Reconcile r ns name) []).2.
Proof.
  intros [Hop Hf Hd Hv Hn Ht Hb (others & Hl & Hc) (reg & Hr & He)] Hm.
  apply (run_wp h (Reconcile r ns name) (λ _ g, wrote h _ g)).
  unfold Reconcile. answered Hop. rewrite Hf. cbn [negb].
  rewrite bool_decide_eq_false_2 by (rewrite Hd; congruence). rewrite Hv.
  answered Ht. unfold gates. apply wp_vis; [done|]. intros now g1 [-> ->]. cbn beta.
  change (NeedsApprovalCheck op) with (notStarted op). rewrite Hn, Hb.
  apply wp_bind, wp_bind. answered Hl. cbn [wp]. rewrite Hc. cbn [fmap option_fmap option_map].
  rewrite Hr. unfold registry_Has, registry_Get. rewrite He, bool_decide_eq_true_2 by done.
  cbn [negb]. unfold runEngine. rewrite Hn. apply wp_bind.
  apply run_wp. rewrite Hm. apply wp_vis; [done|]. intros ? ? [-> ->].
  apply wp_vis; [done|]. intros x g2 [-> ->]. cbn beta. apply wp_kept. set_solver.
Qed.

(** The same for an operation that is running: it is read, its target is there, and
    nothing it must wait for is in flight. *)
Record trackable (h : ∀ X, kcall X → X) (r : OperationReconciler) (ns name : string)
    (op : Operation) (target : ApplicationInstance) (engine : Engine) : Prop := {
  trackable_read : h _ (GetOperation ns name) = Ok op;
  trackable_finalizer : ContainsFinalizer (op_Meta op) OperationFinalizer = true;
  trackable_live : DeletionTimestamp (op_Meta op) = None;
  trackable_valid : ValidateOperationSpec op = Ok tt;
  trackable_running : op_Phase op = PhaseRunning;
  trackable_started : st_StartedAt (op_Status op) ≠ None;
  trackable_placed : st_EngineRef (op_Status op) ≠ None;
  trackable_target : h _ (GetInstance (op_Namespace op) (op_Target op)) = Ok target;
  trackable_free : ∃ others, h _ (ListOperations (op_Namespace op)) = Ok others ∧ find_conflict op others = None;
  trackable_engine : ∃ reg, or_Registry r = Some reg ∧ reg !! op_Engine op = Some engine
}.

Lemma backfilled_none now op target :
  st_StartedAt (op_Status op) ≠ None → st_EngineRef (op_Status op) ≠ None → backfilled now op target = None.
Proof.
  intros Hs He. unfold backfilled. rewrite bool_decide_eq_false_2 by done.
  by destruct (st_EngineRef (op_Status op)).
Qed.

Lemma trackable_finishes h r ns name op target engine s o' :
  trackable h r ns name op target engine →
  (∀ g, (run (trace_handler h) (EngineStatus engine op) g).1 = Ok s) → es_Done s = true →
  h _ (UpdateOperationStatus (finished (h _ Now) op s)) = Ok o' →
  let '(result, g) := run (trace_handler h) (Reconcile r ns name) [] in
  result = (noResult, None) ∧ wrote h (finished (h _ Now) op s) g.
Proof.
  intros [Hop Hf Hd Hv Hp Hs1 Hs2 Ht (others & Hl & Hc) (reg & Hr & He)] Hst Hdone Hup.
  assert (Hn : notStarted op = false) by (unfold notStarted; by rewrite Hp).
  assert (Hrun : isRunning op = true) by (unfold isRunning; by rewrite Hp).
  enough (wp (answers h) anything (Reconcile r ns name)
    (λ a g, a = (noResult, None) ∧ wrote h (finished (h _ Now) op s) g) []) as Hwp.
  { apply run_wp in Hwp. by destruct (run _ _ _). }
  unfold Reconcile. answered Hop. rewrite Hf. cbn [negb].
  rewrite bool_decide_eq_false_2 by (rewrite Hd; congruence). rewrite Hv.
  answered Ht. unfold gates. apply wp_vis; [done|]. intros now g1 [-> ->]. cbn beta.
  change (NeedsApprovalCheck op) with (notStarted op). rewrite Hn.
  apply wp_bind, wp_bind. answered Hl. cbn [wp]. rewrite Hc. cbn [fmap option_fmap option_map].
  rewrite Hr. unfold registry_Has, registry_Get. rewrite He, bool_decide_eq_true_2 by done.
  cbn [negb]. unfold runEngine. rewrite Hn. unfold trackEngine, backfillEngineRefIfNeeded. rewrite Hrun.
  cbn [negb]. apply wp_bind. apply wp_vis; [done|]. intros ? ? [-> ->]. cbn beta.
  rewrite backfilled_none by done. cbn [wp]. apply wp_bind. apply run_wp. rewrite Hst, Hdone.
  apply wp_vis; [done|]. intros ? ? [-> ->]. apply wp_vis; [done|]. intros ? ? [-> ->].
  rewrite Hup. apply wp_vis; [done|]. intros ? ? [-> ->]. cbn [wp finish]. split; [done|].
  unfold wrote. rewrite Hup. set_solver.
Qed.

(** C34: an admitted operation runs to its end: a pass over an operation that meets
    every gate, and whose engine materializes it, records [Running] with the start
    time and the coordinates of the workload; when a later pass reads what that pass
    recorded, still finds nothing in the way, and the engine reports the workload
    done, it records the engine's verdict, [Succeeded] or [Failed] with the finish
    time and the matching condition, and does not ask to be run again. *)
Theorem operation_completes (h1 h2 : ∀ X, kcall X → X) (r : OperationReconciler) (ns name : string)
    (op : Operation) (target : ApplicationInstance) (engine : Engine) (s : Status) (o' : Operation) :
  EngineContract engine →
  startable h1 r ns name op target engine →
  (∀ g, (run (trace_handler h1) (Materialize engine op target) g).1 = Ok tt) →
  let o := started (h1 _ Now) op target in
  trackable h2 r ns name o target engine →
  (∀ g, (run (trace_handler h2) (EngineStatus engine o) g).1 = Ok s) → es_Done s = true →
  let f := finished (h2 _ Now) o s in
  h2 _ (UpdateOperationStatus f) = Ok o' →
  wrote h1 o (run (trace_handler h1) (Reconcile r ns name) []).2 ∧ op_Phase o = PhaseRunning ∧
  st_StartedAt (op_Status o) = Some (h1 _ Now) ∧
  st_EngineRef (op_Status o) = Some (NewEngineResourceRef op target (EngineResourceKind (op_Engine op))) ∧
  (run (trace_handler h2) (Reconcile r ns name) []).1 = (noResult, None) ∧
  wrote h2 f (run (trace_handler h2) (Reconcile r ns name) []).2 ∧
  st_FinishedAt (op_Status f) = Some (h2 _ Now) ∧
  if es_Failed s then op_Phase f = PhaseFailed ∧ says f ConditionFailed ConditionTrue
  else op_Phase f = PhaseSucceeded ∧ says f ConditionSucceeded ConditionTrue.
Proof.
  intros Hc Hs Hm o Ht Hst Hd f Hup.
  pose proof (startable_starts _ _ _ _ _ _ _ Hs Hm) as Hw1.
  pose proof (trackable_finishes _ _ _ _ _ _ _ _ _ Ht Hst Hd Hup) as Hw2.
  destruct (run (trace_handler h2) (Reconcile r ns name) []) as [result g]. destruct Hw2 as [-> Hw2].
  assert (Hwf : status_wf s).
  { pose proof (wp_run traced _ (trace_handler h2) _ _ _ (trace_handler_traced h2) (contract_status o [])) as Hwf.
    change (match (run (trace_handler h2) (EngineStatus engine o) []).1 with
            | Ok s => status_wf s | Err _ => True end) in Hwf. by rewrite Hst in Hwf. }
  split_and!; try done.
  - unfold f, finished. destruct (es_Failed s), (bool_decide (es_Outputs s = ∅)); done.
  - apply (coherent_finished (h2 _ Now) o s Hwf) in Hd as Hcoh. fold f in Hcoh.
    unfold status_wf in Hwf. rewrite Hd in Hwf.
    assert (Hph : op_Phase f = es_Phase s).
    { unfold f, finished. destruct (es_Failed s), (bool_decide (es_Outputs s = ∅)); done. }
    destruct Hwf as [[-> Hp]|[-> Hp]]; rewrite Hph, Hp; (split; [done|]); unfold coherent in Hcoh;
      rewrite Hph, Hp in Hcoh; naive_solver.
Qed.

(** The finalizer goes last: for a registered engine, an operation being
    deleted loses its finalizer only after the engine's [Cancel] succeeded, as
    the very next call; when [Cancel] fails nothing more is called, the error is
    returned and the pass is retried after 15 seconds.  The update that ends a
    successful pass no longer carries the finalizer. *)
Theorem finalizer_removed_after_cancel `{!KubeLaws} (h : ∀ X, kcall X → X)
    (r : OperationReconciler) (op : Operation) (reg : Registry) (engine : Engine) (g : trace) :
  or_Registry r = Some reg → reg !! op_Engine op = Some engine →
  let o := with_op_meta op (RemoveFinalizer (op_Meta op) OperationFinalizer) in
  let '(cancelled, g1) := run (trace_handler h) (Cancel engine op) g in
  run (trace_handler h) (finalizeOperation r op) g =
    match cancelled with
    | Err e => ((after 15, Some (wrapf "cancel engine resources" e)), g1)
    | Ok _ =>
        ((noResult, match h _ (UpdateOperation o) with
                    | Ok _ => None
                    | Err e => Some (wrapf "remove finalizer" e)
                    end), g1 ++ [KEvent (UpdateOperation o) (h _ (UpdateOperation o))])
    end ∧
  OperationFinalizer ∉ Finalizers (op_Meta o).
Proof.
  intros Hr He o. destruct (run _ (Cancel engine op) g) as [cancelled g1] eqn:Hc. split.
  - unfold finalizeOperation. rewrite Hr. unfold registry_Has, registry_Get.
    rewrite He, bool_decide_eq_true_2 by done. rewrite run_bind, Hc.
    destruct cancelled as [[]|e]; [|done]. rewrite run_bind. simpl. fold o.
    by destruct (h _ (UpdateOperation o)).
  - destruct (law_remove (op_Meta op) OperationFinalizer) as (fs & Hm & Hfs).
    unfold o, with_op_meta. cbn [op_Meta]. by rewrite Hm.
Qed.

Lemma handleEngineStatusError_kinds op e :
  handleEngineStatusError op e =
    match ekind e with
    | KWorkloadOwnership | KWorkloadAmbiguous => failOperation op (emsg e)
    | KWorkloadMissing =>
        if isRunning op then
          match st_StartedAt (op_Status op) with
          | None =>
              let* now := call Now in
              try* _ := call (UpdateOperationStatus (set_StartedAt op (Some now)))
                catch e => failWith noResult (wrapf "record startedAt for workload-missing grace" e) in
              finish (after 5)
          | Some started =>
              let* now := call Now in
              if bool_decide (now - started < workloadGrace)%Z then finish (after 5)
              else failOperation op (emsg e)
          end
        else failOperation op (emsg e)
    | _ => failWith noResult (wrapf "engine status" e)
    end.
Proof. unfold handleEngineStatusError. by destruct (ekind e). Qed.

(** A running operation whose workload is missing is given a minute: within
    60 seconds of its start the pass changes nothing and comes back in 5
    seconds, after that it records the failure.  A workload owned by another
    operation, or more than one workload, fails the operation at once. *)
Theorem missing_workload_grace (h : ∀ X, kcall X → X) (op : Operation) (e : error) (s : Z)
    (g : trace) :
  op_Phase op = PhaseRunning → st_StartedAt (op_Status op) = Some s →
  let now := h _ Now in
  let o := failed now op (emsg e) in
  let '(result, g1) := run (trace_handler h) (handleEngineStatusError op e) g in
  match ekind e with
  | KWorkloadMissing =>
      if bool_decide (now - s < 60 * second)%Z
      then result = (after 5, None) ∧ g1 = g ++ [KEvent Now now]
      else KEvent (UpdateOperationStatus o) (h _ (UpdateOperationStatus o)) ∈ g1
  | KWorkloadOwnership | KWorkloadAmbiguous =>
      KEvent (UpdateOperationStatus o) (h _ (UpdateOperationStatus o)) ∈ g1
  | _ => result = (noResult, Some (wrapf "engine status" e)) ∧ g1 = g
  end.
Proof.
  intros Hp Hs now o.
  assert (Hfail : ∀ g', KEvent (UpdateOperationStatus o) (h _ (UpdateOperationStatus o))
                    ∈ (run (trace_handler h) (failOperation op (emsg e)) g').2).
  { intros g'. apply (run_wp h _ (λ _ g, KEvent (UpdateOperationStatus o) _ ∈ g)).
    apply wp_vis; [done|]. intros ? ? [-> ->]. apply wp_vis; [done|]. intros ? ? [-> ->].
    apply wp_kept. fold now o. set_solver. }
  destruct (run _ (handleEngineStatusError op e) g) as [result g1] eqn:Hrun.
  rewrite handleEngineStatusError_kinds in Hrun.
  destruct (ekind e); try (by injection Hrun as <- <-);
    try (specialize (Hfail g); by rewrite Hrun in Hfail).
  unfold isRunning in Hrun. rewrite bool_decide_eq_true_2, Hs in Hrun by done.
  rewrite run_bind in Hrun. simpl in Hrun. fold now in Hrun. unfold workloadGrace in Hrun.
  case_bool_decide.
  - by injection Hrun as <- <-.
  - specialize (Hfail (g ++ [KEvent Now now])). by rewrite Hrun in Hfail.
Qed.

(** A finished operation is not left alone: when the job of a succeeded
    operation is gone (jobs expire a day after they finish), the next pass
    rewrites the operation to [Failed], with [Succeeded=True] still among its
    conditions. *)
Theorem succeeded_operation_fails_when_job_expires (h : ∀ X, kcall X → X)
    (r : OperationReconciler) (ns name : string) (op : Operation) (target : ApplicationInstance)
    (others : list Operation) (reg : Registry) (ref : EngineResourceRef) (e : error) :
  h _ (GetOperation ns name) = Ok op →
  ContainsFinalizer (op_Meta op) OperationFinalizer = true →
  DeletionTimestamp (op_Meta op) = None →
  ValidateOperationSpec op = Ok tt →
  op_Phase op = PhaseSucceeded → says op ConditionSucceeded ConditionTrue →
  h _ (GetInstance (op_Namespace op) (op_Target op)) = Ok target →
  h _ (ListOperations (op_Namespace op)) = Ok others → find_conflict op others = None →
  or_Registry r = Some reg → reg !! op_Engine op = Some JobEngine →
  st_EngineRef (op_Status op) = Some ref → er_Namespace ref ≠ "" → er_Name ref ≠ "" →
  h _ (GetJob (er_Namespace ref) (er_Name ref)) = Err e → IsNotFound e = true →
  let o := failed (h _ Now) op (emsg ErrWorkloadMissing) in
  KEvent (UpdateOperationStatus o) (h _ (UpdateOperationStatus o))
    ∈ (run (trace_handler h) (Reconcile r ns name) []).2 ∧
  op_Phase o = PhaseFailed ∧ says o ConditionSucceeded ConditionTrue.
Proof.
  intros Hop Hf Hd Hv Hp Hs Ht Hl Hc Hr He Href Hns Hnm Hj Hnf o.
  split; [|split; [done|by apply says_set_other]].
  assert (Hns' : notStarted op = false) by (unfold notStarted; by rewrite Hp).
  assert (Hrun : isRunning op = false) by (unfold isRunning; by rewrite Hp).
  apply (run_wp h (Reconcile r ns name) (λ _ g, KEvent (UpdateOperationStatus o) _ ∈ g)).
  unfold Reconcile. answered Hop. rewrite Hf. cbn [negb].
  rewrite bool_decide_eq_false_2 by (rewrite Hd; congruence). rewrite Hv.
  answered Ht. unfold gates. apply wp_vis; [done|]. intros now g1 [-> ->]. cbn beta.
  change (NeedsApprovalCheck op) with (notStarted op). rewrite Hns'.
  apply wp_bind, wp_bind. answered Hl. cbn [wp]. rewrite Hc. cbn [fmap option_fmap option_map].
  rewrite Hr. unfold registry_Has, registry_Get. rewrite He, bool_decide_eq_true_2 by done.
  cbn [negb]. unfold runEngine. rewrite Hns'. unfold trackEngine, backfillEngineRefIfNeeded.
  rewrite Hrun. cbn [negb prog_bind]. apply wp_bind.
  cbn [EngineStatus JobEngine]. unfold job_Status, locateJob, resolveEngineLocationForStatus,
    resolveEngineLocationDetailed. rewrite Href, bool_decide_eq_true_2 by done.
  cbn [prog_bind]. apply wp_bind, wp_bind. answered Hj. cbn [wp]. rewrite Hnf. cbn [wp].
  rewrite handleEngineStatusError_kinds, Hrun. cbn [ekind ErrWorkloadMissing].
  apply wp_vis; [done|]. intros ? ? [-> ->]. apply wp_vis; [done|]. intros ? ? [-> ->].
  apply wp_kept. fold o. set_solver.
Qed.

End Runs.

(** ** Two pending operations that exclude each other

    A server that keeps the operations: it answers reads of operations from its
    store, stores status updates (or refuses them), and answers every other call
    as [srv] says, which may depend on time. *)

Record world := { w_ops : gmap string Operation; w_tick : nat }.

Definition tick (w : world) : world := {| w_ops := w_ops w; w_tick := S (w_tick w) |}.

Definition store_status (w : world) (o : Operation) : world :=
  match w_ops w !! op_Name o with
  | Some cur => {| w_ops := <[op_Name o := with_status cur (op_Status o)]> (w_ops w);
                   w_tick := S (w_tick w) |}
  | None => tick w
  end.

Definition serve (srv : nat → ∀ X, kcall X → X) : handler kcall world := λ X c w,
  match c in kcall Y return Y * world with
  | GetOperation _ name =>
      (match w_ops w !! name with Some o => Ok o | None => Err (mkErr "not found" KNotFound) end, tick w)
  | ListOperations _ => (Ok (map_to_list (w_ops w)).*2, tick w)
  | UpdateOperationStatus o =>
      match srv (w_tick w) _ (UpdateOperationStatus o) with
      | Ok _ => (Ok o, store_status w o)
      | Err e => (Err e, tick w)
      end
  | c => (srv (w_tick w) _ c, tick w)
  end.

(** [a] and [b] are both pending and each blocks the other. *)
Definition deadlocked `{KubeLib} (a b : string) (w : world) : Prop :=
  ∃ oa ob, w_ops w !! a = Some oa ∧ w_ops w !! b = Some ob ∧ a ≠ b ∧
    op_Name oa = a ∧ op_Name ob = b ∧
    op_Phase oa = PhasePending ∧ op_Phase ob = PhasePending ∧
    op_Target oa = op_Target ob ∧
    Conflicts (op_Type oa) (op_Type ob) = true ∧ Conflicts (op_Type ob) (op_Type oa) = true ∧
    ContainsFinalizer (op_Meta oa) OperationFinalizer = true ∧
    ContainsFinalizer (op_Meta ob) OperationFinalizer = true ∧
    DeletionTimestamp (op_Meta oa) = None ∧ DeletionTimestamp (op_Meta ob) = None.

Fixpoint passes `{JsonSyntax} `{KubeLib} (srv : nat → ∀ X, kcall X → X) (r : OperationReconciler)
    (ns : string) (schedule : list string) (w : world) : world :=
  match schedule with
  | [] => w
  | n :: schedule => passes srv r ns schedule (run (serve srv) (Reconcile r ns n) w).2
  end.

Section Deadlock.
Context `{JsonSyntax} `{KubeLib}.
Context (srv : nat → ∀ X, kcall X → X) (r : OperationReconciler) (ns : string).

Definition served : environment kcall world := λ X c w x w', (x, w') = serve srv X c w.

Lemma deadlocked_sym a b w : deadlocked a b w → deadlocked b a w.
Proof.
  intros (oa & ob & ? & ? & ? & ? & ? & ? & ? & ? & ? & ? & ? & ? & ? & ?).
  exists ob, oa. split_and!; done.
Qed.

Lemma deadlocked_tick a b w : deadlocked a b w → deadlocked a b (tick w).
Proof. done. Qed.

(** Writing a pending status keeps the two where they are. *)
Lemma deadlocked_store a b w o oa :
  deadlocked a b w → w_ops w !! a = Some oa → op_Name o = a → op_Phase o = PhasePending →
  deadlocked a b (store_status w o).
Proof.
  intros (oa' & ob & Ha & Hb & Hne & Hna & Hnb & Hpa & Hpb & Ht & Hc1 & Hc2 & Hf1 & Hf2 & Hd1 & Hd2)
    Hoa <- Hp.
  assert (oa' = oa) as -> by congruence. unfold store_status. rewrite Hoa. cbn [w_ops].
  exists (with_status oa (op_Status o)), ob. cbn [w_ops].
  rewrite lookup_insert_eq, lookup_insert_ne by done. split_and!; done.
Qed.

Lemma deadlocked_block a b w oa reason message :
  deadlocked a b w → w_ops w !! a = Some oa → op_Name oa = a →
  wp served anything (blockOperation oa reason message) (λ _ w', deadlocked a b w') w.
Proof.
  intros Hw Ha Hn. apply wp_vis; [done|]. intros now w1 [= -> ->].
  apply wp_vis; [done|]. intros x w2 Hx. unfold served in Hx. simpl in Hx.
  destruct (srv _ _ (UpdateOperationStatus _)) as [o'|e]; injection Hx as -> ->; cbn beta match.
  - apply wp_vis; [done|]. intros [] w3 [= _ ->]. simpl. apply deadlocked_tick.
    by eapply deadlocked_store.
  - done.
Qed.

Lemma deadlocked_pass a b w :
  deadlocked a b w → wp served anything (Reconcile r ns a) (λ _ w', deadlocked a b w') w.
Proof.
  intros Hw. pose proof Hw as (oa & ob & Ha & Hb & Hne & Hna & Hnb & Hpa & Hpb & Ht & Hc1 & Hc2 &
    Hf1 & Hf2 & Hd1 & Hd2).
  apply wp_vis; [done|]. intros x w1 Hx. unfold served in Hx. simpl in Hx. rewrite Ha in Hx.
  injection Hx as -> ->. cbn beta match. rewrite Hf1. cbn [negb].
  rewrite bool_decide_eq_false_2 by (rewrite Hd1; congruence).
  destruct (ValidateOperationSpec oa); [|by apply deadlocked_block].
  apply wp_vis; [done|]. intros x w2 [= -> ->]. cbn beta.
  destruct (srv _ _ (GetInstance _ _)) as [target|e].
  2: { destruct (IsNotFound e); [by apply deadlocked_block|done]. }
  apply wp_vis; [done|]. intros now w3 [= -> ->]. cbn beta.
  destruct (if NeedsApprovalCheck oa then _ else None); [by apply deadlocked_block|].
  apply wp_bind, wp_bind. apply wp_vis; [done|]. intros x w4 [= -> ->]. cbn [wp].
  destruct (find_conflict_complete oa (map_to_list (w_ops w)).*2 ob) as [c Hc].
  - apply list_elem_of_fmap. exists (b, ob). split; [done|]. by apply elem_of_map_to_list.
  - unfold blocks, InFlight. rewrite Hnb, Hna, Ht, Hpb, Hc2.
    rewrite (bool_decide_eq_false_2 (b = a)), bool_decide_eq_true_2 by done. done.
  - cbn [tick w_ops]. rewrite Hc. by apply deadlocked_block.
Qed.

(** Two pending operations that exclude each other wait for each other for
    ever: however often and in whatever order the two are reconciled, whatever
    the clock, the targets, the approvals and the engines answer, both are still
    [Pending].  A blocked operation is [Pending], and [InFlight] counts it as
    running. *)
Theorem pending_operations_deadlock (a b : string) (schedule : list string) (w : world) :
  deadlocked a b w → Forall (λ n, n = a ∨ n = b) schedule →
  deadlocked a b (passes srv r ns schedule w).
Proof.
  intros Hw Hs. revert w Hw. induction Hs as [|n l Hn Hl IH]; intros w Hw; cbn [passes]; [done|].
  apply IH. destruct Hn as [-> | ->].
  - eapply (wp_run served anything (serve srv) _ (λ _ w', deadlocked a b w'));
      [|by apply deadlocked_pass]. intros X c w'. unfold served. by destruct (serve srv X c w').
  - apply deadlocked_sym.
    eapply (wp_run served anything (serve srv) _ (λ _ w', deadlocked b a w'));
      [|by apply deadlocked_pass, deadlocked_sym].
    intros X c w'. unfold served. by destruct (serve srv X c w').
Qed.

End Deadlock.

(** ** Witnesses *)

Lemma NewRegistry_lookup items n e : NewRegistry items !! n = Some e → e ∈ items.
Proof.
  unfold NewRegistry. assert (Hgen : ∀ r : gmap string Engine, (∀ m e, r !! m = Some e → e ∈ items) →
    ∀ l, l ⊆ items → ∀ m e, foldl (λ r e, <[eng_Name e := e]> r) r l !! m = Some e → e ∈ items).
  { intros r Hr l. revert r Hr. induction l as [|x l IH]; intros r Hr Hl m e'; cbn [foldl]; [by apply Hr|].
    apply IH; [|set_solver]. intros m' e2. rewrite lookup_insert. case_decide; [|by apply Hr].
    intros [= <-]. set_solver. }
  apply (Hgen ∅); [|done]. intros m e'. by rewrite lookup_empty.
Qed.

Lemma engineRegistry_contract `{JsonSyntax} `{KubeLib} veleroNS n e :
  engineRegistry veleroNS !! n = Some e → EngineContract e.
Proof.
  intros Hin%NewRegistry_lookup. rewrite !elem_of_cons, elem_of_nil in Hin.
  destruct Hin as [->|[->|[->|[->|[->|[]]]]]]; apply _.
Qed.

Definition sample_reconciler : OperationReconciler :=
  {| or_Registry := Some (@engineRegistry image_syntax reference_lib "velero");
     or_ApprovalClaimSecret := "s3cret" |}.

Lemma reconcile_gated_witness :
  wp traced (@gated image_syntax reference_lib sample_reconciler "a" "b")
    (@Reconcile image_syntax reference_lib sample_reconciler "a" "b") (λ _ _, True) [].
Proof.
  apply (@reconcile_gated image_syntax reference_lib).
  intros reg engine e [= <-]. apply engineRegistry_contract.
Defined.


(** A server with one operation, its target, and no jobs. *)
Definition one_operation (o : Operation) : ∀ X, kcall X → X := λ X c,
  match c in kcall Y return Y with
  | Now => (100 * second)%Z
  | GetOperation _ _ => Ok o
  | GetInstance _ _ => Ok (sample_instance "a" "rel")
  | GetNamespace n => Ok (meta_of "" n)
  | ListOperations _ => Ok [o]
  | CreateJob _ | DeleteJob _ _ | CreateObject _ | DeleteObject _ _ _
  | CreateOrUpdate _ _ _ _ => Ok tt
  | ListJobs _ _ => Ok []
  | ListObjects _ _ _ => Ok []
  | GetJob _ _ | GetObject _ _ _ => Err (mkErr "not found" KNotFound)
  | UpdateOperation o | UpdateOperationStatus o => Ok o
  | Report _ _ _ => tt
  end.

Definition sample_command : Operation :=
  sample_operation "a" "b" "u1" OperationTypeRunCommand EngineJob (Some "image").

(** The server once the job of the operation is complete. *)
Definition done_job (o : Operation) (ns name : string) : Job :=
  let j := @jobFor o ns zeroJobParameters in
  {| job_Meta := applyOperationLabels (meta_of ns name) o; job_BackoffLimit := job_BackoffLimit j;
     job_ActiveDeadlineSeconds := job_ActiveDeadlineSeconds j;
     job_TTLSecondsAfterFinished := job_TTLSecondsAfterFinished j; job_TemplateMeta := job_TemplateMeta j;
     job_RestartPolicy := job_RestartPolicy j; job_ServiceAccountName := job_ServiceAccountName j;
     job_Containers := job_Containers j;
     job_Conditions := [{| jc_Type := "Complete"; jc_Status := ConditionTrue; jc_Message := "" |}] |}.

Definition job_done (o : Operation) : ∀ X, kcall X → X := λ X c,
  match c in kcall Y return Y with
  | GetJob ns name => Ok (done_job o ns name)
  | c => one_operation o _ c
  end.

Definition started_command : Operation := started (100 * second) sample_command (sample_instance "a" "rel").
Definition command_status : Status := statusFromJob (done_job started_command "rel" "a--b").

Lemma operation_completes_witness :
  let h1 := one_operation sample_command in
  let h2 := job_done started_command in
  let f := finished (100 * second) started_command command_status in
  let pass h := run (trace_handler h) (@Reconcile image_syntax reference_lib sample_reconciler "a" "b") [] in
  wrote h1 started_command (pass h1).2 ∧ op_Phase started_command = PhaseRunning ∧
  st_StartedAt (op_Status started_command) = Some (100 * second)%Z ∧
  st_EngineRef (op_Status started_command) =
    Some (NewEngineResourceRef sample_command (sample_instance "a" "rel") "Job") ∧
  (pass h2).1 = (noResult, None) ∧ wrote h2 f (pass h2).2 ∧
  st_FinishedAt (op_Status f) = Some (100 * second)%Z ∧
  op_Phase f = PhaseSucceeded ∧ says f ConditionSucceeded ConditionTrue.
Proof.
  apply (@operation_completes image_syntax reference_lib (one_operation sample_command)
    (job_done started_command) sample_reconciler "a" "b" sample_command (sample_instance "a" "rel")
    (@JobEngine image_syntax reference_lib) command_status
    (finished (100 * second) started_command command_status)).
  - apply _.
  - split; try reflexivity; [exists [sample_command]; by split|eexists; split; reflexivity].
  - reflexivity.
  - split; try reflexivity; try discriminate; [exists [started_command]; by split|eexists; split; reflexivity].
  - reflexivity.
  - reflexivity.
  - reflexivity.
Defined.

Lemma finalizer_removed_after_cancel_witness :
  let h := one_operation sample_command in
  let o := with_op_meta sample_command
             (@RemoveFinalizer reference_lib (op_Meta sample_command) OperationFinalizer) in
  let '(cancelled, g1) := run (trace_handler h) (Cancel (@JobEngine image_syntax reference_lib)
                                                  sample_command) [] in
  run (trace_handler h) (@finalizeOperation reference_lib sample_reconciler sample_command) [] =
    match cancelled with
    | Err e => ((after 15, Some (wrapf "cancel engine resources" e)), g1)
    | Ok _ =>
        ((noResult, match h _ (UpdateOperation o) with
                    | Ok _ => None
                    | Err e => Some (wrapf "remove finalizer" e)
                    end), g1 ++ [KEvent (UpdateOperation o) (h _ (UpdateOperation o))])
    end ∧
  OperationFinalizer ∉ Finalizers (op_Meta o).
Proof.
  apply (@finalizer_removed_after_cancel reference_lib reference_laws
    (one_operation sample_command) sample_reconciler sample_command
    (@engineRegistry image_syntax reference_lib "velero") (@JobEngine image_syntax reference_lib));
    reflexivity.
Defined.

Definition running_since (o : Operation) (s : Z) : Operation :=
  set_StartedAt (set_Phase o PhaseRunning) (Some s).

Lemma missing_workload_grace_witness :
  let op := running_since sample_command (50 * second) in
  let '(result, g1) := run (trace_handler (one_operation op))
                         (handleEngineStatusError op ErrWorkloadMissing) [] in
  result = (after 5, None) ∧ g1 = [KEvent Now (100 * second)%Z].
Proof.
  apply (missing_workload_grace (one_operation (running_since sample_command (50 * second)))
    (running_since sample_command (50 * second)) ErrWorkloadMissing (50 * second) []); reflexivity.
Defined.

Definition succeeded_command : Operation :=
  finished 0 (started 0 sample_command (sample_instance "a" "rel"))
    (statusSucceeded "EngineCompleted" ∅).

Lemma succeeded_operation_fails_when_job_expires_witness :
  let h := one_operation succeeded_command in
  let o := failed (100 * second) succeeded_command (emsg ErrWorkloadMissing) in
  KEvent (UpdateOperationStatus o) (h _ (UpdateOperationStatus o))
    ∈ (run (trace_handler h) (@Reconcile image_syntax reference_lib sample_reconciler "a" "b") []).2 ∧
  op_Phase o = PhaseFailed ∧ says o ConditionSucceeded ConditionTrue.
Proof.
  apply (@succeeded_operation_fails_when_job_expires image_syntax reference_lib
    (one_operation succeeded_command) sample_reconciler "a" "b" succeeded_command
    (sample_instance "a" "rel") [succeeded_command]
    (@engineRegistry image_syntax reference_lib "velero")
    {| er_Kind := "Job"; er_Name := "a--b"; er_Namespace := "rel" |} (mkErr "not found" KNotFound));
    try reflexivity; try discriminate.
  eexists _, _. reflexivity.
Defined.

(** A backup and a restore of the same target, both blocked. *)
Definition pending (name typ : string) : Operation :=
  set_Phase (sample_operation "a" name name typ EngineVelero None) PhasePending.
Definition deadlocked_world : world :=
  {| w_ops := {[ "bk" := pending "bk" OperationTypeBackup; "rs" := pending "rs" OperationTypeRestore ]};
     w_tick := 0 |}.

Lemma pending_operations_deadlock_witness :
  @deadlocked reference_lib "bk" "rs"
    (@passes image_syntax reference_lib (λ _, one_operation sample_command) sample_reconciler "a"
       ["bk"; "rs"; "bk"] deadlocked_world).
Proof.
  apply (@pending_operations_deadlock image_syntax reference_lib).
  - exists (pending "bk" OperationTypeBackup), (pending "rs" OperationTypeRestore).
    split_and!; try reflexivity. discriminate.
  - rewrite !Forall_cons. auto 10.
Defined.
