(* ===== verification/OperationStuck.v ===== *)
(** * Operations that never finish

    Two ways in which the reconciler keeps operations from finishing: an upgrade
    through the helm engine is never observed to complete, and an operation that
    has finished is put back to [Pending] by a gate and then excludes the one
    that is running. *)

From stdpp Require Import base list strings gmap.
From S2P Require Import Prelude Traces GoStrings Api Conditions Reporter Json Templates Kube Concurrency.
From S2P Require Import Approvals Engines EnginesProofs OperationReconciler OperationProofs.

(** ** Upgrades through the helm engine *)

(** Any server on which the operations read are for the helm engine; the state is
    the trace of the pass. *)
Definition helm_answer {X} (c : kcall X) : X → Prop :=
  match c in kcall Y return Y → Prop with
  | GetOperation _ _ => λ x, match x with Ok op => op_Engine op = EngineHelm | Err _ => True end
  | _ => λ _, True
  end.
Definition helm_server : environment kcall (trace_of kcall) := λ X c g x g',
  traced X c g x g' ∧ helm_answer c x.

Section Writes.
Context `{JsonSyntax} `{KubeLib}.

(** Why the engine could not start the upgrade [op] of [target]: its parameters do
    not decode, the target has no release, or reading or patching the HelmRelease
    of that release failed. *)
Definition upgrade_refused (op : Operation) (target : ApplicationInstance) (g : trace_of kcall) : Prop :=
  (∃ e, parseHelmParameters op = Err e) ∨ as_Release (ai_Spec target) = None ∨
  ∃ release, as_Release (ai_Spec target) = Some release ∧
    let read := GetObject HelmReleaseKind (ai_Namespace target) (rel_Name release) in
    (∃ e, Called read (Err e) ∈ g) ∨
    (∃ hr patch e, Called read (Ok hr) ∈ g ∧
       Called (CreateOrUpdate HelmReleaseKind (Namespace (u_Meta hr)) (Name (u_Meta hr)) patch) (Err e) ∈ g).

(** The statuses written: [Failed] only for an operation that had not started and
    that the engine could not start. *)
Definition unfinished_writes (ns name : string) : permission kcall (trace_of kcall) := λ X c g,
  match c with
  | UpdateOperationStatus o =>
      op_Phase o = PhasePending ∨ op_Phase o = PhaseRunning ∨
      (op_Phase o = PhaseFailed ∧ ∃ op target,
         Called (GetOperation ns name) (Ok op) ∈ g ∧ notStarted op = true ∧
         Called (GetInstance (op_Namespace op) (op_Target op)) (Ok target) ∈ g ∧ upgrade_refused op target g)
  | _ => True
  end.
End Writes.

Section Helm.
Context `{JsonSyntax} `{KubeLib}.

Context (ns name : string).

Local Notation wph p g := (wp helm_server (unfinished_writes ns name) p (λ _ _, True) g).

Lemma helm_block op reason message g : wph (blockOperation op reason message) g.
Proof.
  apply wp_vis; [done|]. intros now g1 _. apply wp_vis; [by left|].
  intros [o|e] g2 _; [|done]. by apply wp_vis.
Qed.

Lemma helm_fail op target message g :
  Called (GetOperation ns name) (Ok op) ∈ g → notStarted op = true →
  Called (GetInstance (op_Namespace op) (op_Target op)) (Ok target) ∈ g → upgrade_refused op target g →
  wph (failOperation op message) g.
Proof.
  intros Hop Hn Ht Hr. apply wp_vis; [done|]. intros now g1 [-> _]. apply wp_vis.
  - right; right. split; [done|]. exists op, target. unfold upgrade_refused in *.
    split_and!; [set_solver..|]. set_solver.
  - intros [o|e] g2 _; [|done]. by apply wp_vis.
Qed.

Lemma backfilled_phase now op target o : backfilled now op target = Some o → op_Phase o = op_Phase op.
Proof.
  unfold backfilled. destruct (st_EngineRef (op_Status op)); [|destruct (SupportsEngineRef (op_Engine op))];
    destruct (bool_decide _); simpl; intros Ho; simplify_eq; done.
Qed.

Lemma helm_backfill op target g : wph (backfillEngineRefIfNeeded op target) g.
Proof.
  unfold backfillEngineRefIfNeeded. destruct (isRunning op) eqn:Hr; cbn [negb]; [|done].
  apply bool_decide_eq_true in Hr. apply wp_vis; [done|]. intros now g1 _. cbn beta.
  destruct (backfilled now op target) as [o|] eqn:Hb; [|done].
  apply backfilled_phase in Hb. apply wp_vis; [right; left; congruence|]. by intros [o'|e] g2 _.
Qed.

Lemma helm_track op target prev g : wph (trackEngine HelmEngine op target prev) g.
Proof.
  apply wp_bind. eapply wp_mono; [|apply helm_backfill]. intros [o|e] g1 _; [|done].
  apply wp_vis; [by right; left|]. intros [o'|e] g2 _; [|done]. by apply wp_vis.
Qed.

Lemma helm_materialize op target g :
  wp helm_server (unfinished_writes ns name) (helm_Materialize op target)
    (λ res g', g `prefix_of` g' ∧ ∀ e, res = Err e → upgrade_refused op target g') g.
Proof.
  unfold helm_Materialize, upgrade_refused. destruct (parseHelmParameters op) as [params|] eqn:Hp.
  2: { split; [done|]. left. by eexists. }
  destruct (as_Release _) as [release|]; [|split; [done|]; by right; left]. apply wp_vis; [done|]. intros [hr|e] g1 [-> _].
  - apply wp_call. split; [done|]. intros x g2 [Hg2 _]. unfold traced in Hg2. subst g2.
    split; [rewrite <-app_assoc; by apply prefix_app_r|].
    intros e ->. right; right. exists release. split; [done|]. right. exists hr, (mutateHelmRelease params), e. rewrite !elem_of_app, !list_elem_of_singleton. tauto.
  - split; [by apply prefix_app_r|]. intros e' _. right; right. exists release. split; [done|].
    left. exists e. rewrite elem_of_app, list_elem_of_singleton. tauto.
Qed.

Lemma helm_run op target g :
  Called (GetOperation ns name) (Ok op) ∈ g →
  Called (GetInstance (op_Namespace op) (op_Target op)) (Ok target) ∈ g →
  wph (runEngine HelmEngine op target) g.
Proof.
  intros Hop Ht. unfold runEngine. destruct (notStarted op) eqn:Hn; [|apply helm_track].
  apply wp_bind. eapply wp_mono; [|apply helm_materialize]. intros [[]|e] g1 [[more ->] Hg1].
  - apply wp_vis; [done|]. intros now g2 _. apply wp_vis; [by right; left|]. intros [o|e] g3 _; [|done].
    apply wp_vis; [done|]. intros [] g4 _. apply helm_track.
  - apply (helm_fail op target); [set_solver|done|set_solver|by eapply Hg1].
Qed.

(** C38: an upgrade never completes: whatever the API server answers and however
    the release fares, every status a pass writes for an operation of the helm
    engine is [Pending] or [Running], or [Failed] when the operation had not
    started and the engine could not start it: its parameters do not decode, the
    target has no release, or reading or patching the HelmRelease failed in this
    pass.  So it is never [Succeeded], and once started not [Failed] either: the
    engine's [Status] does not look at the release. *)
Theorem helm_upgrade_never_finishes (r : OperationReconciler) (reg : Registry) :
  or_Registry r = Some reg → reg !! EngineHelm = Some HelmEngine →
  wph (Reconcile r ns name) [].
Proof.
  intros Hr He. unfold Reconcile. apply wp_vis; [done|]. intros [op|e] g1 [-> Hop]; cbn beta match;
    [|by destruct (IsNotFound e)]. cbn in Hop.
  destruct (ContainsFinalizer (op_Meta op) OperationFinalizer); cbn [negb].
  2: { apply wp_vis; [done|]. by intros [o|e] g2 _. }
  case_bool_decide.
  { unfold finalizeOperation. rewrite Hr, Hop. unfold registry_Has, registry_Get.
    rewrite He, bool_decide_eq_true_2 by done. apply wp_vis; [done|]. by intros [o|e] g2 _. }
  destruct (ValidateOperationSpec op); [|apply helm_block].
  apply wp_vis; [done|]. intros [target|e] g2 [-> _]; cbn beta match.
  2: { destruct (IsNotFound e); [apply helm_block|done]. }
  apply wp_vis; [done|]. intros now g3 [-> _]. cbn beta.
  destruct (if NeedsApprovalCheck op then _ else None); [apply helm_block|].
  apply wp_bind, wp_bind. apply wp_vis; [done|]. intros [others|e] g4 [-> _]; cbn [wp]; [|done].
  destruct (find_conflict op others); cbn [fmap option_fmap option_map]; [apply helm_block|].
  rewrite Hr, Hop. unfold registry_Has, registry_Get. rewrite He, bool_decide_eq_true_2 by done.
  apply helm_run; set_solver.
Qed.
End Helm.

Lemma helm_upgrade_never_finishes_witness :
  wp helm_server (@unfinished_writes image_syntax "a" "b")
    (@Reconcile image_syntax reference_lib sample_reconciler "a" "b") (λ _ _, True) [].
Proof.
  by apply (@helm_upgrade_never_finishes image_syntax reference_lib) with
    (reg := @engineRegistry image_syntax reference_lib "velero").
Defined.

(** ** A finished operation beside a running one *)

(** [a] has finished, [b] is running, and each type must wait for the other. *)
Definition finished_beside `{KubeLib} (a b : string) (w : world) : Prop :=
  ∃ oa ob, w_ops w !! a = Some oa ∧ w_ops w !! b = Some ob ∧ a ≠ b ∧
    op_Name oa = a ∧ op_Name ob = b ∧
    terminal (op_Phase oa) = true ∧ op_Phase ob = PhaseRunning ∧
    op_Target oa = op_Target ob ∧
    Conflicts (op_Type oa) (op_Type ob) = true ∧ Conflicts (op_Type ob) (op_Type oa) = true ∧
    ContainsFinalizer (op_Meta oa) OperationFinalizer = true ∧
    ContainsFinalizer (op_Meta ob) OperationFinalizer = true ∧
    DeletionTimestamp (op_Meta oa) = None ∧ DeletionTimestamp (op_Meta ob) = None.

Section Reopened.
Context `{JsonSyntax} `{KubeLib}.
Context (srv : nat → ∀ X, kcall X → X) (r : OperationReconciler) (ns : string).
Context (Htarget : ∀ t n m, ∃ target, srv t _ (GetInstance n m) = Ok target).
Context (Hstored : ∀ t o, ∃ o', srv t _ (UpdateOperationStatus o) = Ok o').

Local Notation wpr p Q w := (wp (served srv) anything p Q w).

(** The operation [oa] put back to [Pending], everything else as it was. *)
Definition reopened (oa : Operation) (w w' : world) : Prop :=
  ∃ o, op_Phase o = PhasePending ∧ w_ops w' = <[op_Name oa := with_status oa (op_Status o)]> (w_ops w).

Lemma block_reopens oa reason message w0 w :
  w_ops w = w_ops w0 → w_ops w0 !! op_Name oa = Some oa →
  wpr (blockOperation oa reason message) (λ _ w', reopened oa w0 w') w.
Proof using Hstored.
  intros Hw Ha. apply wp_vis; [done|]. intros now w1 [= -> ->].
  apply wp_vis; [done|]. intros x w2 Hx. unfold served in Hx. simpl in Hx.
  destruct (Hstored (S (w_tick w)) (blocked (srv (w_tick w) _ Now) oa reason message)) as [o' Ho].
  simpl in Ho. rewrite Ho in Hx. injection Hx as -> ->. apply wp_vis; [done|].
  intros [] w3 [= _ ->]. exists (blocked (srv (w_tick w) _ Now) oa reason message). split; [done|].
  unfold store_status. simpl. change (op_Name (blocked _ oa _ _)) with (op_Name oa).
  by rewrite Hw, Ha.
Qed.

(** A pass over an operation beside one that it must wait for, whatever its own
    phase. *)
Lemma conflict_reopens oa ob b w :
  w_ops w !! op_Name oa = Some oa → w_ops w !! b = Some ob → blocks oa ob = true →
  ContainsFinalizer (op_Meta oa) OperationFinalizer = true → DeletionTimestamp (op_Meta oa) = None →
  wpr (Reconcile r ns (op_Name oa)) (λ _ w', reopened oa w w') w.
Proof using Hstored Htarget.
  intros Ha Hb Hbl Hf Hd. apply wp_vis; [done|]. intros x w1 Hx. unfold served in Hx. simpl in Hx.
  rewrite Ha in Hx. injection Hx as -> ->. cbn beta match. rewrite Hf. cbn [negb].
  rewrite bool_decide_eq_false_2 by (rewrite Hd; congruence).
  destruct (ValidateOperationSpec oa); [|by apply block_reopens].
  apply wp_vis; [done|]. intros x w2 [= -> ->]. cbn beta.
  destruct (Htarget (w_tick (tick w)) (op_Namespace oa) (op_Target oa)) as [target Ht].
  simpl in *. rewrite Ht. apply wp_vis; [done|]. intros now w3 [= -> ->]. cbn beta.
  destruct (if NeedsApprovalCheck oa then _ else None); [by apply block_reopens|].
  apply wp_bind, wp_bind. apply wp_vis; [done|]. intros x w4 [= -> ->]. cbn [wp].
  destruct (find_conflict_complete oa (map_to_list (w_ops w)).*2 ob) as [c Hc]; [|done|].
  - apply list_elem_of_fmap. exists (b, ob). split; [done|]. by apply elem_of_map_to_list.
  - cbn [tick w_ops]. rewrite Hc. by apply block_reopens.
Qed.

Lemma blocks_in_flight oa ob :
  op_Name oa ≠ op_Name ob → op_Target oa = op_Target ob →
  op_Phase ob = PhaseRunning ∨ op_Phase ob = PhasePending →
  Conflicts (op_Type ob) (op_Type oa) = true → blocks oa ob = true.
Proof.
  intros Hn Ht Hp Hc. unfold blocks, InFlight.
  rewrite bool_decide_eq_false_2, bool_decide_eq_true_2, Hc by congruence.
  by destruct Hp as [-> | ->].
Qed.

Lemma pass_reopens oa ob b w :
  w_ops w !! op_Name oa = Some oa → w_ops w !! b = Some ob → blocks oa ob = true →
  ContainsFinalizer (op_Meta oa) OperationFinalizer = true → DeletionTimestamp (op_Meta oa) = None →
  reopened oa w (run (serve srv) (Reconcile r ns (op_Name oa)) w).2.
Proof using Hstored Htarget.
  intros. eapply (wp_run (served srv) anything (serve srv) _ (λ _ w', reopened oa w w'));
    [|by eapply conflict_reopens]. intros X c w'. unfold served. by destruct (serve srv X c w').
Qed.

(** C39: a finished operation comes back and stops the running one: the gates are
    evaluated in every phase, so when the passes over all operations that follow
    a restart of the operator meet a finished operation (say a backup that
    succeeded) beside a running one whose type must wait for it (the restore of
    the same target), the first pass puts the finished operation back to
    [Pending], the second one the running operation, and from then on each waits
    for the other for ever, whatever the clock, the engines and the approvals
    answer, as long as the target is found and status writes succeed. *)
Theorem finished_operation_stops_running (a b : string) (schedule : list string) (w : world) :
  finished_beside a b w → Forall (λ n, n = a ∨ n = b) schedule →
  deadlocked a b (passes srv r ns (a :: b :: schedule) w).
Proof using Hstored Htarget.
  intros (oa & ob & Ha & Hb & Hne & <- & <- & Hta & Hrb & Ht & Hc1 & Hc2 & Hfa & Hfb & Hda & Hdb) Hs.
  cbn [passes]. apply pending_operations_deadlock; [|done].
  destruct (pass_reopens oa ob (op_Name ob) w) as (o1 & Hp1 & Hw1); try done.
  { apply blocks_in_flight; auto. }
  set (w1 := (run _ _ w).2) in *. set (oa' := with_status oa (op_Status o1)) in *.
  assert (Hb1 : w_ops w1 !! op_Name ob = Some ob) by (rewrite Hw1; by rewrite lookup_insert_ne).
  assert (Ha1 : w_ops w1 !! op_Name oa = Some oa') by (rewrite Hw1; apply lookup_insert_eq).
  destruct (pass_reopens ob oa' (op_Name oa) w1) as (o2 & Hp2 & Hw2); try done.
  { apply blocks_in_flight; auto. }
  exists oa', (with_status ob (op_Status o2)). rewrite Hw2, lookup_insert_eq.
  rewrite lookup_insert_ne by done. split_and!; done.
Qed.
End Reopened.

Definition succeeded_backup : Operation :=
  set_Phase (sample_operation "a" "bk" "bk" OperationTypeBackup EngineVelero None) PhaseSucceeded.
Definition running_restore : Operation :=
  set_Phase (sample_operation "a" "rs" "rs" OperationTypeRestore EngineVelero None) PhaseRunning.
Definition restarted_world : world :=
  {| w_ops := {[ "bk" := succeeded_backup; "rs" := running_restore ]}; w_tick := 0 |}.

Lemma finished_operation_stops_running_witness :
  @deadlocked reference_lib "bk" "rs"
    (@passes image_syntax reference_lib (λ _, one_operation sample_command) sample_reconciler "a"
       ["bk"; "rs"; "rs"] restarted_world).
Proof.
  apply (@finished_operation_stops_running image_syntax reference_lib).
  - intros t n m. eexists. reflexivity.
  - intros t o. eexists. reflexivity.
  - exists succeeded_backup, running_restore. split_and!; try reflexivity. discriminate.
  - rewrite !Forall_cons. auto 10.
Defined.
