(* ===== verification/OperationWebhook.v ===== *)
(** * internal/webhook: admission of operations

    [ValidateCreate] and [ValidateUpdate] are programs over the API reader; the
    claim check reads the clock. *)

From stdpp Require Import base list strings gmap.
From S2P Require Import Prelude Traces GoStrings Api Json Templates Kube Concurrency Approvals Engines.
From S2P Require Import OperationReconciler InstanceValidation.

Definition namespaceAllowedTypesAnnotation : string := "ops.vworkspace.io/allowed-types".

Definition validateKnownOperationType (op : Operation) : result unit :=
  if bool_decide (op_Type op ∈ [OperationTypeBackup; OperationTypeRestore; OperationTypeUpgrade;
                                OperationTypeMigration; OperationTypeRunCommand;
                                OperationTypeRunbook])
  then Ok tt else Err (errorf ("unsupported operation type " +:+ quote (op_Type op))).

(** [parseAllowedTypes]: the set, as the list of its elements. *)
Definition parseAllowedTypes (raw : string) : list string :=
  filter (λ p, p ≠ "") (TrimSpace <$> Split raw (byte 44)).

(** The decision on the namespace's annotations. *)
Definition namespaceAllows (annotations : gmap string string) (typ : string) : bool :=
  match annotations !! namespaceAllowedTypesAnnotation with
  | None => true
  | Some raw => bool_decide (TrimSpace raw = "") || bool_decide (typ ∈ parseAllowedTypes raw)
  end.

Definition validateNamespaceAllowedTypes (op : Operation) : prog kcall (result unit) :=
  let* r := call (GetNamespace (op_Namespace op)) in
  match r with
  | Err e => Ret (if IsNotFound e then Ok tt
                  else Err (wrapf ("get namespace " +:+ quote (op_Namespace op)) e))
  | Ok ns =>
      Ret (if namespaceAllows (Annotations ns) (op_Type op) then Ok tt
           else Err (errorf ("operation type " +:+ quote (op_Type op) +:+ " not allowed in namespace " +:+
             quote (op_Namespace op) +:+ " (annotation " +:+ namespaceAllowedTypesAnnotation +:+ ")")))
  end.

Definition validateOperationTargetExists (op : Operation)
    : prog kcall (result ApplicationInstance) :=
  let* r := call (GetInstance (op_Namespace op) (op_Target op)) in
  match r with
  | Err e => Ret (Err (if IsNotFound e
      then errorf ("target ApplicationInstance " +:+ quote (op_Target op) +:+
                   " not found in namespace " +:+ quote (op_Namespace op))
      else wrapf "get target ApplicationInstance" e))
  | Ok target => Ret (Ok target)
  end.

Definition validateOperationBuiltinTemplate (op : Operation) : result unit :=
  match Lookup (op_Type op) (op_Engine op) with
  | Some _ => Ok tt
  | None => Err (errorf ("no built-in operation template for type " +:+ quote (op_Type op) +:+
      " and engine " +:+ quote (op_Engine op) +:+ " (expected refs such as " +:+
      String.concat ", " BuiltinRefs +:+ ")"))
  end.

Definition rawParameters (op : Operation) (missing : string) : string :=
  default missing (os_Parameters (op_Spec op)).

Definition operationParametersChanged (old new : Operation) : bool :=
  negb (bool_decide (TrimSpace (rawParameters old "{}") = TrimSpace (rawParameters new "{}"))).

Definition validateOperationSpecImmutability (old new : Operation) : result unit :=
  let ot := os_TargetRef (op_Spec old) in
  let nt := os_TargetRef (op_Spec new) in
  if negb (bool_decide (tr_APIVersion ot = tr_APIVersion nt)) then
    Err (errorf "spec.targetRef.apiVersion is immutable")
  else if negb (bool_decide (tr_Kind ot = tr_Kind nt)) then
    Err (errorf "spec.targetRef.kind is immutable")
  else if negb (bool_decide (tr_Name ot = tr_Name nt)) then
    Err (errorf "spec.targetRef.name is immutable")
  else if negb (bool_decide (op_Type old = op_Type new)) then Err (errorf "spec.type is immutable")
  else if negb (bool_decide (op_Engine old = op_Engine new)) then
    Err (errorf "spec.engine is immutable")
  else Ok tt.

Definition validateOperationParametersImmutability (old new : Operation) : result unit :=
  if negb (operationParametersChanged old new) then Ok tt
  else if bool_decide (op_Phase old = "") || bool_decide (op_Phase old = PhasePending) then Ok tt
  else Err (errorf ("spec.parameters is immutable once operation has started (phase=" +:+
                    op_Phase old +:+ ")")).

Definition validateOperationCapability (target : ApplicationInstance) (op : Operation)
    : result unit :=
  match Lookup (op_Type op) (op_Engine op) with
  | None => Ok tt
  | Some tpl =>
      let key := CapabilityAnnotationKey (tpl_CapabilityVerb tpl) in
      let want := op_Engine op in
      let got := default "" (Annotations (ai_Meta target) !! key) in
      if bool_decide (TrimSpace got = "") then
        Err (errorf ("target " +:+ quote (ai_Name target) +:+ " missing capability annotation " +:+
          key +:+ "=" +:+ quote want +:+ " required for template " +:+ tpl_Ref tpl))
      else if negb (bool_decide (TrimSpace got = want)) then
        Err (errorf ("target " +:+ quote (ai_Name target) +:+ " capability " +:+ key +:+ "=" +:+
          quote got +:+ " does not match operation engine " +:+ quote want +:+
          " (template " +:+ tpl_Ref tpl +:+ ")"))
      else Ok tt
  end.

Definition validateOperationConcurrency (op : Operation) : prog kcall (result unit) :=
  try* conflict := FindConflict op catch e => Ret (Err e) in
  Ret (match conflict with
       | Some c => Err (errorf ("target " +:+ quote (op_Target op) +:+ " " +:+ FormatConflict c))
       | None => Ok tt
       end).

Section Webhook.
Context `{JsonSyntax} `{SchemaValidator} (approvalClaimSecret : string).

Definition validateOperationParameters (op : Operation) : result unit :=
  ValidateParameters (op_Type op) (op_Engine op) (rawParameters op "").

Definition validateOperationApprovalClaim (now : Z) (op : Operation) : result unit :=
  let claim := Claim op in
  if bool_decide (claim = "") then Ok tt
  else match ValidateClaim now approvalClaimSecret claim (op_Name op) with
       | Err e => Err (wrapf "spec.approvals.claim" e)
       | Ok _ => Ok tt
       end.

(** [validateOperation]. *)
Definition validateOperation (op : Operation) (validateParameters : bool)
    : prog kcall (result unit) :=
  match (check! ValidateOperationSpec op; validateKnownOperationType op) with
  | Err e => Ret (Err e)
  | Ok _ =>
      try* _ := validateNamespaceAllowedTypes op catch e => Ret (Err e) in
      match validateOperationBuiltinTemplate op with
      | Err e => Ret (Err e)
      | Ok _ =>
          try* target := validateOperationTargetExists op catch e => Ret (Err e) in
          match (check! validateOperationCapability target op;
                 if validateParameters
                 then check! validateOperationParameters op; ValidateRuntimeParameters op
                 else Ok tt) with
          | Err e => Ret (Err e)
          | Ok _ =>
              let* now := call Now in
              match validateOperationApprovalClaim (Unix now) op with
              | Err e => Ret (Err e)
              | Ok _ => validateOperationConcurrency op
              end
          end
      end
  end.

Definition operation_ValidateCreate (op : Operation) : prog kcall (result unit) :=
  validateOperation op true.

Definition operation_ValidateUpdate (old op : Operation) : prog kcall (result unit) :=
  match (check! validateOperationSpecImmutability old op;
         validateOperationParametersImmutability old op) with
  | Err e => Ret (Err e)
  | Ok _ => validateOperation op (operationParametersChanged old op)
  end.

Definition operation_ValidateDelete (op : Operation) : prog kcall (result unit) := Ret (Ok tt).

End Webhook.
