(* ===== verification/WebhookProofs.v ===== *)
(** * Theorems on operation admission *)

From stdpp Require Import base list strings gmap.
From S2P Require Import Prelude Traces GoStrings Api Json Templates Kube Concurrency Approvals Engines.
From S2P Require Import EnginesProofs OperationReconciler InstanceValidation OperationWebhook.

(** The namespace does not forbid the type ([NotFound] forbids nothing). *)
Definition namespace_ok (r : result ObjectMeta) (typ : string) : Prop :=
  match r with
  | Ok ns => namespaceAllows (Annotations ns) typ = true
  | Err e => IsNotFound e = true
  end.

(** The target declares the operation's capability for its engine. *)
Definition capable (target : ApplicationInstance) (op : Operation) : Prop :=
  ∃ tpl got, Lookup (op_Type op) (op_Engine op) = Some tpl ∧
    Annotations (ai_Meta target) !! CapabilityAnnotationKey (tpl_CapabilityVerb tpl) = Some got ∧
    TrimSpace got = op_Engine op.

Lemma Lookup_engine_nonempty typ engine tpl : Lookup typ engine = Some tpl → engine ≠ "".
Proof.
  intros (Hb & _ & <-)%Lookup_spec. revert tpl Hb. apply Forall_forall.
  repeat constructor; discriminate.
Qed.

Lemma capability_spec target op tpl :
  Lookup (op_Type op) (op_Engine op) = Some tpl →
  validateOperationCapability target op = Ok tt ↔ capable target op.
Proof.
  intros Hl. unfold validateOperationCapability, capable. rewrite Hl.
  pose proof (Lookup_engine_nonempty _ _ _ Hl) as Hne.
  set (key := CapabilityAnnotationKey (tpl_CapabilityVerb tpl)). split.
  - case_bool_decide as H1; [done|]. case_bool_decide as H2; [|done]. intros _.
    exists tpl. fold key. destruct (Annotations (ai_Meta target) !! key) as [got|]; [|done].
    by exists got.
  - intros (tpl' & got & [= <-] & Hg & He). fold key in Hg. rewrite Hg. simpl.
    rewrite bool_decide_eq_false_2 by congruence. by rewrite bool_decide_eq_true_2.
Qed.

Section Admission.
Context `{JsonSyntax} `{SchemaValidator} (secret : string).

(** What the webhook checks, as one predicate over the server's answers. *)
Definition admissible (h : ∀ X, kcall X → X) (op : Operation) (parameters : bool) : Prop :=
  ValidateOperationSpec op = Ok tt ∧
  validateKnownOperationType op = Ok tt ∧
  namespace_ok (h _ (GetNamespace (op_Namespace op))) (op_Type op) ∧
  (∃ target, h _ (GetInstance (op_Namespace op) (op_Target op)) = Ok target ∧ capable target op) ∧
  (parameters = true → validateOperationParameters op = Ok tt) ∧
  (Claim op = "" ∨ valid_claim (Unix (h _ Now)) secret (Claim op) (op_Name op)) ∧
  ∃ others, h _ (ListOperations (op_Namespace op)) = Ok others ∧ find_conflict op others = None.

Lemma claim_check_spec now op :
  validateOperationApprovalClaim secret now op = Ok tt ↔
  Claim op = "" ∨ valid_claim now secret (Claim op) (op_Name op).
Proof.
  unfold validateOperationApprovalClaim. case_bool_decide as Hc; [naive_solver|].
  unfold ValidateClaim. rewrite (bool_decide_eq_false_2 (TrimSpace _ = "")).
  2: { intros Ht. apply Hc. unfold Claim in *. destruct (os_Approvals _); [|done].
       by rewrite TrimSpace_idemp in Ht. }
  destruct (Verify _ _ _ _) as [[]|e] eqn:Hv.
  - apply Verify_valid_claim in Hv. naive_solver.
  - split; [done|]. intros [?|Hx]; [done|]. apply Verify_valid_claim in Hx. congruence.
Qed.

Lemma ValidateOperationSpec_runtime op :
  ValidateOperationSpec op = Ok tt → ValidateRuntimeParameters op = Ok tt.
Proof. unfold ValidateOperationSpec. by repeat case_bool_decide. Qed.

Lemma concurrency_run h op g :
  (run (trace_handler h) (validateOperationConcurrency op) g).1 = Ok tt ↔
  ∃ others, h _ (ListOperations (op_Namespace op)) = Ok others ∧ find_conflict op others = None.
Proof.
  unfold validateOperationConcurrency, FindConflict. simpl.
  destruct (h _ (ListOperations (op_Namespace op))) as [others|e]; simpl.
  - destruct (find_conflict op others) eqn:Hf.
    + split; [done|]. intros (l & [= <-] & Hl). congruence.
    + split; [|done]. by exists others.
  - split; [done|]. by intros (l & ? & _).
Qed.

Lemma builtin_template_ok op :
  validateOperationBuiltinTemplate op = Ok tt ↔ ∃ tpl, Lookup (op_Type op) (op_Engine op) = Some tpl.
Proof.
  unfold validateOperationBuiltinTemplate. destruct (Lookup _ _); naive_solver.
Qed.

#[local] Opaque validateOperationConcurrency.

Lemma admission_spec h op parameters g :
  (run (trace_handler h) (validateOperation secret op parameters) g).1 = Ok tt ↔
  admissible h op parameters.
Proof.
  unfold validateOperation, admissible.
  destruct (ValidateOperationSpec op) as [[]|e] eqn:Hs; [|naive_solver].
  destruct (validateKnownOperationType op) as [[]|e]; [|naive_solver].
  assert (Hns : ∀ g, (run (trace_handler h) (validateNamespaceAllowedTypes op) g).1 = Ok tt ↔
    namespace_ok (h _ (GetNamespace (op_Namespace op))) (op_Type op)).
  { intros g'. unfold validateNamespaceAllowedTypes. simpl.
    destruct (h _ (GetNamespace (op_Namespace op))) as [m|e]; simpl;
      [destruct (namespaceAllows _ _)|destruct (IsNotFound e)]; naive_solver. }
  rewrite run_bind. specialize (Hns g).
  destruct (run _ (validateNamespaceAllowedTypes op) g) as [[[]|e] g1]; simpl in Hns;
    [|naive_solver].
  destruct (validateOperationBuiltinTemplate op) as [[]|e] eqn:Ht; simpl.
  2: { split; [done|]. intros (_ & _ & _ & (target & _ & (tpl & _ & Hl & _)) & _).
       assert (Hok : validateOperationBuiltinTemplate op = Ok tt)
         by (apply builtin_template_ok; by exists tpl). congruence. }
  apply builtin_template_ok in Ht as [tpl Ht].
  destruct (h _ (GetInstance (op_Namespace op) (op_Target op))) as [target|e]; simpl; [|naive_solver].
  pose proof (capability_spec target op tpl Ht) as Hcap.
  destruct (validateOperationCapability target op) as [[]|e]; simpl; [|naive_solver].
  rewrite (ValidateOperationSpec_runtime op Hs).
  assert (Hpar : (if parameters then check! validateOperationParameters op; Ok tt else Ok tt) = Ok tt ↔
    (parameters = true → validateOperationParameters op = Ok tt)).
  { destruct parameters; [|done]. destruct (validateOperationParameters op) as [[]|]; naive_solver. }
  destruct (if parameters then check! validateOperationParameters op; Ok tt else Ok tt)
    as [[]|e]; simpl; [|naive_solver].
  pose proof (claim_check_spec (Unix (h _ Now)) op) as Hcl.
  destruct (validateOperationApprovalClaim secret _ op) as [[]|e]; simpl; [|naive_solver].
  rewrite concurrency_run. naive_solver.
Qed.

(** C10: admission is exact: for any answers of the API server, creating an
    operation is admitted if and only if its spec is valid, its type is known and
    not forbidden in its namespace, a built-in template exists for its type and
    engine, its target exists and declares the capability for that engine, its
    parameters satisfy the template's schema, the approval claim it carries (if
    any) is valid now, and no conflicting operation is in flight.  The theorem
    describes the code: docs/api/operation.md and docs/api/conditions.md say of the
    last two that the operation is admitted with Blocked=True, and the webhook
    rejects it. *)
Theorem admission_exact (h : ∀ X, kcall X → X) (op : Operation) :
  (run (trace_handler h) (operation_ValidateCreate secret op) []).1 = Ok tt ↔
  admissible h op true.
Proof. apply admission_spec. Qed.

(** What an operation is cannot change: an admitted update keeps the target,
    the type and the engine, and once the operation has started also its
    parameters (up to surrounding white space; absent parameters count as [{}]). *)
Theorem update_keeps_identity (h : ∀ X, kcall X → X) (old op : Operation) :
  (run (trace_handler h) (operation_ValidateUpdate secret old op) []).1 = Ok tt →
  os_TargetRef (op_Spec old) = os_TargetRef (op_Spec op) ∧
  op_Type old = op_Type op ∧ op_Engine old = op_Engine op ∧
  (op_Phase old = "" ∨ op_Phase old = PhasePending ∨
   TrimSpace (default "{}" (os_Parameters (op_Spec old))) =
   TrimSpace (default "{}" (os_Parameters (op_Spec op)))).
Proof.
  unfold operation_ValidateUpdate.
  destruct (check! validateOperationSpecImmutability old op; _) as [[]|e] eqn:Hc; [|done].
  apply check_ok in Hc as [[[] Hs] Hp]. intros _.
  unfold validateOperationSpecImmutability in Hs.
  repeat (case_bool_decide; [|done]). simpl in Hs.
  split; [destruct (os_TargetRef (op_Spec old)), (os_TargetRef (op_Spec op)); simpl in *; congruence|].
  split_and!; [done..|]. unfold validateOperationParametersImmutability in Hp.
  destruct (operationParametersChanged old op) eqn:Hch; simpl in Hp.
  - do 2 (case_bool_decide; [by auto|]). done.
  - right. right. unfold operationParametersChanged in Hch. apply negb_false_iff in Hch.
    by apply bool_decide_eq_true in Hch.
Qed.

(** The finalizer cannot be removed once the approval has run out: the update
    that ends a deletion changes nothing but the finalizers, and is rejected when
    the operation's claim has expired, and also when its target is gone. *)
Theorem finalizer_update_rejected (h : ∀ X, kcall X → X) (op : Operation) (m : ObjectMeta) :
  Name m = op_Name op → Namespace m = op_Namespace op →
  (∃ body payload digest,
     Claim op = Prefix +:+ "." +:+ body +:+ "." +:+ digest ∧ no_byte dot body = true ∧
     no_byte dot digest = true ∧ decodePayload body = Ok payload ∧
     (pl_ExpiresAt payload < Unix (h _ Now))%Z) ∨
  (∃ e, h _ (GetInstance (op_Namespace op) (op_Target op)) = Err e) →
  (run (trace_handler h) (operation_ValidateUpdate secret op (with_op_meta op m)) []).1 ≠ Ok tt.
Proof.
  intros Hn Hns Hcause Hok. unfold operation_ValidateUpdate in Hok.
  destruct (check! _; validateOperationParametersImmutability _ _) as [[]|e]; [|done].
  apply admission_spec in Hok as (_ & _ & _ & (target & Ht & _) & _ & Hcl & _).
  destruct Hcause as [(body & payload & digest & Hc & Hb & Hd & Hp & He)|[e Hi]].
  - change (Claim (with_op_meta op m)) with (Claim op) in Hcl. rewrite Hc in Hcl.
    destruct Hcl as [?|(_ & b & p & Hcl & Hb' & Hp' & _ & _ & Hexp)]; [done|].
    assert (TrimSpace (Claim op) = Claim op) as Htrim.
    { unfold Claim. destruct (os_Approvals (op_Spec op)); [apply TrimSpace_idemp|done]. }
    rewrite <-Hc, Htrim, Hc in Hcl.
    apply (f_equal splitClaim) in Hcl.
    rewrite !splitClaim_join in Hcl by (done || apply hmacSHA256Hex_no_dot).
    injection Hcl as -> _. rewrite Hp in Hp'. injection Hp' as ->. lia.
  - change (op_Namespace (with_op_meta op m)) with (Namespace m) in Ht.
    change (op_Target (with_op_meta op m)) with (op_Target op) in Ht.
    rewrite Hns, Hi in Ht. done.
Qed.

(** ** Templates whose schema and engine disagree *)

Context `{!SchemaLaws}.

(** Parameters that passed validation are an object the schema accepts. *)
Lemma validated_object op tpl sch raw :
  validateOperationParameters op = Ok tt → Lookup (op_Type op) (op_Engine op) = Some tpl →
  InputSchema (tpl_Ref tpl) = Some sch → os_Parameters (op_Spec op) = Some raw →
  TrimSpace raw ≠ "" →
  ∃ doc, json_parse raw = Ok doc ∧ schema_valid sch doc = true.
Proof.
  unfold validateOperationParameters, ValidateParameters. intros Hv Hl Hi Hr Hne.
  unfold rawParameters in Hv. rewrite Hl, Hi, Hr in Hv. simpl in Hv.
  rewrite bool_decide_eq_false_2 in Hv by done.
  destruct (json_parse raw) as [doc|]; [|done]. exists doc.
  by destruct (schema_valid sch doc).
Qed.

(** A field that no property of a closed schema names keeps its zero value. *)
Lemma closed_field_absent {A} (dec : decoder A) name cur req props fs :
  schema_valid (SObject req props) (JObj fs) = true →
  forallb (λ k, negb (names k name)) props.*1 = true →
  dec_field dec name fs cur = Ok cur.
Proof.
  intros Hv Hn. apply dec_field_absent. intros k v Hk.
  rewrite forallb_forall in Hn. specialize (Hn k). rewrite negb_true_iff in Hn.
  apply Hn, list_elem_of_In. eapply law_closed; [done|].
  apply list_elem_of_fmap. by exists (k, v).
Qed.

(** No migration is ever admitted: the schema of the migration template has
    no image property and admits no other, while the runtime check of its engine
    requires an image. *)
Theorem migration_never_admitted (h : ∀ X, kcall X → X) (op : Operation) :
  op_Type op = OperationTypeMigration → op_Engine op = EngineHelmHookJob →
  (∀ raw, os_Parameters (op_Spec op) = Some raw → TrimSpace raw ≠ "") →
  (run (trace_handler h) (operation_ValidateCreate secret op) []).1 ≠ Ok tt.
Proof.
  intros Ht He Hraw (Hs & _ & _ & _ & Hp & _)%admission_spec.
  apply ValidateOperationSpec_runtime in Hs. specialize (Hp eq_refl).
  unfold ValidateRuntimeParameters in Hs. rewrite He in Hs. simpl in Hs.
  destruct (os_Parameters (op_Spec op)) as [raw|] eqn:Hr; [|done].
  eapply validated_object in Hp as (doc & Hd & Hv);
    [|rewrite Ht, He; reflexivity|reflexivity|done|by apply Hraw].
  destruct (law_type_object _ _ _ Hv) as [fs ->]. rewrite Hd in Hs. simpl in Hs.
  destruct (decodeRuntimeParameters fs) as [params|] eqn:Hdec; [|done].
  apply check_ok in Hs as [[[] Hreq] _]. unfold decodeRuntimeParameters in Hdec.
  rewrite (closed_field_absent dec_string "image" "" _ _ fs Hv eq_refl) in Hdec.
  inv_do Hdec. simplify_eq. unfold validateRequiredRuntimeFields in Hreq. simpl in Hreq.
  by case_bool_decide.
Qed.

(** a command with environment variables is admitted and then fails: the
    schema takes [env] as an array, and the engine decodes it as a map. *)
Theorem command_with_env_fails (op : Operation) (raw : string) (fs : list (string * json)) (v : json) :
  op_Type op = OperationTypeRunCommand → op_Engine op = EngineJob →
  os_Parameters (op_Spec op) = Some raw → TrimSpace raw ≠ "" →
  validateOperationParameters op = Ok tt →
  json_parse raw = Ok (JObj fs) → member fs "env" = Some v →
  ∃ e, parseJobParameters op = Err e.
Proof.
  intros Ht He Hr Hne Hp Hd Hm.
  eapply validated_object in Hp as (doc & Hd' & Hv);
    [|rewrite Ht, He; reflexivity|reflexivity|done|done].
  rewrite Hd in Hd'. injection Hd' as <-.
  assert (Harr : ∃ l, v = JArr l).
  { eapply law_type_array. by eapply (law_property _ _ _ "env" _ _ Hv). }
  destruct Harr as [l ->]. unfold parseJobParameters, unmarshalParameters. rewrite Hr, Hd. simpl.
  destruct (decodeJobParameters fs) as [params|e] eqn:Hdec; [|by eexists].
  exfalso. unfold decodeJobParameters in Hdec. inv_do Hdec.
  match goal with E : dec_field dec_string_map "env" fs None = Ok _ |- _ => revert E end.
  clear -Hm. generalize (@None (gmap string string)) as cur. revert Hm.
  induction fs as [|[k u] fs IH]; intros Hm cur; [done|]. rewrite member_cons in Hm. cbn [dec_field].
  destruct (member fs "env") as [w|] eqn:Hm'.
  - injection Hm as ->. destruct (names k "env"); [|by apply IH].
    destruct (dec_string_map cur u); [|done]. by apply IH.
  - case_bool_decide; [|done]. simplify_eq. done.
Qed.

End Admission.

(** ** Witnesses *)

Definition no_claim_server (target : ApplicationInstance) : ∀ X, kcall X → X := λ X c,
  match c in kcall Y return Y with
  | Now => 0%Z
  | GetInstance _ _ => Ok target
  | GetNamespace n => Ok (meta_of "" n)
  | ListOperations _ => Ok []
  | GetOperation _ _ | GetJob _ _ | GetObject _ _ _ => Err (mkErr "not found" KNotFound)
  | CreateJob _ | DeleteJob _ _ | CreateObject _ | DeleteObject _ _ _
  | CreateOrUpdate _ _ _ _ => Ok tt
  | ListJobs _ _ => Ok []
  | ListObjects _ _ _ => Ok []
  | UpdateOperation o | UpdateOperationStatus o => Ok o
  | Report _ _ _ => tt
  end.

Definition command_target : ApplicationInstance :=
  let a := sample_instance "a" "a" in
  {| ai_Meta := with_annotations (ai_Meta a) {[ "ops.vworkspace.io/runcommand" := "job" ]};
     ai_Spec := ai_Spec a; ai_Status := ai_Status a |}.

Definition admitted_command : Operation :=
  sample_operation "a" "b" "u1" OperationTypeRunCommand EngineJob (Some "image").

Lemma update_keeps_identity_witness :
  let old := admitted_command in
  let op := with_op_meta old (sample_meta "a" "b" "u1") in
  os_TargetRef (op_Spec old) = os_TargetRef (op_Spec op) ∧
  op_Type old = op_Type op ∧ op_Engine old = op_Engine op ∧
  (op_Phase old = "" ∨ op_Phase old = PhasePending ∨
   TrimSpace (default "{}" (os_Parameters (op_Spec old))) =
   TrimSpace (default "{}" (os_Parameters (op_Spec op)))).
Proof.
  apply (@update_keeps_identity image_syntax reference_validator "s"
           (no_claim_server command_target)). vm_compute. reflexivity.
Defined.

(** A restore whose claim has expired. *)
Definition expired_restore : Operation :=
  let o := sample_operation "a" "restore-1" "u1" OperationTypeRestore EngineVelero None in
  {| op_Meta := op_Meta o;
     op_Spec := {| os_TargetRef := os_TargetRef (op_Spec o); os_Type := op_Type o;
       os_Engine := op_Engine o; os_Parameters := None;
       os_Approvals := Some {| ap_Required := true; ap_Claim := sample_claim; ap_ApprovedBy := "";
                               ap_ApprovedAt := "" |} |};
     op_Status := op_Status o |}.

Definition late_server : ∀ X, kcall X → X := λ X c,
  match c in kcall Y return Y with
  | Now => (2000000001 * second)%Z
  | c => no_claim_server command_target _ c
  end.

Definition claim_part (i : nat) : string := default "" (Split sample_claim dot !! i).

Lemma finalizer_update_rejected_witness :
  (run (trace_handler late_server)
     (@operation_ValidateUpdate sample_syntax reference_validator "s3cret" expired_restore
        (with_op_meta expired_restore
           (@RemoveFinalizer reference_lib (op_Meta expired_restore) OperationFinalizer))) []).1
  ≠ Ok tt.
Proof.
  apply (@finalizer_update_rejected sample_syntax); [reflexivity..|].
  left. exists (claim_part 1), sample_payload, (claim_part 2). split_and!; vm_compute; reflexivity.
Defined.

Definition migration : Operation :=
  sample_operation "a" "m" "u1" OperationTypeMigration EngineHelmHookJob (Some "doc").

Lemma migration_never_admitted_witness :
  (run (trace_handler (no_claim_server command_target))
     (@operation_ValidateCreate
        (doc_syntax (JObj [("hookName", JStr "pre-upgrade"); ("image", JStr "busybox")]))
        reference_validator "s" migration) []).1 ≠ Ok tt.
Proof.
  apply (@migration_never_admitted _ reference_validator "s" reference_validator_laws);
    [reflexivity..|]. intros raw [= <-]. vm_compute. discriminate.
Defined.

Definition command_with_env : Operation :=
  sample_operation "a" "b" "u1" OperationTypeRunCommand EngineJob (Some "doc").
Definition env_members : list (string * json) :=
  [("image", JStr "busybox"); ("env", JArr [JObj [("name", JStr "A"); ("value", JStr "1")]])].

Lemma command_with_env_fails_witness :
  ∃ e, @parseJobParameters (doc_syntax (JObj env_members)) command_with_env = Err e.
Proof.
  apply (@command_with_env_fails (doc_syntax (JObj env_members)) reference_validator
    reference_validator_laws command_with_env "doc" env_members
    (JArr [JObj [("name", JStr "A"); ("value", JStr "1")]])); try reflexivity.
  vm_compute. discriminate.
Defined.
