(* ===== verification/OperationExclusion.v ===== *)
(** * Operations that exclude each other

    The API server with its operations, its users, and the reconciler's passes
    as one transition system.  Users create, edit and delete operations at any
    point, also between two calls of a pass; a pass may die after any of its
    calls.  Whether reads come from the store or from a cache that lags behind, and
    whether edits go through the webhook's immutability check, depends on the
    [deployment]. *)

From stdpp Require Import base list strings gmap.
From S2P Require Import Prelude Traces GoStrings Api Conditions Reporter Json Templates Kube Concurrency.
From S2P Require Import Approvals Engines EnginesProofs OperationReconciler OperationProofs.
From S2P Require Import InstanceValidation OperationWebhook.

Definition key (o : Operation) : string * string := (op_Namespace o, op_Name o).

(** [live]: the stored operations; [shown]: what the cache of the manager's client
    holds; [born]: the UIDs given out so far. *)
Record apiserver := {
  live : gmap (string * string) Operation;
  shown : gmap (string * string) Operation;
  born : gset string
}.

Definition with_live (w : apiserver) (m : gmap (string * string) Operation) : apiserver :=
  {| live := m; shown := shown w; born := born w |}.

(** How the operator is deployed: whether its client reads operations from the cache
    (the one of the manager does), and whether the webhooks are enabled. *)
Record deployment := { cached : bool; webhooks : bool }.

Section System.
Context (d : deployment).

Inductive user_step : apiserver → apiserver → Prop :=
| user_create w o :
    live w !! key o = None → op_UID o ∉ born w → op_Phase o = "" →
    user_step w {| live := <[key o := o]> (live w); shown := shown w; born := {[op_UID o]} ∪ born w |}
| user_edit w old o :
    live w !! key old = Some old → key o = key old → op_UID o = op_UID old →
    op_Status o = op_Status old → (webhooks d = true → validateOperationSpecImmutability old o = Ok tt) →
    user_step w (with_live w (<[key old := o]> (live w)))
| user_delete w k : user_step w (with_live w (delete k (live w)))
(** the cache catches up *)
| cache_sync w : user_step w {| live := live w; shown := live w; born := born w |}.

(** What a read sees. *)
Definition seen (w : apiserver) : gmap (string * string) Operation := if cached d then shown w else live w.

(** A status update replaces the status of the object with the name, if it still
    has the UID. *)
Definition written (w : apiserver) (o cur : Operation) : apiserver :=
  with_live w (<[key o := with_status cur (op_Status o)]> (live w)).

(** What the server answers, and the state it is in then.  A refused update
    changes nothing; one whose answer is lost may have been stored. *)
Definition replies (w : apiserver) {X} (c : kcall X) : X → apiserver → Prop :=
  match c in kcall Y return Y → apiserver → Prop with
  | GetOperation ns name => λ x w', w' = w ∧ ∀ o, x = Ok o → seen w !! (ns, name) = Some o
  | ListOperations ns => λ x w', w' = w ∧
      ∀ l, x = Ok l → ∀ o, o ∈ l ↔ op_Namespace o = ns ∧ seen w !! key o = Some o
  | UpdateOperationStatus o => λ x w',
      (w' = w ∧ ∃ e, x = Err e) ∨
      ∃ cur, live w !! key o = Some cur ∧ op_UID cur = op_UID o ∧ w' = written w o cur ∧
        (x = Ok (with_status cur (op_Status o)) ∨ ∃ e, x = Err e)
  | UpdateOperation _ => λ _ w', w' = w ∨ user_step w w'
  | _ => λ _ w', w' = w
  end.

Definition served_live : environment kcall apiserver := λ X c w x w',
  ∃ w1, rtc user_step w w1 ∧ replies w1 c x w'.

(** The system: users, and passes of the one reconcile worker, one after the
    other. *)
Inductive op_step `{JsonSyntax} `{KubeLib} (r : OperationReconciler) : apiserver → apiserver → Prop :=
| op_user w w' : user_step w w' → op_step r w w'
| op_pass ns name w w' : reaches served_live (Reconcile r ns name) w w' → op_step r w w'.

(** ** The invariant *)

(** Each type must wait for the other. *)
Definition excludes (o1 o2 : Operation) : Prop :=
  (op_Type o1, op_Type o2) ∈ conflict_matrix ∧ (op_Type o2, op_Type o1) ∈ conflict_matrix.

Definition same_target (o1 o2 : Operation) : Prop :=
  op_Namespace o1 = op_Namespace o2 ∧ op_Target o1 = op_Target o2.

Definition running (o : Operation) : Prop := op_Phase o = PhaseRunning.

Definition exclusive (w : apiserver) : Prop := ∀ k1 k2 o1 o2,
  live w !! k1 = Some o1 → live w !! k2 = Some o2 → k1 ≠ k2 →
  same_target o1 o2 → excludes o1 o2 → running o1 → running o2 → False.

Record sound (w : apiserver) : Prop := {
  sound_key k o : live w !! k = Some o → key o = k;
  sound_born k o : live w !! k = Some o → op_UID o ∈ born w;
  sound_unique k1 k2 o1 o2 :
    live w !! k1 = Some o1 → live w !! k2 = Some o2 → op_UID o1 = op_UID o2 → k1 = k2;
  sound_exclusive : exclusive w
}.

(** [op] has been read: whatever carries its UID later is the same operation. *)
Record known (op : Operation) (w : apiserver) : Prop := {
  known_born : op_UID op ∈ born w;
  known_same k o : live w !! k = Some o → op_UID o = op_UID op →
    k = key op ∧ op_Target o = op_Target op ∧ op_Type o = op_Type op
}.

(** Nothing that [op] must wait for is running. *)
Definition clear (op : Operation) (w : apiserver) : Prop := ∀ k o,
  live w !! k = Some o → k ≠ key op → same_target o op → running o →
  (op_Type op, op_Type o) ∉ conflict_matrix.

Lemma immutable_identity old o :
  validateOperationSpecImmutability old o = Ok tt → op_Target o = op_Target old ∧ op_Type o = op_Type old.
Proof.
  unfold validateOperationSpecImmutability, op_Target.
  repeat (case_bool_decide; cbn [negb]; [|done]). by split.
Qed.

(** Replacing an operation by one that looks the same, at the same key. *)
Definition like (o old : Operation) : Prop :=
  key o = key old ∧ op_UID o = op_UID old ∧ op_Target o = op_Target old ∧ op_Type o = op_Type old.

(** From here on reads are current and the webhooks on. *)
Context (Hfresh : cached d = false) (Hhooks : webhooks d = true).

Lemma seen_live w : seen w = live w.
Proof using Hfresh. unfold seen. by rewrite Hfresh. Qed.

Section Replace.
Context (w : apiserver) (k : string * string) (old o : Operation).
Context (Hold : live w !! k = Some old) (Hlike : like o old).

Lemma like_same_target o1 : same_target o1 o ↔ same_target o1 old.
Proof using Hlike. destruct Hlike as ([= H1 H2] & _ & H3 & _). unfold same_target. by rewrite H1, H3. Qed.

(** One entry of the updated map: the new operation, or an old one. *)
Lemma replaced_lookup k' o' :
  <[k := o]> (live w) !! k' = Some o' → (k' = k ∧ o' = o) ∨ (k' ≠ k ∧ live w !! k' = Some o').
Proof. rewrite lookup_insert_Some. naive_solver. Qed.

Lemma known_replace op : known op w → known op (with_live w (<[k := o]> (live w))).
Proof using Hold Hlike.
  destruct Hlike as (_ & Hu & Ht & Hty). intros [Hb Hs]. split; [done|]. intros k' o' Hl HU.
  destruct (replaced_lookup _ _ Hl) as [[-> ->]|[_ Hl']]; [|by eapply Hs].
  rewrite Ht, Hty. apply Hs; [done|congruence].
Qed.

Lemma clear_replace op :
  (running o → running old ∨ k = key op) → clear op w →
  clear op (with_live w (<[k := o]> (live w))).
Proof using Hold Hlike.
  pose proof Hlike as ([= H1 H2] & _ & Ht & Hty).
  intros Hrun Hc k' o' Hl Hne [Hn Htg] Hr.
  destruct (replaced_lookup _ _ Hl) as [[-> ->]|[_ Hl']]; [|by eapply Hc].
  destruct (Hrun Hr) as [Hr'|]; [|done]. rewrite Hty. eapply Hc; [done..| |done]. split; congruence.
Qed.

(** A replacement that runs is already running, or nothing in its way is. *)
Lemma sound_replace :
  sound w → (running o → running old ∨ clear o w) → sound (with_live w (<[k := o]> (live w))).
Proof using Hold Hlike.
  pose proof Hlike as (Hk & Hu & Ht & Hty). intros [Hkey Hborn Huniq Hexcl] Hrun.
  assert (Hko : k = key o) by (rewrite Hk; symmetry; by apply Hkey).
  assert (Hpair : ∀ k2 o2, live w !! k2 = Some o2 → k2 ≠ k → same_target o o2 → excludes o o2 →
                    running o → running o2 → False).
  { intros k2 o2 H2 Hne [Hs1 Hs2] He Hr Hr2. destruct (Hrun Hr) as [Hr'|Hc].
    - eapply (Hexcl k k2 old o2); try done.
      + injection Hk as Hk1 Hk2. split; congruence.
      + unfold excludes in *. by rewrite <-Hty.
    - eapply (Hc k2 o2); [done|congruence|by split|done|apply He]. }
  split; cbn [live born with_live].
  - intros k' o' Hl. destruct (replaced_lookup _ _ Hl) as [[-> ->]|[_ Hl']]; [done|by apply Hkey].
  - intros k' o' Hl. destruct (replaced_lookup _ _ Hl) as [[-> ->]|[_ Hl']]; [|by eapply Hborn].
    rewrite Hu. by eapply Hborn.
  - intros k1 k2 o1 o2 Hl1 Hl2 HU.
    destruct (replaced_lookup _ _ Hl1) as [[-> ->]|[_ Hl1']], (replaced_lookup _ _ Hl2) as [[-> ->]|[_ Hl2']];
      [done|eapply Huniq; eauto; congruence..].
  - intros k1 k2 o1 o2 Hl1 Hl2 Hne [Hs1 Hs2] [He1 He2] Hr1 Hr2.
    destruct (replaced_lookup _ _ Hl1) as [[-> ->]|[Hn1 Hl1']], (replaced_lookup _ _ Hl2) as [[-> ->]|[Hn2 Hl2']];
      [done| | |by eapply (Hexcl k1 k2 o1 o2)].
    + eapply (Hpair k2 o2); done.
    + eapply (Hpair k1 o1); done.
Qed.
End Replace.

(** ** Users *)

Lemma edit_like old o :
  key o = key old → op_UID o = op_UID old →
  (webhooks d = true → validateOperationSpecImmutability old o = Ok tt) → like o old.
Proof using Hhooks. intros Hk Hu Hi. specialize (Hi Hhooks). apply immutable_identity in Hi. by split. Qed.

Lemma new_idle o : op_Phase o = "" → ¬ running o.
Proof. unfold running. by intros ->. Qed.

Lemma user_sound w w' : user_step w w' → sound w → sound w'.
Proof.
  intros Hstep Hs. destruct Hstep as [w o Hn Hb Hp|w old o Ho Hk Hu Hst Hi|w k|w]; [| | |by destruct Hs].
  - destruct Hs as [Hkey Hborn Huniq Hexcl].
    split; cbn [live born]; unfold exclusive; cbn [live]; intros *; rewrite ?lookup_insert_Some.
    + naive_solver.
    + intros [[<- <-]|[_ Hl]]; [set_solver|]. apply Hborn in Hl. set_solver.
    + intros [[<- <-]|[? Hl1]] [[<- <-]|[? Hl2]] HU; [done| | |by eapply (Huniq k1 k2 o1 o2)].
      * destruct Hb. rewrite HU. by eapply Hborn.
      * destruct Hb. rewrite <-HU. by eapply Hborn.
    + intros [[<- <-]|[? Hl1]] [[<- <-]|[? Hl2]] Hne Hs He Hr1 Hr2;
        [done|by destruct (new_idle _ Hp)..|by eapply (Hexcl k1 k2 o1 o2)].
  - eapply sound_replace; [done|by apply edit_like|done|]. left. unfold running, op_Phase in *. congruence.
  - destruct Hs as [Hkey Hborn Huniq Hexcl].
    split; cbn [live born with_live]; unfold exclusive; cbn [live with_live]; intros *;
      rewrite ?lookup_delete_Some.
    + naive_solver.
    + intros [_ Hl]. by eapply Hborn.
    + intros [_ H1] [_ H2]. by eapply (Huniq k1 k2 o1 o2).
    + intros [_ H1] [_ H2]. by eapply (Hexcl k1 k2 o1 o2).
Qed.

Lemma user_known op w w' : user_step w w' → known op w → known op w'.
Proof.
  intros Hstep. destruct Hstep as [w o Hn Hb Hp|w old o Ho Hk Hu Hst Hi|w k|w]; intros Hs; [| | |exact Hs || by destruct Hs].
  - destruct Hs as [Hbo Hs]. split; cbn [live born]; [set_solver|]. intros k o'.
    rewrite lookup_insert_Some. intros [[<- <-]|[_ Hl]]; [|by apply Hs]. congruence.
  - eapply known_replace; [done|by apply edit_like|done].
  - destruct Hs as [Hbo Hs]. split; [done|]. intros k' o'. cbn [live with_live].
    rewrite lookup_delete_Some. intros [_ Hl]. by apply Hs.
Qed.

Lemma user_clear op w w' : user_step w w' → clear op w → clear op w'.
Proof.
  intros Hstep. destruct Hstep as [w o Hn Hb Hp|w old o Ho Hk Hu Hst Hi|w k|w]; intros Hs; [| | |exact Hs || by destruct Hs].
  - intros k o'. cbn [live]. rewrite lookup_insert_Some. intros [[<- <-]|[_ Hl]]; [|by apply Hs].
    intros _ _ Hr. by destruct (new_idle _ Hp).
  - eapply clear_replace; [done|by apply edit_like| |done]. left. unfold running, op_Phase in *. congruence.
  - intros k' o'. cbn [live with_live]. rewrite lookup_delete_Some. intros [_ Hl]. by apply Hs.
Qed.

Lemma rtc_preserves {A} (R : relation A) (P : A → Prop) x y :
  (∀ x y, R x y → P x → P y) → rtc R x y → P x → P y.
Proof. intros HR. induction 1; eauto. Qed.

(** ** Calls of a pass *)

Definition status_of {X} (c : kcall X) : option Operation :=
  match c with UpdateOperationStatus o => Some o | _ => None end.

(** [op] may be recorded as running. *)
Definition may_run (op : Operation) (w : apiserver) : Prop := known op w ∧ clear op w.

Lemma users_may_run op w w' : rtc user_step w w' → may_run op w → may_run op w'.
Proof.
  apply rtc_preserves. intros x y Hxy [Hk Hc]. split; [by eapply user_known|by eapply user_clear].
Qed.

Lemma status_like cur s : like (with_status cur s) cur.
Proof. done. Qed.

(** The object a status update finds under [op]'s UID is [op]. *)
Lemma found_op op o cur w :
  sound w → known op w → live w !! key o = Some cur → op_UID cur = op_UID op →
  key o = key op ∧ key cur = key op ∧ op_Target cur = op_Target op ∧ op_Type cur = op_Type op.
Proof.
  intros Hs Hk Hl Hu. destruct (known_same _ _ Hk _ _ Hl Hu) as (Heq & ? & ?).
  split_and!; try done. rewrite <-Heq. by apply (sound_key w Hs).
Qed.

Lemma written_sound op o cur w :
  sound w → may_run op w → live w !! key o = Some cur → op_UID cur = op_UID op → sound (written w o cur).
Proof.
  intros Hs [Hk Hc] Hl Hu. destruct (found_op _ _ _ _ Hs Hk Hl Hu) as (Hko & [= Hn Hm] & Ht & Hty).
  eapply sound_replace; [done|apply status_like|done|]. intros _. right.
  intros k' o' Hl' Hne [Hs1 Hs2] Hr. change (op_Type (with_status cur _)) with (op_Type cur).
  change (key (with_status cur _)) with (key cur) in Hne.
  change (op_Namespace (with_status cur _)) with (op_Namespace cur) in Hs1.
  change (op_Target (with_status cur _)) with (op_Target cur) in Hs2.
  rewrite Hty. eapply Hc; [done| |split; congruence|done]. unfold key in *. congruence.
Qed.

Lemma written_idle_sound o cur w :
  sound w → ¬ running o → live w !! key o = Some cur → sound (written w o cur).
Proof.
  intros Hs Hr Hl. eapply sound_replace; [done|apply status_like|done|].
  intros Hr'. by destruct Hr.
Qed.

Lemma written_may_run op o cur w :
  sound w → may_run op w → live w !! key o = Some cur → op_UID cur = op_UID op →
  may_run op (written w o cur).
Proof.
  intros Hs [Hk Hc] Hl Hu. destruct (found_op _ _ _ _ Hs Hk Hl Hu) as (Hko & _).
  split; [by eapply known_replace|]. eapply clear_replace; [done|apply status_like| |done]. by right.
Qed.

(** A call that writes no status, or an idle one. *)
Definition idle {X} (c : kcall X) : Prop := ∀ o, status_of c = Some o → ¬ running o.

Lemma replies_idle w X (c : kcall X) x w' : replies w c x w' → idle c → sound w → sound w'.
Proof.
  intros Hr Hi Hs. destruct c; cbn in Hr; try (by destruct Hr as [-> _]); try by subst.
  - destruct Hr as [-> |Hu]; [done|by eapply user_sound].
  - destruct Hr as [[-> _]|(cur & Hl & _ & -> & _)]; [done|].
    apply written_idle_sound; [done|by apply Hi|done].
Qed.

(** A call that writes no status but [op]'s. *)
Definition about (u : string) : permission kcall unit := λ X c _, ∀ o, status_of c = Some o → op_UID o = u.

Lemma replies_own op w X (c : kcall X) x w' :
  replies w c x w' → about (op_UID op) X c tt → sound w ∧ may_run op w → sound w' ∧ may_run op w'.
Proof.
  intros Hr Ha [Hs Hm]. destruct c; cbn in Hr; try (by destruct Hr as [-> _]); try by subst.
  - destruct Hr as [-> |Hu]; [done|]. split; [by eapply user_sound|].
    eapply users_may_run; [by apply rtc_once|done].
  - destruct Hr as [[-> _]|(cur & Hl & Hu & -> & _)]; [done|]. specialize (Ha _ eq_refl).
    split; [eapply written_sound|eapply written_may_run]; eauto; congruence.
Qed.

Lemma served_sound w X (c : kcall X) x w' : served_live X c w x w' → idle c → sound w → sound w'.
Proof.
  intros (w1 & Hu & Hr) Hi Hs. eapply replies_idle; [done..|].
  eapply rtc_preserves; [|done..]. apply user_sound.
Qed.

Lemma served_own op w X (c : kcall X) x w' :
  served_live X c w x w' → about (op_UID op) X c tt → sound w ∧ may_run op w → sound w' ∧ may_run op w'.
Proof.
  intros (w1 & Hu & Hr) Ha [Hs Hm]. eapply replies_own; [done..|]. split; [|by eapply users_may_run].
  eapply rtc_preserves; [|done..]. apply user_sound.
Qed.

(** ** Parts of a pass *)

Local Notation wps p w := (wp served_live (λ _ _ w, sound w) p (λ _ w, sound w) w).

Lemma idle_part {A} (p : prog kcall A) w : only (λ X, idle) p (λ _, True) → sound w → wps p w.
Proof. apply only_invariant. intros X c g x g' Hc Hx. by eapply served_sound. Qed.

(** An answer to a status update is the object updated. *)
Definition updated {X} (c : kcall X) : X → Prop :=
  match c in kcall Y return Y → Prop with
  | UpdateOperationStatus o => λ x, ∀ o', x = Ok o' → op_UID o' = op_UID o
  | _ => λ _, True
  end.
Definition keeps_uid : environment kcall unit := λ X c _ x _, updated c x.

Lemma served_updated w X (c : kcall X) x w' : served_live X c w x w' → updated c x.
Proof.
  intros (w1 & _ & Hr). destruct c; try done. cbn in *.
  destruct Hr as [(_ & e & ->)|(cur & _ & Hu & _ & [-> |[e ->]])]; intros ? [= <-]. done.
Qed.

Lemma own_part op {A} (p : prog kcall A) Q w :
  wp keeps_uid (about (op_UID op)) p Q tt → sound w → may_run op w → wps p w.
Proof.
  revert w. induction p as [a|X c k IH]; intros w; simpl; [done|].
  intros [Hc Hk] Hs Hm. split; [done|]. intros x w' Hx.
  destruct (served_own _ _ _ _ _ _ Hx Hc (conj Hs Hm)) as [Hs' Hm'].
  apply IH; [|done..]. apply Hk. by eapply served_updated.
Qed.

Section Passes.
Context `{JsonSyntax} `{KubeLib}.

(** *** Idle parts *)

Lemma idle_none {X} (c : kcall X) : status_of c = None → idle c.
Proof. intros Hc o. by rewrite Hc. Qed.

Lemma idle_engine {X} (c : kcall X) : writes_operation c = false → idle c.
Proof. intros Hw. apply idle_none. by destruct c. Qed.

Lemma idle_block op reason message : only (λ X, idle) (blockOperation op reason message) (λ _, True).
Proof.
  unfold blockOperation, reportConditions. only_go; try done; try (by apply idle_none).
  intros o [= <-]. discriminate.
Qed.

Lemma idle_finalize r op :
  (∀ reg engine e, or_Registry r = Some reg → reg !! engine = Some e → EngineContract e) →
  only (λ X, idle) (finalizeOperation r op) (λ _, True).
Proof.
  intros Hreg. pose proof (registry_Get_contract r Hreg) as Hget. unfold finalizeOperation.
  destruct (or_Registry r) as [reg|] eqn:Hr; [|only_go; try done; by apply idle_none].
  destruct (registry_Has reg (op_Engine op)); [|only_go; try done; by apply idle_none].
  destruct (registry_Get reg (op_Engine op)) as [e|] eqn:He; [|only_go; done].
  apply Hget in He; [|done]. apply only_bind_any.
  - eapply only_mono; [|done|apply contract_cancel]. intros X c [_ Hw]. by apply idle_engine.
  - intros [[]|e']; only_go; try done; by apply idle_none.
Qed.

(** *** Parts that write the status of one operation *)

Local Notation wpo u p Q := (wp keeps_uid (about u) p Q tt).

Lemma about_none u {X} (c : kcall X) : status_of c = None → about u X c tt.
Proof. intros Hc o. by rewrite Hc. Qed.

Lemma about_write u o : op_UID o = u → about u _ (UpdateOperationStatus o) tt.
Proof. by intros Hu ? [= <-]. Qed.

Hint Resolve about_none about_write : core.

Lemma own_block op reason message : wpo (op_UID op) (blockOperation op reason message) (λ _ _, True).
Proof.
  apply wp_vis; [auto|]. intros now [] _. apply wp_vis; [auto|].
  intros [o|e] [] _; [|done]. by apply wp_vis; [auto|].
Qed.

Lemma own_fail op message : wpo (op_UID op) (failOperation op message) (λ _ _, True).
Proof.
  apply wp_vis; [auto|]. intros now [] _. apply wp_vis; [auto|].
  intros [o|e] [] _; [|done]. by apply wp_vis; [auto|].
Qed.

Lemma own_status_error op e : wpo (op_UID op) (handleEngineStatusError op e) (λ _ _, True).
Proof.
  unfold handleEngineStatusError. case_bool_decide; [apply own_fail|].
  case_bool_decide; [|done]. destruct (isRunning op); [|apply own_fail].
  destruct (st_StartedAt (op_Status op)) as [s|]; (apply wp_vis; [by auto|]); intros now [] _; cbn beta.
  - case_bool_decide; [done|apply own_fail].
  - apply wp_vis; [by auto|]. by intros [o|e'] [] _.
Qed.

Lemma backfilled_uid now op target o : backfilled now op target = Some o → op_UID o = op_UID op.
Proof.
  unfold backfilled. destruct (st_EngineRef (op_Status op)); [|destruct (SupportsEngineRef (op_Engine op))];
    destruct (bool_decide _); simpl; intros Ho; simplify_eq; done.
Qed.

Lemma own_backfill op target :
  wpo (op_UID op) (backfillEngineRefIfNeeded op target) (λ r _, ∀ o, r = Ok o → op_UID o = op_UID op).
Proof.
  unfold backfillEngineRefIfNeeded. destruct (negb (isRunning op)); [by intros ? [= <-]|].
  apply wp_vis; [by auto|]. intros now [] _. cbn beta.
  destruct (backfilled now op target) as [o|] eqn:Hb; [|by intros ? [= <-]].
  apply backfilled_uid in Hb. apply wp_vis; [by auto|]. intros [o'|e] [] Ha; [|done].
  intros ? [= <-]. by rewrite (Ha _ eq_refl).
Qed.

Lemma finished_uid now op s : op_UID (finished now op s) = op_UID op.
Proof. unfold finished. by destruct (es_Failed s), (bool_decide (es_Outputs s = ∅)). Qed.

Lemma own_track engine op target prev :
  EngineContract engine → wpo (op_UID op) (trackEngine engine op target prev) (λ _ _, True).
Proof.
  intros He. apply wp_bind. eapply wp_mono; [|by apply own_backfill].
  intros [o|e] [] Ho; [|done]. specialize (Ho o eq_refl). rewrite <-Ho.
  apply wp_bind. eapply wp_mono; [|eapply only_env; [apply contract_status|]].
  - intros [s|e] [] _; [|apply own_status_error]. cbn beta match. destruct (es_Done s).
    + apply wp_vis; [by auto|]. intros now [] _. apply wp_vis; [apply about_write, finished_uid|].
      intros [o'|e] [] _; [|done]. by apply wp_vis; [auto|].
    + apply wp_vis; [by auto|]. intros [o'|e] [] _; [|done]. by apply wp_vis; [auto|].
  - intros X c [] Hc. apply about_none. by destruct c.
Qed.

Lemma own_runEngine engine op target :
  EngineContract engine → wpo (op_UID op) (runEngine engine op target) (λ _ _, True).
Proof.
  intros He. unfold runEngine. destruct (notStarted op); [|by apply own_track].
  apply wp_bind. eapply wp_mono; [|eapply only_env; [apply contract_materialize|]].
  - intros [[]|e] [] _; [|apply own_fail]. apply wp_vis; [by auto|]. intros now [] _.
    apply wp_vis; [by auto|]. intros [o|e] [] Ha; [|done].
    apply wp_vis; [by auto|]. intros [] [] _. specialize (Ha o eq_refl).
    change (op_UID (started now op target)) with (op_UID op) in Ha. rewrite <-Ha. by apply own_track.
  - intros X c [] [_ Hw]. apply about_none. by destruct c.
Qed.

(** *** A whole pass *)

(** Calls other than updates: only the users have moved. *)
Lemma served_read w X (c : kcall X) x w' :
  served_live X c w x w' → writes_operation c = false → rtc user_step w w' ∧ replies w' c x w'.
Proof.
  intros (w1 & Hu & Hr) Hc. destruct c; try done; cbn in *;
    try (destruct Hr as [-> ?]; by split); by subst.
Qed.

Lemma users_known op w w' : rtc user_step w w' → known op w → known op w'.
Proof. apply rtc_preserves. intros ? ?. apply user_known. Qed.

Lemma users_sound w w' : rtc user_step w w' → sound w → sound w'.
Proof. apply rtc_preserves. intros ? ?. apply user_sound. Qed.

Lemma read_known op k w : sound w → live w !! k = Some op → known op w.
Proof.
  intros Hs Hl. split; [by eapply sound_born|]. intros k' o' Hl' Hu.
  assert (k' = k) as -> by (by eapply (sound_unique w Hs)). rewrite Hl in Hl'. injection Hl' as <-.
  split_and!; [|done..]. symmetry. by eapply sound_key.
Qed.

Lemma running_in_flight o : running o → InFlight o = true.
Proof. unfold running, InFlight. by intros ->. Qed.

(** A list without conflict says that nothing in the way is running. *)
Lemma listed_clear op l w :
  sound w → (∀ o, o ∈ l ↔ op_Namespace o = op_Namespace op ∧ live w !! key o = Some o) →
  find_conflict op l = None → clear op w.
Proof.
  intros Hs Hl Hc k o Ho Hne [Hn Ht] Hr. apply find_conflict_None in Hc.
  pose proof (sound_key w Hs _ _ Ho) as <-. rewrite Forall_forall in Hc.
  assert (Hb : blocks op o = false) by (apply Hc, Hl; by split).
  unfold blocks in Hb. rewrite Ht, (running_in_flight o Hr) in Hb.
  rewrite (bool_decide_eq_false_2 (op_Name o = op_Name op)), bool_decide_eq_true_2 in Hb;
    [|done|intros Hm; apply Hne; unfold key; by rewrite Hn, Hm].
  rewrite <-Conflicts_matrix. cbn in Hb. congruence.
Qed.

Context (r : OperationReconciler).
Context (Hreg : ∀ reg engine e, or_Registry r = Some reg → reg !! engine = Some e → EngineContract e).

Lemma gates_sound op target w : sound w → known op w → wps (gates r op target) w.
Proof using Hreg Hfresh Hhooks.
  intros Hs Hk. unfold gates. apply wp_vis; [done|]. intros now w1 [Hu1 _]%served_read; [|done].
  cbn beta. apply (users_known op) in Hu1 as Hk1; [|done]. apply users_sound in Hu1; [|done].
  destruct (if NeedsApprovalCheck op then _ else None); [by apply idle_part; [apply idle_block|]|].
  apply wp_bind, wp_bind. apply wp_vis; [done|]. intros x w2 [Hu2 [_ Hl]]%served_read; [|done].
  apply (users_known op) in Hu2 as Hk2; [|done]. apply users_sound in Hu2; [|done].
  destruct x as [l|e]; cbn [wp]; [|done]. specialize (Hl l eq_refl). rewrite seen_live in Hl.
  destruct (find_conflict op l) eqn:Hc; cbn [fmap option_fmap option_map];
    [by apply idle_part; [apply idle_block|]|].
  pose proof (listed_clear op l w2 Hu2 Hl Hc) as Hclear.
  pose proof (registry_Get_contract r Hreg) as Hget.
  destruct (or_Registry r) as [reg|] eqn:Hr; [|by apply idle_part; [apply idle_block|]].
  destruct (negb (registry_Has reg (op_Engine op))); [by apply idle_part; [apply idle_block|]|].
  destruct (registry_Get reg (op_Engine op)) as [e|] eqn:He; [|done].
  eapply (own_part op); [|done|by split]. apply own_runEngine. by eapply Hget.
Qed.

Lemma pass_sound ns name w : sound w → wps (Reconcile r ns name) w.
Proof using Hreg Hfresh Hhooks.
  intros Hs. unfold Reconcile. apply wp_vis; [done|]. intros x w1 [Hu1 [_ Hg]]%served_read; [|done].
  apply users_sound in Hu1; [|done]. destruct x as [op|e]; cbn beta match; [|by destruct (IsNotFound e)].
  specialize (Hg op eq_refl). rewrite seen_live in Hg. pose proof (read_known op _ w1 Hu1 Hg) as Hk.
  destruct (negb (ContainsFinalizer (op_Meta op) OperationFinalizer)).
  { apply idle_part; [|done]. only_go; done || by apply idle_none. }
  case_bool_decide; [by apply idle_part; [apply idle_finalize|]|].
  destruct (ValidateOperationSpec op); [|by apply idle_part; [apply idle_block|]].
  apply wp_vis; [done|]. intros x w2 [Hu2 _]%served_read; [|done].
  apply (users_known op) in Hu2 as Hk2; [|done]. apply users_sound in Hu2; [|done].
  destruct x as [target|e]; cbn beta match; [by apply gates_sound|].
  destruct (IsNotFound e); [by apply idle_part; [apply idle_block|]|done].
Qed.

Definition no_operations : apiserver := {| live := ∅; shown := ∅; born := ∅ |}.

Lemma no_operations_sound : sound no_operations.
Proof. split; unfold exclusive; cbn [live no_operations]; intros *; by rewrite lookup_empty. Qed.

Lemma reachable_sound w : rtc (op_step r) no_operations w → sound w.
Proof using Hreg Hfresh Hhooks.
  intros Hw. eapply rtc_preserves; [|done|apply no_operations_sound].
  intros w1 w2 Hstep Hs. destruct Hstep as [w1 w2 Hu|ns name w1 w2 Hr]; [by eapply user_sound|].
  eapply wp_reaches; [by apply pass_sound|done].
Qed.

Lemma reachable_exclusive w : rtc (op_step r) no_operations w → exclusive w.
Proof using Hreg Hfresh Hhooks. intros Hw. by apply sound_exclusive, reachable_sound. Qed.
End Passes.
End System.

(** The types that must wait for each other. *)
Lemma excludes_types o1 o2 :
  excludes o1 o2 ↔
    (op_Type o1, op_Type o2) ∈ [(OperationTypeUpgrade, OperationTypeUpgrade);
                                (OperationTypeBackup, OperationTypeRestore);
                                (OperationTypeRestore, OperationTypeBackup)].
Proof.
  unfold excludes, conflict_matrix. generalize (op_Type o1), (op_Type o2). intros t1 t2.
  unfold OperationTypeUpgrade, OperationTypeRestore, OperationTypeBackup.
  rewrite !elem_of_cons, !elem_of_nil. split.
  - intros [[?|[?|[?|[?|[]]]]] [?|[?|[?|[?|[]]]]]]; simplify_eq; auto.
  - intros [?|[?|[?|[]]]]; simplify_eq; auto 10.
Qed.

(** ** An executable server *)

Definition op_values (m : gmap (string * string) Operation) (ns : string) : list Operation :=
  (filter (λ ko, ko.1 = key ko.2 ∧ op_Namespace ko.2 = ns) (map_to_list m)).*2.

Definition notFound : error := mkErr "not found" KNotFound.

(** Operations from the store or the cache, everything else as [srv] answers. *)
Definition serve_op (d : deployment) (srv : ∀ X, kcall X → X) : handler kcall apiserver := λ X c w,
  match c in kcall Y return Y * apiserver with
  | GetOperation ns name =>
      (match seen d w !! (ns, name) with Some o => Ok o | None => Err notFound end, w)
  | ListOperations ns => (Ok (op_values (seen d w) ns), w)
  | UpdateOperationStatus o =>
      match live w !! key o with
      | Some cur =>
          if bool_decide (op_UID cur = op_UID o)
          then (Ok (with_status cur (op_Status o)), written w o cur) else (Err notFound, w)
      | None => (Err notFound, w)
      end
  | UpdateOperation o => (Err notFound, w)
  | c => (srv _ c, w)
  end.

Lemma serve_op_served d srv X (c : kcall X) w :
  served_live d X c w (serve_op d srv X c w).1 (serve_op d srv X c w).2.
Proof.
  exists w. split; [done|]. destruct c; try done; cbn.
  - split; [done|]. intros o. destruct (seen d w !! _) eqn:Hl; [|done]. by intros [= <-].
  - split; [done|]. intros l [= <-] o. unfold op_values. rewrite list_elem_of_fmap. split.
    + intros ([k o'] & -> & Hin). apply list_elem_of_filter in Hin as [[Hk Hn] Hin%elem_of_map_to_list].
      cbn in *. by subst.
    + intros [Hn Hl]. exists (key o, o). split; [done|]. apply list_elem_of_filter.
      split; [done|by apply elem_of_map_to_list].
  - by left.
  - destruct (live w !! key o) as [cur|] eqn:Hl; [|left; eauto].
    case_bool_decide; [|left; eauto]. right. exists cur. split_and!; auto.
Qed.

(** ** Two upgrades *)

Definition upgrade_of (app name uid : string) : Operation :=
  let o := sample_operation "a" name uid OperationTypeUpgrade EngineHelm None in
  let s := op_Spec o in
  {| op_Meta := op_Meta o; op_Status := op_Status o;
     op_Spec := {| os_TargetRef := {| tr_APIVersion := tr_APIVersion (os_TargetRef s);
                     tr_Kind := tr_Kind (os_TargetRef s); tr_Name := app |};
                   os_Type := os_Type s; os_Engine := os_Engine s; os_Parameters := os_Parameters s;
                   os_Approvals := os_Approvals s |} |}.

(** The target is there, with a release. *)
Definition one_release : ∀ X, kcall X → X := λ X c,
  match c in kcall Y return Y with
  | GetObject kind ns name =>
      Ok {| u_Kind := kind; u_Meta := sample_meta ns name "h"; u_Object := [] |}
  | c => one_operation (upgrade_of "app" "u1" "1") _ c
  end.

Definition created (o : Operation) (w : apiserver) : apiserver :=
  {| live := <[key o := o]> (live w); shown := shown w; born := {[op_UID o]} ∪ born w |}.
Definition synced (w : apiserver) : apiserver := {| live := live w; shown := live w; born := born w |}.

Local Notation op_steps d := (@op_step d image_syntax reference_lib sample_reconciler).

Definition upgrade_pass (d : deployment) (name : string) (w : apiserver) : apiserver :=
  (run (serve_op d one_release) (@Reconcile image_syntax reference_lib sample_reconciler "a" name) w).2.

Lemma pass_reached d w name :
  rtc (op_steps d) no_operations w → rtc (op_steps d) no_operations (upgrade_pass d name w).
Proof. intros Hw. eapply rtc_r; [done|]. eapply op_pass, run_reaches, serve_op_served. Qed.

Lemma user_reached d w w' :
  rtc (op_steps d) no_operations w → user_step d w w' → rtc (op_steps d) no_operations w'.
Proof. intros Hw Hu. eapply rtc_r; [done|]. by apply op_user. Qed.

(** Both created and then seen, one pass each. *)
Definition upgrades (d : deployment) (app1 app2 : string) : apiserver :=
  upgrade_pass d "u2" (upgrade_pass d "u1"
    (synced (created (upgrade_of app2 "u2" "2") (created (upgrade_of app1 "u1" "1") no_operations)))).

Lemma upgrades_reached d app1 app2 : rtc (op_steps d) no_operations (upgrades d app1 app2).
Proof.
  apply pass_reached, pass_reached. eapply user_reached; [|apply cache_sync].
  eapply user_reached; [eapply user_reached; [done|]|]; apply user_create; vm_compute; done.
Qed.

Definition stored (w : apiserver) (name : string) : Operation :=
  default (upgrade_of "app" name "") (live w !! ("a", name)).

(** Two operations that exclude each other, both running. *)
Definition clash (w : apiserver) : Prop := ∃ k1 k2 o1 o2,
  live w !! k1 = Some o1 ∧ live w !! k2 = Some o2 ∧ k1 ≠ k2 ∧
  same_target o1 o2 ∧ excludes o1 o2 ∧ running o1 ∧ running o2.

Lemma clash_upgrades w :
  live w !! ("a", "u1") = Some (stored w "u1") → live w !! ("a", "u2") = Some (stored w "u2") →
  same_target (stored w "u1") (stored w "u2") →
  op_Type (stored w "u1") = OperationTypeUpgrade → op_Type (stored w "u2") = OperationTypeUpgrade →
  running (stored w "u1") → running (stored w "u2") → clash w.
Proof.
  intros H1 H2 Ht Ht1 Ht2 Hr1 Hr2. exists ("a", "u1"), ("a", "u2"), (stored w "u1"), (stored w "u2").
  split_and!; try done. apply excludes_types. rewrite Ht1, Ht2. left.
Qed.

(** A new operation has no phase and is not in flight, so a cache that does not
    yet show the first upgrade as [Running] lets the second one start. *)
Lemma stale_list_runs_both (hooks : bool) : clash (upgrades {| cached := true; webhooks := hooks |} "app" "app").
Proof. destruct hooks; apply clash_upgrades; by vm_compute. Qed.

(** Without the webhooks an operation that runs can be pointed at another target. *)
Definition retargeted (w : apiserver) : apiserver :=
  with_live w (<[("a", "u2") := with_status (upgrade_of "app" "u2" "2") (op_Status (stored w "u2"))]> (live w)).

Lemma edited_target_runs_both :
  let d := {| cached := false; webhooks := false |} in
  let w := upgrades d "app" "other" in
  rtc (op_steps d) no_operations (retargeted w) ∧ clash (retargeted w).
Proof.
  cbn zeta. split; [|apply clash_upgrades; by vm_compute].
  eapply user_reached; [apply upgrades_reached|].
  apply (user_edit _ _ (stored (upgrades {| cached := false; webhooks := false |} "app" "other") "u2")); by vm_compute.
Qed.

(** ** The theorem *)

(** Reads of operations are current and the webhooks are on. *)
Definition guarded_deployment : deployment := {| cached := false; webhooks := true |}.

(** C3: what keeps operations that exclude each other apart.  With current reads
    of operations and the webhooks enabled, in every state that users and reconcile
    passes reach (users creating, editing and deleting operations at any moment, a
    pass stopping after any of its calls, updates refused or their answers lost), of
    two operations on the same target whose types must wait for each other (two
    upgrades; a backup and a restore) at most one is recorded as [Running].  In
    every other deployment both can be: the client that cmd/main.go gives the
    reconciler reads from a cache, and the webhooks are off by default. *)
Theorem exclusive_running :
  (∀ (J : JsonSyntax) (K : KubeLib) (r : OperationReconciler) (w : apiserver) k1 k2 o1 o2,
     (∀ reg engine e, or_Registry r = Some reg → reg !! engine = Some e → EngineContract e) →
     rtc (op_step guarded_deployment r) no_operations w →
     live w !! k1 = Some o1 → live w !! k2 = Some o2 → k1 ≠ k2 →
     same_target o1 o2 → excludes o1 o2 → running o1 → ¬ running o2) ∧
  (∀ d, d ≠ guarded_deployment →
     ∃ w, rtc (@op_step d image_syntax reference_lib sample_reconciler) no_operations w ∧ clash w).
Proof.
  split.
  - intros J K r w k1 k2 o1 o2 Hreg Hw H1 H2 Hne Ht He Hr1 Hr2.
    by eapply (reachable_exclusive guarded_deployment eq_refl eq_refl r Hreg w Hw k1 k2 o1 o2).
  - intros [[] hooks] Hd.
    + eexists. split; [apply upgrades_reached|apply stale_list_runs_both].
    + destruct hooks; [done|]. eexists. apply edited_target_runs_both.
Qed.

Lemma exclusive_running_witness :
  let w := upgrades guarded_deployment "app" "app" in
  running (stored w "u1") ∧ ¬ running (stored w "u2").
Proof.
  split; [vm_compute; reflexivity|].
  apply (proj1 exclusive_running image_syntax reference_lib sample_reconciler (upgrades guarded_deployment "app" "app")
    ("a", "u1") ("a", "u2") (stored (upgrades guarded_deployment "app" "app") "u1")).
  - intros reg engine e [= <-]. apply engineRegistry_contract.
  - apply upgrades_reached.
  - vm_compute. reflexivity.
  - vm_compute. reflexivity.
  - discriminate.
  - split; vm_compute; reflexivity.
  - apply excludes_types. vm_compute. left.
  - vm_compute. reflexivity.
Defined.
