(* ===== verification/Agent.v ===== *)
(** * internal/agent: applying Pull-mode jobs (idempotency.go, applier.go, poller.go)

    Programs over [acall]: the API server, the control plane's job endpoints, the
    clock and the timer.  The idempotency store is passed as a value; its mutex
    makes each method atomic.  Decoding of whole Kubernetes objects and scheme
    lookups are library code: the parameters of [AgentLib]. *)

From stdpp Require Import base list strings pretty gmap.
From S2P Require Import Prelude Traces GoStrings Api Json Events Kube.

Definition OutcomeSucceeded : string := "succeeded".
Definition OutcomeFailed : string := "failed".
Definition OutcomeNoop : string := "noop".
Definition OutcomeConflict : string := "conflict".

(** A [Job] of the job protocol; [None] is the zero time. *)
Record AgentJob := {
  aj_ID : string;
  aj_Kind : string;
  aj_Payload : string;
  aj_IdempotencyKey : string;
  aj_CreatedAt : option Z;
  aj_ExpiresAt : option Z;
  aj_Signature : string
}.

Record JobResult := {
  jr_Outcome : string;
  jr_Error : string;
  jr_AppliedRef : option AppliedRef;
  jr_Timestamp : Z
}.

(** An unstructured object with the apiVersion as written. *)
Record Manifest := {
  mf_APIVersion : string;
  mf_Kind : string;
  mf_Meta : ObjectMeta;
  mf_Object : list (string * json)
}.

Inductive acall : Type → Type :=
| ANow : acall Z
| ASleep (d : Z) : acall bool (** whether the context was cancelled *)
| AGetConfigMap (ns name : string) : acall (result (gmap string string))
| AUpsertConfigMap (ns name key value : string) : acall (result unit)
| AGetNamespace (name : string) : acall (result unit)
| ACreateNamespace (name : string) (labels : gmap string string) : acall (result unit)
| AGetManifest (apiVersion kind ns name : string) : acall (result Manifest)
| APatchManifest (m : Manifest) : acall (result unit)
| ADeleteManifest (apiVersion kind ns name : string) : acall (result unit)
| AGetInstance (ns name : string) : acall (result ApplicationInstance)
| APatchInstance (app : ApplicationInstance) : acall (result unit)
| ADeleteInstance (ns name : string) : acall (result unit)
| AGetOperation (ns name : string) : acall (result Operation)
| APatchOperation (op : Operation) : acall (result unit)
| AFetchJobs (waitSeconds : Z) : acall (result (list AgentJob))
| AAckJob (id : string) : acall (result unit)
| AReportResult (id : string) (r : JobResult) : acall (result unit)
(** the rounds of the wait for a backup location after the first [bslRounds], as one
    call that need not be answered: the code has no limit on their number *)
| AFurtherRounds (m : Manifest) (deadline : Z) (boundByExpiry : bool) : acall (result Manifest).

Class AgentLib := {
  decode_manifest : string → result Manifest;
  decode_instance : json → result ApplicationInstance;
  decode_operation : json → result Operation;
  (** [schema.ParseGroupVersion]: group and version *)
  ParseGroupVersion : string → result (string * string);
  (** [apiutil.GVKForObject] of the two typed resources: group/version and kind *)
  GVKForInstance : result (string * string);
  GVKForOperation : result (string * string)
}.

(** ** idempotency.go *)

Definition DefaultIdempotencyConfigMap : string := "vworkspace-applied-jobs".
Definition idempotencyDataKey : string := "applied-keys.json".

Record IdempotencyStore := {
  is_Namespace : string;
  is_Name : string;
  is_cache : option (gset string) (** [None] is the nil map: not loaded *)
}.

Definition with_cache (s : IdempotencyStore) (c : gset string) : IdempotencyStore :=
  {| is_Namespace := is_Namespace s; is_Name := is_Name s; is_cache := Some c |}.

Section Agent.
Context `{JsonSyntax}.

Definition cacheOf (keys : list string) : gset string :=
  list_to_set (filter (λ k, k ≠ "") (TrimSpace <$> keys)).

Definition decodeKeys (data : gmap string string) : result (list string) :=
  match data !! idempotencyDataKey with
  | None => Ok []
  | Some raw =>
      if bool_decide (TrimSpace raw = "") then Ok []
      else match (do! v := json_parse raw in dec_string_slice [] v) with
           | Err e => Err (wrapf "decode idempotency keys" e)
           | Ok keys => Ok keys
           end
  end.

Definition ensureLoaded (s : IdempotencyStore) : prog acall (result unit * IdempotencyStore) :=
  match is_cache s with
  | Some _ => Ret (Ok tt, s)
  | None =>
      let s := {| is_Namespace := is_Namespace s;
                  is_Name := if bool_decide (is_Name s = "") then DefaultIdempotencyConfigMap
                             else is_Name s;
                  is_cache := None |} in
      if bool_decide (is_Namespace s = "") then
        Ret (Err (errorf "idempotency store namespace is required"), s)
      else
        let* r := call (AGetConfigMap (is_Namespace s) (is_Name s)) in
        match r with
        | Err e =>
            if IsNotFound e then Ret (Ok tt, with_cache s ∅)
            else Ret (Err (wrapf ("get idempotency configmap " +:+ is_Namespace s +:+ "/" +:+
                                  is_Name s) e), s)
        | Ok data =>
            match decodeKeys data with
            | Err e => Ret (Err e, s)
            | Ok keys => Ret (Ok tt, with_cache s (cacheOf keys))
            end
        end
  end.

Definition json_array (items : list string) : string :=
  "[" +:+ String.concat "," (json_string <$> items) +:+ "]".

(** [persistLocked]; the order of the keys is the map's. *)
Definition persistLocked (s : IdempotencyStore) : prog acall (result unit) :=
  try* _ := call (AUpsertConfigMap (is_Namespace s) (is_Name s) idempotencyDataKey
                    (json_array (elements (default ∅ (is_cache s)))))
    catch e => Ret (Err (wrapf ("persist idempotency configmap " +:+ is_Namespace s +:+ "/" +:+
                                is_Name s) e)) in
  Ret (Ok tt).

(** [Contains] *)
Definition store_Contains (s : IdempotencyStore) (key : string)
    : prog acall (result bool * IdempotencyStore) :=
  let key := TrimSpace key in
  if bool_decide (key = "") then Ret (Ok false, s)
  else
    let* (r, s) := ensureLoaded s in
    match r with
    | Err e => Ret (Err e, s)
    | Ok _ => Ret (Ok (bool_decide (key ∈ default ∅ (is_cache s))), s)
    end.

(** [Record] *)
Definition store_Record (s : IdempotencyStore) (key : string)
    : prog acall (result unit * IdempotencyStore) :=
  let key := TrimSpace key in
  if bool_decide (key = "") then Ret (Ok tt, s)
  else
    let* (r, s) := ensureLoaded s in
    match r with
    | Err e => Ret (Err e, s)
    | Ok _ =>
        let cache := default ∅ (is_cache s) in
        if bool_decide (key ∈ cache) then Ret (Ok tt, s)
        else
          let s := with_cache s ({[ key ]} ∪ cache) in
          let* r := persistLocked s in
          Ret (r, s)
    end.

(** ** applier.go *)

Record ApplyOutcome := { ao_Result : JobResult; ao_Idempotent : bool }.

Record Applier := {
  ap_ClusterID : string;
  ap_Idempotency : option IdempotencyStore
}.

(** [ensureManagedLabels] and [ensureManagedLabelsOnTyped] *)
Definition ensureManagedLabels (clusterID : string) (m : ObjectMeta) : ObjectMeta :=
  let ls := <[ManagedByKey := ManagedByControlPlane]> (Labels m) in
  with_labels m (if bool_decide (clusterID ≠ "") then <[ClusterIDKey := clusterID]> ls else ls).

Definition ensureTargetNamespace (name : string) : prog acall (result unit) :=
  let name := TrimSpace name in
  if bool_decide (name = "") then Ret (Ok tt)
  else
    let* r := call (AGetNamespace name) in
    match r with
    | Ok _ => Ret (Ok tt)
    | Err e =>
        if negb (IsNotFound e) then Ret (Err (wrapf ("get namespace " +:+ quote name) e))
        else
          let* r := call (ACreateNamespace name {[ NamespaceGateKey := NamespaceGateValue ]}) in
          match r with
          | Ok _ => Ret (Ok tt)
          | Err e =>
              if IsAlreadyExists e then Ret (Ok tt)
              else if IsForbidden e then
                Ret (Err (wrapf ("namespace " +:+ quote name +:+
                  " does not exist and cannot be created (check RBAC)") e))
              else Ret (Err (wrapf ("create namespace " +:+ quote name) e))
          end
    end.

(** The error of [patchApply] and [patchApplyTyped]. *)
Definition applyError (e : error) : error :=
  if IsApiConflict e then wrapf "apply conflict" e else wrapf "server-side apply" e.

Definition objectRef (m : Manifest) : AppliedRef :=
  {| ar_APIVersion := mf_APIVersion m; ar_Kind := mf_Kind m; ar_Namespace := Namespace (mf_Meta m);
     ar_Name := Name (mf_Meta m); ar_UID := UID (mf_Meta m);
     ar_Generation := Generation (mf_Meta m) |}.

Definition typedRef (gvk : result (string * string)) (m : ObjectMeta) : result AppliedRef :=
  match gvk with
  | Err e => Err (wrapf "resolve GVK" e)
  | Ok (gv, kind) =>
      Ok {| ar_APIVersion := gv; ar_Kind := kind; ar_Namespace := Namespace m; ar_Name := Name m;
            ar_UID := UID m; ar_Generation := Generation m |}
  end.

Definition bslAvailableTimeout : Z := 90000000000.
Definition bslAvailablePoll : Z := 2000000000.

Definition IsConflict (e : error) : bool := Contains (emsg e) "conflict".

Context `{AgentLib} `{KubeLib}.

Definition isVeleroBackupStorageLocation (m : Manifest) : bool :=
  match ParseGroupVersion (mf_APIVersion m) with
  | Ok (group, _) => bool_decide (group = "velero.io" ∧ mf_Kind m = "BackupStorageLocation")
  | Err _ => false
  end.

(** [waitForBSLAvailable] from the loop on, with [rounds] rounds written out.  Every
    round that does not return sleeps for [bslAvailablePoll], so that with a clock
    that moves the deadline is reached. *)
Fixpoint bslLoop (rounds : nat) (m : Manifest) (deadline : Z) (boundByExpiry : bool)
    : prog acall (result Manifest) :=
  match rounds with
  | O => call (AFurtherRounds m deadline boundByExpiry)
  | S rounds =>
      let ns := Namespace (mf_Meta m) in
      let name := Name (mf_Meta m) in
      let loc := ns +:+ "/" +:+ name in
      let* r := call (AGetManifest (mf_APIVersion m) (mf_Kind m) ns name) in
      match r with
      | Err e => Ret (Err (wrapf ("get BackupStorageLocation " +:+ loc) e))
      | Ok latest =>
          let phase := NestedString (mf_Object latest) ["status"; "phase"] in
          let message := NestedString (mf_Object latest) ["status"; "message"] in
          let p := ToLower (TrimSpace phase) in
          if bool_decide (p = "available") then Ret (Ok latest)
          else if bool_decide (p = "unavailable") then
            let message := if bool_decide (TrimSpace message = "")
                           then "BackupStorageLocation is Unavailable" else message in
            Ret (Err (errorf ("BackupStorageLocation " +:+ loc +:+ " Unavailable: " +:+ message)))
          else
            let* now := call ANow in
            if bool_decide (deadline < now)%Z then
              if boundByExpiry then
                Ret (Err (errorf ("BackupStorageLocation " +:+ loc +:+
                  ": job expired while waiting for Available")))
              else if bool_decide (phase = "") then
                Ret (Err (errorf ("timed out waiting for BackupStorageLocation " +:+ loc +:+
                  " Available (no status.phase yet)")))
              else
                Ret (Err (errorf ("timed out waiting for BackupStorageLocation " +:+ loc +:+
                  " Available (phase=" +:+ phase +:+ " message=" +:+ message +:+ ")")))
            else
              let* cancelled := call (ASleep bslAvailablePoll) in
              match cancelled with
              | true => Ret (Err (errorf "context canceled"))
              | false => bslLoop rounds m deadline boundByExpiry
              end
      end
  end.

(** 47 rounds of two seconds pass the 90-second limit. *)
Definition bslRounds : nat := 47.

Definition waitForBSLAvailable (m : Manifest) (expiresAt : option Z)
    : prog acall (result Manifest) :=
  let* now := call ANow in
  let deadline := (now + bslAvailableTimeout)%Z in
  match expiresAt with
  | Some t => if bool_decide (t < deadline)%Z then bslLoop bslRounds m t true
              else bslLoop bslRounds m deadline false
  | None => bslLoop bslRounds m deadline false
  end.

Definition applyManifest (clusterID : string) (job : AgentJob) : prog acall (result AppliedRef) :=
  match decode_manifest (aj_Payload job) with
  | Err e => Ret (Err (wrapf "decode apply payload" e))
  | Ok obj =>
      let obj := {| mf_APIVersion := mf_APIVersion obj; mf_Kind := mf_Kind obj;
                    mf_Meta := ensureManagedLabels clusterID (mf_Meta obj);
                    mf_Object := mf_Object obj |} in
      try* _ := ensureTargetNamespace (Namespace (mf_Meta obj)) catch e => Ret (Err e) in
      try* _ := call (APatchManifest obj) catch e => Ret (Err (applyError e)) in
      try* latest := call (AGetManifest (mf_APIVersion obj) (mf_Kind obj) (Namespace (mf_Meta obj))
                             (Name (mf_Meta obj)))
        catch e => Ret (Err (wrapf "get applied object" e)) in
      if isVeleroBackupStorageLocation latest then
        try* ready := waitForBSLAvailable latest (aj_ExpiresAt job) catch e => Ret (Err e) in
        Ret (Ok (objectRef ready))
      else Ret (Ok (objectRef latest))
  end.

Record objectReference := {
  obr_APIVersion : string;
  obr_Kind : string;
  obr_Name : string;
  obr_Namespace : string
}.

Definition decodeReference (payload : string) : result objectReference :=
  do! v := json_parse payload in
  do! fs := members v in
  do! av := dec_field dec_string "apiVersion" fs "" in
  do! kind := dec_field dec_string "kind" fs "" in
  do! name := dec_field dec_string "name" fs "" in
  do! ns := dec_field dec_string "namespace" fs "" in
  Ok {| obr_APIVersion := av; obr_Kind := kind; obr_Name := name; obr_Namespace := ns |}.

Definition deleteObject (payload : string) : prog acall (result AppliedRef) :=
  match decodeReference payload with
  | Err e => Ret (Err (wrapf "decode delete payload" e))
  | Ok ref =>
      if bool_decide (obr_APIVersion ref = "" ∨ obr_Kind ref = "" ∨ obr_Name ref = "") then
        Ret (Err (errorf "delete payload requires apiVersion, kind, and name"))
      else
        match ParseGroupVersion (obr_APIVersion ref) with
        | Err e => Ret (Err (wrapf "parse apiVersion" e))
        | Ok _ =>
            let gone := Ok {| ar_APIVersion := obr_APIVersion ref; ar_Kind := obr_Kind ref;
              ar_Namespace := obr_Namespace ref; ar_Name := obr_Name ref; ar_UID := "";
              ar_Generation := 0 |} in
            let* r := call (ADeleteManifest (obr_APIVersion ref) (obr_Kind ref) (obr_Namespace ref)
                              (obr_Name ref)) in
            match r with
            | Err e => Ret (if IsNotFound e then gone
                            else Err (wrapf ("delete " +:+ obr_Kind ref +:+ "/" +:+ obr_Name ref) e))
            | Ok _ => Ret gone
            end
        end
  end.

Record intentPayload := {
  ip_Intent : string;
  ip_ApplicationInstance : option ApplicationInstance;
  ip_Operation : option Operation;
  ip_Name : string;
  ip_Namespace : string
}.

(** A pointer to a struct. *)
Definition dec_ptr {A} (dec : json → result A) : decoder (option A) := λ _ v,
  match v with JNull => Ok None | _ => do! a := dec v in Ok (Some a) end.

Definition decodeIntent (payload : string) : result intentPayload :=
  do! v := json_parse payload in
  do! fs := members v in
  do! intent := dec_field dec_string "intent" fs "" in
  do! app := dec_field (dec_ptr decode_instance) "applicationInstance" fs None in
  do! op := dec_field (dec_ptr decode_operation) "operation" fs None in
  do! name := dec_field dec_string "name" fs "" in
  do! ns := dec_field dec_string "namespace" fs "" in
  Ok {| ip_Intent := intent; ip_ApplicationInstance := app; ip_Operation := op; ip_Name := name;
        ip_Namespace := ns |}.

Definition ensureNamespacesForApplicationInstance (app : ApplicationInstance)
    : prog acall (result unit) :=
  try* _ := ensureTargetNamespace (ai_Namespace app) catch e => Ret (Err e) in
  let releaseNS := match as_Release (ai_Spec app) with
                   | Some r => TrimSpace (rel_Namespace r)
                   | None => ""
                   end in
  if bool_decide (releaseNS ≠ "" ∧ releaseNS ≠ ai_Namespace app)
  then ensureTargetNamespace releaseNS else Ret (Ok tt).

Definition applyIntent (clusterID : string) (payload : string) : prog acall (result AppliedRef) :=
  match decodeIntent payload with
  | Err e => Ret (Err (wrapf "decode intent payload" e))
  | Ok intent =>
      if bool_decide (ip_Intent intent = "ensure-application-instance") then
        match ip_ApplicationInstance intent with
        | None => Ret (Err (errorf "ensure-application-instance requires applicationInstance"))
        | Some app =>
            let app := {| ai_Meta := ensureManagedLabels clusterID (ai_Meta app);
                          ai_Spec := ai_Spec app; ai_Status := ai_Status app |} in
            try* _ := ensureNamespacesForApplicationInstance app catch e => Ret (Err e) in
            try* _ := call (APatchInstance app) catch e => Ret (Err (applyError e)) in
            try* latest := call (AGetInstance (ai_Namespace app) (ai_Name app))
              catch e => Ret (Err (wrapf "get application instance" e)) in
            Ret (typedRef GVKForInstance (ai_Meta latest))
        end
      else if bool_decide (ip_Intent intent = "request-operation") then
        match ip_Operation intent with
        | None => Ret (Err (errorf "request-operation requires operation"))
        | Some op =>
            let op := with_op_meta op (ensureManagedLabels clusterID (op_Meta op)) in
            try* _ := ensureTargetNamespace (op_Namespace op) catch e => Ret (Err e) in
            try* _ := call (APatchOperation op) catch e => Ret (Err (applyError e)) in
            try* latest := call (AGetOperation (op_Namespace op) (op_Name op))
              catch e => Ret (Err (wrapf "get operation" e)) in
            Ret (typedRef GVKForOperation (op_Meta latest))
        end
      else if bool_decide (ip_Intent intent = "delete-application-instance") then
        if bool_decide (ip_Name intent = "") then
          Ret (Err (errorf "delete-application-instance requires name"))
        else
          let* r := call (AGetInstance (ip_Namespace intent) (ip_Name intent)) in
          match r with
          | Err e =>
              Ret (if IsNotFound e
                   then Ok {| ar_APIVersion := appsGroupVersion; ar_Kind := "ApplicationInstance";
                              ar_Namespace := ip_Namespace intent; ar_Name := ip_Name intent;
                              ar_UID := ""; ar_Generation := 0 |}
                   else Err (wrapf "get application instance" e))
          | Ok app =>
              let* r := call (ADeleteInstance (ai_Namespace app) (ai_Name app)) in
              match r with
              | Err e => if IsNotFound e then Ret (typedRef GVKForInstance (ai_Meta app))
                         else Ret (Err (wrapf "delete application instance" e))
              | Ok _ => Ret (typedRef GVKForInstance (ai_Meta app))
              end
          end
      else Ret (Err (errorf ("unsupported intent " +:+ quote (ip_Intent intent))))
  end.

(** The switch on the job's kind. *)
Definition dispatch (clusterID : string) (job : AgentJob) : prog acall (result AppliedRef) :=
  if bool_decide (aj_Kind job = "apply") then applyManifest clusterID job
  else if bool_decide (aj_Kind job = "delete") then deleteObject (aj_Payload job)
  else if bool_decide (aj_Kind job = "intent") then applyIntent clusterID (aj_Payload job)
  else Ret (Err (errorf ("unsupported job kind " +:+ quote (aj_Kind job)))).

Definition noop (now : Z) (why : string) (idempotent : bool) : ApplyOutcome :=
  {| ao_Result := {| jr_Outcome := OutcomeNoop; jr_Error := why; jr_AppliedRef := None;
                     jr_Timestamp := now |};
     ao_Idempotent := idempotent |}.

(** [ApplyJob]: the outcome and the applier, whose store may have been loaded. *)
Definition ApplyJob (a : Applier) (job : AgentJob) : prog acall (result ApplyOutcome * Applier) :=
  let* now := call ANow in
  let with_store s := {| ap_ClusterID := ap_ClusterID a; ap_Idempotency := Some s |} in
  let run_job (a : Applier) : prog acall (result ApplyOutcome * Applier) :=
    let* r := dispatch (ap_ClusterID a) job in
    match r with
    | Err e => Ret (Err e, a)
    | Ok ref =>
        let done_ := {| ao_Result := {| jr_Outcome := OutcomeSucceeded; jr_Error := "";
                          jr_AppliedRef := Some ref; jr_Timestamp := now |};
                        ao_Idempotent := false |} in
        if bool_decide (aj_IdempotencyKey job = "") then Ret (Ok done_, a)
        else
          match ap_Idempotency a with
          | None => Ret (Ok done_, a)
          | Some s =>
              let* (r, s) := store_Record s (aj_IdempotencyKey job) in
              match r with
              | Err e => Ret (Err (wrapf "record idempotency key" e), with_store s)
              | Ok _ => Ret (Ok done_, with_store s)
              end
          end
    end in
  let expired := match aj_ExpiresAt job with
                 | Some t => bool_decide (t < now)%Z
                 | None => false
                 end in
  if expired then Ret (Ok (noop now "expired" false), a)
  else if bool_decide (aj_IdempotencyKey job = "") then run_job a
  else
    match ap_Idempotency a with
    | None => run_job a
    | Some s =>
        let* (r, s) := store_Contains s (aj_IdempotencyKey job) in
        match r with
        | Err e => Ret (Err (wrapf "check idempotency key" e), with_store s)
        | Ok true => Ret (Ok (noop now "" true), with_store s)
        | Ok false => run_job (with_store s)
        end
    end.

(** ** poller.go *)

Definition ConflictResult (now : Z) (e : error) : JobResult :=
  {| jr_Outcome := OutcomeConflict; jr_Error := emsg e; jr_AppliedRef := None; jr_Timestamp := now |}.

Definition processJob (a : Applier) (job : AgentJob) : prog acall (result unit * Applier) :=
  let* r := call (AAckJob (aj_ID job)) in
  match r with
  | Err e => Ret (Err (wrapf ("ack job " +:+ aj_ID job) e), a)
  | Ok _ =>
      let* (outcome, a) := ApplyJob a job in
      match outcome with
      | Err e =>
          let* now := call ANow in
          let result := if IsConflict e then ConflictResult now e
                        else {| jr_Outcome := OutcomeFailed; jr_Error := emsg e; jr_AppliedRef := None;
                                jr_Timestamp := now |} in
          let* r := call (AReportResult (aj_ID job) result) in
          Ret (Err (match r with Err re => wrapf "report failed result" re | Ok _ => e end), a)
      | Ok outcome =>
          let* r := call (AReportResult (aj_ID job) (ao_Result outcome)) in
          Ret (match r with Err e => Err (wrapf "report result" e) | Ok _ => Ok tt end, a)
      end
  end.

(** The jobs of one batch, in order; the first error is kept. *)
Fixpoint processJobs (a : Applier) (jobs : list AgentJob) : prog acall (option error * Applier) :=
  match jobs with
  | [] => Ret (None, a)
  | job :: jobs =>
      let* (r, a) := processJob a job in
      let* (first, a) := processJobs a jobs in
      Ret (match r with Err e => Some e | Ok _ => first end, a)
  end.

Definition PollOnce (a : Applier) : prog acall (result unit * Applier) :=
  try* jobs := call (AFetchJobs 0) catch e => Ret (Err (wrapf "fetch jobs" e), a) in
  let* (first, a) := processJobs a jobs in
  Ret (match first with Some e => Err e | None => Ok tt end, a).

Definition defaultLongPollWait : Z := 30.

(** The loop of [AgentPoller.Run], with a context that is cancelled after
    [rounds] rounds or during a backoff. *)
Fixpoint pollRounds (rounds : nat) (wait : Z) (a : Applier) : prog acall Applier :=
  match rounds with
  | O => Ret a
  | S rounds =>
      let* r := call (AFetchJobs wait) in
      match r with
      | Err _ =>
          let* cancelled := call (ASleep 2000000000) in
          match cancelled with true => Ret a | false => pollRounds rounds wait a end
      | Ok jobs =>
          let* (_, a) := processJobs a jobs in
          pollRounds rounds wait a
      end
  end.

Definition poller_Run (rounds : nat) (waitSecs : Z) (a : Applier) : prog acall Applier :=
  pollRounds rounds (if bool_decide (waitSecs ≤ 0)%Z then defaultLongPollWait else waitSecs) a.

End Agent.
