(* ===== verification/AgentProofs.v ===== *)
(** * Theorems on the Pull-mode agent *)

From stdpp Require Import base list strings gmap.
From S2P Require Import Prelude Traces GoStrings Api Json Events Kube Agent.

(** ** The wait for a backup location ends *)

(** A clock that moves: nothing turns it back, and a sleep that is not cut short
    takes its time. *)
Definition clock : environment acall Z := λ X c t x t',
  (t ≤ t')%Z ∧
  match c in acall Y return Y → Prop with
  | ANow => λ now, now = t'
  | ASleep d => λ cancelled, cancelled = false → (t + d ≤ t')%Z
  | _ => λ _, True
  end x.

(** The rounds of the wait that are written out are enough. *)
Definition further {X} (c : acall X) : bool := match c with AFurtherRounds _ _ _ => true | _ => false end.
Definition spelled_out {G} : permission acall G := λ X c _, further c = false.

Section Wait.
Context `{KubeLib}.

Lemma bslLoop_ends n : ∀ m deadline bound t,
  (deadline < t + bslAvailablePoll * Z.of_nat n)%Z →
  wp clock spelled_out (bslLoop (S n) m deadline bound) (λ _ _, True) t.
Proof.
  unfold bslAvailablePoll. induction n as [|n IH]; intros m deadline bound t Hd;
    cbn [bslLoop]; (apply wp_vis; [done|]); intros [latest|e] t1 [Ht1 _]; cbn beta match; try done;
    repeat (case_bool_decide; [done|]); (apply wp_vis; [done|]); intros now t2 [Ht2 ->]; cbn beta;
    (case_bool_decide as Hdl; [destruct bound; [done|]; by case_bool_decide|]); [lia|].
  apply wp_vis; [done|]. intros [] t3 [Ht3 Hs]; [done|]. apply IH. specialize (Hs eq_refl).
  unfold bslAvailablePoll in Hs. lia.
Qed.

(** Waiting for a backup storage location ends: on a clock that moves, the wait
    returns within the 47 rounds of two seconds that the model writes out, because
    the 90-second limit (or the job's expiry, if earlier) is hit first.  On a clock
    that stands still the code's loop has no end. *)
Theorem bsl_wait_terminates (m : Manifest) (expiresAt : option Z) (t : Z) :
  wp clock spelled_out (waitForBSLAvailable m expiresAt) (λ _ _, True) t.
Proof.
  apply wp_vis; [done|]. intros now t1 [_ ->]. cbn beta zeta.
  assert (Hb : (t1 + bslAvailableTimeout <
                t1 + bslAvailablePoll * Z.of_nat 46)%Z).
  { unfold bslAvailableTimeout, bslAvailablePoll. lia. }
  destruct expiresAt as [x|]; [case_bool_decide|]; apply (bslLoop_ends 46); lia.
Qed.
End Wait.

(** ** What the agent writes *)

Definition cluster_write {X} (c : acall X) : bool :=
  match c with
  | APatchManifest _ | APatchInstance _ | APatchOperation _ | ADeleteManifest _ _ _ _
  | ADeleteInstance _ _ | ACreateNamespace _ _ => true
  | _ => false
  end.

Definition protocol_call {X} (c : acall X) : bool :=
  match c with AAckJob _ | AReportResult _ _ | AFetchJobs _ => true | _ => false end.

(** Applied objects carry the control plane's mark and the cluster's identity;
    new namespaces carry the gate label. *)
Definition marked (clusterID : string) (m : ObjectMeta) : Prop :=
  Labels m !! ManagedByKey = Some ManagedByControlPlane ∧
  (clusterID ≠ "" → Labels m !! ClusterIDKey = Some clusterID).

Definition applies_marked (clusterID : string) {X} (c : acall X) : Prop :=
  protocol_call c = false ∧
  match c with
  | APatchManifest m => marked clusterID (mf_Meta m)
  | APatchInstance app => marked clusterID (ai_Meta app)
  | APatchOperation op => marked clusterID (op_Meta op)
  | ACreateNamespace _ ls => ls !! NamespaceGateKey = Some NamespaceGateValue
  | _ => True
  end.

Lemma ensureManagedLabels_marked clusterID m : marked clusterID (ensureManagedLabels clusterID m).
Proof.
  unfold marked, ensureManagedLabels. simpl. case_bool_decide as Hc.
  - rewrite lookup_insert_ne, lookup_insert_eq by done. split; [done|].
    intros _. by rewrite lookup_insert_eq.
  - rewrite lookup_insert_eq. done.
Qed.

Section Writes.
Context `{Js : JsonSyntax} `{Al : AgentLib} `{Kl : KubeLib} (clusterID : string).

Local Notation P := (λ X c, @applies_marked clusterID X c).

Lemma only_ensureTargetNamespace name : only P (ensureTargetNamespace name) (λ _, True).
Proof. unfold ensureTargetNamespace. only_go; split; done. Qed.

Lemma only_bslLoop n : ∀ m d b, only P (bslLoop n m d b) (λ _, True).
Proof.
  induction n as [|n IH]; intros m d b; cbn [bslLoop]; only_go; try split; done || apply IH.
Qed.

Lemma only_wait m e : only P (waitForBSLAvailable m e) (λ _, True).
Proof.
  unfold waitForBSLAvailable. apply only_bind_any; [by apply only_call|].
  intros now. cbn zeta. destruct e as [x|]; [case_bool_decide|]; apply only_bslLoop.
Qed.

Lemma only_applyManifest job : only P (applyManifest clusterID job) (λ _, True).
Proof.
  unfold applyManifest. destruct (decode_manifest _) as [obj|]; [|by apply only_ret].
  apply only_bind_any; [apply only_ensureTargetNamespace|]. intros [[]|e]; [|by apply only_ret].
  apply only_bind_any.
  { apply only_call; [|done]. split; [done|]. apply ensureManagedLabels_marked. }
  intros [[]|e]; [|by apply only_ret]. apply only_bind_any; [by apply only_call|].
  intros [latest|e]; [|by apply only_ret]. destruct (isVeleroBackupStorageLocation latest);
    [|by apply only_ret]. apply only_bind_any; [apply only_wait|].
  intros [r|e]; by apply only_ret.
Qed.

Lemma only_deleteObject payload : only P (deleteObject payload) (λ _, True).
Proof. unfold deleteObject. only_go; done. Qed.

Lemma only_applyIntent payload : only P (applyIntent clusterID payload) (λ _, True).
Proof.
  unfold applyIntent. destruct (decodeIntent payload) as [i|]; [|by apply only_ret].
  case_bool_decide.
  { destruct (ip_ApplicationInstance i) as [app|]; [|by apply only_ret].
    apply only_bind_any.
    { unfold ensureNamespacesForApplicationInstance.
      apply only_bind_any; [apply only_ensureTargetNamespace|]. intros [[]|e]; [|by apply only_ret].
      destruct (bool_decide _); [apply only_ensureTargetNamespace|by apply only_ret]. }
    intros [[]|e]; [|by apply only_ret]. apply only_bind_any.
    { apply only_call; [|done]. split; [done|]. apply ensureManagedLabels_marked. }
    intros [[]|e]; only_go; done. }
  case_bool_decide.
  { destruct (ip_Operation i) as [op|]; [|by apply only_ret].
    apply only_bind_any; [apply only_ensureTargetNamespace|]. intros [[]|e]; [|by apply only_ret].
    apply only_bind_any.
    { apply only_call; [|done]. split; [done|]. apply ensureManagedLabels_marked. }
    intros [[]|e]; only_go; done. }
  case_bool_decide; only_go; done.
Qed.

Lemma only_dispatch job : only P (dispatch clusterID job) (λ _, True).
Proof.
  unfold dispatch. repeat case_bool_decide;
    [apply only_applyManifest|apply only_deleteObject|apply only_applyIntent|by apply only_ret].
Qed.
End Writes.

(** ** Jobs *)

Section Jobs.
Context `{Js : JsonSyntax} `{Al : AgentLib} `{Kl : KubeLib}.

(** The key is in the loaded store. *)
Definition recorded (a : Applier) (key : string) : Prop :=
  ∃ s c, ap_Idempotency a = Some s ∧ is_cache s = Some c ∧ TrimSpace key ∈ c.

Definition store_call {X} (c : acall X) : bool :=
  match c with AGetConfigMap _ _ | AUpsertConfigMap _ _ _ _ => true | _ => false end.

Lemma only_ensureLoaded s :
  only (λ X c, store_call c = true) (ensureLoaded s) (λ '(r, s'),
    (∀ c, is_cache s = Some c → s' = s ∧ r = Ok tt) ∧ (r = Ok tt → is_Some (is_cache s'))).
Proof.
  unfold ensureLoaded. destruct (is_cache s) as [c|] eqn:Hc; [apply only_ret; naive_solver|].
  case_bool_decide; [by apply only_ret|]. apply only_bind_any; [by apply only_call|].
  intros [data|e]; [destruct (decodeKeys data)|destruct (IsNotFound e)]; by apply only_ret.
Qed.

(** Checking a key: what is loaded stays, and the answer is the cache's. *)
Lemma only_Contains s key :
  only (λ X c, store_call c = true) (store_Contains s key) (λ '(r, s'),
    ∀ c, is_cache s = Some c →
      s' = s ∧ (TrimSpace key ≠ "" → r = Ok (bool_decide (TrimSpace key ∈ c)))).
Proof.
  unfold store_Contains. case_bool_decide as Hk; [apply only_ret; naive_solver|].
  eapply only_bind; [apply only_ensureLoaded|]. intros [r s'] [H1 _].
  destruct r as [[]|e]; apply only_ret; intros c Hc; destruct (H1 c Hc) as [-> ?]; [|done].
  split; [done|]. by rewrite Hc.
Qed.

(** Recording a key: nothing is forgotten, and on success the key is there. *)
Lemma only_Record s key :
  only (λ X c, store_call c = true) (store_Record s key) (λ '(r, s'),
    (∀ c, is_cache s = Some c → ∃ c', is_cache s' = Some c' ∧ c ⊆ c') ∧
    (r = Ok tt → TrimSpace key ≠ "" → ∃ c', is_cache s' = Some c' ∧ TrimSpace key ∈ c')).
Proof.
  unfold store_Record. case_bool_decide as Hk; [apply only_ret; naive_solver|].
  eapply only_bind; [apply only_ensureLoaded|]. intros [r s'] [H1 H2].
  destruct r as [[]|e]; [|apply only_ret; split; [|done]; intros c Hc; by destruct (H1 c Hc) as [-> ?]].
  destruct (H2 eq_refl) as [c' Hc']. rewrite Hc'. change (default ∅ (Some c')) with c'.
  destruct (bool_decide_reflect (TrimSpace key ∈ c')) as [Hin|Hin].
  { apply only_ret. split; [|by eauto]. intros c Hc. destruct (H1 c Hc) as [-> _]. eauto. }
  apply only_bind_any.
  { unfold persistLocked. only_go; done. }
  intros r. apply only_ret. split.
  - intros c Hc. destruct (H1 c Hc) as [-> _]. rewrite Hc in Hc'. injection Hc' as ->.
    eexists. split; [done|]. set_solver.
  - intros _ _. eexists. split; [done|]. set_solver.
Qed.

Lemma store_call_marked clusterID X (c : acall X) : store_call c = true → applies_marked clusterID c.
Proof. by destruct c. Qed.

(** Everything [ApplyJob] does, for any job and any store. *)
Lemma only_ApplyJob a job :
  only (λ X c, applies_marked (ap_ClusterID a) c) (ApplyJob a job) (λ '(r, a'),
    (∀ key, recorded a key → recorded a' key) ∧
    (∀ o, r = Ok o → jr_Outcome (ao_Result o) = OutcomeSucceeded → ap_Idempotency a ≠ None →
       TrimSpace (aj_IdempotencyKey job) ≠ "" → recorded a' (aj_IdempotencyKey job))).
Proof.
  unfold ApplyJob. apply only_bind_any; [by apply only_call|]. intros now. cbn zeta.
  destruct (match aj_ExpiresAt job with Some _ => _ | None => _ end).
  { apply only_ret. split; [done|]. by intros o [= <-]. }
  case_bool_decide as Hk.
  { rewrite Hk. apply only_bind_any; [apply only_dispatch|].
    intros [ref|e]; apply only_ret; split; done. }
  destruct (ap_Idempotency a) as [s|] eqn:Hs.
  2: { apply only_bind_any; [apply only_dispatch|].
       intros [ref|e]; apply only_ret; split; done. }
  eapply only_bind.
  { eapply only_mono; [intros X c; apply store_call_marked|intros ?; exact id|apply only_Contains]. }
  intros [r s1] H1.
  assert (Hkeep : ∀ key, recorded a key →
    recorded {| ap_ClusterID := ap_ClusterID a; ap_Idempotency := Some s1 |} key).
  { intros key (s' & c & Hs' & Hc & Hin). rewrite Hs in Hs'. injection Hs' as <-.
    destruct (H1 c Hc) as [-> _]. by exists s, c. }
  destruct r as [[]|e]; [apply only_ret; split; [done|by intros o [= <-]]| |by apply only_ret].
  apply only_bind_any; [apply only_dispatch|]. intros [ref|e]; [|by apply only_ret].
  cbn [ap_Idempotency]. eapply only_bind.
  { eapply only_mono; [intros X c; apply store_call_marked|intros ?; exact id|apply only_Record]. }
  intros [r s2] [H2 H3].
  assert (Hkeep2 : ∀ key, recorded a key →
    recorded {| ap_ClusterID := ap_ClusterID a; ap_Idempotency := Some s2 |} key).
  { intros key (s' & c & [= <-] & Hc & Hin)%Hkeep.
    destruct (H2 c Hc) as (c' & Hc' & Hsub). exists s2, c'. set_solver. }
  destruct r as [[]|e]; apply only_ret; split; try done.
  intros o _ _ _ Hne. destruct (H3 eq_refl Hne) as (c' & Hc' & Hin). by exists s2, c'.
Qed.

(** C29: everything the agent applies is marked: whatever the API server answers,
    each object that [ApplyJob] applies carries the control plane's managed-by
    label and, when the cluster has an identity, its cluster id; each namespace
    it creates carries the gate label; and it never touches the job protocol. *)
Theorem applied_objects_marked (a : Applier) (job : AgentJob) :
  only (λ X c, applies_marked (ap_ClusterID a) c) (ApplyJob a job) (λ _, True).
Proof. eapply only_mono; [done|done|apply only_ApplyJob]. Qed.

Notation keeps_keys a := (λ a', ∀ key, recorded a key → recorded a' key).

Lemma processJob_keeps a job :
  only (λ X c, True) (processJob a job) (λ '(r, a'), keeps_keys a a').
Proof.
  unfold processJob. apply only_bind_any; [by apply only_call|]. intros [[]|e]; [|by apply only_ret].
  eapply only_bind; [eapply only_mono; [done|intros ?; exact id|apply only_ApplyJob]|].
  intros [[o|e] a'] [Hk _]; repeat (apply only_bind_any; [by apply only_call|intros ?]); by apply only_ret.
Qed.

Lemma processJobs_keeps jobs a :
  only (λ X c, True) (processJobs a jobs) (λ '(r, a'), keeps_keys a a').
Proof.
  revert a. induction jobs as [|job jobs IH]; intros a; cbn [processJobs]; [by apply only_ret|].
  eapply only_bind; [apply processJob_keeps|]. intros [r a1] H1.
  eapply only_bind; [apply IH|]. intros [first a2] H2. apply only_ret. auto.
Qed.

Lemma pollRounds_keeps n wait a : only (λ X c, True) (pollRounds n wait a) (keeps_keys a).
Proof.
  revert a. induction n as [|n IH]; intros a; cbn [pollRounds]; [by apply only_ret|].
  apply only_bind_any; [by apply only_call|]. intros [jobs|e].
  - eapply only_bind; [apply processJobs_keeps|]. intros [r a1] H1.
    eapply only_mono; [done| |apply IH]. simpl. auto.
  - apply only_bind_any; [by apply only_call|]. intros []; [by apply only_ret|apply IH].
Qed.

(** A check that does not find the key has loaded the store. *)
Lemma Contains_absent s key :
  TrimSpace key ≠ "" →
  only (λ X c, store_call c = true) (store_Contains s key) (λ '(r, s'),
    r = Ok false → ∃ c, is_cache s' = Some c ∧ TrimSpace key ∉ c).
Proof.
  intros Hk. unfold store_Contains. rewrite bool_decide_eq_false_2 by done.
  eapply only_bind; [apply only_ensureLoaded|]. intros [[[]|e] s'] [_ H2]; apply only_ret; [|done].
  destruct (H2 eq_refl) as [c Hc]. rewrite Hc. intros [= Hin%bool_decide_eq_false]. by exists c.
Qed.

(** The store of [a] holds the key, and the last call of [g] wrote the store's keys to
    its ConfigMap, and was accepted. *)
Definition persisted (a : Applier) (key : string) (g : trace_of acall) : Prop :=
  ∃ s c, ap_Idempotency a = Some s ∧ is_cache s = Some c ∧ TrimSpace key ∈ c ∧
    last g = Some (Called (AUpsertConfigMap (is_Namespace s) (is_Name s) "applied-keys.json"
                             (json_array (elements c))) (Ok tt)).

Lemma Record_persists clusterID s c key g :
  is_cache s = Some c → TrimSpace key ∉ c → TrimSpace key ≠ "" →
  wp traced anything (store_Record s key) (λ '(r, s') g', r = Ok tt →
    persisted {| ap_ClusterID := clusterID; ap_Idempotency := Some s' |} key g') g.
Proof.
  intros Hc Hin Hk. unfold store_Record. rewrite bool_decide_eq_false_2 by done. unfold ensureLoaded.
  rewrite Hc. cbn [prog_bind]. rewrite Hc. change (default ∅ (Some c)) with c.
  rewrite bool_decide_eq_false_2 by done. unfold persistLocked. apply wp_bind, wp_vis; [done|].
  intros [[]|e] g' ->; [|done]. intros _. eexists _, _. split; [done|]. split; [done|].
  split; [set_solver|]. by rewrite last_snoc.
Qed.

Lemma ApplyJob_persists a job g :
  TrimSpace (aj_IdempotencyKey job) ≠ "" → ap_Idempotency a ≠ None →
  wp traced anything (ApplyJob a job) (λ '(r, a') g', ∀ o, r = Ok o →
    jr_Outcome (ao_Result o) = OutcomeSucceeded → persisted a' (aj_IdempotencyKey job) g') g.
Proof.
  intros Hk Hs. unfold ApplyJob. apply wp_vis; [done|]. intros now g1 _. cbn zeta.
  destruct (match aj_ExpiresAt job with Some _ => _ | None => _ end); [by intros o [= <-]|].
  rewrite bool_decide_eq_false_2 by (intros He; by rewrite He in Hk).
  destruct (ap_Idempotency a) as [s|]; [|done]. apply wp_bind.
  eapply wp_mono; [|eapply only_wp; [|by apply Contains_absent]; done].
  intros [[[]|e] s1] g2 [H1 _]; [by intros o [= <-]| |done].
  destruct (H1 eq_refl) as (c & Hc & Hin). apply wp_bind.
  eapply wp_mono; [|eapply only_wp; [|apply (only_dispatch (ap_ClusterID a))]; done].
  intros [ref|e] g3 _; [|done]. cbn [ap_Idempotency]. apply wp_bind.
  eapply wp_mono; [|by eapply (Record_persists (ap_ClusterID a))].
  intros [[[]|e] s2] g4 H4; [|done]. intros o _ _. by apply H4.
Qed.

(** A server whose ConfigMap holds the key. *)
Definition holds_key (key : string) : environment acall unit := λ X c _ x _,
  match c in acall Y return Y → Prop with
  | AGetConfigMap _ _ => λ x,
      match x with
      | Ok data => ∃ keys, decodeKeys data = Ok keys ∧ TrimSpace key ∈ TrimSpace <$> keys
      | Err e => IsNotFound e = false
      end
  | _ => λ _, True
  end x.

Lemma known_job_idle a s job :
  ap_Idempotency a = Some s → (∀ c, is_cache s = Some c → TrimSpace (aj_IdempotencyKey job) ∈ c) →
  TrimSpace (aj_IdempotencyKey job) ≠ "" →
  wp (holds_key (aj_IdempotencyKey job)) (λ X c _, cluster_write c = false) (ApplyJob a job) (λ '(r, a') _,
    (is_cache s ≠ None → is_ok r = true) ∧
    ∀ o, r = Ok o → jr_Outcome (ao_Result o) = OutcomeNoop ∧ jr_AppliedRef (ao_Result o) = None) tt.
Proof.
  intros Hs Hc Hk. unfold ApplyJob. apply wp_vis; [done|]. intros now [] _. cbn zeta.
  destruct (match aj_ExpiresAt job with Some _ => _ | None => _ end); [split; [done|by intros o [= <-]]|].
  rewrite bool_decide_eq_false_2 by (intros He; by rewrite He in Hk). rewrite Hs.
  unfold store_Contains. rewrite bool_decide_eq_false_2 by done. unfold ensureLoaded.
  destruct (is_cache s) as [c|] eqn:Hcs.
  { cbn [prog_bind]. rewrite Hcs. change (default ∅ (Some c)) with c.
    rewrite bool_decide_eq_true_2 by by apply Hc. split; [done|by intros o [= <-]]. }
  case_bool_decide; [by split|]. apply wp_bind, wp_bind, wp_vis; [done|].
  intros [data|e] [] Hx; cbn in Hx; cbn beta match.
  - destruct Hx as (keys & -> & Hin). cbn. rewrite bool_decide_eq_true_2; [split; [done|by intros o [= <-]]|].
    apply elem_of_list_to_set, list_elem_of_filter. by split.
  - rewrite Hx. by split.
Qed.

(** C25: a job that succeeded is not applied again.  For jobs whose idempotency key is
    not blank and an agent with a store: (1) a job that is reported as succeeded has
    its key in the store, and as its last call the ConfigMap of the store was
    overwritten, successfully, with the JSON list of the store's keys; (2) a key in
    the loaded store stays there however long the poller runs; (3) a job whose key is
    in the loaded store, or, when the store is not loaded yet (after a restart), in
    the list read from the ConfigMap, writes nothing to the cluster and is answered
    with a no-op, or fails when the ConfigMap cannot be read.  A job that fails after
    its object was patched (the following read or the recording failed) has no such
    promise: its retry may patch again. *)
Theorem recorded_jobs_not_repeated (a : Applier) (job : AgentJob) (rounds : nat) (wait : Z) :
  TrimSpace (aj_IdempotencyKey job) ≠ "" → ap_Idempotency a ≠ None →
  wp traced anything (ApplyJob a job) (λ '(r, a') g, ∀ o, r = Ok o →
    jr_Outcome (ao_Result o) = OutcomeSucceeded → persisted a' (aj_IdempotencyKey job) g) [] ∧
  only (λ X c, True) (poller_Run rounds wait a) (λ a', ∀ key, recorded a key → recorded a' key) ∧
  (∀ s, ap_Idempotency a = Some s → (∀ c, is_cache s = Some c → TrimSpace (aj_IdempotencyKey job) ∈ c) →
   wp (holds_key (aj_IdempotencyKey job)) (λ X c _, cluster_write c = false) (ApplyJob a job) (λ '(r, a') _,
     (is_cache s ≠ None → is_ok r = true) ∧
     ∀ o, r = Ok o → jr_Outcome (ao_Result o) = OutcomeNoop ∧ jr_AppliedRef (ao_Result o) = None) tt).
Proof.
  intros Hk Hs. split_and!; [by apply ApplyJob_persists|apply pollRounds_keeps|].
  intros s Hsa Hc. by apply known_job_idle.
Qed.

(** *** Jobs on a clock that moves *)

Notation quiet p := (only (λ X c, further c = false) p (λ _, True)).

Lemma quiet_clock {A B} (p : prog acall A) (f : A → prog acall B) t :
  quiet p → (∀ a t', wp clock spelled_out (f a) (λ _ _, True) t') →
  wp clock spelled_out (prog_bind f p) (λ _ _, True) t.
Proof.
  intros Hp Hf. apply wp_bind. eapply wp_mono; [|by eapply only_env]. intros a t' _. apply Hf.
Qed.

Lemma quiet_ensureTargetNamespace name : quiet (ensureTargetNamespace name).
Proof. unfold ensureTargetNamespace. only_go; done. Qed.

Lemma quiet_store_Record s key : quiet (store_Record s key).
Proof. eapply only_mono; [|done|apply only_Record]. intros X c. by destruct c. Qed.

Lemma quiet_applyIntent clusterID payload : quiet (applyIntent clusterID payload).
Proof.
  unfold applyIntent, ensureNamespacesForApplicationInstance.
  destruct (decodeIntent payload) as [i|]; [|by apply only_ret].
  case_bool_decide; [|case_bool_decide; [|case_bool_decide; only_go; done]].
  - destruct (ip_ApplicationInstance i) as [app|]; [|by apply only_ret].
    apply only_bind_any; [|intros [[]|e]; only_go; done].
    apply only_bind_any; [apply quiet_ensureTargetNamespace|]. intros [[]|e]; [|by apply only_ret].
    destruct (bool_decide _); [apply quiet_ensureTargetNamespace|by apply only_ret].
  - destruct (ip_Operation i) as [op|]; [|by apply only_ret].
    apply only_bind_any; [apply quiet_ensureTargetNamespace|]. intros [[]|e]; only_go; done.
Qed.

Lemma dispatch_clock clusterID job t : wp clock spelled_out (dispatch clusterID job) (λ _ _, True) t.
Proof.
  unfold dispatch. repeat case_bool_decide; [|..|done].
  - unfold applyManifest. destruct (decode_manifest _) as [obj|]; [|done].
    apply quiet_clock; [apply quiet_ensureTargetNamespace|]. intros [[]|e] t1; [|done].
    apply wp_vis; [done|]. intros [[]|e] t2 _; [|done]. apply wp_vis; [done|]. intros [latest|e] t3 _; [|done].
    destruct (isVeleroBackupStorageLocation latest); [|done]. apply wp_bind.
    eapply wp_mono; [|apply bsl_wait_terminates]. by intros [ready|e] t4 _.
  - apply (only_env _ _ (λ X c, further c = false) _ (λ _, True)); [|done]. unfold deleteObject. only_go; done.
  - apply (only_env _ _ (λ X c, further c = false) _ (λ _, True)); [apply quiet_applyIntent|done].
Qed.

Lemma ApplyJob_clock a job t : wp clock spelled_out (ApplyJob a job) (λ _ _, True) t.
Proof.
  unfold ApplyJob. apply wp_vis; [done|]. intros now t1 _. cbn zeta.
  destruct (match aj_ExpiresAt job with Some _ => _ | None => _ end); [done|].
  assert (∀ a' t', wp clock spelled_out (dispatch a' job) (λ _ _, True) t') as Hd by (intros; apply dispatch_clock).
  case_bool_decide.
  { apply wp_bind. eapply wp_mono; [|apply Hd]. by intros [ref|e] t2 _. }
  destruct (ap_Idempotency a) as [s|].
  2: { apply wp_bind. eapply wp_mono; [|apply Hd]. by intros [ref|e] t2 _. }
  apply quiet_clock.
  { eapply only_mono; [|done|apply only_Contains]. intros X c. by destruct c. }
  intros [[[]|e] s1] t2; [done| |done]. apply wp_bind. eapply wp_mono; [|apply Hd].
  intros [ref|e] t3 _; [|done]. apply quiet_clock; [apply quiet_store_Record|].
  by intros [[[]|e] s2] t4.
Qed.

Lemma processJobs_clock jobs a t : wp clock spelled_out (processJobs a jobs) (λ _ _, True) t.
Proof.
  revert a t. induction jobs as [|job jobs IH]; intros a t; cbn [processJobs]; [done|].
  assert (∀ r a' t', wp clock spelled_out (let* (first, a) := processJobs a' jobs in
    Ret (match r : result unit with Err e => Some e | Ok _ => first end, a)) (λ _ _, True) t') as Hrest.
  { intros r a' t'. apply wp_bind. eapply wp_mono; [|apply IH]. by intros [first a2] t2 _. }
  apply wp_bind. unfold processJob. apply wp_vis; [done|]. intros [[]|e] t1 _; [|apply Hrest].
  apply wp_bind. eapply wp_mono; [|apply ApplyJob_clock]. intros [[o|e] a1] t2 _.
  - apply wp_vis; [done|]. intros r t3 _. apply Hrest.
  - apply wp_vis; [done|]. intros now t3 _. apply wp_vis; [done|]. intros r t4 _. apply Hrest.
Qed.

(** On a clock that moves, a round of the poller makes no wait longer than the rounds
    the model writes out. *)
Lemma PollOnce_clock a t : wp clock spelled_out (PollOnce a) (λ _ _, True) t.
Proof.
  apply wp_vis; [done|]. intros [jobs|e] t1 _; [|done]. apply wp_bind.
  eapply wp_mono; [|apply processJobs_clock]. by intros [first a'] t2 _.
Qed.

(** *** The job protocol *)

Definition is_report {X} (c : acall X) : bool :=
  match c with AReportResult _ _ => true | _ => false end.

Definition acked (job : AgentJob) (g : trace_of acall) : Prop :=
  Called (AAckJob (aj_ID job)) (Ok tt) ∈ g.

(** The acknowledgement comes first, nothing is written before it succeeded, and
    a report is made only after it and only once. *)
Definition protocol (job : AgentJob) : permission acall (trace_of acall) := λ X c g,
  match c with
  | AAckJob id => id = aj_ID job ∧ g = []
  | AReportResult id _ =>
      id = aj_ID job ∧ acked job g ∧ Forall (call_in (λ X c, is_report c = false)) g
  | c => cluster_write c = true → acked job g
  end.

Lemma wp_report job res (g : trace_of acall) {A} (k : result unit → A) :
  acked job g → Forall (call_in (λ X c, is_report c = false)) g →
  wp traced (protocol job) (prog_bind (λ r, Ret (k r)) (call (AReportResult (aj_ID job) res)))
    (λ _ g', ∃ res x, last g' = Some (Called (AReportResult (aj_ID job) res) x)) g.
Proof.
  intros Ha Hf. apply wp_vis; [done|]. intros x g' ->. exists res, x. by rewrite last_snoc.
Qed.

(** C26: the job protocol is respected: whatever the control plane and the API
    server answer, a job is acknowledged before anything else, nothing is written
    to the cluster unless the acknowledgement succeeded, and an acknowledged job
    ends with exactly one result report; if the acknowledgement fails, the job is
    left alone. *)
Theorem process_job_protocol (a : Applier) (job : AgentJob) :
  wp traced (protocol job) (processJob a job) (λ '(r, a') g,
    (∃ e, r = Err (wrapf ("ack job " +:+ aj_ID job) e) ∧ a' = a ∧
          g = [Called (AAckJob (aj_ID job)) (Err e)]) ∨
    ∃ res x, last g = Some (Called (AReportResult (aj_ID job) res) x)) [].
Proof.
  apply wp_vis; [done|]. intros [[]|e] g1 ->; cbn beta match; [|left; by eexists].
  set (g0 := [] ++ [Called (AAckJob (aj_ID job)) (Ok tt)]).
  assert (Ha : acked job g0) by (unfold acked, g0; set_solver).
  assert (Hf : Forall (call_in (λ X c, is_report c = false)) g0) by by repeat constructor.
  clearbody g0. apply wp_bind. eapply wp_mono; [|eapply (only_trace (λ X c, protocol_call c = false))].
  - intros [outcome a'] g' [_ (k & -> & Hk)].
    assert (Ha' : acked job (g0 ++ k)) by (unfold acked in *; set_solver).
    assert (Hf' : Forall (call_in (λ X c, is_report c = false)) (g0 ++ k)).
    { apply Forall_app. split; [done|]. eapply Forall_impl; [done|].
      intros [X c x]. by destruct c. }
    destruct outcome as [o|e].
    + eapply wp_mono; [|by apply wp_report]. intros [r a2] h Hh. by right.
    + apply wp_vis; [done|]. intros now g2 ->. eapply wp_mono; [|apply wp_report].
      * intros [r a2] h Hh. by right.
      * unfold acked in *. set_solver.
      * apply Forall_app. split; [done|]. by repeat constructor.
  - intros X c g' Hc [k ->].
    assert (Hak : acked job (g0 ++ k)) by (unfold acked in *; set_solver).
    unfold protocol. destruct c; try discriminate Hc; by intros _.
  - eapply only_mono; [|done|apply only_ApplyJob]. by intros X c [? _].
Qed.

(** a failure is reported as a conflict because of its text: any error of a
    job whose message contains the word is reported with outcome [conflict],
    whatever kind of error it is, and no other error is. *)
Theorem conflict_reported_by_text (h : ∀ X, acall X → X) (a a' : Applier) (job : AgentJob) (e : error) :
  h _ (AAckJob (aj_ID job)) = Ok tt →
  (run (trace_handler h) (ApplyJob a job) [Called (AAckJob (aj_ID job)) (Ok tt)]).1 = (Err e, a') →
  ∃ res x,
    last (run (trace_handler h) (processJob a job) []).2 =
      Some (Called (AReportResult (aj_ID job) res) x) ∧
    jr_Outcome res = if Contains (emsg e) "conflict" then OutcomeConflict else OutcomeFailed.
Proof.
  intros Ha Hr. unfold processJob. cbn [run prog_bind call]. unfold trace_handler at 1.
  rewrite Ha. cbn beta match. rewrite app_nil_l, run_bind.
  destruct (run _ (ApplyJob a job) _) as [r g1]. simpl in Hr. subst r.
  cbn [run prog_bind call trace_handler snd]. eexists _, _. rewrite last_snoc. split; [done|].
  unfold IsConflict. by destruct (Contains (emsg e) "conflict").
Qed.

(** A key that could not be persisted is remembered all the same: when the
    ConfigMap cannot be written, [Record] fails (and the job is reported as
    failed), but the in-memory store holds the key, so that the retried job is
    answered with a no-op until the process restarts. *)
Theorem failed_record_is_remembered (h : ∀ X, acall X → X) (s : IdempotencyStore)
    (c : gset string) (key : string) (e : error) (g : trace_of acall) :
  is_cache s = Some c → TrimSpace key ≠ "" → TrimSpace key ∉ c →
  (∀ ns n k v, h _ (AUpsertConfigMap ns n k v) = Err e) →
  let '((r, s'), _) := run (trace_handler h) (store_Record s key) g in
  is_ok r = false ∧ ∃ c', is_cache s' = Some c' ∧ TrimSpace key ∈ c'.
Proof.
  intros Hc Hk Hin He. unfold store_Record. rewrite bool_decide_eq_false_2 by done.
  unfold ensureLoaded. rewrite Hc. cbn [prog_bind]. rewrite Hc.
  change (default ∅ (Some c)) with c. rewrite bool_decide_eq_false_2 by done.
  unfold persistLocked. rewrite run_bind. cbn [prog_bind call run]. unfold trace_handler at 1.
  rewrite He. cbn. split; [done|]. eexists. split; [done|]. set_solver.
Qed.

(** The signature of a job is never read: with any other signature, or none, the job
    is processed in the same way. *)
Definition signed (job : AgentJob) (signature : string) : AgentJob :=
  {| aj_ID := aj_ID job; aj_Kind := aj_Kind job; aj_Payload := aj_Payload job;
     aj_IdempotencyKey := aj_IdempotencyKey job; aj_CreatedAt := aj_CreatedAt job;
     aj_ExpiresAt := aj_ExpiresAt job; aj_Signature := signature |}.

Lemma signature_ignored a job signature : processJob a (signed job signature) = processJob a job.
Proof. by destruct job. Qed.
End Jobs.

(** ** Witnesses *)

Definition no_syntax : JsonSyntax := {| json_parse _ := Err (errorf "unexpected input") |}.

Definition sample_agent_lib : AgentLib := {|
  decode_manifest _ := Ok {| mf_APIVersion := "v1"; mf_Kind := "ConfigMap";
                             mf_Meta := meta_of "apps" "conflict-demo"; mf_Object := [] |};
  decode_instance _ := Err (errorf "unexpected input");
  decode_operation _ := Err (errorf "unexpected input");
  ParseGroupVersion s := Ok ("", s);
  GVKForInstance := Ok (appsGroupVersion, "ApplicationInstance");
  GVKForOperation := Ok (opsGroupVersion, "Operation")
|}.

Definition forbidden : error := mkErr "configmaps conflict-demo is forbidden" KForbidden.

(** A server that refuses to apply and to store. *)
Definition refusing_server : ∀ X, acall X → X := λ X c,
  match c in acall Y return Y with
  | ANow => 0%Z
  | ASleep _ => false
  | AGetConfigMap _ _ => Ok ∅
  | AUpsertConfigMap _ _ _ _ => Err (errorf "configmaps are read only")
  | AGetNamespace _ | ACreateNamespace _ _ | AAckJob _ | AReportResult _ _ => Ok tt
  | APatchManifest _ | APatchInstance _ | APatchOperation _ | ADeleteManifest _ _ _ _
  | ADeleteInstance _ _ => Err forbidden
  | AGetManifest _ _ _ _ | AFurtherRounds _ _ _ => Err forbidden
  | AGetInstance _ _ => Err forbidden
  | AGetOperation _ _ => Err forbidden
  | AFetchJobs _ => Ok []
  end.

Definition sample_job : AgentJob :=
  {| aj_ID := "j1"; aj_Kind := "apply"; aj_Payload := ""; aj_IdempotencyKey := "";
     aj_CreatedAt := None; aj_ExpiresAt := None; aj_Signature := "" |}.
Definition sample_applier : Applier := {| ap_ClusterID := "c1"; ap_Idempotency := None |}.

Lemma conflict_reported_by_text_witness :
  IsApiConflict forbidden = false ∧
  ∃ res x,
    last (run (trace_handler refusing_server)
            (@processJob no_syntax sample_agent_lib reference_lib sample_applier sample_job) []).2 =
      Some (Called (AReportResult "j1" res) x) ∧
    jr_Outcome res = OutcomeConflict.
Proof.
  split; [reflexivity|].
  apply (@conflict_reported_by_text no_syntax sample_agent_lib reference_lib refusing_server
           sample_applier sample_applier sample_job (wrapf "server-side apply" forbidden));
    vm_compute; reflexivity.
Defined.

Lemma failed_record_is_remembered_witness :
  let s := {| is_Namespace := "vworkspace-system"; is_Name := ""; is_cache := Some ∅ |} in
  let '((r, s'), _) := run (trace_handler refusing_server) (@store_Record no_syntax s "k1") [] in
  is_ok r = false ∧ ∃ c', is_cache s' = Some c' ∧ TrimSpace "k1" ∈ c'.
Proof.
  apply (@failed_record_is_remembered no_syntax refusing_server
           {| is_Namespace := "vworkspace-system"; is_Name := ""; is_cache := Some ∅ |} ∅ "k1"
           (errorf "configmaps are read only") []);
    [reflexivity|vm_compute; discriminate|apply not_elem_of_empty|reflexivity].
Defined.

(** A job whose key the ConfigMap holds, met by a store that is not loaded, and one
    that has just succeeded. *)
Definition keyed_job : AgentJob :=
  {| aj_ID := "j1"; aj_Kind := "apply"; aj_Payload := ""; aj_IdempotencyKey := "k1";
     aj_CreatedAt := None; aj_ExpiresAt := None; aj_Signature := "" |}.
Definition keyed_applier : Applier :=
  {| ap_ClusterID := "c1";
     ap_Idempotency := Some {| is_Namespace := "vworkspace-system"; is_Name := ""; is_cache := None |} |}.

Lemma recorded_jobs_not_repeated_witness :
  wp traced anything (@ApplyJob no_syntax sample_agent_lib reference_lib keyed_applier keyed_job)
    (λ '(r, a') g, ∀ o, r = Ok o →
       jr_Outcome (ao_Result o) = OutcomeSucceeded → persisted a' "k1" g) [] ∧
  wp (@holds_key no_syntax "k1") (λ X c _, cluster_write c = false)
    (@ApplyJob no_syntax sample_agent_lib reference_lib keyed_applier keyed_job) (λ '(r, a') _,
      ((None : option (gset string)) ≠ None → is_ok r = true) ∧
      ∀ o, r = Ok o → jr_Outcome (ao_Result o) = OutcomeNoop ∧ jr_AppliedRef (ao_Result o) = None) tt.
Proof.
  destruct (@recorded_jobs_not_repeated no_syntax sample_agent_lib reference_lib keyed_applier keyed_job 0 0)
    as (H1 & _ & H3); [vm_compute; discriminate|discriminate|]. split; [exact H1|].
  apply (H3 {| is_Namespace := "vworkspace-system"; is_Name := ""; is_cache := None |}); [reflexivity|discriminate].
Defined.
