(* ===== verification/HttpClient.v ===== *)
(** * internal/agent/client.go and register.go: the control plane's HTTP interface

    Requests and responses are values; a request body is kept as the struct that
    is marshalled.  [wcall] is what these components and the cluster controller
    ask of their surroundings.  Reading the response stream, RFC 3339 instants
    and URL syntax are library code: the parameters of [HttpLib]. *)

From stdpp Require Import base list strings pretty gmap.
From S2P Require Import Prelude Traces GoStrings Api Json Events Agent.

Definition mediaTypeV1 : string := "application/vnd.vworkspace.agent.v1+json".

Record StatusUpdate := {
  su_Phase : string;
  su_Conditions : list Condition;
  su_Message : string;
  su_Timestamp : Z
}.

Record RegisterRequest := {
  rr_RegistrationToken : string;
  rr_ClusterID : string;
  rr_DisplayName : string
}.

Record RegisterResponse := {
  rg_ClusterID : string;
  rg_Token : string;
  rg_ExpiresAt : option Z
}.

Record RotateCredentialsResponse := { rc_Token : string; rc_ExpiresAt : option Z }.

Inductive body :=
| BStatus (u : StatusUpdate)
| BResult (r : JobResult)
| BEvents (events : list Event)
| BRegister (r : RegisterRequest)
| BEmpty. (** [struct{}{}] *)

Record HTTPRequest := {
  rq_Method : string;
  rq_URL : string;
  rq_Authorization : string;
  rq_Accept : string;
  rq_ContentType : string;
  rq_Body : option body
}.

Record HTTPResponse := { rs_StatusCode : Z; rs_Status : string; rs_Body : string }.

Record Secret := {
  sec_Meta : ObjectMeta;
  sec_Data : gmap string string;
  sec_Type : string
}.

Inductive wcall : Type → Type :=
| WNow : wcall Z
| WGetenv (name : string) : wcall string
| WHttp (req : HTTPRequest) : wcall (result HTTPResponse)
| WGetSecret (ns name : string) : wcall (result Secret)
| WUpsertSecret (ns name : string) (mutate : Secret → result Secret) : wcall (result unit)
| WGetCluster (ns name : string) : wcall (result Cluster)
| WListClusters : wcall (result (list Cluster))
| WUpdateCluster (c : Cluster) : wcall (result Cluster)
| WUpdateClusterStatus (c : Cluster) : wcall (result Cluster)
| WOverflowState : wcall (bool * Z)
| WReport (ref : AppliedRef) (prev next : list Condition) : wcall unit
| WReportAudit (ref : AppliedRef) (kind : string) (cs : list Condition) : wcall unit
| WRecord (eventType reason message : string) : wcall unit
(** clients given to the reconciler in place of the HTTP ones *)
| WOtherRegister (baseURL token clusterID : string) : wcall (result RegisterResponse)
| WOtherHeartbeat : wcall (result unit)
| WOtherRotate : wcall (result RotateCredentialsResponse).

Class HttpLib := {
  (** [json.NewDecoder(body)]: the first document of the stream *)
  json_first : string → result json;
  (** [time.Time.UnmarshalJSON] on a string *)
  time_parse : string → result Z;
  (** the decoded jobs, their payloads as raw text *)
  decode_jobs : string → result (list AgentJob);
  (** why [http.NewRequestWithContext] refuses a URL *)
  url_error : string → option error
}.

(** ** Escaping of net/url *)

Definition hex_upper (n : nat) : Ascii.ascii := if (n <? 10)%nat then byte (48 + n) else byte (55 + n).

Definition percent (c : Ascii.ascii) : string :=
  let n := Ascii.nat_of_ascii c in
  String (byte 37) (String (hex_upper (n / 16)) (String (hex_upper (n mod 16)) EmptyString)).

(** Letters, digits and [- _ . ~]. *)
Definition unreserved (c : Ascii.ascii) : bool :=
  let n := Ascii.nat_of_ascii c in
  (((48 <=? n) && (n <=? 57)) || ((65 <=? n) && (n <=? 90)) || ((97 <=? n) && (n <=? 122)))%nat
  || bool_decide (c ∈ byte <$> [45; 95; 46; 126]).

Fixpoint escape (keep : Ascii.ascii → bool) (spaceAsPlus : bool) (s : string) : string :=
  match s with
  | EmptyString => EmptyString
  | String c s =>
      if keep c then String c (escape keep spaceAsPlus s)
      else if spaceAsPlus && bool_decide (c = byte 32) then String (byte 43) (escape keep spaceAsPlus s)
      else percent c +:+ escape keep spaceAsPlus s
  end.

(** [url.PathEscape] also keeps [$ & + : = @]. *)
Definition PathEscape (s : string) : string :=
  escape (λ c, unreserved c || bool_decide (c ∈ byte <$> [36; 38; 43; 58; 61; 64])) false s.
Definition QueryEscape (s : string) : string := escape unreserved true s.

Section Http.
Context `{HttpLib}.

(** ** The authenticated client *)

Record Config := { cf_BaseURL : string; cf_ClusterID : string; cf_Token : string }.

Record HTTPClient := { hc_baseURL : string; hc_clusterID : string; hc_token : string }.

Definition NewHTTPClient (cfg : Config) : result HTTPClient :=
  if bool_decide (TrimSpace (cf_BaseURL cfg) = "") then Err (errorf "base URL is required")
  else if bool_decide (TrimSpace (cf_ClusterID cfg) = "") then Err (errorf "cluster ID is required")
  else if bool_decide (TrimSpace (cf_Token cfg) = "") then Err (errorf "token is required")
  else Ok {| hc_baseURL := TrimRight (cf_BaseURL cfg) (byte 47); hc_clusterID := cf_ClusterID cfg;
             hc_token := cf_Token cfg |}.

Definition requestFor (token method endpoint : string) (b : option body) : HTTPRequest :=
  {| rq_Method := method; rq_URL := endpoint; rq_Authorization := "Bearer " +:+ token;
     rq_Accept := mediaTypeV1;
     rq_ContentType := match b with Some _ => mediaTypeV1 | None => "" end;
     rq_Body := b |}.

(** [HTTPClient.do] *)
Definition http_do (c : HTTPClient) (method endpoint : string) (b : option body)
    : prog wcall (result HTTPResponse) :=
  match url_error endpoint with
  | Some e => Ret (Err (wrapf "create request" e))
  | None =>
      try* resp := call (WHttp (requestFor (hc_token c) method endpoint b))
        catch e => Ret (Err (wrapf "execute request" e)) in
      Ret (Ok resp)
  end.

(** A string field of a document whose decoding errors are ignored: a value of
    another type leaves the field as it was. *)
Fixpoint lenient_string (name : string) (fs : list (string * json)) (cur : string) : string :=
  match fs with
  | [] => cur
  | (k, v) :: fs =>
      lenient_string name fs
        (if names k name then match v with JStr s => s | _ => cur end else cur)
  end.

Record apiError := { ae_Code : string; ae_Message : string; ae_RequestID : string }.

Definition decodeApiError (resp : HTTPResponse) : apiError :=
  let fs := match json_first (rs_Body resp) with Ok (JObj fs) => fs | _ => [] end in
  {| ae_Code := lenient_string "error" fs "";
     ae_Message := lenient_string "message" fs "";
     ae_RequestID := lenient_string "requestId" fs "" |}.

Definition apiErrorText (what : string) (resp : HTTPResponse) : error :=
  let p := decodeApiError resp in
  let message := if bool_decide (ae_Message p = "") then rs_Status resp else ae_Message p in
  errorf (what +:+ " (" +:+ itoa (rs_StatusCode resp) +:+ "): " +:+ ae_Code p +:+ ": " +:+ message).

Definition decodeError (resp : HTTPResponse) : error := apiErrorText "agent API error" resp.

(** A request whose only good answers are the listed status codes. *)
Definition expect (r : result HTTPResponse) (good : list Z) : result unit :=
  do! resp := r in
  if bool_decide (rs_StatusCode resp ∈ good) then Ok tt else Err (decodeError resp).

Definition FetchJobs (c : HTTPClient) (waitSeconds : Z) : prog wcall (result (list AgentJob)) :=
  let endpoint := hc_baseURL c +:+ "/api/agent/jobs?" +:+ "cluster=" +:+ QueryEscape (hc_clusterID c) +:+
                  "&wait=" +:+ QueryEscape (itoa waitSeconds) in
  let* r := http_do c "GET" endpoint None in
  Ret (do! resp := r in
       if negb (bool_decide (rs_StatusCode resp = 200%Z)) then Err (decodeError resp)
       else match decode_jobs (rs_Body resp) with
            | Err e => Err (wrapf "decode jobs response" e)
            | Ok jobs => Ok jobs
            end).

Definition jobEndpoint (c : HTTPClient) (jobID what : string) : string :=
  hc_baseURL c +:+ "/api/agent/jobs/" +:+ PathEscape jobID +:+ what.

Definition AckJob (c : HTTPClient) (jobID : string) : prog wcall (result unit) :=
  let* r := http_do c "POST" (jobEndpoint c jobID "/ack") None in
  Ret (expect r [204; 409]%Z).

Definition ReportStatus (c : HTTPClient) (jobID : string) (u : StatusUpdate)
    : prog wcall (result unit) :=
  let* r := http_do c "POST" (jobEndpoint c jobID "/status") (Some (BStatus u)) in
  Ret (expect r [204%Z]).

Definition ReportResult (c : HTTPClient) (jobID : string) (res : JobResult)
    : prog wcall (result unit) :=
  let* r := http_do c "POST" (jobEndpoint c jobID "/result") (Some (BResult res)) in
  Ret (expect r [204; 409]%Z).

Definition PostEvents (c : HTTPClient) (events : list Event) : prog wcall (result unit) :=
  let* r := http_do c "POST" (hc_baseURL c +:+ "/api/agent/events") (Some (BEvents events)) in
  Ret (expect r [204%Z]).

Definition heartbeatEvent (clusterID : string) (now : Z) : Event :=
  {| ev_EventKey := ""; ev_Kind := "ClusterHeartbeat";
     ev_ResourceRef := {| ar_APIVersion := "ops.vworkspace.io/v1alpha1"; ar_Kind := "Cluster";
       ar_Namespace := ""; ar_Name := clusterID; ar_UID := ""; ar_Generation := 0 |};
     ev_Conditions := []; ev_Endpoints := []; ev_ManagedStorage := None;
     ev_Timestamp := Some now |}.

(** [HTTPClient.Heartbeat] *)
Definition http_Heartbeat (c : HTTPClient) : prog wcall (result unit) :=
  let* now := call WNow in
  PostEvents c [heartbeatEvent (hc_clusterID c) now].

Definition dec_time_ptr : decoder (option Z) := λ _ v,
  match v with
  | JNull => Ok None
  | JStr s => do! t := time_parse s in Ok (Some t)
  | _ => Err json_type_error
  end.

Definition decodeRotate (resp : HTTPResponse) : result RotateCredentialsResponse :=
  do! v := json_first (rs_Body resp) in
  do! fs := members v in
  do! token := dec_field dec_string "token" fs "" in
  do! expires := dec_field dec_time_ptr "expiresAt" fs None in
  Ok {| rc_Token := token; rc_ExpiresAt := expires |}.

(** [HTTPClient.RotateCredentials] *)
Definition http_RotateCredentials (c : HTTPClient) : prog wcall (result RotateCredentialsResponse) :=
  let* r := http_do c "POST" (hc_baseURL c +:+ "/api/agent/credentials/rotate") (Some BEmpty) in
  Ret (do! resp := r in
       if negb (bool_decide (rs_StatusCode resp = 200%Z)) then Err (decodeError resp)
       else match decodeRotate resp with
            | Err e => Err (wrapf "decode rotate response" e)
            | Ok payload =>
                let token := TrimSpace (rc_Token payload) in
                if bool_decide (token = "") then Err (errorf "rotate response missing token")
                else Ok {| rc_Token := token; rc_ExpiresAt := rc_ExpiresAt payload |}
            end).

(** ** The registration exchange *)

Definition decodeRegisterError (resp : HTTPResponse) : error := apiErrorText "register API error" resp.

Definition decodeRegister (resp : HTTPResponse) : result RegisterResponse :=
  do! v := json_first (rs_Body resp) in
  do! fs := members v in
  do! id := dec_field dec_string "clusterId" fs "" in
  do! token := dec_field dec_string "token" fs "" in
  do! expires := dec_field dec_time_ptr "expiresAt" fs None in
  Ok {| rg_ClusterID := id; rg_Token := token; rg_ExpiresAt := expires |}.

Definition registered (r : result RegisterResponse) : result RegisterResponse :=
  match r with
  | Err e => Err (wrapf "decode register response" e)
  | Ok p =>
      let id := TrimSpace (rg_ClusterID p) in
      let token := TrimSpace (rg_Token p) in
      if bool_decide (id = "" ∨ token = "") then
        Err (errorf "register response missing clusterId or token")
      else Ok {| rg_ClusterID := id; rg_Token := token; rg_ExpiresAt := rg_ExpiresAt p |}
  end.

(** [HTTPRegistrationClient.Register] *)
Definition Register (baseURL registrationToken clusterID : string)
    : prog wcall (result RegisterResponse) :=
  let baseURL := TrimRight (TrimSpace baseURL) (byte 47) in
  let registrationToken := TrimSpace registrationToken in
  if bool_decide (baseURL = "") then Ret (Err (errorf "control plane base URL is required"))
  else if bool_decide (registrationToken = "") then
    Ret (Err (errorf "registration token is required"))
  else
    let endpoint := baseURL +:+ "/api/agent/register" in
    let req := {| rr_RegistrationToken := registrationToken; rr_ClusterID := TrimSpace clusterID;
                  rr_DisplayName := "" |} in
    match url_error endpoint with
    | Some e => Ret (Err (wrapf "create register request" e))
    | None =>
        try* resp := call (WHttp (requestFor registrationToken "POST" endpoint (Some (BRegister req))))
          catch e => Ret (Err (wrapf "execute register request" e)) in
        if negb (bool_decide (rs_StatusCode resp = 200%Z)) then Ret (Err (decodeRegisterError resp))
        else Ret (registered (decodeRegister resp))
    end.

End Http.
