(* ===== verification/ControlPlane.v ===== *)
(** * test/mockcontrolplane (server.go, admin.go): the other side of the agent API

    The repository's in-memory control plane: its state, and [serveHTTP] as a
    function from a request to a response.  Each handler runs under the mutex.  A
    long poll is modelled by its last round, the one that returns.  Request and
    response bodies are the structs of internal/agent; their encoding belongs to
    encoding/json and is a parameter ([WireLib]), like the order of
    a range over a map. *)

From stdpp Require Import base list strings pretty gmap.
From S2P Require Import Prelude Traces GoStrings Api Json Events Agent HttpClient.

(** ** URLs *)

Definition unhex (c : Ascii.ascii) : option nat :=
  let n := Ascii.nat_of_ascii c in
  if ((48 <=? n) && (n <=? 57))%nat then Some (n - 48)
  else if ((65 <=? n) && (n <=? 70))%nat then Some (n - 55)
  else if ((97 <=? n) && (n <=? 102))%nat then Some (n - 87)
  else None.

(** [unescape] of net/url; [plusIsSpace] for queries. *)
Fixpoint unescape (plusIsSpace : bool) (s : string) : option string :=
  match s with
  | EmptyString => Some EmptyString
  | String c s =>
      if bool_decide (c = byte 37) then
        match s with
        | String h (String l s) =>
            match unhex h, unhex l with
            | Some h, Some l => String (byte (16 * h + l)) <$> unescape plusIsSpace s
            | _, _ => None
            end
        | _ => None
        end
      else if plusIsSpace && bool_decide (c = byte 43) then String (byte 32) <$> unescape plusIsSpace s
      else String c <$> unescape plusIsSpace s
  end.

(** [strings.Cut] at a byte. *)
Fixpoint Cut (s : string) (sep : Ascii.ascii) : string * string :=
  match s with
  | EmptyString => (EmptyString, EmptyString)
  | String c s => if bool_decide (c = sep) then (EmptyString, s)
                  else let '(a, b) := Cut s sep in (String c a, b)
  end.

(** [URL.Query().Get]: the first value of the key; a part with a semicolon or a wrong
    escape is skipped. *)
Fixpoint queryGet (parts : list string) (key : string) : string :=
  match parts with
  | [] => ""
  | part :: parts =>
      if no_byte (byte 59) part then
        let '(k, v) := Cut part (byte 61) in
        match unescape true k, unescape true v with
        | Some k', Some v' => if bool_decide (k' = key) then v' else queryGet parts key
        | _, _ => queryGet parts key
        end
      else queryGet parts key
  end.

(** The decoded path and the query of a URL below [base]. *)
Definition requestTarget (base url : string) : option (string * list string) :=
  if HasPrefix url base then
    let '(path, query) := Cut (TrimPrefix url base) (byte 63) in
    match unescape false path with
    | Some path => Some (path, Split query (byte 38))
    | None => None
    end
  else None.

Definition TrimSuffix (s p : string) : string :=
  if HasSuffix s p then String.substring 0 (String.length s - String.length p) s else s.

(** ** State *)

Record clusterState := {
  cs_bootstrapToken : string;
  cs_rotationCount : Z;
  cs_pending : list AgentJob;
  cs_acked : gset string;
  cs_statuses : gmap string (list StatusUpdate);
  cs_results : gmap string JobResult;
  cs_events : list Event;
  cs_eventKeys : gset string
}.

Definition newCluster : clusterState :=
  {| cs_bootstrapToken := ""; cs_rotationCount := 0; cs_pending := []; cs_acked := ∅; cs_statuses := ∅;
     cs_results := ∅; cs_events := []; cs_eventKeys := ∅ |}.

Record Server := {
  sv_AdminToken : string;
  sv_registrationTokens : gmap string string;
  sv_clusters : gmap string clusterState;
  sv_tokenIndex : gmap string string
}.

Definition NewServer : Server :=
  {| sv_AdminToken := ""; sv_registrationTokens := ∅; sv_clusters := ∅; sv_tokenIndex := ∅ |}.

Definition with_token (cs : clusterState) (t : string) (n : Z) : clusterState :=
  {| cs_bootstrapToken := t; cs_rotationCount := n; cs_pending := cs_pending cs; cs_acked := cs_acked cs;
     cs_statuses := cs_statuses cs; cs_results := cs_results cs; cs_events := cs_events cs;
     cs_eventKeys := cs_eventKeys cs |}.
Definition with_pending (cs : clusterState) (l : list AgentJob) : clusterState :=
  {| cs_bootstrapToken := cs_bootstrapToken cs; cs_rotationCount := cs_rotationCount cs; cs_pending := l;
     cs_acked := cs_acked cs; cs_statuses := cs_statuses cs; cs_results := cs_results cs;
     cs_events := cs_events cs; cs_eventKeys := cs_eventKeys cs |}.
Definition with_acked (cs : clusterState) (a : gset string) : clusterState :=
  {| cs_bootstrapToken := cs_bootstrapToken cs; cs_rotationCount := cs_rotationCount cs;
     cs_pending := cs_pending cs; cs_acked := a; cs_statuses := cs_statuses cs; cs_results := cs_results cs;
     cs_events := cs_events cs; cs_eventKeys := cs_eventKeys cs |}.
Definition with_statuses (cs : clusterState) (m : gmap string (list StatusUpdate)) : clusterState :=
  {| cs_bootstrapToken := cs_bootstrapToken cs; cs_rotationCount := cs_rotationCount cs;
     cs_pending := cs_pending cs; cs_acked := cs_acked cs; cs_statuses := m; cs_results := cs_results cs;
     cs_events := cs_events cs; cs_eventKeys := cs_eventKeys cs |}.
Definition with_results (cs : clusterState) (m : gmap string JobResult) : clusterState :=
  {| cs_bootstrapToken := cs_bootstrapToken cs; cs_rotationCount := cs_rotationCount cs;
     cs_pending := cs_pending cs; cs_acked := cs_acked cs; cs_statuses := cs_statuses cs; cs_results := m;
     cs_events := cs_events cs; cs_eventKeys := cs_eventKeys cs |}.
Definition with_events (cs : clusterState) (l : list Event) (keys : gset string) : clusterState :=
  {| cs_bootstrapToken := cs_bootstrapToken cs; cs_rotationCount := cs_rotationCount cs;
     cs_pending := cs_pending cs; cs_acked := cs_acked cs; cs_statuses := cs_statuses cs;
     cs_results := cs_results cs; cs_events := l; cs_eventKeys := keys |}.

(** [ensureClusterLocked], and the update of what it returned. *)
Definition ensureClusterLocked (s : Server) (id : string) : clusterState :=
  default newCluster (sv_clusters s !! id).
Definition put_cluster (s : Server) (id : string) (cs : clusterState) : Server :=
  {| sv_AdminToken := sv_AdminToken s; sv_registrationTokens := sv_registrationTokens s;
     sv_clusters := <[id := cs]> (sv_clusters s); sv_tokenIndex := sv_tokenIndex s |}.
Definition with_tokens (s : Server) (m : gmap string string) : Server :=
  {| sv_AdminToken := sv_AdminToken s; sv_registrationTokens := sv_registrationTokens s;
     sv_clusters := sv_clusters s; sv_tokenIndex := m |}.
Definition with_registrations (s : Server) (m : gmap string string) : Server :=
  {| sv_AdminToken := sv_AdminToken s; sv_registrationTokens := m; sv_clusters := sv_clusters s;
     sv_tokenIndex := sv_tokenIndex s |}.

Definition AddRegistrationToken (s : Server) (registrationToken clusterID : string) : Server :=
  with_registrations s (<[TrimSpace registrationToken := TrimSpace clusterID]> (sv_registrationTokens s)).

(** The old token of a cluster is forgotten when it gets a new one. *)
Definition retoken (s : Server) (id : string) (cs : clusterState) (token : string) (n : Z) : Server :=
  let index := if bool_decide (cs_bootstrapToken cs ≠ "")
               then delete (cs_bootstrapToken cs) (sv_tokenIndex s) else sv_tokenIndex s in
  with_tokens (put_cluster s id (with_token cs token n)) (<[token := id]> index).

Definition SetBootstrapToken (s : Server) (clusterID token : string) : Server :=
  let clusterID := TrimSpace clusterID in
  let token := TrimSpace token in
  let cs := ensureClusterLocked s clusterID in
  retoken s clusterID cs token (cs_rotationCount cs).

Definition EnqueueJob (s : Server) (clusterID : string) (job : AgentJob) : Server :=
  let cs := ensureClusterLocked s clusterID in
  put_cluster s clusterID (with_pending cs (cs_pending cs ++ [job])).

(** Selection of stored events; an empty field selects all. *)
Record EventFilter := { ef_Kind : string; ef_Namespace : string; ef_Name : string }.

Definition EventsFiltered (s : Server) (clusterID : string) (f : EventFilter) : list Event :=
  match sv_clusters s !! clusterID with
  | None => []
  | Some cs =>
      List.filter (λ e,
        let ref := ev_ResourceRef e in
        negb (bool_decide (ef_Kind f ≠ "" ∧ ar_Kind ref ≠ ef_Kind f)
              || bool_decide (ef_Namespace f ≠ "" ∧ ar_Namespace ref ≠ ef_Namespace f)
              || bool_decide (ef_Name f ≠ "" ∧ ar_Name ref ≠ ef_Name f))) (cs_events cs)
  end.

(** ** Handlers *)

Record AdminEnqueueRequest := { er_ClusterID : string; er_Job : AgentJob }.

(** What a request of an admin client carries besides: the token header and the
    body.  The agent's requests have neither. *)
Record AdminPart := { adm_token : string; adm_body : option AdminEnqueueRequest }.
Definition noAdmin : AdminPart := {| adm_token := ""; adm_body := None |}.

(** Encoding of the bodies, by encoding/json, and the order of a range. *)
Class WireLib := {
  encode_jobs : list AgentJob → string;
  encode_result : JobResult → string;
  encode_events : list Event → string;
  encode_register : string → string → string; (** cluster ID and token *)
  encode_rotate : string → string;
  encode_error : string → string → string; (** code and message *)
  (** what the server decodes from a body the client has marshalled *)
  wire_status : body → result StatusUpdate;
  wire_result : body → result JobResult;
  wire_events : body → result (list Event);
  wire_register : body → result RegisterRequest;
  wire_enqueue : AdminEnqueueRequest + body → result AdminEnqueueRequest;
  range_clusters : gmap string clusterState → list clusterState
}.

Section Handlers.
Context `{WireLib}.

Definition respond (code : Z) (status body : string) : HTTPResponse :=
  {| rs_StatusCode := code; rs_Status := status; rs_Body := body |}.
Definition noContent : HTTPResponse := respond 204 "204 No Content" "".
Definition conflictResponse : HTTPResponse := respond 409 "409 Conflict" "".
Definition ok (body : string) : HTTPResponse := respond 200 "200 OK" body.
Definition writeError (code : Z) (status what message : string) : HTTPResponse :=
  respond code status (encode_error what message).
Definition unauthorized (message : string) : HTTPResponse :=
  writeError 401 "401 Unauthorized" "Unauthorized" message.
Definition badRequest (what message : string) : HTTPResponse :=
  writeError 400 "400 Bad Request" what message.

(** [json.NewDecoder(r.Body).Decode] *)
Definition emptyBody {A} : result A := Err (errorf "EOF").
Definition decode_status (b : option body) : result StatusUpdate :=
  match b with Some b => wire_status b | None => emptyBody end.
Definition decode_result (b : option body) : result JobResult :=
  match b with Some b => wire_result b | None => emptyBody end.
Definition decode_events (b : option body) : result (list Event) :=
  match b with Some b => wire_events b | None => emptyBody end.
Definition decode_register (b : option body) : result RegisterRequest :=
  match b with Some b => wire_register b | None => emptyBody end.

Definition bearerToken (r : HTTPRequest) : string :=
  let auth := TrimSpace (rq_Authorization r) in
  if HasPrefix auth "Bearer " then TrimSpace (TrimPrefix auth "Bearer ") else "".

Definition acceptsV1 (r : HTTPRequest) : bool := Contains (rq_Accept r) "vworkspace.agent.v1".

Definition errUnauthorized : error := errorf "invalid or missing bearer token".
Definition errClusterMismatch : error := errorf "cluster query parameter does not match token".

Definition authorize (s : Server) (r : HTTPRequest) (clusterID : string) : result string :=
  let token := bearerToken r in
  if bool_decide (token = "") then Err errUnauthorized
  else match sv_tokenIndex s !! token with
       | None => Err errUnauthorized
       | Some bound =>
           if bool_decide (clusterID ≠ "" ∧ bound ≠ clusterID) then Err errClusterMismatch else Ok bound
       end.

Definition handleRegister (s : Server) (r : HTTPRequest) : HTTPResponse * Server :=
  if negb (acceptsV1 r) then
    (badRequest "UnsupportedMediaType" "Accept header must include v1 media type", s)
  else
    let regToken := bearerToken r in
    if bool_decide (regToken = "") then (unauthorized "missing bearer token", s)
    else
      match decode_register (rq_Body r) with
      | Err e => (badRequest "InvalidJSON" (emsg e), s)
      | Ok req =>
          let token := if bool_decide (TrimSpace (rr_RegistrationToken req) = "") then regToken
                       else rr_RegistrationToken req in
          let clusterID :=
            match sv_registrationTokens s !! token with
            | Some id => id
            | None =>
                let id := TrimSpace (rr_ClusterID req) in
                if bool_decide (id = "")
                then "cluster-" +:+ String.substring 0 (Nat.min 8 (String.length token)) token else id
            end in
          let cs := ensureClusterLocked s clusterID in
          let fresh := bool_decide (cs_bootstrapToken cs = "") in
          let bootstrap := if fresh then "bootstrap-" +:+ clusterID else cs_bootstrapToken cs in
          let s' := put_cluster s clusterID (with_token cs bootstrap (cs_rotationCount cs)) in
          let s' := if fresh then with_tokens s' (<[bootstrap := clusterID]> (sv_tokenIndex s')) else s' in
          (ok (encode_register clusterID bootstrap),
           with_registrations s' (delete token (sv_registrationTokens s')))
      end.

(** The round of [pollJobs] that returns: what is pending, or nothing. *)
Definition pollJobs (s : Server) (clusterID : string) : list AgentJob * Server :=
  match sv_clusters s !! clusterID with
  | Some cs => match cs_pending cs with
               | [] => ([], s)
               | jobs => (jobs, put_cluster s clusterID (with_pending cs []))
               end
  | None => ([], s)
  end.

Definition handleJobs (s : Server) (r : HTTPRequest) (query : list string) : HTTPResponse * Server :=
  let clusterID := TrimSpace (queryGet query "cluster") in
  if bool_decide (clusterID = "") then
    (badRequest "MissingCluster" "cluster query parameter is required", s)
  else
    match authorize s r clusterID with
    | Err e => (writeError 403 "403 Forbidden" "Forbidden" (emsg e), s)
    | Ok clusterID => let '(jobs, s) := pollJobs s clusterID in (ok (encode_jobs jobs), s)
    end.

Definition handleAck (s : Server) (r : HTTPRequest) (jobID : string) : HTTPResponse * Server :=
  match authorize s r "" with
  | Err e => (unauthorized (emsg e), s)
  | Ok clusterID =>
      let cs := ensureClusterLocked s clusterID in
      match cs_results cs !! jobID with
      | Some _ => (conflictResponse, put_cluster s clusterID cs)
      | None => (noContent, put_cluster s clusterID (with_acked cs ({[ jobID ]} ∪ cs_acked cs)))
      end
  end.

Definition handleStatus (s : Server) (r : HTTPRequest) (jobID : string) : HTTPResponse * Server :=
  match authorize s r "" with
  | Err e => (unauthorized (emsg e), s)
  | Ok clusterID =>
      match decode_status (rq_Body r) with
      | Err e => (badRequest "InvalidJSON" (emsg e), s)
      | Ok u =>
          let cs := ensureClusterLocked s clusterID in
          let before := default [] (cs_statuses cs !! jobID) in
          (noContent, put_cluster s clusterID (with_statuses cs (<[jobID := before ++ [u]]> (cs_statuses cs))))
      end
  end.

Definition handleResult (s : Server) (r : HTTPRequest) (jobID : string) : HTTPResponse * Server :=
  match authorize s r "" with
  | Err e => (unauthorized (emsg e), s)
  | Ok clusterID =>
      match decode_result (rq_Body r) with
      | Err e => (badRequest "InvalidJSON" (emsg e), s)
      | Ok result =>
          let cs := ensureClusterLocked s clusterID in
          match cs_results cs !! jobID with
          | Some _ => (conflictResponse, put_cluster s clusterID cs)
          | None => (noContent, put_cluster s clusterID (with_results cs (<[jobID := result]> (cs_results cs))))
          end
      end
  end.

(** One event: skipped when its key has been seen. *)
Definition addEvent (cs : clusterState) (event : Event) : clusterState :=
  let key := TrimSpace (ev_EventKey event) in
  if bool_decide (key = "") then with_events cs (cs_events cs ++ [event]) (cs_eventKeys cs)
  else if bool_decide (key ∈ cs_eventKeys cs) then cs
  else with_events cs (cs_events cs ++ [event]) ({[ key ]} ∪ cs_eventKeys cs).

Definition handleEvents (s : Server) (r : HTTPRequest) : HTTPResponse * Server :=
  match authorize s r "" with
  | Err e => (unauthorized (emsg e), s)
  | Ok clusterID =>
      match decode_events (rq_Body r) with
      | Err e => (badRequest "InvalidJSON" (emsg e), s)
      | Ok events =>
          (noContent, put_cluster s clusterID (foldl addEvent (ensureClusterLocked s clusterID) events))
      end
  end.

Definition handleRotate (s : Server) (r : HTTPRequest) : HTTPResponse * Server :=
  match authorize s r "" with
  | Err e => (unauthorized (emsg e), s)
  | Ok clusterID =>
      let cs := ensureClusterLocked s clusterID in
      let n := (cs_rotationCount cs + 1)%Z in
      let token := "bootstrap-" +:+ clusterID +:+ "-rotated-" +:+ itoa n in
      (ok (encode_rotate token), retoken s clusterID cs token n)
  end.

(** *** Admin routes *)

(** The result of a job in the first cluster that has one. *)
Definition ServerJobResult (s : Server) (jobID : string) : option JobResult :=
  head (omap (λ cs, cs_results cs !! jobID) (range_clusters (sv_clusters s))).

Definition authorizeAdmin (s : Server) (adm : AdminPart) : bool :=
  bool_decide (sv_AdminToken s = "") || bool_decide (TrimSpace (adm_token adm) = sv_AdminToken s).

Definition decode_enqueue (adm : AdminPart) (b : option body) : result AdminEnqueueRequest :=
  match adm_body adm, b with
  | Some q, _ => wire_enqueue (inl q)
  | None, Some b => wire_enqueue (inr b)
  | None, None => emptyBody
  end.

Definition handleAdminEnqueue (s : Server) (adm : AdminPart) (r : HTTPRequest) : HTTPResponse * Server :=
  if negb (authorizeAdmin s adm) then (unauthorized "invalid admin token", s)
  else
    match decode_enqueue adm (rq_Body r) with
    | Err e => (badRequest "InvalidJSON" (emsg e), s)
    | Ok req =>
        if bool_decide (TrimSpace (er_ClusterID req) = "") then
          (badRequest "MissingCluster" "clusterId is required", s)
        else if bool_decide (TrimSpace (aj_ID (er_Job req)) = "") then
          (badRequest "MissingJobID" "job.id is required", s)
        else (noContent, EnqueueJob s (er_ClusterID req) (er_Job req))
    end.

Definition handleAdminEvents (s : Server) (adm : AdminPart) (query : list string) : HTTPResponse :=
  if negb (authorizeAdmin s adm) then unauthorized "missing or invalid admin token"
  else
    let get key := TrimSpace (queryGet query key) in
    if bool_decide (get "cluster" = "") then
      badRequest "MissingCluster" "cluster query parameter is required"
    else
      ok (encode_events (EventsFiltered s (get "cluster")
            {| ef_Kind := get "kind"; ef_Namespace := get "namespace"; ef_Name := get "name" |})).

Definition handleAdminJobResult (s : Server) (adm : AdminPart) (jobID : string) : HTTPResponse :=
  if negb (authorizeAdmin s adm) then unauthorized "invalid admin token"
  else match ServerJobResult s jobID with
       | None => writeError 404 "404 Not Found" "NotFound" "job result not found"
       | Some res => ok (encode_result res)
       end.

(** *** Routes *)

Definition jobsPrefix : string := "/api/agent/jobs/".
Definition adminJobsPrefix : string := "/api/admin/jobs/".

(** The routes of a job, by the last element of the path. *)
Definition jobRoute (prefix path suffix : string) : option string :=
  if HasPrefix path prefix && HasSuffix path suffix
  then Some (TrimSuffix (TrimPrefix path prefix) suffix) else None.

(** [serveHTTP], below the URL [base].  The method is compared first: the cases of
    the two methods do not mix. *)
Definition serveHTTP (base : string) (s : Server) (adm : AdminPart) (r : HTTPRequest) : HTTPResponse * Server :=
  let notFound := (writeError 404 "404 Not Found" "NotFound" "unknown endpoint", s) in
  match requestTarget base (rq_URL r) with
  | None => (respond 400 "400 Bad Request" "", s)
  | Some (path, query) =>
      if bool_decide (rq_Method r = "GET") then
        if bool_decide (path = "/healthz") then (ok "ok", s)
        else if bool_decide (path = "/api/agent/jobs") then handleJobs s r query
        else if bool_decide (path = "/api/admin/events") then (handleAdminEvents s adm query, s)
        else match jobRoute adminJobsPrefix path "/result" with
             | Some id => (handleAdminJobResult s adm id, s)
             | None => notFound
             end
      else if bool_decide (rq_Method r = "POST") then
        if bool_decide (path = "/api/agent/register") then handleRegister s r
        else match jobRoute jobsPrefix path "/ack" with
        | Some id => handleAck s r id
        | None =>
        match jobRoute jobsPrefix path "/status" with
        | Some id => handleStatus s r id
        | None =>
        match jobRoute jobsPrefix path "/result" with
        | Some id => handleResult s r id
        | None =>
            if bool_decide (path = "/api/agent/events") then handleEvents s r
            else if bool_decide (path = "/api/agent/credentials/rotate") then handleRotate s r
            else if bool_decide (path = "/api/admin/enqueue") then handleAdminEnqueue s adm r
            else notFound
        end end end
      else notFound
  end.

(** Every request reaches the server and its answer the client; what else is called
    leaves the server alone. *)
Definition control_plane (base : string) : environment wcall Server := λ X c s x s',
  match c in wcall Y return Y → Prop with
  | WHttp r => λ x, (x, s') = (Ok (serveHTTP base s noAdmin r).1, (serveHTTP base s noAdmin r).2)
  | _ => λ _, s' = s
  end x.

End Handlers.
