(* ===== verification/ControlPlaneProofs.v ===== *)
(** * The agent against the control plane

    The programs of [Agent] with the HTTP client of [HttpClient] in front of the
    server of [ControlPlane]: job IDs survive the URL, every fetched job ends with
    a recorded result, results and events are recorded once. *)

From stdpp Require Import base list strings pretty gmap.
From S2P Require Import Prelude Traces GoStrings Api Json Events Kube Agent AgentProofs HttpClient ControlPlane.

(** ** Strings *)

Lemma TrimPrefix_app p s : TrimPrefix (p +:+ s) p = s.
Proof.
  unfold TrimPrefix. rewrite HasPrefix_app. induction p as [|a p IH]; [by destruct s|]. exact IH.
Qed.

Lemma append_length s t : String.length (s +:+ t) = String.length s + String.length t.
Proof. induction s as [|a s IH]; [done|]. rewrite app_String_cons. simpl. by rewrite IH. Qed.

Lemma TrimSuffix_app s p : TrimSuffix (s +:+ p) p = s.
Proof.
  unfold TrimSuffix. rewrite HasSuffix_app, append_length, Nat.add_sub.
  induction s as [|a s IH]; [by destruct p|]. rewrite app_String_cons. simpl. by rewrite IH.
Qed.

Lemma Cut_app s c t : no_byte c s = true → Cut (s +:+ String c t) c = (s, t).
Proof.
  induction s as [|a s IH]; intros Hs.
  - rewrite app_String_nil. simpl. by rewrite bool_decide_eq_true_2.
  - apply no_byte_cons in Hs as [Ha Hs]. rewrite app_String_cons. simpl.
    by rewrite bool_decide_eq_false_2, (IH Hs).
Qed.

Lemma Cut_none s c : no_byte c s = true → Cut s c = (s, "").
Proof.
  induction s as [|a s IH]; intros Hs; [done|]. apply no_byte_cons in Hs as [Ha Hs]. simpl.
  by rewrite bool_decide_eq_false_2, (IH Hs).
Qed.

(** ** Escaping *)

(** Each byte survives its percent encoding, which uses no byte but [%] and
    upper-case hexadecimal digits. *)
Lemma percent_bytes c :
  ∃ h l n m, percent c = String (byte 37) (String h (String l "")) ∧ unhex h = Some n ∧ unhex l = Some m ∧
    byte (16 * n + m) = c ∧ unreserved h = true ∧ unreserved l = true.
Proof. destruct c as [[] [] [] [] [] [] [] []]; do 4 eexists; split_and!; reflexivity. Qed.

Lemma unescape_escape keep plus s :
  keep (byte 37) = false → (plus = true → keep (byte 43) = false) →
  unescape plus (escape keep plus s) = Some s.
Proof.
  intros Hp Hplus. induction s as [|c s IH]; [done|]. cbn [escape].
  destruct (keep c) eqn:Hk.
  - cbn [unescape]. rewrite bool_decide_eq_false_2 by congruence.
    assert (plus && bool_decide (c = byte 43) = false) as ->.
    { destruct plus; [|done]. cbn. apply bool_decide_eq_false. intros ->. by rewrite Hplus in Hk. }
    by rewrite IH.
  - destruct (plus && bool_decide (c = byte 32)) eqn:Hs.
    + apply andb_true_iff in Hs as [-> ->%bool_decide_eq_true]. cbn [unescape].
      rewrite bool_decide_eq_false_2 by done. cbn [andb]. rewrite bool_decide_eq_true_2 by done. by rewrite IH.
    + destruct (percent_bytes c) as (h & l & n & m & -> & Hh & Hl & Hc & _).
      rewrite !app_String_cons, app_String_nil. cbn [unescape].
      rewrite bool_decide_eq_true_2 by done. by rewrite Hh, Hl, IH, Hc.
Qed.

(** What is escaped contains only kept bytes, [%], digits and, for a space, [+]. *)
Lemma escape_no_byte keep plus s c :
  keep c = false → c ≠ byte 37 → unreserved c = false → (plus = true → c ≠ byte 43) →
  no_byte c (escape keep plus s) = true.
Proof.
  intros Hk Hp Hu Hplus. induction s as [|a s IH]; [by apply bool_decide_eq_true, not_elem_of_nil|].
  cbn [escape]. destruct (keep a) eqn:Ha; [apply no_byte_cons; split; [congruence|done]|].
  destruct (plus && bool_decide (a = byte 32)) eqn:Hs.
  - apply andb_true_iff in Hs as [-> _]. apply no_byte_cons. split; [|done]. intros <-. by apply Hplus.
  - destruct (percent_bytes a) as (h & l & n & m & -> & _ & _ & _ & Hh & Hl).
    rewrite !app_String_cons, app_String_nil. rewrite !no_byte_cons. split_and!; congruence.
Qed.

Lemma PathUnescape_PathEscape s : unescape false (PathEscape s) = Some s.
Proof. by apply unescape_escape. Qed.

Lemma QueryUnescape_QueryEscape s : unescape true (QueryEscape s) = Some s.
Proof. by apply unescape_escape. Qed.

Lemma unescape_app plus s t u v :
  unescape plus s = Some u → unescape plus t = Some v → unescape plus (s +:+ t) = Some (u +:+ v).
Proof.
  intros Hs Ht. revert u Hs. induction s as [s IH] using (well_founded_induction
    (well_founded_ltof _ String.length)); intros u. unfold ltof in IH.
  destruct s as [|c s]; [by intros [= <-]|]. rewrite app_String_cons. cbn [unescape].
  case_bool_decide.
  - destruct s as [|h [|l s]]; [done..|]. rewrite !app_String_cons.
    destruct (unhex h), (unhex l); try done. intros (w & Hw & ->)%fmap_Some.
    rewrite (IH s ltac:(simpl; lia) w Hw). done.
  - destruct (plus && _); intros (w & Hw & ->)%fmap_Some; by rewrite (IH s ltac:(simpl; lia) w Hw).
Qed.

(** ** Routes *)

Definition job_routes : list string := ["/ack"; "/status"; "/result"].

Lemma job_path_unescape id what :
  what ∈ job_routes →
  unescape false (jobsPrefix +:+ PathEscape id +:+ what) = Some (jobsPrefix +:+ id +:+ what).
Proof.
  intros Hw. apply unescape_app; [reflexivity|]. apply unescape_app; [apply PathUnescape_PathEscape|].
  unfold job_routes in Hw. rewrite !elem_of_cons, elem_of_nil in Hw. by destruct Hw as [->|[->|[->|[]]]].
Qed.

Lemma requestTarget_plain base path path' :
  no_byte (byte 63) path = true → unescape false path = Some path' →
  requestTarget base (base +:+ path) = Some (path', [""]).
Proof.
  intros Hq Hu. unfold requestTarget. rewrite HasPrefix_app, TrimPrefix_app, Cut_none by done. by rewrite Hu.
Qed.

Lemma job_request_target c id what :
  what ∈ job_routes →
  requestTarget (hc_baseURL c) (jobEndpoint c id what) = Some (jobsPrefix +:+ id +:+ what, [""]).
Proof.
  intros Hw. unfold jobEndpoint. fold jobsPrefix.
  apply requestTarget_plain; [|rewrite job_path_unescape by done; reflexivity].
  rewrite !no_byte_app. unfold PathEscape. rewrite escape_no_byte by done.
  unfold job_routes in Hw. rewrite !elem_of_cons, elem_of_nil in Hw.
  destruct Hw as [->|[->|[->|[]]]]; reflexivity.
Qed.

(** What the path of a job ends in is its route, whatever the ID ends in. *)
Lemma job_route_exact id what what' :
  what ∈ job_routes → what' ∈ job_routes →
  jobRoute jobsPrefix (jobsPrefix +:+ id +:+ what) what' = if decide (what' = what) then Some id else None.
Proof.
  intros Hw Hw'. unfold jobRoute. rewrite HasPrefix_app. cbn [andb]. case_decide as He.
  - subst what'. rewrite <-app_String_assoc, HasSuffix_app, app_String_assoc, TrimPrefix_app.
    by rewrite TrimSuffix_app.
  - rewrite <-app_String_assoc. unfold HasSuffix. rewrite rev_append.
    unfold job_routes in *. rewrite !elem_of_cons, elem_of_nil in Hw, Hw'.
    destruct Hw as [->|[->|[->|[]]]], Hw' as [->|[->|[->|[]]]]; try done.
Qed.

(** C28: a job ID survives its URL: for every job ID, whatever bytes it is made of
    (slashes, percent signs, question marks, the names of routes), the path that
    the server decodes from the client's URL is the one with the ID in its place,
    and it is routed to the handler that was meant, with exactly that ID, and to no
    other. *)
Theorem job_endpoint_roundtrip (c : HTTPClient) (id what : string) :
  what ∈ job_routes →
  ∃ path query, requestTarget (hc_baseURL c) (jobEndpoint c id what) = Some (path, query) ∧
    ∀ what', what' ∈ job_routes →
      jobRoute jobsPrefix path what' = if decide (what' = what) then Some id else None.
Proof.
  intros Hw. eexists _, _. split; [by apply job_request_target|]. intros what' Hw'.
  by apply job_route_exact.
Qed.

Lemma job_endpoint_roundtrip_witness :
  let c := {| hc_baseURL := "https://cp"; hc_clusterID := "c"; hc_token := "t" |} in
  ∃ path query, requestTarget "https://cp" (jobEndpoint c "../a/ack?x#%2F" "/result") = Some (path, query) ∧
    ∀ what', what' ∈ job_routes →
      jobRoute jobsPrefix path what' = if decide (what' = "/result") then Some "../a/ack?x#%2F" else None.
Proof.
  apply (job_endpoint_roundtrip {| hc_baseURL := "https://cp"; hc_clusterID := "c"; hc_token := "t" |}).
  do 2 right. left.
Defined.

(** ** The client in front of the server *)

Lemma queryGet_first k v parts :
  no_byte (byte 61) k = true → no_byte (byte 59) k = true → unescape true k = Some k →
  queryGet ((k +:+ String (byte 61) (QueryEscape v)) :: parts) k = v.
Proof.
  intros Hk Hs Hu. cbn [queryGet].
  assert (no_byte (byte 59) (QueryEscape v) = true) as Hv by by apply escape_no_byte.
  rewrite no_byte_app, Hs, (proj2 (no_byte_cons _ _ _)) by done. rewrite Cut_app by done.
  by rewrite Hu, QueryUnescape_QueryEscape, bool_decide_eq_true_2.
Qed.

Lemma jobs_request_target base id wait :
  requestTarget base (base +:+ "/api/agent/jobs?" +:+ "cluster=" +:+ QueryEscape id +:+ "&wait=" +:+ QueryEscape wait)
  = Some ("/api/agent/jobs", ["cluster=" +:+ QueryEscape id; "wait=" +:+ QueryEscape wait]).
Proof.
  assert (Hno : ∀ s, no_byte (byte 38) (QueryEscape s) = true) by (intros s; by apply escape_no_byte).
  unfold requestTarget. rewrite HasPrefix_app, TrimPrefix_app.
  change ("/api/agent/jobs?" +:+ ?s) with ("/api/agent/jobs" +:+ String (byte 63) s).
  rewrite Cut_app by done. change (unescape false "/api/agent/jobs") with (Some "/api/agent/jobs"). cbn beta match.
  rewrite <-app_String_assoc.
  change ("&wait=" +:+ ?s) with (String (byte 38) ("wait=" +:+ s)).
  rewrite Split_join by (rewrite no_byte_app, Hno; reflexivity).
  rewrite Split_none by (rewrite no_byte_app, Hno; reflexivity). done.
Qed.

(** A client whose token the server knows as the cluster's. *)
Record bound (c : HTTPClient) (s : Server) : Prop := {
  bound_token : sv_tokenIndex s !! hc_token c = Some (hc_clusterID c);
  bound_bearer b : bearerToken (requestFor (hc_token c) b "" None) = hc_token c;
  bound_nonempty : hc_token c ≠ "";
  bound_cluster : TrimSpace (hc_clusterID c) = hc_clusterID c ∧ hc_clusterID c ≠ ""
}.

(** The address of a poll. *)
Definition jobsEndpoint (c : HTTPClient) (wait : Z) : string :=
  hc_baseURL c +:+ "/api/agent/jobs?" +:+ "cluster=" +:+ QueryEscape (hc_clusterID c) +:+
  "&wait=" +:+ QueryEscape (itoa wait).

(** The laws of the encodings, and that the addresses the client builds parse: they
    extend its base URL by constants and escaped segments.  [encodable] jobs are those
    that encoding/json carries unchanged (valid UTF-8, a payload that is JSON). *)
Class WireLaws `{HttpLib} `{WireLib} (c : HTTPClient) := {
  encodable : AgentJob → Prop;
  law_jobs jobs : Forall encodable jobs → decode_jobs (encode_jobs jobs) = Ok jobs;
  law_result r : ∃ r', wire_result (BResult r) = Ok r';
  law_job_url id what : what ∈ job_routes → url_error (jobEndpoint c id what) = None;
  law_jobs_url wait : url_error (jobsEndpoint c wait) = None
}.

Section Client.
Context `{HttpLib} `{WireLib} (c : HTTPClient) `{!WireLaws c}.

(** The cluster's part of the server's state. *)
Definition mine (s : Server) : clusterState := ensureClusterLocked s (hc_clusterID c).

Lemma mine_put s cs : mine (put_cluster s (hc_clusterID c) cs) = cs.
Proof. unfold mine, ensureClusterLocked, put_cluster. cbn. by rewrite lookup_insert_eq. Qed.

Lemma bound_put s id cs : bound c s → bound c (put_cluster s id cs).
Proof. by intros []. Qed.

Lemma authorize_bound s method url b want :
  bound c s → want = "" ∨ want = hc_clusterID c →
  authorize s (requestFor (hc_token c) method url b) want = Ok (hc_clusterID c).
Proof.
  intros [Ht Hb Hn _] Hw. unfold authorize.
  change (bearerToken (requestFor (hc_token c) method url b)) with (bearerToken (requestFor (hc_token c) "" "" None)).
  rewrite Hb, bool_decide_eq_false_2, Ht by done. rewrite bool_decide_eq_false_2; [done|].
  destruct Hw as [-> | ->]; tauto.
Qed.

Local Notation wpc p Q s := (wp (control_plane (hc_baseURL c)) anything p Q s).

(** One request and its answer. *)
Lemma wp_http_do method endpoint b Q s :
  url_error endpoint = None →
  Q (Ok (serveHTTP (hc_baseURL c) s noAdmin (requestFor (hc_token c) method endpoint b)).1)
    (serveHTTP (hc_baseURL c) s noAdmin (requestFor (hc_token c) method endpoint b)).2 →
  wpc (http_do c method endpoint b) Q s.
Proof.
  intros Hu HQ. unfold http_do. rewrite Hu. apply wp_vis; [done|]. by intros x s' [= -> ->].
Qed.

Lemma serve_job s id what b :
  what ∈ job_routes →
  serveHTTP (hc_baseURL c) s noAdmin (requestFor (hc_token c) "POST" (jobEndpoint c id what) b) =
    let r := requestFor (hc_token c) "POST" (jobEndpoint c id what) b in
    if decide (what = "/ack") then handleAck s r id
    else if decide (what = "/status") then handleStatus s r id
    else handleResult s r id.
Proof.
  intros Hw. unfold serveHTTP. cbn [rq_URL requestFor]. rewrite job_request_target by done.
  cbn [rq_Method requestFor]. rewrite bool_decide_eq_false_2, bool_decide_eq_true_2 by done.
  rewrite bool_decide_eq_false_2 by (by destruct id).
  rewrite !job_route_exact by (done || set_solver). unfold job_routes in Hw.
  rewrite !elem_of_cons, elem_of_nil in Hw. destruct Hw as [->|[->|[->|[]]]]; reflexivity.
Qed.

Lemma ack_effect s id :
  bound c s →
  wpc (AckJob c id) (λ r s', r = Ok tt ∧ bound c s' ∧ cs_results (mine s') = cs_results (mine s) ∧
    cs_pending (mine s') = cs_pending (mine s) ∧ (id ∈ cs_acked (mine s') ∨ is_Some (cs_results (mine s) !! id))) s.
Proof.
  intros Hb. apply wp_bind, wp_http_do; [apply law_job_url; set_solver|]. rewrite serve_job by set_solver. cbn zeta.
  rewrite decide_True by done. unfold handleAck. rewrite authorize_bound by auto. fold (mine s).
  destruct (cs_results (mine s) !! id) eqn:Hr; cbn; rewrite mine_put; (split_and!; [done|by apply bound_put|done..|]).
  - right. by eexists.
  - left. set_solver.
Qed.

Lemma result_effect s id res :
  bound c s →
  wpc (ReportResult c id res) (λ r s', r = Ok tt ∧ bound c s' ∧ cs_pending (mine s') = cs_pending (mine s) ∧
    cs_results (mine s') = match cs_results (mine s) !! id with
                           | Some _ => cs_results (mine s)
                           | None => match wire_result (BResult res) with
                                     | Ok res => <[id := res]> (cs_results (mine s))
                                     | Err _ => cs_results (mine s)
                                     end
                           end) s.
Proof.
  intros Hb. apply wp_bind, wp_http_do; [apply law_job_url; set_solver|]. rewrite serve_job by set_solver. cbn zeta.
  rewrite !decide_False by done. unfold handleResult. rewrite authorize_bound by auto.
  cbn [rq_Body requestFor decode_result]. destruct (law_result res) as [res' ->]. fold (mine s).
  destruct (cs_results (mine s) !! id) eqn:Hr; cbn; rewrite mine_put; (split_and!; [done|by apply bound_put|done..]).
Qed.

Lemma serve_poll s wait :
  let r := requestFor (hc_token c) "GET" (jobsEndpoint c wait) None in
  serveHTTP (hc_baseURL c) s noAdmin r =
    handleJobs s r ["cluster=" +:+ QueryEscape (hc_clusterID c); "wait=" +:+ QueryEscape (itoa wait)].
Proof.
  cbn zeta. unfold serveHTTP. cbn [rq_URL requestFor]. unfold jobsEndpoint. rewrite jobs_request_target.
  cbn [rq_Method requestFor]. rewrite bool_decide_eq_true_2 by done.
  rewrite bool_decide_eq_false_2 by done. by rewrite bool_decide_eq_true_2.
Qed.

Lemma serve_jobs s wait :
  bound c s →
  serveHTTP (hc_baseURL c) s noAdmin (requestFor (hc_token c) "GET" (jobsEndpoint c wait) None) =
    let '(jobs, s') := pollJobs s (hc_clusterID c) in (ok (encode_jobs jobs), s').
Proof.
  intros Hb. pose proof Hb as [_ _ _ [Htrim Hne]]. rewrite serve_poll.
  unfold handleJobs. change ("cluster=" +:+ ?s) with ("cluster" +:+ String (byte 61) s).
  rewrite queryGet_first by done. rewrite Htrim, bool_decide_eq_false_2 by done.
  by rewrite authorize_bound by auto.
Qed.

Lemma fetch_effect s wait :
  bound c s → Forall encodable (cs_pending (mine s)) →
  wpc (FetchJobs c wait) (λ r s', r = Ok (cs_pending (mine s)) ∧ bound c s' ∧ cs_pending (mine s') = [] ∧
    cs_results (mine s') = cs_results (mine s)) s.
Proof.
  intros Hb Henc. unfold FetchJobs. fold (jobsEndpoint c wait). apply wp_bind, wp_http_do; [apply law_jobs_url|].
  rewrite serve_jobs by done. revert Henc. unfold pollJobs, mine, ensureClusterLocked.
  destruct (sv_clusters s !! hc_clusterID c) as [cs|] eqn:Hcs; cbn [default].
  - destruct (cs_pending cs) as [|j l] eqn:Hp; cbn -[decode_jobs encode_jobs bool_decide];
      intros Henc; rewrite law_jobs, bool_decide_eq_true_2 by (done || by rewrite Hp in Henc).
    + rewrite Hcs. cbn. rewrite Hp. done.
    + rewrite lookup_insert_eq. cbn. rewrite Hp. split_and!; [done|by apply bound_put|done..].
  - cbn -[decode_jobs encode_jobs bool_decide]. intros _. rewrite law_jobs, bool_decide_eq_true_2, Hcs by done. done.
Qed.
End Client.

(** ** The poller against the control plane *)

Section Poller.
Context `{HttpLib} `{WireLib} `{JsonSyntax} `{KubeLib} `{AgentLib} (c : HTTPClient) `{!WireLaws c}.

(** Jobs are enqueued at any moment. *)
Inductive enqueue : Server → Server → Prop :=
| enqueue_job s id job : encodable job → enqueue s (EnqueueJob s id job).

(** The calls of the job protocol go through the client to the server; the
    Kubernetes API, the clock and the timer answer anything. *)
Definition through {X} (p : prog wcall X) (s : Server) (x : X) (s' : Server) : Prop :=
  runs (control_plane (hc_baseURL c)) p s x s'.

Definition agent_side : environment acall Server := λ X k s x s',
  ∃ s1, rtc enqueue s s1 ∧
    match k in acall Y return Y → Prop with
    | AFetchJobs wait => λ x, through (FetchJobs c wait) s1 x s'
    | AAckJob id => λ x, through (AckJob c id) s1 x s'
    | AReportResult id res => λ x, through (ReportResult c id res) s1 x s'
    | _ => λ _, s' = s1
    end x.

Local Notation results s := (cs_results (mine c s)).
Local Notation waiting s := (cs_pending (mine c s)).

(** The server knows the client, and its jobs can be sent. *)
Definition serving (s : Server) : Prop := bound c s ∧ Forall encodable (waiting s).

(** The client stays known, and what is recorded stays as it is. *)
Definition later (s s' : Server) : Prop :=
  (serving s → serving s') ∧ ∀ id res, results s !! id = Some res → results s' !! id = Some res.

#[local] Instance later_preorder : PreOrder later.
Proof.
  split; [done|]. intros s1 s2 s3 [Hb1 Hr1] [Hb2 Hr2]. split; auto.
Qed.

Lemma enqueue_later s s' : rtc enqueue s s' → later s s' ∧ waiting s ⊆ waiting s'.
Proof.
  induction 1 as [s|s s1 s2 [s' id job Hjob] _ [IH1 IH2]]; [done|].
  assert (Hm : results (EnqueueJob s' id job) = results s' ∧ waiting s' ⊆ waiting (EnqueueJob s' id job) ∧
               (Forall encodable (waiting s') → Forall encodable (waiting (EnqueueJob s' id job)))).
  { unfold EnqueueJob, mine, ensureClusterLocked, put_cluster. cbn [sv_clusters].
    destruct (decide (id = hc_clusterID c)) as [->|Hne].
    - rewrite lookup_insert_eq. cbn. split_and!; [done|set_solver|]. intros Hf. by apply Forall_app_2, Forall_singleton.
    - by rewrite lookup_insert_ne. }
  destruct Hm as (Hm & Hw & Hf). split.
  - etrans; [|exact IH1]. split; [intros [[] ?]; split; [done|by apply Hf]|]. by rewrite Hm.
  - by etrans.
Qed.

(** What an answered call has done. *)
Lemma agent_side_step X (k : acall X) s x s' :
  serving s → agent_side X k s x s' →
  later s s' ∧ serving s' ∧
  match k in acall Y return Y → Prop with
  | AFetchJobs _ => λ x, ∃ jobs, x = Ok jobs ∧ waiting s ⊆ jobs
  | AAckJob id => λ x, x = Ok tt
  | AReportResult id res => λ x, x = Ok tt ∧ is_Some (results s' !! id)
  | _ => λ _, True
  end x.
Proof.
  intros Hb (s1 & He & Hx). destruct (enqueue_later _ _ He) as [Hl Hw].
  assert (Hs1 : serving s1) by by apply Hl. pose proof Hs1 as [Hb1 Henc].
  destruct k; try (subst s'; by split_and!).
  - destruct (wp_runs _ _ _ _ _ _ _ (fetch_effect c s1 _ Hb1 Henc) Hx) as (-> & Hb' & Hp & Hr).
    assert (serving s') by (split; [done|by rewrite Hp]).
    split_and!; [etrans; [done|]; split; [done|by rewrite Hr]|done|eauto].
  - destruct (wp_runs _ _ _ _ _ _ _ (ack_effect c s1 _ Hb1) Hx) as (-> & Hb' & Hr & Hp & _).
    assert (serving s') by (split; [done|by rewrite Hp]).
    split_and!; [etrans; [done|]; split; [done|by rewrite Hr]|done..].
  - destruct (wp_runs _ _ _ _ _ _ _ (result_effect c s1 _ _ Hb1) Hx) as (-> & Hb' & Hp & Hr).
    assert (serving s') by (split; [done|by rewrite Hp]).
    destruct (law_result r) as [stored Hres]. rewrite Hres in Hr. split_and!; [|done|done|].
    + etrans; [done|]. split; [done|]. intros id' res' Hid. rewrite Hr.
      destruct (results s1 !! id) eqn:Hid1; [done|]. rewrite lookup_insert_ne; [done|congruence].
    + rewrite Hr. destruct (results s1 !! id) eqn:Hid1; [by eexists|]. rewrite lookup_insert_eq. by eexists.
Qed.

Local Notation wpa p Q s := (wp agent_side anything p Q s).
Local Notation onward s := (λ s', serving s' ∧ later s s').

(** Whatever a program does, time goes on. *)
Lemma onward_any {A} (p : prog acall A) s : serving s → wpa p (λ _, onward s) s.
Proof.
  intros Hb. assert (Hgen : ∀ s1, onward s s1 → wpa p (λ _, onward s) s1); [|by apply Hgen].
  induction p as [a|X k f IH]; intros s1 [Hb1 Hl1]; [done|]. split; [done|]. intros x s2 Hx.
  destruct (agent_side_step _ _ _ _ _ Hb1 Hx) as (Hl & Hb2 & _). apply IH. split; [done|by etrans].
Qed.

Lemma report_recorded {A} id res (f : result unit → A) s :
  serving s →
  wpa (prog_bind (λ r, Ret (f r)) (call (AReportResult id res)))
    (λ _ s', onward s s' ∧ is_Some (results s' !! id)) s.
Proof.
  intros Hb. apply wp_vis; [done|]. intros x s' Hx.
  by destruct (agent_side_step _ _ _ _ _ Hb Hx) as (Hl & Hb' & _ & Hr).
Qed.

Lemma processJob_recorded a job s :
  serving s → wpa (processJob a job) (λ _ s', onward s s' ∧ is_Some (results s' !! aj_ID job)) s.
Proof.
  intros Hb. apply wp_vis; [done|]. intros x s1 Hx.
  destruct (agent_side_step _ _ _ _ _ Hb Hx) as (Hl1 & Hb1 & ->). cbn beta match.
  apply wp_bind. eapply wp_mono; [|by apply onward_any]. intros [[o|e] a'] s2 [Hb2 Hl2].
  - eapply wp_mono; [|by apply report_recorded]. intros ? s3 [[Hb3 Hl3] Hr].
    split_and!; [done| |done]. by do 2 (etrans; [done|]).
  - apply wp_vis; [done|]. intros now s3 Hnow.
    destruct (agent_side_step _ _ _ _ _ Hb2 Hnow) as (Hl3 & Hb3 & _).
    eapply wp_mono; [|by apply report_recorded]. intros ? s4 [[Hb4 Hl4] Hr].
    split_and!; [done| |done]. by do 3 (etrans; [done|]).
Qed.

Lemma processJobs_recorded jobs a s :
  serving s →
  wpa (processJobs a jobs) (λ _ s', onward s s' ∧ ∀ job, job ∈ jobs → is_Some (results s' !! aj_ID job)) s.
Proof.
  revert a s. induction jobs as [|job jobs IH]; intros a s Hb; cbn [processJobs].
  { split; [done|]. set_solver. }
  apply wp_bind. eapply wp_mono; [|by apply processJob_recorded]. intros [r a'] s1 [[Hb1 Hl1] [res Hres]].
  apply wp_bind. eapply wp_mono; [|by apply IH]. intros [first a2] s2 [[Hb2 Hl2] Hall]. cbn.
  split_and!; [done|by etrans|]. intros j. rewrite elem_of_cons. intros [-> |Hj]; [|by apply Hall].
  exists res. by apply Hl2.
Qed.

(** Every call is answered, so that every program runs to its end. *)
Lemma control_plane_answers base X (k : wcall X) s : ∃ x s', control_plane base X k s x s'.
Proof.
  destruct k as [| |req| | | | | | | | | | | | |]; try (by exists (Err (errorf "refused")), s); try (by exists tt, s).
  - by exists 0%Z, s.
  - by exists "", s.
  - by exists (Ok (serveHTTP base s noAdmin req).1), (serveHTTP base s noAdmin req).2.
  - by exists (false, 0%Z), s.
Qed.

(** The control plane, and a clock that moves. *)
Definition on_clock : environment acall (Server * Z) := both agent_side clock.

Lemma on_clock_answers X (k : acall X) w : ∃ x w', on_clock X k w x w'.
Proof.
  assert (Hrun : ∀ Y (p : prog wcall Y), ∃ x s', through p w.1 x s').
  { intros Y p. apply runs_total. intros. apply control_plane_answers. }
  assert (Hsame : ∀ Y (k : acall Y) x, match k in acall Y return Y → Prop with
      | AFetchJobs _ | AAckJob _ | AReportResult _ _ => λ _, False
      | ANow => λ now, now = w.2 | ASleep _ => λ cancelled, cancelled = true | _ => λ _, True end x →
    ∃ x w', on_clock Y k w x w').
  { intros Y q x Hx. exists x, w. split; [|split; [lia|]]; destruct q; try done; try (by exists w.1). cbn in Hx. by subst. }
  destruct k; try (by apply (Hsame _ _ (Err (errorf "refused")))).
  - by apply (Hsame _ _ w.2).
  - by apply (Hsame _ _ true).
  - destruct (Hrun _ (FetchJobs c waitSeconds)) as (x & s' & Hx). exists x, (s', w.2). split; [by exists w.1|by split].
  - destruct (Hrun _ (AckJob c id)) as (x & s' & Hx). exists x, (s', w.2). split; [by exists w.1|by split].
  - destruct (Hrun _ (ReportResult c id r)) as (x & s' & Hx). exists x, (s', w.2). split; [by exists w.1|by split].
Qed.

(** C27: every job the control plane hands out is answered: with a token the control
    plane knows, a connection that delivers requests and answers, and a clock that
    does not stand still during a sleep, one round of the poller ends, and it ends
    with a recorded result for each job that was pending when it started, whatever
    the Kubernetes API answers, whatever the jobs ask for, and while further jobs are
    enqueued at any moment.  In particular no wait for a backup location goes on
    beyond the rounds that the model writes out.  A result that is recorded is never
    replaced, so that a job that is reported again keeps its first result. *)
Theorem fetched_jobs_answered (a : Applier) (s : Server) (t : Z) :
  serving s →
  (∃ x w', runs on_clock (PollOnce a) (s, t) x w') ∧
  wp on_clock spelled_out (PollOnce a)
    (λ _ w', (∀ job, job ∈ cs_pending (mine c s) → is_Some (cs_results (mine c w'.1) !! aj_ID job)) ∧
             (∀ id res, cs_results (mine c s) !! id = Some res → cs_results (mine c w'.1) !! id = Some res)) (s, t).
Proof.
  intros Hb. split; [apply runs_total, on_clock_answers|].
  eapply wp_mono; [|apply (wp_both_may agent_side clock spelled_out _
    (λ _ s', (∀ job, job ∈ waiting s → is_Some (results s' !! aj_ID job)) ∧
             (∀ id res, results s !! id = Some res → results s' !! id = Some res))); [|apply PollOnce_clock]].
  { intros x w' [HQ _]. exact HQ. }
  apply wp_vis; [done|]. intros x s1 Hx.
  destruct (agent_side_step _ _ _ _ _ Hb Hx) as (Hl1 & Hb1 & jobs & -> & Hsub). cbn beta match.
  apply wp_bind. eapply wp_mono; [|by apply processJobs_recorded].
  intros [first a'] s2 [[_ Hl2] Hall]. cbn. split; [set_solver|]. intros id res Hr. by apply Hl2, Hl1.
Qed.
End Poller.

(** ** The control plane's own state *)

(** The keys of stored events. *)
Definition stored_keys (events : list Event) : list string :=
  filter (λ k, k ≠ "") ((λ e, TrimSpace (ev_EventKey e)) <$> events).

Record stored_once (cs : clusterState) : Prop := {
  stored_NoDup : NoDup (stored_keys (cs_events cs));
  stored_seen k : k ∈ cs_eventKeys cs ↔ k ∈ stored_keys (cs_events cs)
}.

Lemma addEvent_once cs e : stored_once cs → stored_once (addEvent cs e).
Proof.
  intros [Hn Hs]. unfold addEvent. set (key := TrimSpace (ev_EventKey e)).
  assert (Hk : stored_keys (cs_events cs ++ [e]) =
               stored_keys (cs_events cs) ++ if bool_decide (key = "") then [] else [key]).
  { unfold stored_keys. rewrite fmap_app, filter_app. cbn [fmap list_fmap]. fold key. case_bool_decide as He.
    - by rewrite filter_cons_False by tauto.
    - by rewrite filter_cons_True. }
  case_bool_decide as He; [|case_bool_decide as Hseen; [done|]].
  - split; cbn [with_events cs_events cs_eventKeys]; rewrite Hk, app_nil_r; done.
  - split; cbn [with_events cs_events cs_eventKeys]; rewrite Hk.
    + apply NoDup_app. split_and!; [done| |apply NoDup_singleton].
      intros k Hin ->%list_elem_of_singleton. by apply Hseen, Hs.
    + intros k. rewrite elem_of_app, list_elem_of_singleton, <-Hs. set_solver.
Qed.

Lemma addEvents_once cs events : stored_once cs → stored_once (foldl addEvent cs events).
Proof. revert cs. induction events as [|e l IH]; intros cs Hcs; [done|]. by apply IH, addEvent_once. Qed.

(** Only [addEvent] touches the events of a cluster, only a rotation its token. *)
Lemma addEvents_token cs events : cs_bootstrapToken (foldl addEvent cs events) = cs_bootstrapToken cs.
Proof.
  revert cs. induction events as [|e l IH]; intros cs; [done|]. cbn [foldl]. rewrite IH. unfold addEvent.
  by repeat case_bool_decide.
Qed.

(** Events are stored once per key, and the tokens that are accepted are the clusters' own. *)
Record consistent (s : Server) : Prop := {
  consistent_events id : stored_once (ensureClusterLocked s id);
  consistent_tokens t id :
    t ≠ "" → sv_tokenIndex s !! t = Some id → cs_bootstrapToken (ensureClusterLocked s id) = t
}.

Lemma ensure_put s id id' cs :
  ensureClusterLocked (put_cluster s id cs) id' = if decide (id = id') then cs else ensureClusterLocked s id'.
Proof.
  unfold ensureClusterLocked, put_cluster. cbn [sv_clusters]. case_decide; subst.
  - by rewrite lookup_insert_eq.
  - by rewrite lookup_insert_ne.
Qed.

Lemma consistent_new : consistent NewServer.
Proof.
  split; [|by intros t id _; cbn; rewrite lookup_empty]. intros id.
  unfold ensureClusterLocked. cbn. rewrite lookup_empty. split; [apply NoDup_nil_2|]. set_solver.
Qed.

Lemma consistent_put s id cs :
  consistent s → stored_once cs → cs_bootstrapToken cs = cs_bootstrapToken (ensureClusterLocked s id) →
  consistent (put_cluster s id cs).
Proof.
  intros [He Ht] Hcs Htok. split; [intros id'|intros t id' Hne Hix]; rewrite ensure_put; case_decide; subst; auto.
  rewrite Htok. by apply Ht.
Qed.

(** A cluster gets a token; the one it had is forgotten. *)
Lemma consistent_retoken s id token n :
  consistent s → consistent (retoken s id (ensureClusterLocked s id) token n).
Proof.
  intros [He Ht]. unfold retoken. set (ix := if bool_decide _ then _ else _).
  split; [intros id'|intros t id' Hne]; change (ensureClusterLocked (with_tokens ?s _)) with (ensureClusterLocked s);
    rewrite ensure_put; destruct (decide (id = id')) as [<-|Hid]; [by destruct (He id)|apply He|..];
    cbn [sv_tokenIndex with_tokens]; subst ix.
  - intros [[<- _]|[Hnt Hix]]%lookup_insert_Some; [done|]. exfalso. case_bool_decide as Hold.
    + apply lookup_delete_Some in Hix as [Hd Hix]. by apply Hd, Ht.
    + apply Hne. by rewrite <-(Ht t id Hne Hix).
  - intros [[_ ->]|[_ Hix]]%lookup_insert_Some; [done|]. apply Ht; [done|].
    case_bool_decide; [|done]. by apply lookup_delete_Some in Hix as [_ ?].
Qed.

(** A request, or a call of the test helpers. *)
Inductive server_step `{WireLib} (base : string) : Server → Server → Prop :=
| step_request s adm r : server_step base s (serveHTTP base s adm r).2
| step_enqueue s id job : server_step base s (EnqueueJob s id job)
| step_token s id token : server_step base s (SetBootstrapToken s id token)
| step_registration s token id : server_step base s (AddRegistrationToken s token id).

Section Consistent.
Context `{WireLib}.

Lemma consistent_same s s' :
  sv_clusters s' = sv_clusters s → sv_tokenIndex s' = sv_tokenIndex s → consistent s → consistent s'.
Proof.
  intros Hc Ht [He Hi]. split; [intros id|intros t id]; unfold ensureClusterLocked; rewrite Hc, ?Ht.
  - apply He.
  - apply Hi.
Qed.

(** A part of a cluster that is neither its token nor its events. *)
Lemma consistent_part s id f :
  consistent s →
  (∀ cs, cs_bootstrapToken (f cs) = cs_bootstrapToken cs ∧ cs_events (f cs) = cs_events cs ∧
         cs_eventKeys (f cs) = cs_eventKeys cs) →
  consistent (put_cluster s id (f (ensureClusterLocked s id))).
Proof.
  intros Hs Hf. destruct (Hf (ensureClusterLocked s id)) as (Ht & He & Hk). apply consistent_put; [done| |done].
  destruct (consistent_events s Hs id) as [Hn Hseen]. split; rewrite ?He, ?Hk; done.
Qed.

Ltac part f := apply (consistent_part _ _ f); [done|by intros []].

Lemma consistent_register s r : consistent s → consistent (handleRegister s r).2.
Proof.
  intros Hs. unfold handleRegister. destruct (negb _); [done|]. case_bool_decide; [done|].
  destruct (decode_register _) as [req|e]; [|done]. cbn zeta. cbn [snd].
  set (id := match sv_registrationTokens s !! _ with Some id => id | None => _ end).
  destruct (bool_decide (cs_bootstrapToken (ensureClusterLocked s id) = "")) eqn:Hfresh.
  - apply bool_decide_eq_true in Hfresh.
    pose proof (consistent_retoken s id ("bootstrap-" +:+ id) (cs_rotationCount (ensureClusterLocked s id)) Hs) as Hr.
    unfold retoken in Hr. rewrite bool_decide_eq_false_2 in Hr by (rewrite Hfresh; tauto).
    by eapply consistent_same; [| |exact Hr].
  - eapply consistent_same; cycle 2;
      [apply (consistent_part s id (λ cs, with_token cs (cs_bootstrapToken cs) (cs_rotationCount cs)));
         [done|by intros []]|done..].
Qed.

Lemma consistent_jobs s r query : consistent s → consistent (handleJobs s r query).2.
Proof.
  intros Hs. unfold handleJobs. case_bool_decide; [done|]. destruct (authorize _ _ _) as [id|e]; [|done].
  unfold pollJobs. destruct (sv_clusters s !! id) as [cs|] eqn:Hcs; [|done].
  assert (cs = ensureClusterLocked s id) as -> by (unfold ensureClusterLocked; by rewrite Hcs).
  destruct (cs_pending _); [done|]. cbn [snd]. part (λ cs, with_pending cs []).
Qed.

Lemma consistent_job_routes s r id :
  consistent s →
  consistent (handleAck s r id).2 ∧ consistent (handleStatus s r id).2 ∧ consistent (handleResult s r id).2.
Proof.
  intros Hs. unfold handleAck, handleStatus, handleResult. destruct (authorize _ _ _) as [cl|e]; [|done].
  split_and!.
  - destruct (cs_results _ !! id); cbn [snd]; [part (λ cs : clusterState, cs)|].
    part (λ cs, with_acked cs ({[ id ]} ∪ cs_acked cs)).
  - destruct (decode_status _) as [u|e]; [|done]. cbn [snd].
    part (λ cs, with_statuses cs (<[id := default [] (cs_statuses cs !! id) ++ [u]]> (cs_statuses cs))).
  - destruct (decode_result _) as [res|e]; [|done].
    destruct (cs_results _ !! id); cbn [snd]; [part (λ cs : clusterState, cs)|].
    part (λ cs, with_results cs (<[id := res]> (cs_results cs))).
Qed.

Lemma consistent_post_events s r : consistent s → consistent (handleEvents s r).2.
Proof.
  intros Hs. unfold handleEvents. destruct (authorize _ _ _) as [cl|e]; [|done].
  destruct (decode_events _) as [l|e]; [|done]. apply consistent_put; [done| |apply addEvents_token].
  by apply addEvents_once, consistent_events.
Qed.

Lemma consistent_rotate s r : consistent s → consistent (handleRotate s r).2.
Proof.
  intros Hs. unfold handleRotate. destruct (authorize _ _ _) as [cl|e]; [|done]. by apply consistent_retoken.
Qed.

Lemma consistent_enqueue s id job : consistent s → consistent (EnqueueJob s id job).
Proof. intros Hs. part (λ cs, with_pending cs (cs_pending cs ++ [job])). Qed.

Lemma consistent_admin_enqueue s adm r : consistent s → consistent (handleAdminEnqueue s adm r).2.
Proof.
  intros Hs. unfold handleAdminEnqueue. destruct (negb _); [done|]. destruct (decode_enqueue _ _); [|done].
  repeat case_bool_decide; try done. by apply consistent_enqueue.
Qed.

Lemma consistent_serve base s adm r : consistent s → consistent (serveHTTP base s adm r).2.
Proof.
  intros Hs. unfold serveHTTP. destruct (requestTarget _ _) as [[path query]|]; [|done].
  repeat case_bool_decide; try done; auto using consistent_jobs, consistent_register.
  all: repeat case_match; try done; auto using consistent_post_events, consistent_rotate, consistent_admin_enqueue.
  all: by apply consistent_job_routes.
Qed.

Lemma consistent_step base s s' : server_step base s s' → consistent s → consistent s'.
Proof.
  intros [] Hs.
  - by apply consistent_serve.
  - by apply consistent_enqueue.
  - by apply consistent_retoken.
  - by eapply consistent_same; [| |exact Hs].
Qed.

(** The control plane the agent is tested against keeps its books: whatever
    requests, from whomever, and whatever calls of the test helpers it gets, a
    cluster's events are stored once per event key, so that a retried batch adds
    nothing, and a request is accepted for a cluster only with the token the cluster
    has now, so that a rotated token is refused. *)
Theorem control_plane_consistent (base : string) (s : Server) :
  rtc (server_step base) NewServer s →
  (∀ id, NoDup (stored_keys (cs_events (ensureClusterLocked s id)))) ∧
  (∀ r want id, authorize s r want = Ok id → bearerToken r = cs_bootstrapToken (ensureClusterLocked s id)).
Proof.
  intros Hr. assert (Hs : consistent s).
  { revert Hr. apply (rtc_ind_r consistent); [apply consistent_new|]. intros s1 s2 _ Hst. by apply (consistent_step base). }
  split; [intros id; apply (consistent_events s Hs id)|]. intros r want id. unfold authorize.
  case_bool_decide as Hne; [done|]. destruct (sv_tokenIndex s !! bearerToken r) as [cl|] eqn:Hix; [|done].
  case_bool_decide; [done|]. intros [= <-]. symmetry. by apply (consistent_tokens s Hs).
Qed.

(** A registration token the server has never seen, or has already taken, is
    exchanged as well: naming a cluster is enough to get its token. *)
Lemma unknown_token_registers s token id cs :
  let q := {| rr_RegistrationToken := token; rr_ClusterID := id; rr_DisplayName := "" |} in
  let req := requestFor token "POST" "" (Some (BRegister q)) in
  bearerToken req = token → TrimSpace token = token → token ≠ "" → TrimSpace id = id → id ≠ "" →
  wire_register (BRegister q) = Ok q →
  sv_registrationTokens s !! token = None → sv_clusters s !! id = Some cs → cs_bootstrapToken cs ≠ "" →
  (handleRegister s req).1 = ok (encode_register id (cs_bootstrapToken cs)).
Proof.
  intros q req Hb Ht Hne Hid Hide Hq Hs Hcl Hcs. unfold handleRegister. change (acceptsV1 req) with true.
  cbn [negb]. rewrite Hb, bool_decide_eq_false_2 by done. cbn [rq_Body req requestFor decode_register]. rewrite Hq.
  cbn [q rr_RegistrationToken rr_ClusterID]. rewrite Ht, bool_decide_eq_false_2, Hs by done. cbn zeta.
  rewrite Hid, (bool_decide_eq_false_2 (id = "")) by done. unfold ensureClusterLocked. rewrite Hcl. cbn [default].
  by rewrite (bool_decide_eq_false_2 (cs_bootstrapToken cs = "")).
Qed.

(** A poll without a valid token is answered with 403, every other request with 401. *)
Lemma invalid_token_status s r query e id :
  queryGet query "cluster" = id → TrimSpace id ≠ "" →
  authorize s r (TrimSpace id) = Err e → authorize s r "" = Err e →
  rs_StatusCode (handleJobs s r query).1 = 403%Z ∧ ∀ job, rs_StatusCode (handleAck s r job).1 = 401%Z.
Proof.
  intros Hq Hne He He'. unfold handleJobs, handleAck. rewrite Hq, bool_decide_eq_false_2 by done.
  by rewrite He, He'.
Qed.
End Consistent.

(** ** Witnesses *)

(** A wire that carries copies of one job, and results as they are. *)
Definition sample_http : HttpLib := {|
  json_first _ := Err (errorf "EOF");
  time_parse _ := Ok 0%Z;
  decode_jobs s := Ok (replicate (String.length s) sample_job);
  url_error _ := None
|}.
Definition sample_wire : WireLib := {|
  encode_jobs jobs := foldr (λ _ s, "j" +:+ s) "" jobs;
  encode_result := jr_Outcome;
  encode_events _ := "";
  encode_register _ token := token;
  encode_rotate token := token;
  encode_error code _ := code;
  wire_status b := match b with BStatus u => Ok u | _ => Err (errorf "unexpected body") end;
  wire_result b := match b with BResult r => Ok r | _ => Err (errorf "unexpected body") end;
  wire_events b := match b with BEvents l => Ok l | _ => Err (errorf "unexpected body") end;
  wire_register b := match b with BRegister r => Ok r | _ => Err (errorf "unexpected body") end;
  wire_enqueue b := match b with inl q => Ok q | inr _ => Err (errorf "unexpected body") end;
  range_clusters m := (map_to_list m).*2
|}.
Definition sample_client : HTTPClient :=
  {| hc_baseURL := "https://cp"; hc_clusterID := "c-1"; hc_token := "tok" |}.

Lemma sample_wire_laws : @WireLaws sample_http sample_wire sample_client.
Proof.
  refine (@Build_WireLaws sample_http sample_wire sample_client (λ job, job = sample_job) _ _ _ _); [|by eexists|done..].
  intros jobs Hall. cbn. f_equal. induction Hall as [|j l -> _ IH]; [done|].
  apply (f_equal (cons sample_job) IH).
Defined.

Definition sample_server : Server := EnqueueJob (SetBootstrapToken NewServer "c-1" " tok ") "c-1" sample_job.

#[local] Existing Instances sample_http sample_wire sample_wire_laws no_syntax sample_agent_lib reference_lib.

Lemma fetched_jobs_answered_witness :
  cs_pending (mine sample_client sample_server) = [sample_job] ∧
  (∃ x w', runs (on_clock sample_client) (PollOnce sample_applier) (sample_server, 0%Z) x w') ∧
  wp (on_clock sample_client) spelled_out (PollOnce sample_applier)
    (λ _ w',
      (∀ job, job ∈ cs_pending (mine sample_client sample_server) →
         is_Some (cs_results (mine sample_client w'.1) !! aj_ID job)) ∧
      (∀ id res, cs_results (mine sample_client sample_server) !! id = Some res →
         cs_results (mine sample_client w'.1) !! id = Some res)) (sample_server, 0%Z).
Proof.
  split; [reflexivity|]. apply (fetched_jobs_answered sample_client sample_applier sample_server).
  split; [split; [reflexivity|reflexivity|discriminate|split; [reflexivity|discriminate]]|].
  apply Forall_singleton. exact eq_refl.
Defined.

Definition sample_manifest : Manifest :=
  {| mf_APIVersion := "v1"; mf_Kind := "ConfigMap"; mf_Meta := meta_of "apps" "demo"; mf_Object := [] |}.

(** One rotation, and the same batch of events before and after it. *)
Definition sample_batch : option body :=
  Some (BEvents [{| ev_EventKey := "k"; ev_Kind := "ConditionsChanged"; ev_ResourceRef := objectRef sample_manifest;
                    ev_Conditions := []; ev_Endpoints := []; ev_ManagedStorage := None; ev_Timestamp := None |}]).
Definition after_rotation : Server :=
  let post s token path b := (serveHTTP "https://cp" s noAdmin (requestFor token "POST" ("https://cp" +:+ path) b)).2 in
  let s := post sample_server "tok" "/api/agent/events" sample_batch in
  let s := post s "tok" "/api/agent/credentials/rotate" (Some BEmpty) in
  post s "bootstrap-c-1-rotated-1" "/api/agent/events" sample_batch.

Lemma control_plane_consistent_witness :
  (authorize after_rotation (requestFor "tok" "POST" "" None) "" = Err errUnauthorized ∧
   authorize after_rotation (requestFor "bootstrap-c-1-rotated-1" "POST" "" None) "" = Ok "c-1" ∧
   length (cs_events (ensureClusterLocked after_rotation "c-1")) = 1%nat) ∧
  (∀ id, NoDup (stored_keys (cs_events (ensureClusterLocked after_rotation id)))) ∧
  (∀ r want id, authorize after_rotation r want = Ok id →
     bearerToken r = cs_bootstrapToken (ensureClusterLocked after_rotation id)).
Proof.
  split; [vm_compute; split_and!; reflexivity|]. apply (control_plane_consistent "https://cp").
  eapply rtc_l; [apply step_token|]. eapply rtc_l; [apply step_enqueue|].
  do 3 (eapply rtc_l; [apply step_request|]). apply rtc_refl.
Defined.
