(* ===== verification/Credentials.v ===== *)
(** * internal/agent/credentials.go, credentials_store.go and runtime.go

    The bootstrap credentials, the Secret that keeps them, and the runtime that
    starts and stops the poller as they come and go.  [SetControllerReference]
    is the library's: a parameter of [OwnerLib]. *)

From stdpp Require Import base list strings pretty gmap.
From S2P Require Import Prelude Traces GoStrings Api Json Events Agent HttpClient.

Definition DefaultCredentialsSecret : string := "vworkspace-agent-credentials".
Definition SecretKeyControlPlaneBaseURL : string := "control-plane-base-url".
Definition SecretKeyClusterID : string := "cluster-id".
Definition SecretKeyToken : string := "token".

Class OwnerLib := {
  (** [controllerutil.SetControllerReference(owner, obj)] on the metadata *)
  SetControllerReference : ObjectMeta → ObjectMeta → result ObjectMeta
}.

Class OwnerLaws `{OwnerLib} : Prop := {
  law_controller owner m m' :
    SetControllerReference owner m = Ok m' → ∃ us, m' = with_owners m us ∧ UID owner ∈ us
}.

Definition reference_owner : OwnerLib := {|
  SetControllerReference owner m := Ok (with_owners m (UID owner :: OwnerReferences m))
|}.

#[export] Instance reference_owner_laws : @OwnerLaws reference_owner.
Proof. split. intros o m m' [= <-]. eexists. split; [done|]. left. Qed.

Record Credentials := { cr_BaseURL : string; cr_ClusterID : string; cr_Token : string }.

(** [secret.Data[key]] as a string: absent is empty. *)
Definition dataOf (data : gmap string string) (key : string) : string := default "" (data !! key).

Definition baseURLFromSecretData (data : gmap string string) : string :=
  TrimSpace (dataOf data SecretKeyControlPlaneBaseURL).

(** One of the three fields is empty. *)
Definition incomplete (c : Credentials) : bool :=
  bool_decide (cr_BaseURL c = "" ∨ cr_ClusterID c = "" ∨ cr_Token c = "").

Definition trimmed (c : Credentials) : Credentials :=
  {| cr_BaseURL := TrimSpace (cr_BaseURL c); cr_ClusterID := TrimSpace (cr_ClusterID c);
     cr_Token := TrimSpace (cr_Token c) |}.

Record CredentialsConfig := {
  cg_Explicit : Credentials;
  cg_SecretNamespace : string;
  cg_SecretName : string;
  cg_K8s : bool (** whether a reader is set *)
}.

Definition fallback (s d : string) : string := if bool_decide (s = "") then d else s.

(** The last part of [Load]. *)
Definition completed (cred : Credentials) : result Credentials :=
  if incomplete (trimmed cred) then
    Err (errorf "incomplete agent credentials: control plane base URL, cluster ID, and token are required")
  else Ok (trimmed cred).

(** [CredentialsConfig.Load] *)
Definition Load (c : CredentialsConfig) : prog wcall (result Credentials) :=
  let cred := trimmed (cg_Explicit c) in
  if bool_decide (cg_SecretName c ≠ "") && cg_K8s c then
    let* ns := (if bool_decide (cg_SecretNamespace c = "") then call (WGetenv "POD_NAMESPACE")
                else Ret (cg_SecretNamespace c)) in
    if bool_decide (ns = "") then
      Ret (Err (errorf ("agent credentials secret " +:+ quote (cg_SecretName c) +:+
        " requires a namespace (set --agent-credentials-namespace or POD_NAMESPACE)")))
    else
      try* secret := call (WGetSecret ns (cg_SecretName c))
        catch e => Ret (Err (wrapf ("get agent credentials secret " +:+ ns +:+ "/" +:+ cg_SecretName c) e)) in
      let data := sec_Data secret in
      Ret (completed
        {| cr_BaseURL := fallback (cr_BaseURL cred) (baseURLFromSecretData data);
           cr_ClusterID := fallback (cr_ClusterID cred) (dataOf data SecretKeyClusterID);
           cr_Token := fallback (cr_Token cred) (dataOf data SecretKeyToken) |})
  else Ret (completed cred).

(** [CredentialsFromSecret] on a secret that is not nil. *)
Definition CredentialsFromSecret (secret : Secret) : result Credentials :=
  let data := sec_Data secret in
  let cred := {| cr_BaseURL := baseURLFromSecretData data;
                 cr_ClusterID := TrimSpace (dataOf data SecretKeyClusterID);
                 cr_Token := TrimSpace (dataOf data SecretKeyToken) |} in
  if incomplete cred then
    Err (errorf ("secret " +:+ Namespace (sec_Meta secret) +:+ "/" +:+ Name (sec_Meta secret) +:+
                 " is missing control-plane-base-url, cluster-id, or token"))
  else Ok cred.

(** [GetCredentialsSecret]: [None] when the secret does not exist. *)
Definition GetCredentialsSecret (namespace secretName : string)
    : prog wcall (result (option Secret)) :=
  let secretName := fallback secretName DefaultCredentialsSecret in
  let* r := call (WGetSecret namespace secretName) in
  Ret match r with
      | Ok secret => Ok (Some secret)
      | Err e => if IsNotFound e then Ok None
                 else Err (wrapf ("get credentials secret " +:+ namespace +:+ "/" +:+ secretName) e)
      end.

Section Persist.
Context `{OwnerLib}.

(** The function [PersistCredentials] gives to [CreateOrUpdate]. *)
Definition credentialData (cred : Credentials) (data : gmap string string) : gmap string string :=
  <[SecretKeyToken := TrimSpace (cr_Token cred)]>
  (<[SecretKeyClusterID := TrimSpace (cr_ClusterID cred)]>
  (<[SecretKeyControlPlaneBaseURL := TrimSpace (cr_BaseURL cred)]> data)).

Definition credentialSecret (cred : Credentials) (owner : option ObjectMeta) (secret : Secret)
    : result Secret :=
  let data := credentialData cred (sec_Data secret) in
  match owner with
  | None => Ok {| sec_Meta := sec_Meta secret; sec_Data := data; sec_Type := "Opaque" |}
  | Some o =>
      match SetControllerReference o (sec_Meta secret) with
      | Err e => Err (wrapf "set owner reference" e)
      | Ok m => Ok {| sec_Meta := m; sec_Data := data; sec_Type := "Opaque" |}
      end
  end.

Definition PersistCredentials (namespace secretName : string) (cred : Credentials)
    (owner : option ObjectMeta) : prog wcall (result unit) :=
  let namespace := TrimSpace namespace in
  let secretName := TrimSpace secretName in
  if bool_decide (namespace = "") then
    Ret (Err (errorf "credentials secret namespace is required"))
  else
    let secretName := fallback secretName DefaultCredentialsSecret in
    if incomplete (trimmed cred) then Ret (Err (errorf "incomplete credentials for persistence"))
    else
      try* _ := call (WUpsertSecret namespace secretName (credentialSecret cred owner))
        catch e => Ret (Err (wrapf ("persist credentials secret " +:+ namespace +:+ "/" +:+ secretName) e)) in
      Ret (Ok tt).
End Persist.

(** The client built from credentials, in the controller and in the runtime. *)
Definition configOf (c : Credentials) : Config :=
  {| cf_BaseURL := cr_BaseURL c; cf_ClusterID := cr_ClusterID c; cf_Token := cr_Token c |}.

(** ** runtime.go *)

(** [RuntimeConfig], what of it decides anything. *)
Record RuntimeConfig := {
  rf_K8s : bool; (** client and scheme are set *)
  rf_SecretNamespace : string;
  rf_SecretName : string;
  rf_PollInterval : Z;
  rf_EventBatcher : bool (** a shared batcher is given *)
}.

(** A poller that was started, until its context is cancelled. *)
Record RunningPoller := {
  rp_Client : HTTPClient;
  rp_ApplierClusterID : string;
  rp_WaitSecs : Z
}.

Record Runtime := {
  rt_cfg : RuntimeConfig;
  rt_poller : option RunningPoller; (** [cancel] is set while there is one *)
  rt_running : bool;
  rt_clusterID : string;
  rt_batcherClient : option HTTPClient (** [cfg.EventBatcher.Client] *)
}.

Definition NewRuntime (cfg : RuntimeConfig) : Runtime :=
  {| rt_cfg := cfg; rt_poller := None; rt_running := false; rt_clusterID := "";
     rt_batcherClient := None |}.

Definition setEventBatcherClient (r : Runtime) (c : option HTTPClient) : Runtime :=
  if rf_EventBatcher (rt_cfg r)
  then {| rt_cfg := rt_cfg r; rt_poller := rt_poller r; rt_running := rt_running r;
          rt_clusterID := rt_clusterID r; rt_batcherClient := c |}
  else r.

Definition stopPollerLocked (r : Runtime) : Runtime :=
  setEventBatcherClient
    {| rt_cfg := rt_cfg r; rt_poller := None; rt_running := false; rt_clusterID := "";
       rt_batcherClient := rt_batcherClient r |} None.

Definition stopPoller (r : Runtime) : Runtime := stopPollerLocked r.

Definition is_set {A} (x : option A) : bool := match x with Some _ => true | None => false end.

(** [resolveCredentialsTarget]: namespace, name and whether a cluster is present. *)
Definition resolveCredentialsTarget (r : Runtime) : prog wcall (result (string * string * bool)) :=
  let defaultNS := fallback (TrimSpace (rf_SecretNamespace (rt_cfg r))) "vworkspace-system" in
  let defaultName := fallback (TrimSpace (rf_SecretName (rt_cfg r))) DefaultCredentialsSecret in
  try* items := call WListClusters catch e => Ret (Err e) in
  Ret (Ok match items with
  | [] => (defaultNS, defaultName, false)
  | cluster :: _ =>
      if is_set (DeletionTimestamp (cl_Meta cluster)) then ("", "", false)
      else
        match cst_CredentialsSecretRef (cl_Status cluster) with
        | Some ref =>
            if bool_decide (TrimSpace (sr_Name ref) ≠ "")
            then (fallback (TrimSpace (sr_Namespace ref)) defaultNS, TrimSpace (sr_Name ref), true)
            else (defaultNS, defaultName, true)
        | None => (defaultNS, defaultName, true)
        end
  end).

(** [ensurePoller] from the lock on, with the credentials just read. *)
Definition startPoller (r : Runtime) (creds : Credentials) : result unit * Runtime :=
  if rt_running r && bool_decide (rt_clusterID r = cr_ClusterID creds) then (Ok tt, r)
  else
    let r := setEventBatcherClient (stopPollerLocked r) None in
    match NewHTTPClient (configOf creds) with
    | Err e => (Err (wrapf "configure agent client" e), r)
    | Ok httpClient =>
        let poller := {| rp_Client := httpClient; rp_ApplierClusterID := cr_ClusterID creds;
                         rp_WaitSecs := Z.quot (rf_PollInterval (rt_cfg r)) 1000000000 |} in
        (Ok tt, setEventBatcherClient
           {| rt_cfg := rt_cfg r; rt_poller := Some poller; rt_running := true;
              rt_clusterID := cr_ClusterID creds; rt_batcherClient := rt_batcherClient r |}
           (Some httpClient))
    end.

Definition ensurePoller (r : Runtime) : prog wcall (result unit * Runtime) :=
  try* target := resolveCredentialsTarget r catch e => Ret (Err e, r) in
  let '(secretNS, secretName, clusterPresent) := target in
  if negb clusterPresent then Ret (Err (errorf "no Cluster resource found"), stopPoller r)
  else
    try* found := GetCredentialsSecret secretNS secretName catch e => Ret (Err e, r) in
    match found with
    | None => Ret (Err (errorf ("credentials secret " +:+ secretNS +:+ "/" +:+ secretName +:+
                                " not found")), stopPoller r)
    | Some secret =>
        match CredentialsFromSecret secret with
        | Err e => Ret (Err e, r)
        | Ok creds => Ret (startPoller r creds)
        end
    end.

(** The defaults [Start] fills in before its loop. *)
Definition startConfig (cfg : RuntimeConfig) : RuntimeConfig :=
  {| rf_K8s := rf_K8s cfg; rf_SecretNamespace := rf_SecretNamespace cfg;
     rf_SecretName := fallback (rf_SecretName cfg) DefaultCredentialsSecret;
     rf_PollInterval := if bool_decide (rf_PollInterval cfg ≤ 0)%Z then 30000000000%Z
                        else rf_PollInterval cfg;
     rf_EventBatcher := rf_EventBatcher cfg |}.

(** [Start] with a context that is cancelled after [ticks] ticks. *)
Fixpoint tickLoop (ticks : nat) (r : Runtime) : prog wcall Runtime :=
  let* (_, r) := ensurePoller r in
  match ticks with
  | O => Ret (stopPoller r)
  | S ticks => tickLoop ticks r
  end.

Definition runtime_Start (ticks : nat) (r : Runtime) : prog wcall Runtime :=
  if negb (rf_K8s (rt_cfg r)) then Ret r
  else tickLoop ticks {| rt_cfg := startConfig (rt_cfg r); rt_poller := rt_poller r;
                         rt_running := rt_running r; rt_clusterID := rt_clusterID r;
                         rt_batcherClient := rt_batcherClient r |}.
