(* ===== verification/Cluster.v ===== *)
(** * internal/controller/cluster_controller.go: registration and connectivity

    [Reconcile] is one pass over one [Cluster], a program over [wcall].  The Go
    code mutates the object it was given; here every step returns the object it
    leaves behind, also when it fails.  [retry.RetryOnConflict] is library code:
    a parameter whose law says that it makes one attempt after another as long as
    the last one ended in a conflict. *)

From stdpp Require Import base list strings pretty gmap.
From S2P Require Import Prelude Traces GoStrings Api Conditions Events Reporter Kube Crypto Agent.
From S2P Require Import HttpClient Credentials.

Class RetryLib := { RetryOnConflict : prog wcall (result unit) → prog wcall (result unit) }.

(** At most [S n] attempts. *)
Fixpoint attempts (n : nat) (fn : prog wcall (result unit)) : prog wcall (result unit) :=
  let* r := fn in
  match r, n with
  | Err e, S n => if IsApiConflict e then attempts n fn else Ret r
  | _, _ => Ret r
  end.

Class RetryLaws `{RetryLib} : Prop := {
  law_retry fn : ∃ n, RetryOnConflict fn = attempts n fn
}.

(** The client of the control plane the reconciler was given, or the HTTP one. *)
Inductive Client := Other | HTTP (c : HTTPClient).

Record ClusterReconciler := {
  cr_AgentClient : option Client;
  cr_RegistrationClient : bool; (** one was given *)
  cr_CredentialsSecret : string;
  cr_OperatorNamespace : string;
  cr_EventBatcher : bool; (** one was given *)
  cr_Recorder : bool
}.

Definition tokenSourceSecret : string := "secret".
Definition tokenSourceInline : string := "inline".

(** ** Updates of the object *)

Definition with_cl_meta (c : Cluster) (m : ObjectMeta) : Cluster :=
  {| cl_Meta := m; cl_Spec := cl_Spec c; cl_Status := cl_Status c |}.
Definition with_cl_status (c : Cluster) (s : ClusterStatus) : Cluster :=
  {| cl_Meta := cl_Meta c; cl_Spec := cl_Spec c; cl_Status := s |}.
Definition cl_Conditions (c : Cluster) : list Condition := cst_Conditions (cl_Status c).
Definition cl_Phase (c : Cluster) : string := cst_Phase (cl_Status c).

Definition with_phase (c : Cluster) (p : string) : Cluster :=
  let s := cl_Status c in
  with_cl_status c {| cst_Phase := p; cst_Conditions := cst_Conditions s;
    cst_LastHeartbeat := cst_LastHeartbeat s; cst_CredentialStatus := cst_CredentialStatus s;
    cst_CredentialsSecretRef := cst_CredentialsSecretRef s; cst_ObservedToken := cst_ObservedToken s |}.
Definition with_conditions (c : Cluster) (cs : list Condition) : Cluster :=
  let s := cl_Status c in
  with_cl_status c {| cst_Phase := cst_Phase s; cst_Conditions := cs;
    cst_LastHeartbeat := cst_LastHeartbeat s; cst_CredentialStatus := cst_CredentialStatus s;
    cst_CredentialsSecretRef := cst_CredentialsSecretRef s; cst_ObservedToken := cst_ObservedToken s |}.
Definition with_heartbeat (c : Cluster) (t : Z) : Cluster :=
  let s := cl_Status c in
  with_cl_status c {| cst_Phase := cst_Phase s; cst_Conditions := cst_Conditions s;
    cst_LastHeartbeat := Some t; cst_CredentialStatus := cst_CredentialStatus s;
    cst_CredentialsSecretRef := cst_CredentialsSecretRef s; cst_ObservedToken := cst_ObservedToken s |}.
Definition with_registration (c : Cluster) (cc : ClusterCredentialStatus) (ref : SecretReference)
    (fingerprint : string) : Cluster :=
  let s := cl_Status c in
  with_cl_status c {| cst_Phase := cst_Phase s; cst_Conditions := cst_Conditions s;
    cst_LastHeartbeat := cst_LastHeartbeat s; cst_CredentialStatus := Some cc;
    cst_CredentialsSecretRef := Some ref; cst_ObservedToken := fingerprint |}.
(** The three fields of the spec the controller writes. *)
Definition with_spec (c : Cluster) (clusterID token : string) (rotate : bool) : Cluster :=
  let s := cl_Spec c in
  {| cl_Meta := cl_Meta c;
     cl_Spec := {| cs_ClusterID := clusterID; cs_ControlPlaneEndpoint := cs_ControlPlaneEndpoint s;
       cs_ControlPlaneBaseURL := cs_ControlPlaneBaseURL s;
       cs_RegistrationTokenSecretRef := cs_RegistrationTokenSecretRef s;
       cs_RegistrationToken := token; cs_Capabilities := cs_Capabilities s;
       cs_RotateCredentials := rotate |};
     cl_Status := cl_Status c |}.

Definition set (now : Z) (c : Cluster) (t s reason message : string) : Cluster :=
  with_conditions c (Conditions.Set_ now (cl_Conditions c) t s reason message).

(** ** Helpers *)

Definition controlPlaneEndpoint (c : Cluster) : string :=
  fallback (TrimSpace (cs_ControlPlaneEndpoint (cl_Spec c)))
           (TrimSpace (cs_ControlPlaneBaseURL (cl_Spec c))).

Definition reRegisterRequested (c : Cluster) : bool :=
  let v := TrimSpace (default "" (Annotations (cl_Meta c) !! ClusterReRegisterAnnotation)) in
  if bool_decide (v = "") then false else negb (bool_decide (ToLower v = "false")).

Definition tokenFingerprint (token : string) : string :=
  String.substring 0 16 (hex_encode (sha256 (to_bytes token))).

Definition credentialsSecretName (r : ClusterReconciler) : string :=
  if bool_decide (TrimSpace (cr_CredentialsSecret r) ≠ "") then cr_CredentialsSecret r
  else DefaultCredentialsSecret.

Definition operatorNamespace (r : ClusterReconciler) : prog wcall string :=
  if bool_decide (TrimSpace (cr_OperatorNamespace r) ≠ "") then Ret (cr_OperatorNamespace r)
  else
    let* ns := call (WGetenv "POD_NAMESPACE") in
    Ret (fallback ns "vworkspace-system").

Definition BufferOverflowMessage (dropped : Z) : string :=
  "Dropped " +:+ itoa dropped +:+ " outbound event(s) because the buffer is full; verify control plane connectivity and that events are being accepted".

Definition clusterRef (c : Cluster) : AppliedRef := ResourceRefFromMeta opsGroupVersion "Cluster" (cl_Meta c).

Definition reportConditions (c : Cluster) (prev : list Condition) : prog wcall unit :=
  call (WReport (clusterRef c) prev (cl_Conditions c)).

Definition syncBufferOverflowCondition (r : ClusterReconciler) (now : Z) (c : Cluster) : prog wcall Cluster :=
  if negb (cr_EventBatcher r) then Ret c
  else
    let* (active, dropped) := call WOverflowState in
    Ret (if active && bool_decide (0 < dropped)%Z
         then set now c ConditionBufferOverflow ConditionTrue "EventBufferFull" (BufferOverflowMessage dropped)
         else set now c ConditionBufferOverflow ConditionFalse "BufferDrained"
                "Outbound event buffer has drained successfully").

Definition loadStoredCredentials (namespace secretName : string) : prog wcall (result Credentials) :=
  try* found := GetCredentialsSecret namespace secretName catch e => Ret (Err e) in
  Ret match found with
      | None => Err (errorf "credentials secret not found")
      | Some secret => CredentialsFromSecret secret
      end.

(** [resolveRegistrationToken]: token and source. *)
Definition resolveRegistrationToken (c : Cluster) (namespace : string)
    : prog wcall (result (string * string)) :=
  match cs_RegistrationTokenSecretRef (cl_Spec c) with
  | Some ref =>
      if bool_decide (TrimSpace (skr_Name ref) = "") then
        Ret (Err (errorf "registrationTokenSecretRef.name must not be empty"))
      else
        let key := fallback (TrimSpace (skr_Key ref)) DefaultRegistrationTokenKey in
        let loc := "registration token secret " +:+ namespace +:+ "/" +:+ skr_Name ref in
        try* secret := call (WGetSecret namespace (TrimSpace (skr_Name ref)))
          catch e => Ret (Err (if IsNotFound e then errorf (loc +:+ " not found")
                               else wrapf ("get " +:+ loc) e)) in
        let tok := TrimSpace (dataOf (sec_Data secret) key) in
        Ret (if bool_decide (tok = "") then Err (errorf (loc +:+ " has no value for key " +:+ quote key))
             else Ok (tok, tokenSourceSecret))
  | None =>
      let tok := TrimSpace (cs_RegistrationToken (cl_Spec c)) in
      Ret (Ok (if bool_decide (tok ≠ "") then (tok, tokenSourceInline) else ("", "")))
  end.

Definition key_of (c : Cluster) : string * string := (Namespace (cl_Meta c), Name (cl_Meta c)).
Definition getCluster (key : string * string) : prog wcall (result Cluster) :=
  call (WGetCluster key.1 key.2).

Section Controller.
Context {Hl : HttpLib} {Kl : KubeLib} {Ol : OwnerLib} {Rl : RetryLib}.
Context (r : ClusterReconciler).

Definition client_Heartbeat (c : Client) : prog wcall (result unit) :=
  match c with Other => call WOtherHeartbeat | HTTP c => http_Heartbeat c end.
Definition client_Rotate (c : Client) : prog wcall (result RotateCredentialsResponse) :=
  match c with Other => call WOtherRotate | HTTP c => http_RotateCredentials c end.

(** ** Registration *)

(** The status [adoptExistingRegistration] writes over the object just read. *)
Definition adopted (now : Z) (fresh : Cluster) (fingerprint secretName namespace : string) : Cluster :=
  let s := cl_Status fresh in
  let ref := default {| sr_Name := secretName; sr_Namespace := namespace |} (cst_CredentialsSecretRef s) in
  let cc := match cst_CredentialStatus s with
            | None => {| cc_SecretName := secretName; cc_SecretNamespace := namespace;
                         cc_RegisteredAt := Some now; cc_RegistrationTokenConsumed := true |}
            | Some cc => {| cc_SecretName := cc_SecretName cc; cc_SecretNamespace := cc_SecretNamespace cc;
                            cc_RegisteredAt := cc_RegisteredAt cc; cc_RegistrationTokenConsumed := true |}
            end in
  with_registration fresh cc ref fingerprint.

Definition adoptExistingRegistration (c : Cluster) (fingerprint secretName namespace : string)
    : prog wcall (result unit) :=
  RetryOnConflict (
    try* fresh := getCluster (key_of c)
      catch e => Ret (Err (wrapf "reload cluster for adoption" e)) in
    let* now := call WNow in
    try* _ := call (WUpdateClusterStatus (adopted now fresh fingerprint secretName namespace))
      catch e => Ret (Err e) in
    Ret (Ok tt)).

(** The status of a finished exchange. *)
Definition exchanged (t now : Z) (fresh : Cluster) (fingerprint secretName namespace : string) : Cluster :=
  let c := with_registration (with_phase fresh ClusterPhaseRegistering)
    {| cc_SecretName := secretName; cc_SecretNamespace := namespace; cc_RegisteredAt := Some t;
       cc_RegistrationTokenConsumed := true |}
    {| sr_Name := secretName; sr_Namespace := namespace |} fingerprint in
  let c := set now c ConditionAuthenticated ConditionTrue "RegistrationComplete"
             "registration token exchanged for bootstrap credential" in
  set now c ConditionConnected ConditionTrue "ControlPlaneReachable" "registration exchange succeeded".

Definition recordExchange (t : Z) (c : Cluster) (fingerprint secretName namespace : string)
    : prog wcall (result unit) :=
  RetryOnConflict (
    try* fresh := getCluster (key_of c)
      catch e => Ret (Err (wrapf "reload cluster after registration" e)) in
    let* now := call WNow in
    try* _ := call (WUpdateClusterStatus (exchanged t now fresh fingerprint secretName namespace))
      catch e => Ret (Err e) in
    Ret (Ok tt)).

Definition clearAnnotation (c : Cluster) : Cluster :=
  with_cl_meta c (with_annotations (cl_Meta c) (delete ClusterReRegisterAnnotation (Annotations (cl_Meta c)))).

(** The spec after an exchange, and whether it changed. *)
Definition postRegistration (c : Cluster) (tokenSource clusterID : string) : Cluster * bool :=
  let s := cl_Spec c in
  let setID := bool_decide (TrimSpace (cs_ClusterID s) = "") in
  let clear := bool_decide (tokenSource = tokenSourceInline ∧ cs_RegistrationToken s ≠ "") in
  let again := reRegisterRequested c in
  let c := with_spec c (if setID then clusterID else cs_ClusterID s)
             (if clear then "" else cs_RegistrationToken s) (cs_RotateCredentials s) in
  (if again then clearAnnotation c else c, setID || clear || again).

(** [registerCluster]: its error, if any, and the object as it leaves it. *)
Definition registerCluster (c : Cluster) (token tokenSource secretName namespace : string)
    : prog wcall (result unit * Cluster) :=
  let baseURL := controlPlaneEndpoint c in
  if bool_decide (baseURL = "") then
    Ret (Err (errorf "spec.controlPlaneEndpoint (or the deprecated spec.controlPlaneBaseUrl) is required for registration"), c)
  else
    let* resp := (if cr_RegistrationClient r
                  then call (WOtherRegister baseURL token (cs_ClusterID (cl_Spec c)))
                  else Register baseURL token (cs_ClusterID (cl_Spec c))) in
    match resp with
    | Err e => Ret (Err e, c)
    | Ok resp =>
        let creds := {| cr_BaseURL := baseURL; cr_ClusterID := rg_ClusterID resp; cr_Token := rg_Token resp |} in
        try* _ := PersistCredentials namespace secretName creds (Some (cl_Meta c))
          catch e => Ret (Err e, c) in
        let* now := call WNow in
        let '(c, specChanged) := postRegistration c tokenSource (rg_ClusterID resp) in
        let* updated := (if specChanged then call (WUpdateCluster c) else Ret (Ok c)) in
        match updated with
        | Err e => Ret (Err (wrapf "persist post-registration spec" e), c)
        | Ok c =>
            let* res := recordExchange now c (tokenFingerprint token) secretName namespace in
            Ret (res, c)
        end
    end.

(** Continue with an object, or stop with a result. *)
Notation step := (Cluster + outcome)%type.
Definition continue (c : Cluster) : prog wcall step := Ret (inl c).
Definition stop (res : Result) (e : option error) : prog wcall step := Ret (inr (res, e)).

(** The end of a failing stage: the buffer condition, the status, the report. *)
Definition stageFailed (now : Z) (c : Cluster) (prev : list Condition) (what : string) (res : Result)
    : prog wcall step :=
  let* c := syncBufferOverflowCondition r now c in
  try* c := call (WUpdateClusterStatus c) catch e => stop noResult (Some (wrapf what e)) in
  let* _ := reportConditions c prev in
  stop res None.

Definition tokenMissing (now : Z) (c : Cluster) (e : error) : Cluster :=
  let c := with_phase c ClusterPhasePending in
  let c := set now c ConditionAuthenticated ConditionFalse "TokenSecretMissing" (emsg e) in
  set now c ConditionConnected ConditionFalse "RegistrationPending" "registration token is not yet resolvable".

Definition registrationFailed (now : Z) (c : Cluster) (e : error) : Cluster :=
  let c := with_phase c ClusterPhaseError in
  let c := set now c ConditionAuthenticated ConditionFalse "RegistrationFailed" (emsg e) in
  set now c ConditionConnected ConditionFalse "RegistrationPending" "registration token exchange failed".

(** Adoption followed by a reload. *)
Definition adoptAndReload (key : string * string) (c : Cluster) (token secretName namespace : string)
    : prog wcall step :=
  try* _ := adoptExistingRegistration c (tokenFingerprint token) secretName namespace
    catch e => stop noResult (Some e) in
  try* c := getCluster key catch e => stop noResult (Some (wrapf "reload cluster after adoption" e)) in
  continue c.

(** The exchange and what follows it. *)
Definition exchangeToken (key : string * string) (c : Cluster) (prev : list Condition) (force : bool)
    (token tokenSource secretName namespace : string) : prog wcall step :=
  let* (res, c) := registerCluster c token tokenSource secretName namespace in
  match res with
  | Err e =>
      let* stored := (if force then Ret (Err e) else loadStoredCredentials namespace secretName) in
      match stored with
      | Ok _ => adoptAndReload key c token secretName namespace
      | Err _ =>
          let* now := call WNow in
          stageFailed now (registrationFailed now c e) prev "update registration failure status" (after 30)
      end
  | Ok _ =>
      let* _ := (if bool_decide (tokenSource = tokenSourceInline) && cr_Recorder r
                 then call (WRecord "Warning" "DeprecatedField" "spec.registrationToken is deprecated; store the token in a Secret and use spec.registrationTokenSecretRef")
                 else Ret tt) in
      try* c := getCluster key
        catch e => stop noResult (Some (wrapf "reload cluster after registration" e)) in
      continue c
  end.

Definition reconcileRegistration (key : string * string) (c : Cluster) (secretName namespace : string)
    : prog wcall step :=
  let prev := cl_Conditions c in
  let proceed token tokenSource :=
    let force := reRegisterRequested c in
    if bool_decide (token = "") ||
       (bool_decide (tokenFingerprint token = cst_ObservedToken (cl_Status c)) && negb force)
    then continue c
    else
      let* stored := (if force then Ret (Err (errorf "")) else loadStoredCredentials namespace secretName) in
      match stored with
      | Ok _ => adoptAndReload key c token secretName namespace
      | Err _ => exchangeToken key c prev force token tokenSource secretName namespace
      end in
  let* resolved := resolveRegistrationToken c namespace in
  match resolved with
  | Ok (token, tokenSource) => proceed token tokenSource
  | Err e =>
      let* stored := loadStoredCredentials namespace secretName in
      match stored with
      | Ok _ => proceed "" ""
      | Err _ =>
          let* now := call WNow in
          stageFailed now (tokenMissing now c e) prev "update pending status" (after 30)
      end
  end.

(** ** Rotation *)

Definition rotateCredentials (c : Cluster) (secretName namespace : string)
    : prog wcall (result unit * Cluster) :=
  try* creds := loadStoredCredentials namespace secretName
    catch e => Ret (Err (wrapf "load stored credentials" e), c) in
  let rotateClient := match cr_AgentClient r with
                      | Some cl => Ok cl
                      | None => match NewHTTPClient (configOf creds) with
                                | Err e => Err (wrapf "configure rotate client" e)
                                | Ok h => Ok (HTTP h)
                                end
                      end in
  match rotateClient with
  | Err e => Ret (Err e, c)
  | Ok cl =>
      try* resp := client_Rotate cl catch e => Ret (Err e, c) in
      let newCreds := {| cr_BaseURL := cr_BaseURL creds; cr_ClusterID := cr_ClusterID creds;
                         cr_Token := rc_Token resp |} in
      try* _ := PersistCredentials namespace secretName newCreds (Some (cl_Meta c))
        catch e => Ret (Err e, c) in
      let s := cl_Spec c in
      let c := with_spec c (cs_ClusterID s) (cs_RegistrationToken s) false in
      let* updated := call (WUpdateCluster c) in
      match updated with
      | Err e => Ret (Err (wrapf "clear rotate credentials flag" e), c)
      | Ok c =>
          let* _ := call (WReportAudit (clusterRef c) "CredentialRotated"
            [{| c_Type := ConditionAuthenticated; c_Status := ConditionTrue;
                c_Reason := "CredentialRotated";
                c_Message := "Bootstrap credential rotated successfully";
                c_LastTransitionTime := 0 |}]) in
          Ret (Ok tt, c)
      end
  end.

Definition rotationFailed (now : Z) (c : Cluster) (e : error) : Cluster :=
  set now (with_phase c ClusterPhaseError) ConditionAuthenticated ConditionFalse "RotationFailed" (emsg e).

Definition reconcileRotation (key : string * string) (c : Cluster) (secretName namespace : string)
    : prog wcall step :=
  if negb (cs_RotateCredentials (cl_Spec c)) then continue c
  else
    let prev := cl_Conditions c in
    let* (res, c) := rotateCredentials c secretName namespace in
    match res with
    | Err e =>
        let* now := call WNow in
        stageFailed now (rotationFailed now c e) prev "update rotation failure status" (after 60)
    | Ok _ =>
        try* c := getCluster key catch e => stop noResult (Some (wrapf "reload cluster after rotation" e)) in
        continue c
    end.

(** ** Heartbeat *)

Definition credentialMissing (now : Z) (c : Cluster) : Cluster :=
  let c := with_phase c ClusterPhasePending in
  let c := set now c ConditionConnected ConditionFalse "CredentialMissing" "bootstrap credential is not available" in
  set now c ConditionAuthenticated ConditionFalse "CredentialMissing" "bootstrap credential is not available".

Definition unreachable (now : Z) (c : Cluster) (e : error) : Cluster :=
  let c := with_phase c ClusterPhaseDisconnected in
  let c := set now c ConditionConnected ConditionFalse "ControlPlaneUnreachable" (emsg e) in
  let c := set now c ConditionDisconnected ConditionTrue "NoRecentRoundTrip" (emsg e) in
  set now c ConditionAuthenticated ConditionFalse "ControlPlaneAuthenticationFailed" (emsg e).

Definition connected (now : Z) (c : Cluster) : Cluster :=
  let c := with_phase (with_heartbeat c now) ClusterPhaseConnected in
  let c := set now c ConditionConnected ConditionTrue "RoundTripOK" "Recent round-trip to the control plane succeeded" in
  let c := set now c ConditionDisconnected ConditionFalse "Connected" "Connection is alive" in
  set now c ConditionAuthenticated ConditionTrue "CredentialAccepted" "Bearer token accepted".

(** The client [reconcileHeartbeat] uses.  Had [NewHTTPClient] refused stored
    credentials, the interface variable would hold a nil [*HTTPClient], which is
    not a nil interface: the second component says whether that happened. *)
Definition heartbeatClient (secretName namespace : string) : prog wcall (option Client * bool) :=
  match cr_AgentClient r with
  | Some cl => Ret (Some cl, false)
  | None =>
      let* stored := loadStoredCredentials namespace secretName in
      Ret match stored with
          | Err _ => (None, false)
          | Ok creds => match NewHTTPClient (configOf creds) with
                        | Err _ => (None, true)
                        | Ok h => (Some (HTTP h), false)
                        end
          end
  end.

Definition nil_dereference : error := errorf "invalid memory address or nil pointer dereference".

Definition publish (now : Z) (c : Cluster) (prev : list Condition) (what : string) : prog wcall outcome :=
  let* c := syncBufferOverflowCondition r now c in
  try* c := call (WUpdateClusterStatus c) catch e => failWith noResult (wrapf what e) in
  let* _ := reportConditions c prev in
  finish (after 60).

(** A nil [*HTTPClient] in the interface passes the code's nil check and panics at its
    first use; the model ends the pass with an error instead.  No caller gets there:
    credentials that load give a client (lemma [stored_client] of ClusterProofs.v). *)
Definition reconcileHeartbeat (c : Cluster) (secretName namespace : string) : prog wcall outcome :=
  let prev := cl_Conditions c in
  let* (client, nilPointer) := heartbeatClient secretName namespace in
  match nilPointer, client with
  | true, _ => failWith noResult nil_dereference
  | false, None =>
      let* now := call WNow in
      publish now (credentialMissing now c) prev "update disconnected status"
  | false, Some client =>
      let* res := client_Heartbeat client in
      let* now := call WNow in
      publish now (match res with Err e => unreachable now c e | Ok _ => connected now c end) prev
        "update cluster status"
  end.

(** ** Deletion and the whole pass *)

Definition finalizeCluster (c : Cluster) : prog wcall outcome :=
  if negb (ContainsFinalizer (cl_Meta c) ClusterFinalizer) then finish noResult
  else
    let* updated := (if bool_decide (cl_Phase c ≠ ClusterPhaseTerminating)
                     then call (WUpdateClusterStatus (with_phase c ClusterPhaseTerminating))
                     else Ret (Ok c)) in
    match updated with
    | Err e => failWith noResult (wrapf "update terminating status" e)
    | Ok c =>
        try* _ := call (WUpdateCluster (with_cl_meta c (RemoveFinalizer (cl_Meta c) ClusterFinalizer)))
          catch e => failWith noResult (wrapf "remove finalizer" e) in
        finish noResult
    end.

(** The stages after the finalizer is in place. *)
Definition stages (key : string * string) (c : Cluster) (secretName namespace : string)
    : prog wcall outcome :=
  let* s := reconcileRegistration key c secretName namespace in
  match s with
  | inr out => Ret out
  | inl c =>
      let* s := reconcileRotation key c secretName namespace in
      match s with
      | inr out => Ret out
      | inl c => reconcileHeartbeat c secretName namespace
      end
  end.

Definition Reconcile (key : string * string) : prog wcall outcome :=
  let* got := getCluster key in
  match got with
  | Err e => if IsNotFound e then finish noResult else failWith noResult e
  | Ok c =>
      let secretName := credentialsSecretName r in
      let* namespace := operatorNamespace r in
      if is_set (DeletionTimestamp (cl_Meta c)) then finalizeCluster c
      else
        let* updated := (if ContainsFinalizer (cl_Meta c) ClusterFinalizer then Ret (Ok c)
                         else call (WUpdateCluster (with_cl_meta c (AddFinalizer (cl_Meta c) ClusterFinalizer)))) in
        match updated with
        | Err e => failWith noResult (wrapf "add finalizer" e)
        | Ok c => stages key c secretName namespace
        end
  end.

End Controller.
