(* ===== verification/ClusterProofs.v ===== *)
(** * Registration, connectivity and the Pull-mode runtime: theorems

    [secretWorld] is an API server whose Secrets are a finite map: reads are
    exact, writes may fail, everything else may answer anything. *)

From stdpp Require Import base list strings pretty gmap.
From S2P Require Import Prelude Traces GoStrings Api Conditions Events Reporter Kube Crypto Agent.
From S2P Require Import HttpClient Credentials Cluster.

#[local] Opaque TrimSpace sha256 tokenFingerprint.

Notation secrets := (gmap (string * string) Secret).

Definition fresh_secret (ns name : string) : Secret :=
  {| sec_Meta := meta_of ns name; sec_Data := ∅; sec_Type := "" |}.

(** [clusterOk] is what is known of every [Cluster] the server returns. *)
Definition secretWorld (clusterOk : Cluster → Prop) (pod : string) : environment wcall secrets :=
  λ X c, match c in wcall X return secrets → X → secrets → Prop with
  | WGetSecret ns name => λ g x g', g' = g ∧
      match g !! (ns, name) with
      | Some s => x = Ok s
      | None => ∃ e, x = Err e ∧ IsNotFound e = true
      end
  | WUpsertSecret ns name f => λ g x g',
      (∃ s, f (default (fresh_secret ns name) (g !! (ns, name))) = Ok s ∧ x = Ok tt ∧
            g' = <[(ns, name) := s]> g) ∨
      (∃ e, x = Err e ∧ g' = g)
  | WGetCluster _ _ => λ g x g', g' = g ∧ ∀ c, x = Ok c → clusterOk c
  | WUpdateCluster _ => λ g x g', g' = g ∧ ∀ c, x = Ok c → clusterOk c
  | WGetenv _ => λ g x g', g' = g ∧ x = pod
  | _ => λ g _ g', g' = g
  end.

(** The exchange of a registration token. *)
Definition exchanges {X} (c : wcall X) : Prop :=
  match c with
  | WHttp req => match rq_Body req with Some (BRegister _) => True | _ => False end
  | WOtherRegister _ _ _ => True
  | _ => False
  end.

(** Neither an exchange nor a write of a Secret. *)
Definition quiet X (c : wcall X) : Prop :=
  match c with WUpsertSecret _ _ _ => False | _ => ¬ exchanges c end.

Lemma is_set_true {A} (x : option A) : is_set x = true ↔ is_Some x.
Proof. destruct x; simpl; [naive_solver|]. split; [done|by intros [? ?]]. Qed.

(** ** Credentials *)

Lemma complete_fields c :
  incomplete c = false ↔ cr_BaseURL c ≠ "" ∧ cr_ClusterID c ≠ "" ∧ cr_Token c ≠ "".
Proof. unfold incomplete. rewrite bool_decide_eq_false. naive_solver. Qed.

Lemma NewHTTPClient_complete c : incomplete (trimmed c) = false →
  NewHTTPClient (configOf c) = Ok {| hc_baseURL := TrimRight (cr_BaseURL c) (byte 47);
    hc_clusterID := cr_ClusterID c; hc_token := cr_Token c |}.
Proof.
  rewrite complete_fields. intros (? & ? & ?). unfold NewHTTPClient. simpl in *.
  by rewrite !bool_decide_eq_false_2.
Qed.

Lemma trimmed_idemp c : trimmed (trimmed c) = trimmed c.
Proof. unfold trimmed; simpl. by rewrite !TrimSpace_idemp. Qed.

Lemma CredentialsFromSecret_ok s c : CredentialsFromSecret s = Ok c →
  trimmed c = c ∧ incomplete c = false.
Proof.
  unfold CredentialsFromSecret. destruct (incomplete _) eqn:Hi; [done|]. intros [= <-].
  split; [|done]. unfold trimmed; simpl. unfold baseURLFromSecretData. by rewrite !TrimSpace_idemp.
Qed.

(** What was read from a Secret always makes a client: the nil client of
    [reconcileHeartbeat] does not occur. *)
Lemma stored_client s c : CredentialsFromSecret s = Ok c → ∃ h, NewHTTPClient (configOf c) = Ok h.
Proof.
  intros [Ht Hi]%CredentialsFromSecret_ok. eexists. apply NewHTTPClient_complete. by rewrite Ht.
Qed.

Lemma dataOf_credentialData cred data :
  dataOf (credentialData cred data) SecretKeyControlPlaneBaseURL = TrimSpace (cr_BaseURL cred) ∧
  dataOf (credentialData cred data) SecretKeyClusterID = TrimSpace (cr_ClusterID cred) ∧
  dataOf (credentialData cred data) SecretKeyToken = TrimSpace (cr_Token cred).
Proof.
  unfold dataOf, credentialData. split_and!.
  - by rewrite lookup_insert_ne, lookup_insert_ne, lookup_insert_eq.
  - by rewrite lookup_insert_ne, lookup_insert_eq.
  - by rewrite lookup_insert_eq.
Qed.

Section World.
Context {Ol : OwnerLib} (clusterOk : Cluster → Prop) (pod : string).
Notation world := (secretWorld clusterOk pod).

Lemma credentialSecret_data cred owner s s' :
  credentialSecret cred owner s = Ok s' → sec_Data s' = credentialData cred (sec_Data s).
Proof.
  unfold credentialSecret. destruct owner as [o|]; [|by intros [= <-]].
  destruct (SetControllerReference _ _); [by intros [= <-]|done].
Qed.

Lemma credentialSecret_reads cred owner s s' :
  credentialSecret cred owner s = Ok s' → incomplete (trimmed cred) = false →
  CredentialsFromSecret s' = Ok (trimmed cred).
Proof.
  intros Hs%credentialSecret_data Hi. unfold CredentialsFromSecret, baseURLFromSecretData. rewrite Hs.
  destruct (dataOf_credentialData cred (sec_Data s)) as (-> & -> & ->). rewrite !TrimSpace_idemp.
  fold (trimmed cred). by rewrite Hi.
Qed.

(** The credentials a world holds under a key. *)
Definition storedIn (g : secrets) (ns name : string) : result Credentials :=
  match g !! (ns, fallback name DefaultCredentialsSecret) with
  | Some s => CredentialsFromSecret s
  | None => Err (errorf "credentials secret not found")
  end.

Lemma load_exact (may : permission wcall secrets) ns name g :
  (∀ X (c : wcall X), quiet X c → may X c g) →
  wp world may (loadStoredCredentials ns name) (λ l g', l = storedIn g ns name ∧ g' = g) g.
Proof.
  intros Hm. unfold loadStoredCredentials, GetCredentialsSecret. apply wp_bind, wp_bind. unfold call.
  cbn [wp]. split; [apply Hm; simpl; tauto|]. intros x g' [-> Hx]. unfold storedIn.
  destruct (g !! _) as [s|] eqn:Hs; [by subst x|].
  destruct Hx as (e & -> & He). rewrite He. done.
Qed.

Lemma persist_exact (may : permission wcall secrets) ns name cred owner g :
  TrimSpace ns = ns → TrimSpace name = name →
  (∀ X (c : wcall X), ¬ exchanges c → may X c g) →
  wp world may (PersistCredentials ns name cred owner)
    (λ r g', match r with
             | Err _ => g' = g
             | Ok _ => incomplete (trimmed cred) = false ∧ storedIn g' ns name = Ok (trimmed cred) ∧
                       ∀ k, k ≠ (ns, fallback name DefaultCredentialsSecret) → g' !! k = g !! k
             end) g.
Proof.
  intros Hns Hn Hm. unfold PersistCredentials. rewrite Hns, Hn.
  case_bool_decide; [done|]. destruct (incomplete (trimmed cred)) eqn:Hi; [done|].
  apply wp_vis; [apply Hm; simpl; tauto|].
  intros x g' [(s & Hs & -> & ->)|(e & -> & ->)]; [|done].
  split_and!; [done| |intros k Hk; by apply lookup_insert_ne].
  unfold storedIn. rewrite lookup_insert_eq. by eapply credentialSecret_reads.
Qed.

Lemma quiet_world X (c : wcall X) g x g' : quiet X c → world X c g x g' → g' = g.
Proof. destruct c; simpl; naive_solver. Qed.

(** A program of quiet calls leaves the Secrets alone. *)
Lemma quiet_wp {A : Type} (may : permission wcall secrets) (p : prog wcall A) Q g :
  (∀ X (c : wcall X), quiet X c → may X c g) →
  only quiet p Q → wp world may p (λ a g', Q a ∧ g' = g) g.
Proof.
  intros Hm Hp. specialize (Hp []). revert Hp. generalize (@nil (event wcall)) as t.
  induction p as [a|X c k IH]; intros t; simpl; [done|].
  intros [Hc Hk]. split; [by apply Hm|]. intros x g' Hw.
  rewrite (quiet_world _ _ _ _ _ Hc Hw). eapply (IH x), Hk. exact eq_refl.
Qed.

End World.

(** ** One exchange

    Attempts of [RetryOnConflict] make only the calls of the attempt. *)

Lemma only_attempts (P : ∀ X, wcall X → Prop) n fn :
  only P fn (λ _, True) → only P (attempts n fn) (λ _, True).
Proof.
  intros Hf. induction n as [|n IH]; cbn [attempts];
    (apply only_bind_any; [done|intros [a|e]]); try by apply only_ret.
  destruct (IsApiConflict e); [done|by apply only_ret].
Qed.

Ltac quietly := intros; only_go; try done; simpl; tauto.

Ltac kept := first [exact (λ Hr, Hr) | assumption | simpl in *; tauto].

Section Once.
Context {Hl : HttpLib} {Kl : KubeLib} {Ol : OwnerLib} {Rl : RetryLib} {Rw : RetryLaws}.
Context (r : ClusterReconciler) (pod : string).
Notation world := (secretWorld (λ c, reRegisterRequested c = false) pod).

Lemma adopt_quiet key c token name ns : only quiet (adoptAndReload key c token name ns) (λ _, True).
Proof.
  unfold adoptAndReload, adoptExistingRegistration, getCluster, stop, continue.
  apply only_bind_any; [|quietly].
  edestruct law_retry as [n ->]. apply only_attempts. quietly.
Qed.

Lemma record_quiet t c fp name ns : only quiet (recordExchange t c fp name ns) (λ _, True).
Proof.
  unfold recordExchange, getCluster. edestruct law_retry as [n ->]. apply only_attempts. quietly.
Qed.

Lemma sync_quiet now c : only quiet (syncBufferOverflowCondition r now c) (λ _, True).
Proof. unfold syncBufferOverflowCondition. quietly. Qed.

Lemma stageFailed_quiet now c prev what res :
  only quiet (stageFailed r now c prev what res) (λ _, True).
Proof.
  unfold stageFailed, stop, reportConditions. apply only_bind_any; [apply sync_quiet|quietly].
Qed.

Lemma http_quiet c method endpoint b :
  (∀ q, b ≠ Some (BRegister q)) →
  only quiet (http_do c method endpoint b) (λ _, True).
Proof.
  intros Hb. unfold http_do. only_go; try done. simpl. destruct b as [[]|]; naive_solver.
Qed.

Lemma heartbeat_quiet c name ns : only quiet (reconcileHeartbeat r c name ns) (λ _, True).
Proof.
  unfold reconcileHeartbeat, heartbeatClient, loadStoredCredentials, GetCredentialsSecret, publish,
    reportConditions, client_Heartbeat, http_Heartbeat, PostEvents, finish, failWith.
  repeat match goal with
  | |- only _ (http_do _ _ _ _) _ => apply http_quiet; done
  | |- only _ (syncBufferOverflowCondition _ _ _) _ => apply sync_quiet
  | _ => progress (only_go; try done)
  end; simpl; tauto.
Qed.
(** The key under which credentials are kept. *)
Definition podNamespace : string :=
  if bool_decide (TrimSpace (cr_OperatorNamespace r) ≠ "") then cr_OperatorNamespace r
  else fallback pod "vworkspace-system".

Definition registeredIn (g : secrets) : Prop :=
  ∃ c, storedIn g podNamespace (credentialsSecretName r) = Ok c.

(** No exchange while credentials are stored. *)
Definition once : permission wcall secrets := λ X c g, exchanges c → ¬ registeredIn g.

Lemma once_quiet X (c : wcall X) g : quiet X c → once X c g.
Proof. unfold once. destruct c; simpl; tauto. Qed.

Lemma once_other X (c : wcall X) g : ¬ exchanges c → once X c g.
Proof. by intros ? ?. Qed.

Lemma quiet_once {A : Type} (p : prog wcall A) Q g :
  only quiet p Q → wp world once p (λ a g', Q a ∧ g' = g) g.
Proof. intros Hp. apply quiet_wp; [|done]. intros; by apply once_quiet. Qed.

Context (Hns : TrimSpace podNamespace = podNamespace).
Context (Hname : TrimSpace (credentialsSecretName r) = credentialsSecretName r).
Notation ns := podNamespace.
Notation name := (credentialsSecretName r).
Notation keeps g := (λ _ g', registeredIn g → registeredIn g').

Lemma quiet_keeps {A : Type} (p : prog wcall A) g g0 :
  (registeredIn g0 → registeredIn g) → only quiet p (λ _, True) → wp world once p (keeps g0) g.
Proof. intros Hg Hp%(quiet_once _ _ g). eapply wp_mono; [|exact Hp]. naive_solver. Qed.

Lemma persist_keeps cred owner g :
  wp world once (PersistCredentials ns name cred owner) (keeps g) g.
Proof.
  eapply wp_mono; [|apply persist_exact; [done..|]].
  - intros [] g'; simpl; [|by intros ->]. intros (_ & Hst & _) _. by eexists.
  - intros; by apply once_other.
Qed.

Lemma quiet_any {A : Type} (p : prog wcall A) g :
  only quiet p (λ _, True) → wp world once p (λ _ _, True) g.
Proof. intros Hp%(quiet_once _ _ g). by eapply wp_mono; [|exact Hp]. Qed.

Lemma wp_any {A B : Type} (p : prog wcall A) (f : A → prog wcall B) Q g :
  wp world once p (λ _ _, True) g → (∀ a g', wp world once (f a) Q g') →
  wp world once (prog_bind f p) Q g.
Proof. intros Hp Hf. apply wp_bind. eapply wp_mono; [|exact Hp]. intros a g' _. apply Hf. Qed.

Lemma exchange_permitted baseURL token id g :
  ¬ registeredIn g → wp world once (Register baseURL token id) (λ _ _, True) g.
Proof.
  intros Hg. unfold Register. do 2 (case_bool_decide; [done|]). destruct (url_error _); [done|].
  apply wp_vis; [by intros _|]. intros [] g' _; [|done]. by destruct (negb _).
Qed.

(** An exchange starts only without stored credentials; what follows it makes
    none. *)
Lemma register_once c token source g :
  ¬ registeredIn g → wp world once (registerCluster r c token source name ns) (λ _ _, True) g.
Proof.
  intros Hg. unfold registerCluster. case_bool_decide; [done|]. apply wp_any.
  { destruct (cr_RegistrationClient r); [|by apply exchange_permitted].
    split; [by intros _|done]. }
  intros [resp|e] g1; [|done]. apply wp_any.
  { eapply wp_mono; [|apply persist_keeps]. done. }
  intros [[]|e] g2; [|done]. apply quiet_any. apply only_bind_any; [quietly|]. intros now.
  destruct (postRegistration _ _ _) as [c' ch]. apply only_bind_any; [destruct ch; quietly|].
  intros [c2|e]; [|by apply only_ret].
  apply only_bind_any; [apply record_quiet|]. intros. by apply only_ret.
Qed.

Lemma wp_load (f : result Credentials → prog wcall (Cluster + outcome)) Q g :
  wp world once (f (storedIn g ns name)) Q g →
  wp world once (prog_bind f (loadStoredCredentials ns name)) Q g.
Proof.
  intros Hf. apply wp_bind. eapply wp_mono; [|apply load_exact; intros; by apply once_quiet].
  by intros l g' [-> ->].
Qed.

Lemma exchange_keeps key c prev force token source g :
  ¬ registeredIn g →
  wp world once (exchangeToken r key c prev force token source name ns) (keeps g) g.
Proof.
  intros Hg. unfold exchangeToken.
  eapply (wp_mono _ _ _ (λ _ _, True)); [tauto|]. apply wp_any; [by apply register_once|].
  intros [[[]|e] c'] g1.
  - apply quiet_any. unfold getCluster, stop, continue.
    apply only_bind_any; [destruct (_ && _); quietly|quietly].
  - assert (∀ c2, only quiet (let* now := call WNow in stageFailed r now
      (registrationFailed now c2 e) prev "update registration failure status" (after 30)) (λ _, True))
      as Hf by (intros; apply only_bind_any; [quietly|intros; apply stageFailed_quiet]).
    destruct force; [apply quiet_any, Hf|]. apply wp_load.
    destruct (storedIn g1 ns name); apply quiet_any; [apply adopt_quiet|apply Hf].
Qed.

Lemma registration_keeps key c g :
  reRegisterRequested c = false →
  wp world once (reconcileRegistration r key c name ns) (keeps g) g.
Proof.
  intros Hc. unfold reconcileRegistration. rewrite Hc.
  apply wp_bind. eapply wp_mono; [|apply (quiet_once _ (λ _, True))].
  2: { unfold resolveRegistrationToken. quietly. }
  intros res g1 [_ ->].
  assert (∀ token source, wp world once
    (if bool_decide (token = "") ||
       (bool_decide (tokenFingerprint token = cst_ObservedToken (cl_Status c)) && negb false)
     then continue c
     else let* stored := loadStoredCredentials ns name in
      match stored with
      | Ok _ => adoptAndReload key c token name ns
      | Err _ => exchangeToken r key c (cl_Conditions c) false token source name ns
      end) (keeps g) g) as Hproceed.
  { intros token source. destruct (_ || _); [exact (λ Hr, Hr)|]. apply wp_load.
    destruct (storedIn g ns name) as [cr|e] eqn:Hst; [apply quiet_keeps, adopt_quiet; done|].
    apply exchange_keeps. intros [cr Hcr]. congruence. }
  destruct res as [[token source]|e]; [apply Hproceed|]. apply wp_load.
  destruct (storedIn g ns name); [apply Hproceed|].
  apply quiet_keeps; [done|]. apply only_bind_any; [quietly|intros; apply stageFailed_quiet].
Qed.

Lemma rotation_keeps key c g : wp world once (reconcileRotation r key c name ns) (keeps g) g.
Proof.
  unfold reconcileRotation. destruct (negb _); [kept|]. apply wp_bind.
  eapply (wp_mono _ _ _ (keeps g)).
  { intros [[[]|e] c'] g1 Hg1; (apply quiet_keeps; [done|]).
    - unfold getCluster, stop, continue. quietly.
    - apply only_bind_any; [quietly|intros; apply stageFailed_quiet]. }
  unfold rotateCredentials. apply wp_bind.
  eapply wp_mono; [|apply load_exact; intros; by apply once_quiet]. intros l g' [-> ->].
  destruct (storedIn g ns name) as [cr|]; [|kept].
  destruct (match cr_AgentClient r with Some _ => _ | None => _ end) as [cl|]; [|kept].
  apply wp_bind. eapply wp_mono; [|apply (quiet_once _ (λ _, True))].
  2: { unfold client_Rotate, http_RotateCredentials. destruct cl; [quietly|].
       apply only_bind_any; [by apply http_quiet|]. intros. by apply only_ret. }
  intros [resp|] g1 [_ ->]; [|kept]. apply wp_bind. eapply wp_mono; [|apply persist_keeps].
  intros [[]|] g1 Hg1; [|kept]. simpl in Hg1. apply quiet_keeps; [done|]. quietly.
Qed.

Lemma Reconcile_keeps key g : wp world once (Reconcile r key) (keeps g) g.
Proof.
  assert (∀ c, reRegisterRequested c = false → wp world once (stages r key c name ns) (keeps g) g) as Hst.
  { intros c Hc. unfold stages. apply wp_bind. eapply wp_mono; [|by apply registration_keeps].
    intros [c1|out] g1 Hg1; [|kept]. apply wp_bind. eapply wp_mono; [|by apply rotation_keeps].
    intros [c2|out] g2 Hg2; [|simpl in *; tauto].
    apply quiet_keeps; [simpl in *; tauto|apply heartbeat_quiet]. }
  unfold Reconcile. apply wp_vis; [apply once_quiet; simpl; tauto|]. intros got g' [-> Hok].
  destruct got as [c|e]; [|destruct (IsNotFound e); kept].
  specialize (Hok c eq_refl). apply wp_bind.
  eapply (wp_mono _ _ _ (λ n g', n = ns ∧ g' = g)).
  2: { unfold operatorNamespace, podNamespace. case_bool_decide; [done|].
       apply wp_vis; [apply once_quiet; simpl; tauto|]. intros x g' [-> ->]; split; reflexivity. }
  intros n g' [-> ->]. destruct (is_set _).
  { apply quiet_keeps; [done|]. unfold finalizeCluster, finish, failWith. quietly. }
  destruct (ContainsFinalizer _ _); [by apply Hst|]. apply wp_vis; [apply once_quiet; simpl; tauto|].
  intros [c'|e] g' [-> Hok']; [by apply Hst, Hok'|kept].
Qed.

(** Any number of passes. *)
Fixpoint passes (n : nat) (key : string * string) : prog wcall unit :=
  match n with
  | O => Ret tt
  | S n => let* _ := Reconcile r key in passes n key
  end.

(** In any number of passes, with Secrets that are read as they are stored. *)
Lemma passes_keep n key g :
  wp world once (passes n key) (λ _ g', registeredIn g → registeredIn g') g.
Proof.
  revert g. induction n as [|n IH]; intros g; [kept|]. apply wp_bind.
  eapply wp_mono; [|apply Reconcile_keeps]. intros a g1 Hg1.
  eapply wp_mono; [|apply IH]. intros b g2 Hg2. kept.
Qed.

End Once.

(** ** Looking before exchanging

    Here every answer is possible, also to a read of the Secret. *)

Definition silent X (c : wcall X) : Prop := ¬ exchanges c.

Section Looks.
Context {Hl : HttpLib} {Kl : KubeLib} {Ol : OwnerLib} {Rl : RetryLib} {Rw : RetryLaws}.
Context (r : ClusterReconciler) (key : string * string).
Implicit Types (ns : string).

(** The object [c] was read, or returned by an update, in this pass. *)
Definition handed (c : Cluster) (g : trace_of wcall) : Prop :=
  Called (WGetCluster key.1 key.2) (Ok c) ∈ g ∨ ∃ c0, Called (WUpdateCluster c0) (Ok c) ∈ g.

(** [ns] is the namespace the operator is configured with, or the pod's. *)
Definition own_namespace (ns : string) (g : trace_of wcall) : Prop :=
  (TrimSpace (cr_OperatorNamespace r) ≠ "" ∧ ns = cr_OperatorNamespace r) ∨
  ∃ pod, Called (WGetenv "POD_NAMESPACE") pod ∈ g ∧ ns = fallback pod "vworkspace-system".

(** The credentials Secret was just read, and no complete credentials were in the
    answer. *)
Definition looked_in_vain (ns : string) (g : trace_of wcall) : Prop :=
  ∃ x, last g = Some (Called (WGetSecret ns (fallback (credentialsSecretName r) DefaultCredentialsSecret)) x) ∧
       ∀ s, x = Ok s → is_ok (CredentialsFromSecret s) = false.

Definition may_exchange (g : trace_of wcall) : Prop :=
  Forall (call_in silent) g ∧
  ((∃ c, handed c g ∧ reRegisterRequested c = true) ∨ ∃ ns, own_namespace ns g ∧ looked_in_vain ns g).

Definition looks_first : permission wcall (trace_of wcall) := λ X c g, exchanges c → may_exchange g.

Local Notation wpl p Q g := (wp traced looks_first p Q g).

Lemma silently_looks {A : Type} (p : prog wcall A) (g : trace_of wcall) :
  only silent p (λ _, True) → wpl p (λ _ g', ∃ k, g' = g ++ k ∧ Forall (call_in silent) k) g.
Proof.
  intros Hp. eapply wp_mono; [|eapply only_trace; [|exact Hp]]; [by intros a g' [_ Hk]|].
  intros X c g' Hc _ He. by destruct Hc.
Qed.

Lemma silently_any {A : Type} (p : prog wcall A) g : only silent p (λ _, True) → wpl p (λ _ _, True) g.
Proof. intros Hp. eapply wp_mono; [|by apply silently_looks]. done. Qed.

Lemma quiet_silent {A : Type} (p : prog wcall A) : only quiet p (λ _, True) → only silent p (λ _, True).
Proof. apply only_mono; [|done]. intros X c. by destruct c. Qed.

Ltac one_silent := repeat (apply Forall_cons; split); try apply Forall_nil; unfold call_in, silent; simpl; tauto.
Ltac silently := intros; only_go; try done; unfold silent; simpl; tauto.

Lemma persist_silent ns name cred owner : only silent (PersistCredentials ns name cred owner) (λ _, True).
Proof. unfold PersistCredentials. silently. Qed.

Lemma rotation_silent c name ns : only silent (reconcileRotation r key c name ns) (λ _, True).
Proof.
  unfold reconcileRotation. destruct (negb _); [silently|]. apply only_bind_any.
  - unfold rotateCredentials. apply only_bind_any.
    { unfold loadStoredCredentials, GetCredentialsSecret. silently. }
    intros [cr|e]; [|silently].
    destruct (match cr_AgentClient r with Some _ => _ | None => _ end) as [cl|]; [|silently].
    apply only_bind_any.
    + unfold client_Rotate, http_RotateCredentials. destruct cl; [silently|].
      apply only_bind_any; [by apply quiet_silent, http_quiet|silently].
    + intros [resp|e]; [|silently]. apply only_bind_any; [apply persist_silent|]. silently.
  - intros [[[]|e] c']; [unfold getCluster, stop, continue; silently|].
    apply only_bind_any; [silently|]. intros now. apply quiet_silent, stageFailed_quiet.
Qed.

Lemma register_looks c token source name ns g :
  may_exchange g → wpl (registerCluster r c token source name ns) (λ _ _, True) g.
Proof.
  intros Hg. unfold registerCluster. case_bool_decide; [done|]. apply wp_bind.
  eapply (wp_mono _ _ _ (λ _ _, True)).
  - intros [resp|e] g1 _; [|done]. apply silently_any. apply only_bind_any; [apply persist_silent|].
    intros [[]|e]; [|silently]. apply only_bind_any; [silently|]. intros now.
    destruct (postRegistration _ _ _) as [c' ch]. apply only_bind_any; [destruct ch; silently|].
    intros [c2|e]; [|silently]. apply only_bind_any; [apply quiet_silent, record_quiet|silently].
  - destruct (cr_RegistrationClient r); [apply wp_vis; [by intros _|done]|].
    unfold Register. do 2 (case_bool_decide; [done|]). destruct (url_error _); [done|].
    apply wp_vis; [by intros _|]. intros [] g' _; [|done]. by destruct (negb _).
Qed.

Lemma exchange_looks c prev force token source name ns g :
  may_exchange g → wpl (exchangeToken r key c prev force token source name ns) (λ _ _, True) g.
Proof.
  intros Hg. unfold exchangeToken. apply wp_bind. eapply wp_mono; [|by apply register_looks].
  intros [[[]|e] c'] g1 _; apply silently_any.
  - unfold getCluster, stop, continue. apply only_bind_any; [destruct (_ && _); silently|silently].
  - apply only_bind_any; [destruct force; [silently|unfold loadStoredCredentials, GetCredentialsSecret; silently]|].
    intros [cr|e']; [apply quiet_silent, adopt_quiet|].
    apply only_bind_any; [silently|intros; apply quiet_silent, stageFailed_quiet].
Qed.

(** A load ends with its only call, the read. *)
Lemma load_looks name ns g (f : result Credentials → prog wcall (Cluster + outcome)) Q :
  (∀ l g1 x, g1 = g ++ [Called (WGetSecret ns (fallback name DefaultCredentialsSecret)) x] →
     (∀ s, x = Ok s → is_ok l = false → is_ok (CredentialsFromSecret s) = false) → wpl (f l) Q g1) →
  wpl (prog_bind f (loadStoredCredentials ns name)) Q g.
Proof.
  intros Hf. unfold loadStoredCredentials, GetCredentialsSecret. apply wp_bind, wp_bind. unfold call.
  split; [by intros ?|]. intros x g' ->. apply wp_bind.
  destruct x as [s|e]; cbn; [|destruct (IsNotFound e); cbn].
  - eapply Hf; [done|]. by intros s' [= <-].
  - eapply Hf; [done|]. by intros s'.
  - eapply Hf; [done|]. by intros s'.
Qed.

Lemma registration_looks c ns g :
  Forall (call_in silent) g → handed c g → own_namespace ns g →
  wpl (reconcileRegistration r key c (credentialsSecretName r) ns) (λ _ _, True) g.
Proof.
  intros Hq Hh Hns. unfold reconcileRegistration.
  assert (∀ token source g, Forall (call_in silent) g → handed c g → own_namespace ns g → wpl
    (if bool_decide (token = "") ||
       (bool_decide (tokenFingerprint token = cst_ObservedToken (cl_Status c)) && negb (reRegisterRequested c))
     then continue c
     else let* stored := (if reRegisterRequested c then Ret (Err (errorf "")) else
                            loadStoredCredentials ns (credentialsSecretName r)) in
      match stored with
      | Ok _ => adoptAndReload key c token (credentialsSecretName r) ns
      | Err _ => exchangeToken r key c (cl_Conditions c) (reRegisterRequested c) token source (credentialsSecretName r) ns
      end) (λ _ _, True) g) as Hproceed.
  { clear g Hq Hh Hns. intros token source g Hq Hh Hns. destruct (_ || _); [done|].
    destruct (reRegisterRequested c) eqn:Hre.
    - cbn [prog_bind]. apply exchange_looks. split; [done|]. left. by exists c.
    - apply load_looks. intros [cr|e] g1 x -> Hx; [apply silently_any, quiet_silent, adopt_quiet|].
      apply exchange_looks. split; [apply Forall_app; split; [done|one_silent]|].
      right. exists ns. split.
      + destruct Hns as [?|(pod & Hp & ?)]; [by left|right]. exists pod. split; [set_solver|done].
      + exists x. split; [apply last_snoc|]. intros s ->. by apply Hx. }
  apply wp_bind. eapply wp_mono; [|apply silently_looks].
  2: { unfold resolveRegistrationToken. silently. }
  intros res g1 (k & -> & Hk).
  assert (Hq1 : Forall (call_in silent) (g ++ k)) by by apply Forall_app.
  assert (Hh1 : handed c (g ++ k)) by (unfold handed in *; set_solver).
  assert (Hn1 : own_namespace ns (g ++ k)) by (unfold own_namespace in *; set_solver).
  destruct res as [[token source]|e]; [by apply Hproceed|].
  apply load_looks. intros [cr|e'] g2 x -> _; [|].
  - apply Hproceed; [apply Forall_app; split; [done|one_silent]|unfold handed in *; set_solver|].
    unfold own_namespace in *; set_solver.
  - apply silently_any. apply only_bind_any; [silently|intros; apply quiet_silent, stageFailed_quiet].
Qed.

Lemma Reconcile_looks : wpl (Reconcile r key) (λ _ _, True) [].
Proof.
  assert (∀ c ns g, Forall (call_in silent) g → handed c g → own_namespace ns g →
    wpl (stages r key c (credentialsSecretName r) ns) (λ _ _, True) g) as Hst.
  { intros c ns g Hq Hh Hns. unfold stages. apply wp_bind. eapply wp_mono; [|by apply registration_looks].
    intros [c1|out] g1 _; [|done]. apply silently_any. apply only_bind_any; [apply rotation_silent|].
    intros [c2|out]; [apply quiet_silent, heartbeat_quiet|silently]. }
  unfold Reconcile, getCluster. apply wp_vis; [by intros ?|]. intros got g ->.
  destruct got as [c|e]; [|by destruct (IsNotFound e)].
  apply wp_bind. eapply (wp_mono _ _ _ (λ ns g, Forall (call_in silent) g ∧ handed c g ∧ own_namespace ns g)).
  2: { unfold operatorNamespace. case_bool_decide as Hns; cbn.
       - split_and!; [one_silent|left; set_solver|by left].
       - split; [by intros ?|]. intros pod g' ->. split_and!; [one_silent|left; set_solver|].
         right. exists pod. split; [set_solver|done]. }
  intros ns g (Hq & Hh & Hns). destruct (is_set _).
  { apply silently_any. unfold finalizeCluster, finish, failWith. silently. }
  destruct (ContainsFinalizer _ _); [by apply Hst|]. apply wp_vis; [by intros ?|].
  intros [c'|e] g' ->; [|done]. apply Hst; [apply Forall_app; split; [done|one_silent]| |].
  - right. eexists. apply elem_of_app. right. by apply list_elem_of_singleton.
  - unfold own_namespace in *. set_solver.
Qed.

Context (pod : string).
Context (Hns : TrimSpace (podNamespace r pod) = podNamespace r pod).
Context (Hname : TrimSpace (credentialsSecretName r) = credentialsSecretName r).

(** C4: a registration token is exchanged only when credentials were looked for and
    not found.  Whatever the server answers, a pass of the cluster controller makes
    at most one exchange, and makes it only when the object carries the
    re-registration annotation, or when its last call before was the read of the
    credentials Secret in the operator's namespace and the answer held no complete
    credentials (an error of that read counts as not found).  And when Secrets are
    read as they are stored and the annotation is not set, then in any number of
    passes no exchange is made while complete credentials are stored, and stored
    credentials stay stored, whatever else fails; for configured names without
    surrounding space. *)
Theorem exchange_needs_missing_credentials (n : nat) (stored : secrets) :
  wp traced looks_first (Reconcile r key) (λ _ _, True) [] ∧
  wp (secretWorld (λ c, reRegisterRequested c = false) pod) (once r pod) (passes r n key)
    (λ _ g', registeredIn r pod stored → registeredIn r pod g') stored.
Proof. split; [apply Reconcile_looks|by apply passes_keep]. Qed.
End Looks.

(** ** The library parameters, instantiated *)

Definition reference_http : HttpLib := {|
  json_first s := Ok (Json.JObj [("clusterId", Json.JStr "c-1"); ("token", Json.JStr s)]);
  time_parse _ := Ok 0%Z;
  decode_jobs _ := Ok [];
  url_error _ := None
|}.
Definition reference_retry : RetryLib := {| RetryOnConflict := attempts 4 |}.

#[local] Existing Instances reference_http reference_owner reference_retry reference_lib.

Lemma reference_retry_laws : RetryLaws.
Proof. split. intros fn. by exists 4%nat. Qed.

Definition deployed : ClusterReconciler :=
  {| cr_AgentClient := None; cr_RegistrationClient := false;
     cr_CredentialsSecret := DefaultCredentialsSecret; cr_OperatorNamespace := "vworkspace-system";
     cr_EventBatcher := true; cr_Recorder := true |}.

Definition new_cluster : Cluster :=
  {| cl_Meta := meta_of "" "prod";
     cl_Spec := {| cs_ClusterID := ""; cs_ControlPlaneEndpoint := "https://cp.example/";
       cs_ControlPlaneBaseURL := ""; cs_RegistrationTokenSecretRef := None;
       cs_RegistrationToken := "one-time"; cs_Capabilities := None; cs_RotateCredentials := false |};
     cl_Status := {| cst_Phase := ""; cst_Conditions := []; cst_LastHeartbeat := None;
       cst_CredentialStatus := None; cst_CredentialsSecretRef := None; cst_ObservedToken := "" |} |}.

(** A server that always answers with [new_cluster]: status writes are lost. *)
Definition forgetful : handler wcall (secrets * nat) :=
  λ X c, match c in wcall X return secrets * nat → X * (secrets * nat) with
  | WNow => λ g, (0%Z, g)
  | WGetenv _ => λ g, ("", g)
  | WHttp req => λ g,
      match rq_Body req with
      | Some (BRegister _) => (Ok {| rs_StatusCode := 200; rs_Status := "200 OK"; rs_Body := "t0k" |}, (g.1, S g.2))
      | _ => (Ok {| rs_StatusCode := 204; rs_Status := "204 No Content"; rs_Body := "" |}, g)
      end
  | WGetSecret ns name => λ g, (match g.1 !! (ns, name) with
                                | Some s => Ok s
                                | None => Err (mkErr "not found" KNotFound)
                                end, g)
  | WUpsertSecret ns name f => λ g,
      match f (default (fresh_secret ns name) (g.1 !! (ns, name))) with
      | Ok s => (Ok tt, (<[(ns, name) := s]> g.1, g.2))
      | Err e => (Err e, g)
      end
  | WGetCluster _ _ => λ g, (Ok new_cluster, g)
  | WListClusters => λ g, (Ok [new_cluster], g)
  | WUpdateCluster c => λ g, (Ok c, g)
  | WUpdateClusterStatus c => λ g, (Ok c, g)
  | WOverflowState => λ g, ((false, 0%Z), g)
  | WReport _ _ _ => λ g, (tt, g)
  | WReportAudit _ _ _ => λ g, (tt, g)
  | WRecord _ _ _ => λ g, (tt, g)
  | WOtherRegister _ _ _ => λ g, (Err (errorf ""), (g.1, S g.2))
  | WOtherHeartbeat => λ g, (Err (errorf ""), g)
  | WOtherRotate => λ g, (Err (errorf ""), g)
  end.

(** Three passes over a cluster whose status writes are all lost: one exchange. *)
Example three_passes_one_exchange :
  (run forgetful (passes deployed 3 ("", "prod")) (∅, 0%nat)).2.2 = 1%nat.
Proof. vm_compute. reflexivity. Qed.

Lemma exchange_needs_missing_credentials_witness :
  TrimSpace (podNamespace deployed "") = podNamespace deployed "" ∧
  wp traced (looks_first deployed ("", "prod")) (Reconcile deployed ("", "prod")) (λ _ _, True) [] ∧
  wp (secretWorld (λ c, reRegisterRequested c = false) "") (once deployed "")
    (passes deployed 3 ("", "prod"))
    (λ _ g', registeredIn deployed "" ∅ → registeredIn deployed "" g') ∅.
Proof.
  split; [by vm_compute|].
  apply (exchange_needs_missing_credentials (Rw := reference_retry_laws) deployed ("", "prod") "");
    vm_compute; reflexivity.
Defined.
