(* ===== verification/Access.v ===== *)
(** * The operator's access to the control plane

    Registration and rotation of the cluster controller, through the HTTP client,
    against the server of [ControlPlane] and an API server that keeps Secrets:
    what the operator has stored, and what the control plane accepts. *)

From stdpp Require Import base list strings pretty gmap.
From S2P Require Import Prelude Traces GoStrings Api Json Events Kube Agent HttpClient ControlPlane ControlPlaneProofs.
From S2P Require Import Credentials Cluster ClusterProofs.

(** ** Visible text *)

(** Printable ASCII without the space. *)
Definition visible (c : Ascii.ascii) : bool :=
  ((33 <=? Ascii.nat_of_ascii c) && (Ascii.nat_of_ascii c <=? 126))%nat.

Fixpoint all_visible (s : string) : bool :=
  match s with EmptyString => true | String c s => visible c && all_visible s end.

(** What IDs and tokens look like. *)
Definition plain (s : string) : Prop := s ≠ "" ∧ all_visible s = true.

#[export] Instance plain_dec s : Decision (plain s).
Proof. unfold plain. apply _. Defined.

Lemma visible_solid c : visible c = true → solid c = true.
Proof. destruct c as [[] [] [] [] [] [] [] []]; vm_compute; done. Qed.

Lemma all_visible_app s t : all_visible (s +:+ t) = all_visible s && all_visible t.
Proof. induction s as [|c s IH]; [done|]. rewrite app_String_cons. simpl. by rewrite IH, andb_assoc. Qed.

Lemma plain_app s t : all_visible s = true → plain t → plain (s +:+ t).
Proof.
  intros Hs [Hne Ht]. split; [|by rewrite all_visible_app, Hs, Ht].
  destruct s; [by rewrite app_String_nil|done].
Qed.

Lemma plain_last s : plain s → ∃ t b, s = t +:+ String b "" ∧ visible b = true.
Proof.
  intros [Hne Hs]. induction s as [|c s IH]; [done|]. simpl in Hs. apply andb_true_iff in Hs as [Hc Hs].
  destruct s as [|d s]; [by exists "", c|]. destruct IH as (t & b & Heq & Hb); [done..|].
  exists (String c t), b. split; [|done]. by rewrite Heq, app_String_cons.
Qed.

(** Text that starts with a visible byte and ends in plain text is not trimmed. *)
Lemma TrimSpace_plain a s t : visible a = true → plain t → TrimSpace (String a s +:+ t) = String a s +:+ t.
Proof.
  intros Ha (u & b & -> & Hb)%plain_last. rewrite app_String_cons.
  apply (TrimSpace_id a _ b (String a s +:+ u)); [by apply visible_solid..|].
  by rewrite !app_String_cons, app_String_assoc.
Qed.

Lemma plain_trim s : plain s → TrimSpace s = s.
Proof.
  intros Hs. destruct s as [|a s]; [by destruct Hs|]. pose proof Hs as [_ Ha]. simpl in Ha.
  apply andb_true_iff in Ha as [Ha _]. destruct (plain_last _ Hs) as (u & b & Heq & Hb).
  by apply (TrimSpace_id a s b u); [apply visible_solid..|].
Qed.

Lemma digit_visible d : (d < 10)%N → visible (pretty_N_char d) = true.
Proof.
  intros Hd.
  assert (d = 0 ∨ d = 1 ∨ d = 2 ∨ d = 3 ∨ d = 4 ∨ d = 5 ∨ d = 6 ∨ d = 7 ∨ d = 8 ∨ d = 9)%N
    as Hc by lia. by repeat destruct Hc as [->|Hc]; subst.
Qed.

Lemma pretty_N_visible x s : all_visible s = true → all_visible (pretty_N_go x s) = true.
Proof.
  revert s. induction (N.lt_wf_0 x) as [x _ IH]; intros s Hs.
  destruct (decide (x = 0)%N) as [->|Hx]; [by rewrite pretty_N_go_0|].
  rewrite pretty_N_go_step by lia. apply IH; [apply N.div_lt; lia|]. simpl.
  rewrite digit_visible by (apply N.mod_lt; lia). done.
Qed.

Lemma itoa_plain z : plain (itoa z).
Proof.
  assert (Hp : ∀ p, plain (pretty (Npos p))).
  { intros p. destruct (pretty_N_digits p) as [_ Hne]. split.
    - intros He. by rewrite He in Hne.
    - unfold pretty, pretty_N. rewrite decide_False by done. by apply pretty_N_visible. }
  destruct z as [|p|p]; [by split|apply Hp|]. destruct (Hp p) as [_ Hv]. by split.
Qed.

(** The server reads from the header the token that the client has put there. *)
Lemma bearer_plain token method url b : plain token → bearerToken (requestFor token method url b) = token.
Proof.
  intros Ht. unfold bearerToken. cbn [rq_Authorization requestFor].
  rewrite (TrimSpace_plain _ "earer ") by done. rewrite HasPrefix_app, TrimPrefix_app. by apply plain_trim.
Qed.

#[local] Opaque TrimSpace TrimRight.

(** A token that is refused, whatever is asked for. *)
Definition refused (s : Server) (token : string) : Prop :=
  ∀ req want, bearerToken req = token → ∃ e, authorize s req want = Err e.

(** ** The site: a control plane and the operator's Secrets *)

(** The laws of the encodings on visible text, and the URLs that parse. *)
Class AccessLaws `{HttpLib} `{WireLib} (base : string) := {
  law_register_body q :
    all_visible (rr_RegistrationToken q) = true → all_visible (rr_ClusterID q) = true →
    rr_DisplayName q = "" → wire_register (BRegister q) = Ok q;
  law_register_answer id token : plain id → plain token →
    json_first (encode_register id token) = Ok (JObj [("clusterId", JStr id); ("token", JStr token)]);
  law_rotate_answer token : plain token → json_first (encode_rotate token) = Ok (JObj [("token", JStr token)]);
  law_register_url : url_error (base +:+ "/api/agent/register") = None;
  law_rotate_url : url_error (base +:+ "/api/agent/credentials/rotate") = None
}.

Section Access.
Context {Hl : HttpLib} {Wl : WireLib} {Kl : KubeLib} {Ol : OwnerLib} {Rl : RetryLib} {Rw : RetryLaws}.
Context (base pod : string) {Al : AccessLaws base} (r : ClusterReconciler).

Notation secretsWorld := (secretWorld (λ _, True) pod).

Definition site : environment wcall (Server * secrets) := both (control_plane base) secretsWorld.

Lemma serve_path path b token :
  no_byte (byte 63) path = true → unescape false path = Some path →
  requestTarget base (rq_URL (requestFor token "POST" (base +:+ path) b)) = Some (path, [""]).
Proof. intros Hq Hu. by apply requestTarget_plain. Qed.

Lemma bound_plain c s :
  plain (hc_token c) → plain (hc_clusterID c) → sv_tokenIndex s !! hc_token c = Some (hc_clusterID c) →
  bound c s.
Proof.
  intros Ht Hid Hix. split; [done|intros; by apply bearer_plain|by destruct Ht|].
  split; [by apply plain_trim|by destruct Hid].
Qed.

(** *** Registration *)

(** A registration token the server knows, for a cluster that is new or has a token. *)
Record invited (s : Server) (token id : string) : Prop := {
  invited_token : plain token;
  invited_id : plain id;
  invited_known : sv_registrationTokens s !! token = Some id;
  invited_cluster : let t := cs_bootstrapToken (ensureClusterLocked s id) in
    t = "" ∨ plain t ∧ sv_tokenIndex s !! t = Some id
}.

Lemma handleRegister_invited s id q :
  invited s (rr_RegistrationToken q) id → wire_register (BRegister q) = Ok q →
  ∃ t s', handleRegister s (requestFor (rr_RegistrationToken q) "POST" (base +:+ "/api/agent/register")
                              (Some (BRegister q))) = (ok (encode_register id t), s') ∧
    plain t ∧ sv_tokenIndex s' !! t = Some id ∧ sv_registrationTokens s' !! rr_RegistrationToken q = None.
Proof.
  intros [Ht Hid Hk Hc] Hb. unfold handleRegister. change (acceptsV1 _) with true. cbn [negb].
  rewrite bearer_plain by done. pose proof Ht as [Hne _].
  rewrite bool_decide_eq_false_2 by done. cbn [rq_Body requestFor decode_register]. rewrite Hb.
  rewrite (plain_trim (rr_RegistrationToken q)), bool_decide_eq_false_2, Hk by done. cbn zeta.
  eexists _, _. split; [reflexivity|]. cbn zeta in Hc. case_bool_decide as Hf; split_and!.
  - by apply plain_app.
  - cbn. by rewrite lookup_insert_eq.
  - cbn. by rewrite lookup_delete_eq.
  - by destruct Hc as [|[]].
  - by destruct Hc as [|[]].
  - cbn. by rewrite lookup_delete_eq.
Qed.

(** The client the operator makes of the answer. *)
Definition client_for (id t : string) : HTTPClient := {| hc_baseURL := base; hc_clusterID := id; hc_token := t |}.

Lemma decodeRegister_answer id t :
  plain id → plain t →
  decodeRegister (ok (encode_register id t)) = Ok {| rg_ClusterID := id; rg_Token := t; rg_ExpiresAt := None |}.
Proof.
  intros Hid Ht. unfold decodeRegister. cbn [rs_Body ok respond]. rewrite law_register_answer by done. reflexivity.
Qed.

Lemma register_effect url token spec id s :
  TrimRight (TrimSpace url) (byte 47) = base → base ≠ "" →
  invited s token id → all_visible (TrimSpace spec) = true →
  wp (control_plane base) anything (Register url token spec)
    (λ x s', ∃ t, x = Ok {| rg_ClusterID := id; rg_Token := t; rg_ExpiresAt := None |} ∧ plain t ∧
       bound (client_for id t) s' ∧ sv_registrationTokens s' !! token = None) s.
Proof.
  intros Hurl Hbase Hinv Hspec. pose proof Hinv as [Ht Hid _ _].
  unfold Register. rewrite Hurl, (plain_trim token) by done.
  rewrite bool_decide_eq_false_2 by done. rewrite bool_decide_eq_false_2 by by destruct Ht.
  rewrite law_register_url. apply wp_vis; [done|]. intros x s' Hx.
  unfold control_plane, serveHTTP in Hx. rewrite serve_path in Hx by reflexivity. cbn [rq_Method requestFor] in Hx.
  rewrite bool_decide_eq_false_2, !bool_decide_eq_true_2 in Hx by done.
  set (q := {| rr_RegistrationToken := token; rr_ClusterID := TrimSpace spec; rr_DisplayName := "" |}) in Hx.
  destruct (handleRegister_invited s id q) as (t & s1 & Heq & Hpt & Hix & Hsp); [done| |].
  { apply law_register_body; [by destruct Ht|done|done]. }
  change token with (rr_RegistrationToken q) in Hx. rewrite Heq in Hx. injection Hx as -> ->.
  cbn [rs_StatusCode ok respond fst]. rewrite bool_decide_eq_true_2 by done. cbn [negb].
  exists t. split; [|split_and!; [done|by apply bound_plain|done]].
  rewrite decodeRegister_answer by done. cbn [registered rg_ClusterID rg_Token rg_ExpiresAt].
  rewrite !plain_trim by done. rewrite bool_decide_eq_false_2; [done|]. destruct Hid, Hpt. tauto.
Qed.
(** The exchange touches no Secret. *)
Lemma register_secrets url token spec g :
  wp secretsWorld anything (Register url token spec) (λ _ g', g' = g) g.
Proof.
  unfold Register. do 2 (case_bool_decide; [done|]). destruct (url_error _); [done|].
  apply wp_vis; [done|]. intros [] g' ->; [|done]. by destruct (negb _).
Qed.

(** *** Programs that leave the site alone *)

Definition offline X (c : wcall X) : Prop := match c with WHttp _ => False | _ => True end.

Lemma offline_wp {A : Type} (p : prog wcall A) s :
  only offline p (λ _, True) → wp (control_plane base) anything p (λ _ s', s' = s) s.
Proof.
  intros Hp. specialize (Hp []). revert Hp. generalize (@nil (event wcall)) as t.
  induction p as [a|X c k IH]; intros t; simpl; [done|]. intros [Hc Hk]. split; [done|]. intros x s' Hx.
  assert (s' = s) as -> by by destruct c. eapply (IH x), Hk. exact eq_refl.
Qed.

(** Neither a request nor a write of a Secret. *)
Definition calm X (c : wcall X) : Prop := quiet X c ∧ offline X c.

Lemma calm_site {A : Type} (p : prog wcall A) w :
  only calm p (λ _, True) → wp site anything p (λ _ w', w' = w) w.
Proof.
  intros Hp. specialize (Hp []). revert Hp. generalize (@nil (event wcall)) as t.
  induction p as [a|X c k IH]; intros t; simpl; [done|]. intros [[Hq Ho] Hk]. split; [done|].
  intros x [s g] [Hs Hg]. cbn in Hs, Hg.
  assert (s = w.1) as -> by by destruct c. rewrite (quiet_world _ _ _ _ _ _ _ Hq Hg).
  replace (w.1, w.2) with w by by destruct w. eapply (IH x), Hk. exact eq_refl.
Qed.

Ltac calmly := intros; only_go; try done; unfold calm; simpl; tauto.

Lemma record_calm t c fp name ns : only calm (recordExchange t c fp name ns) (λ _, True).
Proof. unfold recordExchange, getCluster. edestruct law_retry as [n ->]. apply only_attempts. calmly. Qed.

(** Persisting changes one Secret, or nothing. *)
Lemma persist_site ns name cred owner w :
  TrimSpace ns = ns → TrimSpace name = name →
  wp site anything (PersistCredentials ns name cred owner)
    (λ x w', w'.1 = w.1 ∧ match x with
       | Err _ => w'.2 = w.2
       | Ok _ => incomplete (trimmed cred) = false ∧ storedIn w'.2 ns name = Ok (trimmed cred)
       end) w.
Proof.
  intros Hns Hn. eapply wp_mono; [|apply wp_both; [apply offline_wp|by apply persist_exact]].
  - intros [[]|e] w' [Hs Hg]; cbn in *; [|done]. by destruct Hg as (? & ? & _).
  - unfold PersistCredentials. quietly.
Qed.

(** The stored credentials make a client that the control plane knows. *)
Definition client_of (g : secrets) (ns name : string) (h : HTTPClient) : Prop :=
  ∃ creds, storedIn g ns name = Ok creds ∧ NewHTTPClient (configOf creds) = Ok h.

Lemma client_of_trimmed g ns name cred :
  incomplete (trimmed cred) = false → storedIn g ns name = Ok (trimmed cred) →
  TrimRight (TrimSpace (cr_BaseURL cred)) (byte 47) = base →
  client_of g ns name (client_for (TrimSpace (cr_ClusterID cred)) (TrimSpace (cr_Token cred))).
Proof.
  intros Hi Hst Hurl. eexists. split; [done|]. rewrite NewHTTPClient_complete by by rewrite trimmed_idemp.
  cbn [trimmed cr_BaseURL cr_ClusterID cr_Token]. by rewrite Hurl.
Qed.

(** C30: registering gives access: exchanging a registration token the control plane
    knows, through the HTTP client, spends the token, and either the credentials that
    are stored afterwards make a client whose requests the control plane accepts for
    the cluster the token was issued for, or an error is returned and no Secret has
    changed.  This holds whatever else the API server answers, for a Secret name and
    namespace without surrounding space, an endpoint that is the base URL up to
    trimming, and a cluster ID of the spec, if any, of visible characters. *)
Theorem registration_gives_access (c : Cluster) (token source id name ns : string) (w : Server * secrets) :
  cr_RegistrationClient r = false →
  TrimSpace ns = ns → TrimSpace name = name →
  base ≠ "" → TrimRight (TrimSpace (controlPlaneEndpoint c)) (byte 47) = base →
  all_visible (TrimSpace (cs_ClusterID (cl_Spec c))) = true →
  invited w.1 token id →
  wp site anything (registerCluster r c token source name ns)
    (λ out w', sv_registrationTokens w'.1 !! token = None ∧
       ((∃ h, client_of w'.2 ns name h ∧ hc_clusterID h = id ∧ hc_baseURL h = base ∧ bound h w'.1) ∨
        (is_ok out.1 = false ∧ w'.2 = w.2))) w.
Proof.
  intros Hreal Hns Hn Hbase Hurl Hspec Hinv. unfold registerCluster.
  assert (controlPlaneEndpoint c ≠ "") as Hep by (intros He; rewrite He in Hurl; by vm_compute in Hurl).
  rewrite bool_decide_eq_false_2 by done. rewrite Hreal. apply wp_bind.
  eapply wp_mono; [|apply wp_both; [by apply register_effect|apply (register_secrets _ _ _ w.2)]].
  intros x w1 [(t & -> & Hpt & Hb & Hsp) Hg1]. pose proof (invited_id _ _ _ Hinv) as Hid.
  apply wp_bind. eapply wp_mono; [|by apply persist_site].
  intros [[]|e] w2 [Hs Hg]; [|cbn; rewrite Hs; split; [done|right; split; [done|congruence]]].
  destruct Hg as [Hi Hst].
  assert (Hdone : ∀ w', w' = w2 → sv_registrationTokens w'.1 !! token = None ∧
    ∃ h, client_of w'.2 ns name h ∧ hc_clusterID h = id ∧ hc_baseURL h = base ∧ bound h w'.1).
  { intros w' ->. rewrite Hs. split; [done|]. eexists. split; [by apply client_of_trimmed|].
    cbn [cr_ClusterID cr_Token client_for hc_clusterID]. rewrite !plain_trim by done. done. }
  eapply wp_mono; [|apply calm_site].
  - intros out w' ->. destruct (Hdone w2 eq_refl) as [? ?]. by split; [|left].
  - apply only_bind_any; [calmly|]. intros now. destruct (postRegistration _ _ _) as [c' ch].
    apply only_bind_any; [destruct ch; calmly|]. intros [c2|e]; [|by apply only_ret].
    apply only_bind_any; [apply record_calm|]. intros. by apply only_ret.
Qed.
(** *** Rotation *)

Lemma decodeRotate_answer t :
  plain t → decodeRotate (ok (encode_rotate t)) = Ok {| rc_Token := t; rc_ExpiresAt := None |}.
Proof.
  intros Ht. unfold decodeRotate. cbn [rs_Body ok respond]. rewrite law_rotate_answer by done. reflexivity.
Qed.

Lemma handleRotate_bound h s req :
  consistent s → bound h s → authorize s req "" = Ok (hc_clusterID h) → plain (hc_clusterID h) →
  ∃ t s', handleRotate s req = (ok (encode_rotate t), s') ∧ plain t ∧
    bound (client_for (hc_clusterID h) t) s' ∧ (t ≠ hc_token h → refused s' (hc_token h)).
Proof.
  intros Hs Hb Hauth Hid. unfold handleRotate. rewrite Hauth. cbn zeta.
  set (n := (cs_rotationCount _ + 1)%Z). set (t := "bootstrap-" +:+ _ +:+ _).
  assert (Ht : plain t).
  { apply plain_app; [done|]. apply plain_app; [by destruct Hid|]. apply plain_app; [done|apply itoa_plain]. }
  eexists t, _. split; [reflexivity|]. split; [done|]. split.
  - apply bound_plain; [done..|]. cbn. by rewrite lookup_insert_eq.
  - intros Hne req' want Hreq. unfold authorize. rewrite Hreq. case_bool_decide; [by eexists|].
    unfold retoken. cbn [sv_tokenIndex with_tokens]. rewrite lookup_insert_ne by done.
    rewrite (consistent_tokens s Hs _ _ (bound_nonempty h s Hb) (bound_token h s Hb)).
    rewrite bool_decide_eq_true_2 by done. rewrite lookup_delete_eq. by eexists.
Qed.

Lemma rotate_effect h s :
  hc_baseURL h = base → consistent s → bound h s → plain (hc_clusterID h) →
  wp (control_plane base) anything (http_RotateCredentials h)
    (λ x s', ∃ t, x = Ok {| rc_Token := t; rc_ExpiresAt := None |} ∧ plain t ∧
       bound (client_for (hc_clusterID h) t) s' ∧ (t ≠ hc_token h → refused s' (hc_token h))) s.
Proof.
  intros Hbase Hs Hb Hid. unfold http_RotateCredentials. apply wp_bind. unfold http_do.
  rewrite Hbase, law_rotate_url. apply wp_vis; [done|]. intros x s' Hx.
  unfold control_plane, serveHTTP in Hx. rewrite serve_path in Hx by reflexivity. cbn [rq_Method requestFor] in Hx.
  rewrite bool_decide_eq_false_2, bool_decide_eq_true_2 in Hx by done.
  destruct (handleRotate_bound h s (requestFor (hc_token h) "POST" (base +:+ "/api/agent/credentials/rotate") (Some BEmpty)))
    as (t & s1 & Heq & Ht & Hb1 & Href); [done|done|by apply authorize_bound; auto|done|].
  cbn -[handleRotate requestFor] in Hx. rewrite Heq in Hx. injection Hx as -> ->.
  exists t. split; [|done]. cbn [rs_StatusCode ok respond fst]. rewrite bool_decide_eq_true_2 by done. cbn [negb].
  rewrite decodeRotate_answer by done. cbn [rc_Token rc_ExpiresAt]. rewrite plain_trim by done.
  rewrite bool_decide_eq_false_2 by by destruct Ht. done.
Qed.
Lemma rotate_site h w :
  hc_baseURL h = base → consistent w.1 → bound h w.1 → plain (hc_clusterID h) →
  wp site anything (http_RotateCredentials h)
    (λ x w', w'.2 = w.2 ∧ ∃ t, x = Ok {| rc_Token := t; rc_ExpiresAt := None |} ∧ plain t ∧
       bound (client_for (hc_clusterID h) t) w'.1 ∧ (t ≠ hc_token h → refused w'.1 (hc_token h))) w.
Proof.
  intros Hbase Hs Hb Hid. eapply wp_mono; [|apply wp_both; [by apply rotate_effect|apply (quiet_wp _ _ _ _ (λ _, True))]].
  - intros x w' [Hx [_ Hg]]. by split.
  - done.
  - unfold http_RotateCredentials. apply only_bind_any; [by apply http_quiet|]. intros. by apply only_ret.
Qed.

Lemma load_site ns name w :
  wp site anything (loadStoredCredentials ns name) (λ l w', l = storedIn w.2 ns name ∧ w' = w) w.
Proof.
  eapply wp_mono; [|apply wp_both; [apply offline_wp|by apply load_exact]].
  - intros l [s g] [Hs [Hx Hg]]. cbn in *. subst. by destruct w.
  - unfold loadStoredCredentials, GetCredentialsSecret. quietly.
Qed.

Lemma stored_trimmed g ns name creds : storedIn g ns name = Ok creds → trimmed creds = creds ∧ incomplete creds = false.
Proof. unfold storedIn. destruct (g !! _); [|done]. apply CredentialsFromSecret_ok. Qed.

(** C31: rotating keeps access exactly as long as the new token is stored: with
    credentials that the control plane accepts, a rotation always leaves the control
    plane accepting one client for the cluster, and refusing the old token unless the
    new one is the same; either that client is the one the stored credentials make,
    or an error is returned and the Secret still holds the old credentials. *)
Theorem rotation_access (c : Cluster) (name ns : string) (h : HTTPClient) (w : Server * secrets) :
  cr_AgentClient r = None →
  TrimSpace ns = ns → TrimSpace name = name →
  client_of w.2 ns name h → hc_baseURL h = base → plain (hc_clusterID h) →
  consistent w.1 → bound h w.1 →
  wp site anything (rotateCredentials r c name ns)
    (λ out w', ∃ h', bound h' w'.1 ∧ hc_clusterID h' = hc_clusterID h ∧
       (hc_token h' ≠ hc_token h → refused w'.1 (hc_token h)) ∧
       (client_of w'.2 ns name h' ∨ (is_ok out.1 = false ∧ w'.2 = w.2))) w.
Proof.
  intros Hreal Hns Hn (creds & Hst & Hh) Hbase Hid Hs Hb. destruct (stored_trimmed _ _ _ _ Hst) as [Htr Hi].
  pose proof Hh as Heq. rewrite NewHTTPClient_complete in Heq by by rewrite Htr.
  injection Heq as Heq.
  unfold rotateCredentials. apply wp_bind. eapply wp_mono; [|apply load_site].
  intros l w0 [-> ->]. rewrite Hst, Hreal, Hh. cbn beta match.
  apply wp_bind. eapply wp_mono; [|by apply rotate_site].
  intros x w1 (Hg1 & t & -> & Ht & Hb1 & Href). cbn beta match. cbn [rc_Token].
  apply wp_bind. eapply wp_mono; [|by apply persist_site].
  intros [[]|e] w2 [Hs2 Hg2].
  - destruct Hg2 as [Hi2 Hst2]. eapply wp_mono; [|apply calm_site; calmly].
    intros out w' ->. exists (client_for (hc_clusterID h) t). rewrite Hs2. split_and!; [done..|]. left.
    apply client_of_trimmed in Hst2; [|done|]; cbn [cr_BaseURL cr_ClusterID cr_Token] in *.
    + rewrite (plain_trim t) in Hst2 by done. subst h. cbn in Hid |- *. by rewrite (plain_trim _ Hid) in Hst2.
    + rewrite <-Htr. cbn [trimmed cr_BaseURL]. rewrite TrimSpace_idemp.
      replace (TrimSpace (cr_BaseURL creds)) with (cr_BaseURL creds) by by rewrite <-Htr; cbn; rewrite TrimSpace_idemp.
      by subst h.
  - exists (client_for (hc_clusterID h) t). cbn. rewrite Hs2. split_and!; [done..|]. right. split; [done|congruence].
Qed.
(** Every call has an answer, so that every program runs to its end. *)
Lemma site_answers X (k : wcall X) w : ∃ x w', site X k w x w'.
Proof.
  destruct w as [s g]. destruct k as [|v|req|n m|n m f|n m| |cl|cl| |re pr ne|re ki cs|et re me|u tk cid| |].
  - by exists 0%Z, (s, g).
  - by exists pod, (s, g).
  - by exists (Ok (serveHTTP base s noAdmin req).1), ((serveHTTP base s noAdmin req).2, g).
  - destruct (g !! (n, m)) as [sec|] eqn:Hs.
    + exists (Ok sec), (s, g). split; [done|]. cbn. by rewrite Hs.
    + exists (Err (mkErr "not found" KNotFound)), (s, g). split; [done|]. cbn. rewrite Hs. eauto.
  - exists (Err (errorf "refused")), (s, g). split; [done|]. right. by eexists.
  - exists (Err (errorf "refused")), (s, g). by split.
  - exists (Err (errorf "refused")), (s, g). by split.
  - exists (Err (errorf "refused")), (s, g). by split.
  - exists (Err (errorf "refused")), (s, g). by split.
  - by exists (false, 0%Z), (s, g).
  - by exists tt, (s, g).
  - by exists tt, (s, g).
  - by exists tt, (s, g).
  - exists (Err (errorf "refused")), (s, g). by split.
  - exists (Err (errorf "refused")), (s, g). by split.
  - exists (Err (errorf "refused")), (s, g). by split.
Qed.
End Access.

(** ** The poller with a refused token

    The running poller keeps the token it was started with
    ([ConnectivityProofs.rotated_token_not_reloaded]). *)

Section Refused.
Context `{HttpLib} `{WireLib} `{JsonSyntax} `{KubeLib} `{AgentLib} (c : HTTPClient) `{!WireLaws c}.

Lemma fetch_refused s wait :
  plain (hc_token c) → refused s (hc_token c) →
  wp (control_plane (hc_baseURL c)) anything (FetchJobs c wait) (λ x s', is_ok x = false ∧ s' = s) s.
Proof.
  intros Ht Href. unfold FetchJobs. fold (jobsEndpoint c wait). apply wp_bind, wp_http_do; [apply law_jobs_url|].
  rewrite serve_poll. unfold handleJobs. destruct (bool_decide (TrimSpace _ = "")); [done|].
  match goal with |- context [authorize s ?req ?want] => destruct (Href req want) as [e ->] end; [|done].
  by apply bearer_plain.
Qed.

Lemma enqueue_refused s s' token : rtc (enqueue c) s s' → refused s token → refused s' token.
Proof. induction 1 as [|s1 s2 s3 Hst _ IH]; intros Href; [exact Href|]. destruct Hst. apply IH. exact Href. Qed.

(** With a refused token the poller neither takes nor answers a job, for as many
    rounds as it runs: jobs only accumulate. *)
Theorem refused_poller_idles rounds wait a s :
  plain (hc_token c) → refused s (hc_token c) →
  wp (agent_side c) anything (pollRounds rounds wait a) (λ a' s', a' = a ∧ rtc (enqueue c) s s') s.
Proof.
  intros Ht Href. assert (Hgen : ∀ s1, rtc (enqueue c) s s1 →
    wp (agent_side c) anything (pollRounds rounds wait a) (λ a' s', a' = a ∧ rtc (enqueue c) s s') s1); [|by apply Hgen].
  induction rounds as [|n IH]; intros s1 Hs1; [done|]. cbn [pollRounds].
  apply wp_vis; [done|]. intros x s2 (s' & He & Hx). assert (Hs' : rtc (enqueue c) s s') by by etrans.
  destruct (wp_runs _ _ _ _ _ _ _ (fetch_refused s' wait Ht (enqueue_refused _ _ _ Hs' Href)) Hx) as [Hok ->].
  destruct x as [|e]; [done|]. apply wp_vis; [done|]. intros [] s3 (s4 & He4 & ->); [split; [done|by etrans]|].
  apply IH. by etrans.
Qed.
End Refused.

(** ** Witnesses *)

(** A wire of lines: the answers are their fields, one per line. *)
Definition line_http : HttpLib := {|
  json_first s := match s with
    | String c s =>
        if bool_decide (c = byte 82) then
          let '(id, token) := Cut s (byte 10) in Ok (JObj [("clusterId", JStr id); ("token", JStr token)])
        else Ok (JObj [("token", JStr s)])
    | EmptyString => Err (errorf "EOF")
    end;
  time_parse _ := Err (errorf "not a time");
  decode_jobs _ := Ok [];
  url_error _ := None
|}.
Definition line_wire : WireLib := {|
  encode_jobs _ := "";
  encode_result := jr_Outcome;
  encode_events _ := "";
  encode_register id token := String (byte 82) (id +:+ String (byte 10) token);
  encode_rotate token := String (byte 84) token;
  encode_error code _ := code;
  wire_status _ := Err (errorf "unexpected body");
  wire_result _ := Err (errorf "unexpected body");
  wire_events b := match b with BEvents l => Ok l | _ => Err (errorf "unexpected body") end;
  wire_register b := match b with BRegister r => Ok r | _ => Err (errorf "unexpected body") end;
  wire_enqueue _ := Err (errorf "unexpected body");
  range_clusters m := (map_to_list m).*2
|}.

Lemma visible_no_newline s : all_visible s = true → no_byte (byte 10) s = true.
Proof.
  induction s as [|c s IH]; [done|]. simpl. intros [Hc Hs]%andb_true_iff. apply no_byte_cons.
  split; [by intros ->|by apply IH].
Qed.

Lemma line_laws base : @AccessLaws line_http line_wire base.
Proof.
  split; try done. intros id token [_ Hid] _. cbn -[Cut].
  by rewrite Cut_app by by apply visible_no_newline.
Qed.

#[local] Existing Instances line_http line_wire line_laws reference_owner reference_retry reference_lib
  reference_retry_laws.

Definition inviting : Server := AddRegistrationToken NewServer "one-time" "c-1".

Lemma inviting_invites : invited inviting "one-time" "c-1".
Proof. split; [by split|by split|by vm_compute|by left]. Defined.

Lemma registration_gives_access_witness :
  let w := (inviting, ∅ : secrets) in
  let p := registerCluster deployed new_cluster "one-time" tokenSourceInline "" "vworkspace-system" in
  (∃ out w', runs (site "https://cp.example" "") p w out w') ∧
  wp (site "https://cp.example" "") anything p
    (λ out w', sv_registrationTokens w'.1 !! "one-time" = None ∧
       ((∃ h, client_of w'.2 "vworkspace-system" "" h ∧ hc_clusterID h = "c-1" ∧
              hc_baseURL h = "https://cp.example" ∧ bound h w'.1) ∨
        (is_ok out.1 = false ∧ w'.2 = ∅))) w.
Proof.
  intros w p. split; [apply runs_total, site_answers|].
  apply (registration_gives_access (Rw := reference_retry_laws) "https://cp.example" "" deployed new_cluster
           "one-time" tokenSourceInline "c-1" "" "vworkspace-system" w); try (vm_compute; reflexivity).
  - discriminate.
  - exact inviting_invites.
Defined.

(** The server and the Secrets after the registration. *)
Definition connected_site : Server * secrets :=
  ((serveHTTP "https://cp.example" inviting noAdmin
      (requestFor "one-time" "POST" "https://cp.example/api/agent/register"
         (Some (BRegister {| rr_RegistrationToken := "one-time"; rr_ClusterID := ""; rr_DisplayName := "" |})))).2,
   {[ ("vworkspace-system", DefaultCredentialsSecret) :=
        {| sec_Meta := meta_of "vworkspace-system" DefaultCredentialsSecret;
           sec_Data := credentialData {| cr_BaseURL := "https://cp.example/"; cr_ClusterID := "c-1";
                                         cr_Token := "bootstrap-c-1" |} ∅;
           sec_Type := "Opaque" |} ]}).
Definition connected_client : HTTPClient :=
  {| hc_baseURL := "https://cp.example"; hc_clusterID := "c-1"; hc_token := "bootstrap-c-1" |}.

Lemma rotation_access_witness :
  let p := rotateCredentials deployed new_cluster "" "vworkspace-system" in
  (∃ out w', runs (site "https://cp.example" "") p connected_site out w') ∧
  wp (site "https://cp.example" "") anything p
    (λ out w', ∃ h', bound h' w'.1 ∧ hc_clusterID h' = "c-1" ∧
       (hc_token h' ≠ "bootstrap-c-1" → refused w'.1 "bootstrap-c-1") ∧
       (client_of w'.2 "vworkspace-system" "" h' ∨ (is_ok out.1 = false ∧ w'.2 = connected_site.2)))
    connected_site.
Proof.
  intros p. split; [apply runs_total, site_answers|].
  apply (rotation_access "https://cp.example" "" deployed new_cluster "" "vworkspace-system"
           connected_client connected_site); [reflexivity|by vm_compute|by vm_compute| |reflexivity|by split|..].
  - exists {| cr_BaseURL := "https://cp.example/"; cr_ClusterID := "c-1"; cr_Token := "bootstrap-c-1" |}.
    by split; vm_compute.
  - apply consistent_serve. apply (consistent_step "https://cp.example" NewServer); [constructor|apply consistent_new].
  - apply bound_plain; [by split|by split|]. vm_compute. reflexivity.
Defined.
