(* ===== verification/ConnectivityProofs.v ===== *)
(** * Status of a Cluster, stored credentials and the runtime: theorems *)

From stdpp Require Import base list strings pretty gmap.
From S2P Require Import Prelude Traces GoStrings Api Conditions Events Reporter Kube Crypto Agent.
From S2P Require Import HttpClient Credentials Cluster ClusterProofs.

#[local] Opaque TrimSpace sha256 tokenFingerprint.

(** ** Status writes *)

(** The status of a condition. *)
Definition says (c : Cluster) (t s : string) : Prop :=
  ∃ reason message, Conditions.reads (cl_Conditions c) t = Some (s, reason, message).

Definition heartbeat_ok (e : event wcall) : Prop :=
  match e with
  | @Called _ X c x =>
      match c in wcall X return X → Prop with
      | WOtherHeartbeat => λ x, x = Ok tt
      | WHttp req => λ x, (∃ evs, rq_Body req = Some (BEvents evs)) ∧
                          ∃ resp, x = Ok resp ∧ rs_StatusCode resp = 204%Z
      | _ => λ _, False
      end x
  end.

(** [c] has the phase and the conditions of an object the server returned. *)
Definition carried (g : trace_of wcall) (c : Cluster) : Prop :=
  ∃ fresh ns name, Called (WGetCluster ns name) (Ok fresh) ∈ g ∧
    cl_Phase c = cl_Phase fresh ∧ cl_Conditions c = cl_Conditions fresh.

(** The phase and the conditions agree; [Connected] needs an accepted heartbeat. *)
Definition settled (g : trace_of wcall) (c : Cluster) : Prop :=
  (cl_Phase c = ClusterPhasePending ∧ says c ConditionConnected ConditionFalse ∧
     says c ConditionAuthenticated ConditionFalse) ∨
  (cl_Phase c = ClusterPhaseRegistering ∧ says c ConditionConnected ConditionTrue ∧
     says c ConditionAuthenticated ConditionTrue) ∨
  (cl_Phase c = ClusterPhaseConnected ∧ says c ConditionConnected ConditionTrue ∧
     says c ConditionDisconnected ConditionFalse ∧ says c ConditionAuthenticated ConditionTrue ∧
     Exists heartbeat_ok g) ∨
  (cl_Phase c = ClusterPhaseDisconnected ∧ says c ConditionConnected ConditionFalse ∧
     says c ConditionDisconnected ConditionTrue ∧ says c ConditionAuthenticated ConditionFalse) ∨
  (cl_Phase c = ClusterPhaseError ∧ says c ConditionAuthenticated ConditionFalse) ∨
  (cl_Phase c = ClusterPhaseTerminating ∧ is_Some (DeletionTimestamp (cl_Meta c))).

Definition coherent (g : trace_of wcall) (c : Cluster) : Prop := settled g c ∨ carried g c.

(** Every status write is coherent. *)
Definition status_coherent : permission wcall (trace_of wcall) := λ X c g,
  match c with WUpdateClusterStatus c => coherent g c | _ => True end.

Definition not_status X (c : wcall X) : Prop :=
  match c with WUpdateClusterStatus _ => False | _ => True end.

Lemma not_status_may X (c : wcall X) g : not_status X c → status_coherent X c g.
Proof. by destruct c. Qed.

(** A program without status writes, at any point of the trace. *)
Lemma silent_wp {A : Type} (p : prog wcall A) Q g :
  only not_status p Q → wp traced status_coherent p (λ a g', Q a ∧ g `prefix_of` g') g.
Proof. apply only_wp. intros. by apply not_status_may. Qed.

Lemma set_conditions now c t s reason m :
  cl_Conditions (set now c t s reason m) = Conditions.Set_ now (cl_Conditions c) t s reason m.
Proof. done. Qed.

Lemma cluster_says_set now c t s reason m : says (set now c t s reason m) t s.
Proof. unfold says. rewrite set_conditions, Conditions.Set_reads_same. eauto. Qed.

Lemma cluster_says_other now c t s reason m t' s' :
  t' ≠ t → says c t' s' → says (set now c t s reason m) t' s'.
Proof. intros Hne Hc. unfold says. by rewrite set_conditions, Conditions.Set_reads_other. Qed.

Ltac say := first [apply cluster_says_set | apply cluster_says_other; [done|say]].

(** What [syncBufferOverflowCondition] keeps. *)
Definition same_but_buffer (c c' : Cluster) : Prop :=
  cl_Phase c' = cl_Phase c ∧ cl_Meta c' = cl_Meta c ∧
  ∀ t s, t ≠ ConditionBufferOverflow → says c t s → says c' t s.

Lemma settled_same g g' c c' :
  g `prefix_of` g' → same_but_buffer c c' → settled g c → settled g' c'.
Proof.
  intros [k ->] (Hp & Hm & Hs). unfold settled. rewrite Hp, Hm.
  assert (Exists heartbeat_ok g → Exists heartbeat_ok (g ++ k)) by (rewrite Exists_app; tauto).
  assert (∀ s, says c ConditionConnected s → says c' ConditionConnected s) by (intros; by apply Hs).
  assert (∀ s, says c ConditionAuthenticated s → says c' ConditionAuthenticated s) by (intros; by apply Hs).
  assert (∀ s, says c ConditionDisconnected s → says c' ConditionDisconnected s) by (intros; by apply Hs).
  naive_solver.
Qed.

Ltac silently := intros; only_go; try done; simpl; tauto.

Section Coherence.
Context {Hl : HttpLib} {Kl : KubeLib} {Ol : OwnerLib} {Rl : RetryLib} {Rw : RetryLaws}.
Context (r : ClusterReconciler).
Notation ok p g := (wp traced status_coherent p (λ _ _, True) g).

Lemma sync_same now c : only not_status (syncBufferOverflowCondition r now c) (same_but_buffer c).
Proof.
  unfold syncBufferOverflowCondition. destruct (negb _); [by apply only_ret|].
  eapply (only_bind _ _ _ (λ _, True)); [by apply only_call|]. intros [active dropped] _.
  apply only_ret. destruct (_ && _); split_and!; try done; intros; by apply cluster_says_other.
Qed.

(** The shared end of a stage: a settled object is written. *)
Lemma write_settled {A : Type} now c (f : result Cluster → prog wcall A) g :
  settled g c → (∀ res g', ok (f res) g') →
  ok (let* c := syncBufferOverflowCondition r now c in
      let* res := call (WUpdateClusterStatus c) in f res) g.
Proof.
  intros Hc Hf. apply wp_bind. eapply wp_mono; [|apply silent_wp, sync_same].
  intros c' g1 [Hs Hg]. apply wp_vis; [left; by eapply settled_same|]. intros; apply Hf.
Qed.

Lemma silent_ok {A : Type} (p : prog wcall A) g : only not_status p (λ _, True) → ok p g.
Proof. intros Hp. eapply wp_mono; [|by apply silent_wp]. done. Qed.

Lemma silent_then {A B : Type} (p : prog wcall A) (f : A → prog wcall B) g :
  only not_status p (λ _, True) → (∀ a g', ok (f a) g') → ok (prog_bind f p) g.
Proof.
  intros Hp Hf. apply wp_bind. eapply wp_mono; [|by apply silent_wp]. intros; apply Hf.
Qed.

Lemma stageFailed_ok now c prev what res g : settled g c → ok (stageFailed r now c prev what res) g.
Proof.
  intros Hc. unfold stageFailed. apply (write_settled now c); [done|].
  intros [c'|e] g'; unfold stop, reportConditions; apply silent_ok; silently.
Qed.

Lemma publish_ok now c prev what g : settled g c → ok (publish r now c prev what) g.
Proof.
  intros Hc. unfold publish. apply (write_settled now c); [done|].
  intros [c'|e] g'; unfold finish, failWith, reportConditions; apply silent_ok; silently.
Qed.

Lemma settled_tokenMissing g now c e : settled g (tokenMissing now c e).
Proof. left. split_and!; [done|say|say]. Qed.
Lemma settled_registrationFailed g now c e : settled g (registrationFailed now c e).
Proof. do 4 right. left. split; [done|say]. Qed.
Lemma settled_rotationFailed g now c e : settled g (rotationFailed now c e).
Proof. do 4 right. left. split; [done|say]. Qed.
Lemma settled_credentialMissing g now c : settled g (credentialMissing now c).
Proof. left. split_and!; [done|say|say]. Qed.
Lemma settled_unreachable g now c e : settled g (unreachable now c e).
Proof. do 3 right. left. split_and!; [done|say..]. Qed.
Lemma settled_connected g now c : Exists heartbeat_ok g → settled g (connected now c).
Proof. intros Hg. do 2 right. left. split_and!; [done|say..|done]. Qed.
Lemma settled_exchanged g t now c fp name ns : settled g (exchanged t now c fp name ns).
Proof. right. left. split_and!; [done|say..]. Qed.

Lemma attempts_ok n fn g : (∀ g, ok fn g) → ok (attempts n fn) g.
Proof.
  intros Hf. revert g. induction n as [|n IH]; intros g; cbn [attempts];
    apply wp_bind; (eapply wp_mono; [|apply Hf]); intros [a|e] g' _; try done.
  destruct (IsApiConflict e); [apply IH|done].
Qed.
Lemma wp_getCluster {A : Type} key (f : result Cluster → prog wcall A) g :
  (∀ e g', ok (f (Err e)) g') →
  (∀ c, ok (f (Ok c)) (g ++ [Called (WGetCluster key.1 key.2) (Ok c)])) →
  ok (prog_bind f (getCluster key)) g.
Proof. intros He Hc. apply wp_vis; [done|]. intros [c|e] g' ->; [apply Hc|apply He]. Qed.

Lemma reload_ok key what g :
  ok (try* c := getCluster key catch e => stop noResult (Some (wrapf what e)) in continue c) g.
Proof. unfold getCluster, stop, continue. apply silent_ok. silently. Qed.

Lemma adopt_ok key c token name ns g : ok (adoptAndReload key c token name ns) g.
Proof.
  unfold adoptAndReload, adoptExistingRegistration. apply wp_bind.
  eapply wp_mono; [|edestruct law_retry as [n ->]; apply attempts_ok].
  { intros [[]|e] g' _; [apply reload_ok|done]. }
  intros g1. apply wp_getCluster; [done|]. intros fresh.
  apply wp_vis; [done|]. intros now g2 ->. apply wp_vis; [|by intros [] ? ?].
  right. exists fresh, (key_of c).1, (key_of c).2. split; [|done]. set_solver.
Qed.

Lemma record_ok t c fp name ns g : ok (recordExchange t c fp name ns) g.
Proof.
  unfold recordExchange. edestruct law_retry as [n ->]. apply attempts_ok.
  intros g1. apply wp_getCluster; [done|]. intros fresh.
  apply wp_vis; [done|]. intros now g2 ->. apply wp_vis; [|by intros [] ? ?].
  left. apply settled_exchanged.
Qed.

Lemma load_silent ns name : only not_status (loadStoredCredentials ns name) (λ _, True).
Proof. unfold loadStoredCredentials, GetCredentialsSecret. silently. Qed.

Lemma persist_keeps_quiet ns name cred owner :
  only not_status (PersistCredentials ns name cred owner) (λ _, True).
Proof. unfold PersistCredentials. silently. Qed.

Lemma http_silent c method endpoint b : only not_status (http_do c method endpoint b) (λ _, True).
Proof. unfold http_do. silently. Qed.

Lemma Register_silent baseURL token id : only not_status (Register baseURL token id) (λ _, True).
Proof. unfold Register. silently. Qed.

Lemma register_ok c token source name ns g : ok (registerCluster r c token source name ns) g.
Proof.
  unfold registerCluster. case_bool_decide; [done|]. apply silent_then.
  { destruct (cr_RegistrationClient r); [silently|apply Register_silent]. }
  intros [resp|e] g1; [|done]. apply silent_then; [apply persist_keeps_quiet|].
  intros [[]|e] g2; [|done]. apply wp_vis; [done|]. intros now g3 _.
  destruct (postRegistration _ _ _) as [c' ch]. apply silent_then; [destruct ch; silently|].
  intros [c2|e] g4; [|done]. apply wp_bind. eapply wp_mono; [|apply record_ok]. done.
Qed.

Lemma exchange_ok key c prev force token source name ns g :
  ok (exchangeToken r key c prev force token source name ns) g.
Proof.
  unfold exchangeToken. apply wp_bind. eapply wp_mono; [|apply register_ok].
  intros [[[]|e] c'] g1 _.
  - apply silent_then; [destruct (_ && _); silently|]. intros. apply reload_ok.
  - apply silent_then; [destruct force; [by apply only_ret|apply load_silent]|].
    intros [cr|e'] g2; [apply adopt_ok|]. apply wp_vis; [done|]. intros now g3 _.
    apply stageFailed_ok, settled_registrationFailed.
Qed.

Lemma registration_ok key c name ns g : ok (reconcileRegistration r key c name ns) g.
Proof.
  unfold reconcileRegistration. apply silent_then; [unfold resolveRegistrationToken; silently|].
  assert (∀ token source g, ok (
    let force := reRegisterRequested c in
    if bool_decide (token = "") ||
       (bool_decide (tokenFingerprint token = cst_ObservedToken (cl_Status c)) && negb force)
    then continue c
    else let* stored := (if force then Ret (Err (errorf "")) else loadStoredCredentials ns name) in
      match stored with
      | Ok _ => adoptAndReload key c token name ns
      | Err _ => exchangeToken r key c (cl_Conditions c) force token source name ns
      end) g) as Hproceed.
  { intros token source g1. cbv zeta. destruct (_ || _); [done|].
    apply silent_then; [destruct (reRegisterRequested c); [by apply only_ret|apply load_silent]|].
    intros [cr|e] g2; [apply adopt_ok|apply exchange_ok]. }
  intros [[token source]|e] g1; [apply Hproceed|].
  apply silent_then; [apply load_silent|]. intros [cr|e'] g2; [apply Hproceed|].
  apply wp_vis; [done|]. intros now g3 _. apply stageFailed_ok, settled_tokenMissing.
Qed.

Lemma rotation_ok key c name ns g : ok (reconcileRotation r key c name ns) g.
Proof.
  unfold reconcileRotation. destruct (negb _); [done|]. apply silent_then.
  { unfold rotateCredentials. apply only_bind_any; [apply load_silent|]. intros [cr|e]; [|by apply only_ret].
    destruct (match cr_AgentClient r with Some _ => _ | None => _ end) as [cl|]; [|by apply only_ret].
    apply only_bind_any.
    { unfold client_Rotate, http_RotateCredentials. destruct cl; [silently|].
      apply only_bind_any; [apply http_silent|silently]. }
    intros [resp|e]; [|by apply only_ret]. apply only_bind_any; [apply persist_keeps_quiet|silently]. }
  intros [[[]|e] c'] g1; [apply reload_ok|]. apply wp_vis; [done|]. intros now g2 _.
  apply stageFailed_ok, settled_rotationFailed.
Qed.

(** A heartbeat that succeeds leaves its accepted request in the trace. *)
Lemma client_Heartbeat_traced cl g :
  wp traced status_coherent (client_Heartbeat cl) (λ res g', res = Ok tt → Exists heartbeat_ok g') g.
Proof.
  destruct cl as [|h]; simpl.
  - split; [done|]. intros x g' -> ->. apply Exists_app. right. by constructor.
  - split; [done|]. intros now g' ->. unfold PostEvents, http_do.
    destruct (url_error _); [done|]. split; [done|]. intros [resp|e] g' ->; [|done]. simpl.
    case_bool_decide as Hgood; [|done]. intros _. apply Exists_app. right. constructor.
    apply list_elem_of_singleton in Hgood. simpl. eauto.
Qed.

Lemma heartbeat_coherent c name ns g : ok (reconcileHeartbeat r c name ns) g.
Proof.
  unfold reconcileHeartbeat. apply silent_then.
  { unfold heartbeatClient. destruct (cr_AgentClient r); [by apply only_ret|].
    apply only_bind_any; [apply load_silent|silently]. }
  intros [[cl|] []] g1; try done.
  - apply wp_bind. eapply wp_mono; [|apply client_Heartbeat_traced]. intros res g2 Hres.
    apply wp_vis; [done|]. intros now g3 ->. apply publish_ok.
    destruct res as [[]|e]; [|apply settled_unreachable]. apply settled_connected.
    apply Exists_app. left. by apply Hres.
  - apply wp_vis; [done|]. intros now g2 _. apply publish_ok, settled_credentialMissing.
Qed.

Lemma finalize_ok c g : is_Some (DeletionTimestamp (cl_Meta c)) → ok (finalizeCluster c) g.
Proof.
  intros Hd. unfold finalizeCluster, finish, failWith. destruct (negb _); [done|].
  apply wp_bind. eapply (wp_mono _ _ _ (λ _ _, True)).
  { intros [c'|e] g' _; [apply silent_ok; silently|done]. }
  case_bool_decide; [|done]. split; [|done]. left. do 5 right. done.
Qed.

End Coherence.

#[local] Existing Instances reference_http reference_owner reference_retry reference_lib.


(** ** Stored credentials *)

Section Stored.
Context {Ol : OwnerLib}.

(** C40: credentials that were persisted are the ones that are loaded, with
    surrounding space removed; a client can be made of them; no other Secret
    changes; and when persisting fails nothing changes.  This holds whenever Secrets
    are read as they are stored, for a namespace and a name without surrounding
    space. *)
Theorem credentials_roundtrip clusterOk pod ns name cred owner g :
  TrimSpace ns = ns → TrimSpace name = name →
  wp (secretWorld clusterOk pod) anything (PersistCredentials ns name cred owner)
    (λ r g1, match r with
     | Err _ => g1 = g
     | Ok _ =>
         wp (secretWorld clusterOk pod) anything (loadStoredCredentials ns name)
           (λ l g2, l = Ok (trimmed cred) ∧ g2 = g1) g1 ∧
         (∃ h, NewHTTPClient (configOf (trimmed cred)) = Ok h ∧ hc_token h = TrimSpace (cr_Token cred)) ∧
         ∀ k, k ≠ (ns, fallback name DefaultCredentialsSecret) → g1 !! k = g !! k
     end) g.
Proof.
  intros Hns Hn. eapply wp_mono; [|apply persist_exact; done].
  intros [[]|e] g1; [|done]. intros (Hi & Hst & Hk). split_and!; [| |done].
  - eapply wp_mono; [|apply load_exact; done]. intros l g2 [-> ->]. done.
  - eexists. split; [apply NewHTTPClient_complete; by rewrite trimmed_idemp|done].
Qed.
End Stored.

Definition some_credentials : Credentials :=
  {| cr_BaseURL := " https://cp.example/"; cr_ClusterID := "c-1"; cr_Token := "t0k " |}.

Lemma credentials_roundtrip_witness :
  TrimSpace "vworkspace-system" = "vworkspace-system" ∧ TrimSpace "" = "" ∧
  wp (secretWorld (λ _, True) "") anything
    (PersistCredentials "vworkspace-system" "" some_credentials None)
    (λ r g1, match r with
     | Err _ => g1 = ∅
     | Ok _ =>
         wp (secretWorld (λ _, True) "") anything (loadStoredCredentials "vworkspace-system" "")
           (λ l g2, l = Ok (trimmed some_credentials) ∧ g2 = g1) g1 ∧
         (∃ h, NewHTTPClient (configOf (trimmed some_credentials)) = Ok h ∧ hc_token h = TrimSpace "t0k ") ∧
         ∀ k, k ≠ ("vworkspace-system", fallback "" DefaultCredentialsSecret) → g1 !! k = (∅ : secrets) !! k
     end) ∅.
Proof.
  split_and!; [by vm_compute..|].
  apply (credentials_roundtrip (λ _, True) "" "vworkspace-system" "" some_credentials None ∅); by vm_compute.
Defined.

(** ** The runtime *)

(** Running, the cluster ID, the poller and the batcher's client agree. *)
Definition runtime_ok (rt : Runtime) : Prop :=
  match rt_poller rt with
  | Some p => rt_running rt = true ∧ rt_clusterID rt = hc_clusterID (rp_Client p) ∧
              rp_ApplierClusterID p = rt_clusterID rt ∧
              (rf_EventBatcher (rt_cfg rt) = true → rt_batcherClient rt = Some (rp_Client p))
  | None => rt_running rt = false ∧ rt_clusterID rt = "" ∧
            (rf_EventBatcher (rt_cfg rt) = true → rt_batcherClient rt = None)
  end.

Lemma setEventBatcherClient_poller rt c :
  rt_poller (setEventBatcherClient rt c) = rt_poller rt ∧ rt_cfg (setEventBatcherClient rt c) = rt_cfg rt ∧
  rt_running (setEventBatcherClient rt c) = rt_running rt ∧
  rt_clusterID (setEventBatcherClient rt c) = rt_clusterID rt ∧
  (rf_EventBatcher (rt_cfg rt) = true → rt_batcherClient (setEventBatcherClient rt c) = c).
Proof. unfold setEventBatcherClient. by destruct (rf_EventBatcher _). Qed.

Lemma stopPoller_ok rt : runtime_ok (stopPoller rt) ∧ rt_poller (stopPoller rt) = None.
Proof.
  unfold runtime_ok, stopPoller, stopPollerLocked.
  edestruct setEventBatcherClient_poller as (-> & -> & -> & -> & Hb). done.
Qed.

Lemma startPoller_ok rt creds :
  incomplete (trimmed creds) = false → runtime_ok rt →
  (startPoller rt creds).1 = Ok tt ∧ runtime_ok (startPoller rt creds).2 ∧
  ∃ p, rt_poller (startPoller rt creds).2 = Some p ∧
       hc_clusterID (rp_Client p) = cr_ClusterID creds ∧
       (rt_clusterID rt ≠ cr_ClusterID creds → hc_token (rp_Client p) = cr_Token creds).
Proof.
  intros Hi Hrt. unfold startPoller. destruct (rt_running rt && _) eqn:Hrun.
  - apply andb_prop in Hrun as [Hr Hid%bool_decide_eq_true]. split; [done|]. split; [done|].
    unfold runtime_ok in Hrt. simpl. destruct (rt_poller rt) as [p|]; [|naive_solver congruence].
    exists p. naive_solver congruence.
  - rewrite NewHTTPClient_complete by done. simpl. split; [done|]. unfold runtime_ok.
    edestruct setEventBatcherClient_poller as (-> & -> & -> & -> & Hb). simpl in *.
    split; [split_and!; auto|]. eexists. split; [done|]. done.
Qed.

(** C33: the Pull-mode runtime follows the stored credentials.  After
    [ensurePoller] the running flag, the cluster ID, the poller and the shared
    batcher's client agree; when it answers without error, a poller runs for the
    cluster ID of a Secret just read, with that Secret's token unless a poller
    already ran for this cluster ID; when it fails, the runtime is as it was or
    its poller is stopped. *)
Theorem runtime_follows_credentials rt :
  runtime_ok rt →
  wp traced anything (ensurePoller rt)
    (λ res g, runtime_ok res.2 ∧
       match res.1 with
       | Ok _ => ∃ ns name secret creds p,
           Called (WGetSecret ns name) (Ok secret) ∈ g ∧ CredentialsFromSecret secret = Ok creds ∧
           rt_poller res.2 = Some p ∧ hc_clusterID (rp_Client p) = cr_ClusterID creds ∧
           (rt_clusterID rt ≠ cr_ClusterID creds → hc_token (rp_Client p) = cr_Token creds)
       | Err _ => res.2 = rt ∨ rt_poller res.2 = None
       end) [].
Proof.
  intros Hrt. unfold ensurePoller, resolveCredentialsTarget. apply wp_bind.
  apply wp_vis; [done|]. intros [items|e] g1 _; [|by split; [|left]]. unfold call.
  cbn [wp prog_bind].
  match goal with |- context [match items with [] => ?a | c :: l => @?b c l end] =>
    destruct (match items with [] => a | c :: l => b c l end) as [[ns name] []] end;
    cbn [negb]; [|by split; [apply stopPoller_ok|right; apply stopPoller_ok]].
  apply wp_bind. unfold GetCredentialsSecret. apply wp_vis; [done|]. intros [s|e] g2 ->.
  - cbn [wp]. destruct (CredentialsFromSecret s) as [creds|e] eqn:Hc; [|by split; [|left]].
    pose proof Hc as [Ht Hi]%CredentialsFromSecret_ok.
    destruct (startPoller_ok rt creds) as (Hres & Hok & p & Hp); [by rewrite Ht|done|].
    cbn [wp]. split; [done|]. rewrite Hres.
    eexists _, _, s, creds, p. split; [|done]. apply elem_of_app. right. by apply list_elem_of_singleton.
  - destruct (IsNotFound e); cbn [wp]; [|by split; [|left]].
    split; [apply stopPoller_ok|right; apply stopPoller_ok].
Qed.

Definition runtime_config : RuntimeConfig :=
  {| rf_K8s := true; rf_SecretNamespace := ""; rf_SecretName := ""; rf_PollInterval := 30000000000;
     rf_EventBatcher := true |}.

Lemma runtime_follows_credentials_witness :
  runtime_ok (NewRuntime runtime_config) ∧
  wp traced anything (ensurePoller (NewRuntime runtime_config))
    (λ res g, runtime_ok res.2 ∧
       match res.1 with
       | Ok _ => ∃ ns name secret creds p,
           Called (WGetSecret ns name) (Ok secret) ∈ g ∧ CredentialsFromSecret secret = Ok creds ∧
           rt_poller res.2 = Some p ∧ hc_clusterID (rp_Client p) = cr_ClusterID creds ∧
           ("" ≠ cr_ClusterID creds → hc_token (rp_Client p) = cr_Token creds)
       | Err _ => res.2 = NewRuntime runtime_config ∨ rt_poller res.2 = None
       end) [].
Proof.
  assert (runtime_ok (NewRuntime runtime_config)) as Hok by done.
  split; [exact Hok|exact (runtime_follows_credentials _ Hok)].
Defined.

Section Rotated.
Context {Hl : HttpLib}.

(** Every request of a client carries its token. *)
Definition bears (token : string) X (c : wcall X) : Prop :=
  match c with WHttp req => rq_Authorization req = "Bearer " +:+ token | _ => True end.

Lemma http_bears c method endpoint b :
  only (bears (hc_token c)) (http_do c method endpoint b) (λ _, True).
Proof. unfold http_do. only_go; done. Qed.

(** A rotated token does not reach a running poller.  Whatever the Secret
    now holds, while a poller runs for its cluster ID [ensurePoller] succeeds and
    changes nothing: the poller's next request for jobs and the batcher's next
    delivery still carry the token the poller was started with. *)
Theorem rotated_token_not_reloaded (h : ∀ X, wcall X → X) rt p cluster rest secret creds wait evs g :
  runtime_ok rt → rt_poller rt = Some p →
  h _ WListClusters = Ok (cluster :: rest) → DeletionTimestamp (cl_Meta cluster) = None →
  (∀ ns name, h _ (WGetSecret ns name) = Ok secret) →
  CredentialsFromSecret secret = Ok creds → cr_ClusterID creds = rt_clusterID rt →
  (run (trace_handler h) (ensurePoller rt) g).1 = (Ok tt, rt) ∧
  only (bears (hc_token (rp_Client p))) (FetchJobs (rp_Client p) wait) (λ _, True) ∧
  only (bears (hc_token (rp_Client p))) (PostEvents (rp_Client p) evs) (λ _, True).
Proof.
  intros Hrt Hp Hlist Hdel Hsec Hcr Hid. split.
  - apply (run_wp h _ (λ res _, res = (Ok tt, rt))). unfold ensurePoller, resolveCredentialsTarget.
    apply wp_bind, wp_vis; [done|]. intros x g1 [-> _]. rewrite Hlist. cbn [wp]. rewrite Hdel.
    cbn [is_set].
    match goal with |- context [match ?x with Some ref => @?a ref | None => ?b end] =>
      destruct (match x with Some ref => a ref | None => b end) as [[ns name] present] eqn:Ht end.
    assert (present = true) as ->.
    { destruct (cst_CredentialsSecretRef _); [|naive_solver]. case_bool_decide; naive_solver. }
    cbn [negb]. apply wp_bind. unfold GetCredentialsSecret. apply wp_vis; [done|]. intros x g2 [-> _].
    rewrite Hsec. cbn [wp]. rewrite Hcr. cbn [wp]. unfold startPoller.
    unfold runtime_ok in Hrt. rewrite Hp in Hrt. destruct Hrt as (-> & _).
    by rewrite Hid, bool_decide_eq_true_2.
  - split; [unfold FetchJobs|unfold PostEvents];
      (apply only_bind_any; [apply http_bears|intros; by apply only_ret]).
Qed.
End Rotated.

(** A runtime started with one token, and a Secret that holds another. *)
Definition token_secret (token : string) : Secret :=
  {| sec_Meta := meta_of "vworkspace-system" DefaultCredentialsSecret;
     sec_Data := credentialData {| cr_BaseURL := "https://cp.example"; cr_ClusterID := "c-1";
                                   cr_Token := token |} ∅;
     sec_Type := "Opaque" |}.

Definition serves (s : Secret) : ∀ X, wcall X → X := λ X c,
  match c in wcall X return X with
  | WNow => 0%Z
  | WGetenv _ => ""
  | WHttp _ => Err (errorf "")
  | WGetSecret _ _ => Ok s
  | WUpsertSecret _ _ _ => Ok tt
  | WGetCluster _ _ => Ok new_cluster
  | WListClusters => Ok [new_cluster]
  | WUpdateCluster c => Ok c
  | WUpdateClusterStatus c => Ok c
  | WOverflowState => (false, 0%Z)
  | WReport _ _ _ => tt
  | WReportAudit _ _ _ => tt
  | WRecord _ _ _ => tt
  | WOtherRegister _ _ _ => Err (errorf "")
  | WOtherHeartbeat => Err (errorf "")
  | WOtherRotate => Err (errorf "")
  end.

Definition running : Runtime :=
  (run (trace_handler (serves (token_secret "old"))) (ensurePoller (NewRuntime runtime_config)) []).1.2.

Definition old_poller : RunningPoller :=
  {| rp_Client := {| hc_baseURL := "https://cp.example"; hc_clusterID := "c-1"; hc_token := "old" |};
     rp_ApplierClusterID := "c-1"; rp_WaitSecs := 30 |}.

Lemma rotated_token_not_reloaded_witness :
  CredentialsFromSecret (token_secret "new") =
    Ok {| cr_BaseURL := "https://cp.example"; cr_ClusterID := "c-1"; cr_Token := "new" |} ∧
  (run (trace_handler (serves (token_secret "new"))) (ensurePoller running) []).1 = (Ok tt, running) ∧
  only (bears "old") (FetchJobs (rp_Client old_poller) 30) (λ _, True) ∧
  only (bears "old") (PostEvents (rp_Client old_poller) []) (λ _, True).
Proof.
  split; [by vm_compute|].
  apply (rotated_token_not_reloaded (serves (token_secret "new")) running old_poller new_cluster []
    (token_secret "new") {| cr_BaseURL := "https://cp.example"; cr_ClusterID := "c-1"; cr_Token := "new" |}
    30 [] []); by vm_compute.
Defined.
