(* ===== verification/InstanceEngines.v ===== *)
(** * internal/helmengine and internal/seaweedengine

    The two engines behind an [ApplicationInstance], as programs over [icall], the
    calls of the ApplicationInstance side.  [CreateOrUpdate] of the library is two
    calls, what it fetches and what it writes, because the code reads Secrets in
    between.  A Go map of values is a [gmap]; [None] is the nil map.  YAML and the
    time format are library code: parameters of [InstanceLib]. *)

From stdpp Require Import base list strings pretty gmap sorting.
From S2P Require Import Prelude Traces GoStrings Api Events Json Kube HttpClient Credentials.

(** The reconciler's delivery maps, guarded by one mutex. *)
Record StorageMemory := {
  sm_InFlight : gmap string string;
  sm_Posting : gmap string string;
  sm_AckPending : gmap string string
}.

Inductive icall : Type → Type :=
| INow : icall Z
| ISleep (d : Z) : icall unit
| IGetInstance (ns name : string) : icall (result ApplicationInstance)
| IListInstances (ns : string) : icall (result (list ApplicationInstance))
| IUpdateInstance (app : ApplicationInstance) : icall (result ApplicationInstance)
| IUpdateInstanceStatus (app : ApplicationInstance) : icall (result ApplicationInstance)
| IPatchInstance (base app : ApplicationInstance) : icall (result ApplicationInstance)
| IGetObject (kind ns name : string) : icall (result Unstructured)
| IListObjects (kind ns : string) : icall (result (list Unstructured))
| IDeleteObject (kind ns name : string) : icall (result unit)
| IFetchOrNew (kind ns name : string) : icall (result Unstructured)
| IWriteBack (u : Unstructured) : icall (result unit)
| IGetSecret (ns name : string) : icall (result Secret)
| IGetConfigMap (ns name : string) : icall (result (gmap string string))
| IGetService (ns name : string) : icall (result unit)
(** a section under [storageDeliveryMu] *)
| IAtomic {A : Type} (f : StorageMemory → A * StorageMemory) : icall A
(** the reporter *)
| IHasPendingEvent (key : string) : icall bool
| IReport (ref : AppliedRef) (prev next : list Condition) : icall unit
| IReportEndpoints (ref : AppliedRef) (ready : Condition) (eps : list EndpointPayload) (key : string)
    : icall bool
| IReportReady (ref : AppliedRef) (ready : Condition) (extras : EventExtras) (key : string) : icall bool
| IReportAudit (ref : AppliedRef) (kind : string) (cs : list Condition) (key : string) : icall unit.

Class InstanceLib := {
  yaml_parse : string → result json;
  FormatRFC3339Nano : Z → string
}.

Definition values : Type := gmap string json.
Definition jobj (v : values) : json := JObj (map_to_list v).

(** A string member of a map, or the empty string. *)
Definition text (k : string) (o : list (string * json)) : string :=
  match map_get k o with Some (JStr s) => s | _ => "" end.

(** A nil dereference panics; controller-runtime recovers the panic of a pass and
    makes it the pass's error.  Validation rules it out before a live pass. *)
Definition nil_pointer : error := errorf "invalid memory address or nil pointer dereference".

(** [ownerLabels] of both packages. *)
Definition ownerLabels (app : ApplicationInstance) : gmap string string :=
  let own := Labels (ai_Meta app) in
  let ls := <[ApplicationInstanceKey := ai_Name app]> {[ ManagedByKey := ManagedByOperator ]} in
  let id := default "" (own !! ClusterIDKey) in
  let by_ := default "" (own !! ManagedByKey) in
  let ls := if bool_decide (id ≠ "") then <[ClusterIDKey := id]> ls else ls in
  if bool_decide (by_ ≠ "") then <[ManagedByKey := by_]> ls else ls.

Section Values.
Context `{JsonSyntax} `{InstanceLib}.

(** [json.Unmarshal] into an empty map. *)
Definition unmarshalValues (parsed : result json) : result (option values) :=
  do! v := parsed in
  match v with
  | JObj fs => Ok (Some (any_entries fs))
  | JNull => Ok None
  | _ => Err json_type_error
  end.

(** [decodeValuesBytes] before any normalization. *)
Definition decodeValuesBytes (raw : string) : result (option values) :=
  match unmarshalValues (json_parse raw) with
  | Ok v => Ok v
  | Err _ => match unmarshalValues (yaml_parse raw) with
             | Ok v => Ok v
             | Err e => Err (wrapf "decode values as JSON or YAML" e)
             end
  end.

Definition fromData (what ns : string) (ref : ObjectKeyRef) (data : gmap string string)
    : result string :=
  match data !! ok_Key ref with
  | Some raw => Ok raw
  | None => Err (errorf (what +:+ " " +:+ ns +:+ "/" +:+ ok_Name ref +:+ " missing key " +:+ quote (ok_Key ref)))
  end.

(** [loadValuesFromSecret] and [loadValuesFromConfigMap]. *)
Definition loadValuesFromSecret (ns : string) (ref : ObjectKeyRef) : prog icall (result (option values)) :=
  try* secret := call (IGetSecret ns (ok_Name ref))
    catch e => Ret (Err (wrapf ("get secret " +:+ ns +:+ "/" +:+ ok_Name ref) e)) in
  Ret (do! raw := fromData "secret" ns ref (sec_Data secret) in decodeValuesBytes raw).

Definition loadValuesFromConfigMap (ns : string) (ref : ObjectKeyRef) : prog icall (result (option values)) :=
  try* data := call (IGetConfigMap ns (ok_Name ref))
    catch e => Ret (Err (wrapf ("get configmap " +:+ ns +:+ "/" +:+ ok_Name ref) e)) in
  Ret (do! raw := fromData "configmap" ns ref data in decodeValuesBytes raw).

(** What both engines do with the values source; they differ on missing inline
    values. *)
Definition valuesFrom (vs : ValuesSpec) (ns : string) (noInline : result (option values))
    : prog icall (result (option values)) :=
  if bool_decide (vs_Source vs = ValuesSourceInline) then
    Ret match vs_Inline vs with
        | None => noInline
        | Some raw => match unmarshalValues (json_parse raw) with
                      | Ok v => Ok v
                      | Err e => Err (wrapf "decode inline values" e)
                      end
        end
  else if bool_decide (vs_Source vs = ValuesSourceSecretRef) then
    match vs_SecretRef vs with
    | None => Ret (Err (errorf "secretRef values source requires secretRef"))
    | Some ref => loadValuesFromSecret ns ref
    end
  else if bool_decide (vs_Source vs = ValuesSourceConfigMapRef) then
    match vs_ConfigMapRef vs with
    | None => Ret (Err (errorf "configMapRef values source requires configMapRef"))
    | Some ref => loadValuesFromConfigMap ns ref
    end
  else Ret (Err (errorf ("unsupported values source " +:+ quote (vs_Source vs)))).
End Values.

(** ** helmengine/flux.go *)

(** Both packages' [StatusSnapshot]; the last two fields are Seaweed's. *)
Record StatusSnapshot := {
  ss_Ready : bool;
  ss_Reconciling : bool;
  ss_Degraded : bool;
  ss_Reason : string;
  ss_Message : string;
  ss_S3Endpoint : string;
  ss_HasS3 : bool
}.

Definition notYet (message : string) : StatusSnapshot :=
  {| ss_Ready := false; ss_Reconciling := false; ss_Degraded := false; ss_Reason := "Reconciling";
     ss_Message := message; ss_S3Endpoint := ""; ss_HasS3 := false |}.

(** The accumulator of the two condition mappings. *)
Record summary := {
  sy_reason : string; sy_message : string;
  sy_ready : bool; sy_reconciling : bool; sy_degraded : bool
}.

Definition blank : summary :=
  {| sy_reason := ""; sy_message := ""; sy_ready := false; sy_reconciling := false; sy_degraded := false |}.

Definition explain (s : summary) (reason message : string) : summary :=
  {| sy_reason := reason; sy_message := message; sy_ready := sy_ready s;
     sy_reconciling := sy_reconciling s; sy_degraded := sy_degraded s |}.
(** [if reason == "" { ... }] *)
Definition explainOnce (s : summary) (reason message : string) : summary :=
  if bool_decide (sy_reason s = "") then explain s reason message else s.
Definition flag_ready (s : summary) : summary :=
  {| sy_reason := sy_reason s; sy_message := sy_message s; sy_ready := true;
     sy_reconciling := sy_reconciling s; sy_degraded := sy_degraded s |}.
Definition flag_reconciling (s : summary) : summary :=
  {| sy_reason := sy_reason s; sy_message := sy_message s; sy_ready := sy_ready s;
     sy_reconciling := true; sy_degraded := sy_degraded s |}.
Definition flag_degraded (s : summary) : summary :=
  {| sy_reason := sy_reason s; sy_message := sy_message s; sy_ready := sy_ready s;
     sy_reconciling := sy_reconciling s; sy_degraded := true |}.

(** The statements after either loop. *)
Definition conclude (s : summary) (installing : string) : summary :=
  {| sy_reason := if bool_decide (sy_reason s = "") && sy_reconciling s then installing else sy_reason s;
     sy_message := sy_message s; sy_ready := sy_ready s; sy_reconciling := sy_reconciling s;
     sy_degraded := if sy_ready s && sy_degraded s then false else sy_degraded s |}.

Definition helmCondition (s : summary) (item : json) : summary :=
  match item with
  | JObj cond =>
      let typ := text "type" cond in
      let status := text "status" cond in
      let message := text "message" cond in
      if bool_decide (typ = "Ready") then
        if bool_decide (status = "True") then explain (flag_ready s) "HelmReleaseReady" message
        else if bool_decide (status = "False") then explain s "HelmReleaseFailed" message
        else s
      else if bool_decide (typ = "Released") then
        if bool_decide (status = "False") then explainOnce (flag_degraded s) "HelmReleaseDegraded" message else s
      else if bool_decide (typ = "Reconciling") then
        if bool_decide (status = "True") then explainOnce (flag_reconciling s) (text "reason" cond) message else s
      else s
  | _ => s
  end.

Definition mapHelmReleaseConditions (conditions : list json) : summary :=
  conclude (foldl helmCondition blank conditions) "HelmReleaseInstalling".

Definition releaseName (app : ApplicationInstance) : option string := rel_Name <$> as_Release (ai_Spec app).

Section Flux.
Context `{JsonSyntax} `{InstanceLib} `{KubeLib} `{OwnerLib}.

Definition chartSourceName (release : string) : string := release +:+ "-source".

(** [SetNestedField] on the object, in sequence. *)
Definition setField (path : list string) (v : json) (u : Unstructured) : result Unstructured :=
  do! o := SetNestedField (u_Object u) v path in Ok (with_u_object u o).

Definition ensureChartSource (app : ApplicationInstance) : prog icall (result unit) :=
  match as_Chart (ai_Spec app), releaseName app with
  | Some chart, Some release =>
      let upsert kind (mutate : Unstructured → result Unstructured) :=
        try* repo := call (IFetchOrNew kind (ai_Namespace app) (chartSourceName release))
          catch e => Ret (Err e) in
        match mutate (with_u_meta repo (with_labels (u_Meta repo) (ownerLabels app))) with
        | Err e => Ret (Err e)
        | Ok repo => call (IWriteBack repo)
        end in
      if bool_decide (ch_SourceType chart = ChartSourceHelm) then
        upsert "HelmRepository" (λ repo,
          do! repo := setField ["spec"; "interval"] (JStr "1m0s") repo in
          setField ["spec"; "url"] (JStr (ch_URL chart)) repo)
      else if bool_decide (ch_SourceType chart = ChartSourceOCI) then
        upsert "OCIRepository" (λ repo,
          do! repo := setField ["spec"; "interval"] (JStr "1m0s") repo in
          do! repo := setField ["spec"; "url"] (JStr (TrimPrefix (ch_URL chart) "oci://")) repo in
          setField ["spec"; "ref"; "tag"] (JStr (ch_Version chart)) repo)
      else Ret (Err (errorf ("unsupported chart source type " +:+ quote (ch_SourceType chart))))
  | _, _ => Ret (Err nil_pointer)
  end.

Definition buildValues (app : ApplicationInstance) : prog icall (result (option values)) :=
  match as_Values (ai_Spec app) with
  | None => Ret (Err nil_pointer)
  | Some vs => valuesFrom vs (ai_Namespace app) (Ok None)
  end.

Definition ensureHelmRelease (app : ApplicationInstance) : prog icall (result unit) :=
  match as_Chart (ai_Spec app), releaseName app with
  | Some chart, Some release =>
      let sourceKind := if bool_decide (ch_SourceType chart = ChartSourceOCI)
                        then "OCIRepository" else "HelmRepository" in
      try* hr := call (IFetchOrNew "HelmRelease" (ai_Namespace app) release) catch e => Ret (Err e) in
      match (do! m := SetControllerReference (ai_Meta app) (u_Meta hr) in
             let hr := with_u_meta hr (with_labels m (ownerLabels app)) in
             do! hr := setField ["spec"; "interval"] (JStr "5m0s") hr in
             do! hr := setField ["spec"; "chart"; "spec"; "version"] (JStr (ch_Version chart)) hr in
             do! hr := setField ["spec"; "chart"; "spec"; "chart"] (JStr (ch_Name chart)) hr in
             setField ["spec"; "chart"; "spec"; "sourceRef"]
               (JObj [("kind", JStr sourceKind); ("name", JStr (chartSourceName release))]) hr) with
      | Err e => Ret (Err e)
      | Ok hr =>
          try* vals := buildValues app catch e => Ret (Err e) in
          match (match vals with
                 | None => Ok hr
                 | Some v => setField ["spec"; "values"] (jobj v) hr
                 end) with
          | Err e => Ret (Err e)
          | Ok hr => call (IWriteBack hr)
          end
      end
  | _, _ => Ret (Err nil_pointer)
  end.

Definition EnsureRelease (app : ApplicationInstance) : prog icall (result unit) :=
  try* _ := ensureChartSource app catch e => Ret (Err (wrapf "ensure chart source" e)) in
  ensureHelmRelease app.

Fixpoint deleteKinds (ns release : string) (kinds : list string) : prog icall (result unit) :=
  match kinds with
  | [] => Ret (Ok tt)
  | kind :: kinds =>
      let name := if bool_decide (kind = "HelmRelease") then release else chartSourceName release in
      let* r := call (IDeleteObject kind ns name) in
      match r with
      | Err e => if IsNotFound e then deleteKinds ns release kinds
                 else Ret (Err (wrapf ("delete " +:+ kind +:+ "/" +:+ name) e))
      | Ok _ => deleteKinds ns release kinds
      end
  end.

Definition fluxKinds : list string := ["HelmRelease"; "HelmRepository"; "OCIRepository"].

Definition DeleteRelease (app : ApplicationInstance) : prog icall (result unit) :=
  match releaseName app with
  | None => Ret (Err nil_pointer)
  | Some release => deleteKinds (ai_Namespace app) release fluxKinds
  end.

Definition ReleaseExists (app : ApplicationInstance) : prog icall (result bool) :=
  let release := default "" (releaseName app) in
  if bool_decide (release = "") then Ret (Ok false)
  else
    let* r := call (IGetObject "HelmRelease" (ai_Namespace app) release) in
    Ret match r with
        | Ok _ => Ok true
        | Err e => if IsNotFound e then Ok false else Err (wrapf "get HelmRelease" e)
        end.

Definition flux_SyncStatus (app : ApplicationInstance) : prog icall (result StatusSnapshot) :=
  match releaseName app with
  | None => Ret (Err nil_pointer)
  | Some release =>
      try* hr := call (IGetObject "HelmRelease" (ai_Namespace app) release)
        catch e => Ret (Err (wrapf "get helmrelease" e)) in
      Ret (Ok match NestedField (u_Object hr) ["status"; "conditions"] with
              | Some (JArr cs) =>
                  let s := mapHelmReleaseConditions cs in
                  {| ss_Ready := sy_ready s; ss_Reconciling := sy_reconciling s;
                     ss_Degraded := sy_degraded s; ss_Reason := sy_reason s; ss_Message := sy_message s;
                     ss_S3Endpoint := ""; ss_HasS3 := false |}
              | _ => notYet "HelmRelease status not yet available"
              end)
  end.
End Flux.

(** ** seaweedengine *)

Definition seaweedSpecKeys : list string := ["master"; "volume"; "filer"; "s3"; "admin"; "worker"; "sftp"].
Definition seaweedValueWrapperKeys : list string := ["seaweedfs"; "seaweed"].

Definition hasSpecKey (v : values) : bool :=
  existsb (λ k, bool_decide (is_Some (v !! k))) seaweedSpecKeys.

(** A section of the values that holds a key of the spec. *)
Definition specSection (v : json) : option values :=
  match v with
  | JObj fs => let nested := any_entries fs in if hasSpecKey nested then Some nested else None
  | _ => None
  end.

(** The body of [normalizeSeaweedValues]; [order] is the order in which Go's
    [range] yields the entries of the map, which the language leaves open. *)
Definition normalizeInOrder (order : list (string * json)) (v : values) : result values :=
  if hasSpecKey v then Ok v
  else
    match omap (λ w, v !! w ≫= specSection) seaweedValueWrapperKeys with
    | nested :: _ => Ok nested
    | [] =>
        match omap (λ kv, specSection kv.2) order with
        | [] => Ok v
        | [nested] => Ok nested
        | _ => Err (errorf "ambiguous Seaweed values: multiple wrapper sections contain Seaweed spec keys")
        end
    end.

Definition normalizeSeaweedValues (v : values) : result values := normalizeInOrder (map_to_list v) v.

Definition validateReleaseRef (app : ApplicationInstance) : result string :=
  match releaseName app with
  | None => Err (errorf "spec.release is required for Seaweed workload")
  | Some name => if bool_decide (name = "") then
                   Err (errorf "spec.release.name is required for Seaweed workload")
                 else Ok name
  end.

Definition releaseNamespace (app : ApplicationInstance) : string :=
  match as_Release (ai_Spec app) with
  | Some r => fallback (rel_Namespace r) (ai_Namespace app)
  | None => ai_Namespace app
  end.

Definition s3ServiceName (release : string) : string := release +:+ "-s3".
Definition S3Endpoint (release ns : string) : string :=
  "http://" +:+ s3ServiceName release +:+ "." +:+ ns +:+ ".svc:8333".

Definition seaweedCondition (s : summary) (item : json) : summary :=
  match item with
  | JObj cond =>
      let typ := text "type" cond in
      let status := text "status" cond in
      let message := text "message" cond in
      if bool_decide (typ = "Ready") then
        if bool_decide (status = "True") then explain (flag_ready s) "SeaweedReady" message
        else if bool_decide (status = "False") then explain s "SeaweedFailed" message
        else s
      else if bool_decide (typ = "Progressing") then
        if bool_decide (status = "True") then explainOnce (flag_reconciling s) (text "reason" cond) message else s
      else if bool_decide (typ = "Degraded") then
        if bool_decide (status = "True") then explainOnce (flag_degraded s) (text "reason" cond) message else s
      else s
  | _ => s
  end.

Definition mapSeaweedConditions (conditions : list json) : summary :=
  conclude (foldl seaweedCondition blank conditions) "SeaweedReconciling".

Record ManagedStorageSnapshot := {
  ms_AccessKeyID : string;
  ms_SecretAccessKey : string;
  ms_BucketName : string
}.

Inductive credentialSnapshotOutcome := credentialSnapshotSecretMissing | credentialSnapshotUnusable.

Section Seaweed.
Context `{JsonSyntax} `{InstanceLib} `{KubeLib} `{OwnerLib}.

Definition seaweed_normalized (r : result (option values)) : result values :=
  do! v := r in normalizeSeaweedValues (default ∅ v).

Definition loadValues (app : ApplicationInstance) : prog icall (result values) :=
  match as_Values (ai_Spec app) with
  | None => Ret (Err (errorf "spec.values is required for Seaweed workload"))
  | Some vs =>
      let* r := valuesFrom vs (ai_Namespace app)
                  (Err (errorf "inline values are required for Seaweed workload")) in
      Ret (seaweed_normalized r)
  end.

(** The sections of the values that make up the spec. *)
Definition seaweedSpec (v : values) : values :=
  foldl (λ spec k, match v !! k with Some fragment => <[k := fragment]> spec | None => spec end) ∅ seaweedSpecKeys.

(** [EnsureSeaweed] once it has the values: lines 68 to 94. *)
Definition writeSeaweed (app : ApplicationInstance) (release : string) (v : values)
    : prog icall (result unit) :=
  let ns := releaseNamespace app in
  if bool_decide (ns ≠ ai_Namespace app) then
    Ret (Err (errorf ("spec.release.namespace " +:+ quote ns +:+ " must match metadata.namespace " +:+
                      quote (ai_Namespace app) +:+ " for Seaweed workloads")))
  else
    try* sw := call (IFetchOrNew "Seaweed" ns release) catch e => Ret (Err e) in
    match (do! m := SetControllerReference (ai_Meta app) (u_Meta sw) in
           let sw := with_u_meta sw (with_labels m (ownerLabels app)) in
           let spec := seaweedSpec v in
           if bool_decide (spec = ∅) then
             Err (errorf "values must include at least one native Seaweed spec section (master, volume, filer, s3, …); Helm chart-wrapped values require conversion before reconciliation")
           else setField ["spec"] (jobj spec) sw) with
    | Err e => Ret (Err e)
    | Ok sw => call (IWriteBack sw)
    end.

Definition EnsureSeaweed (app : ApplicationInstance) : prog icall (result unit) :=
  match validateReleaseRef app with
  | Err e => Ret (Err e)
  | Ok release =>
      try* loaded := loadValues app catch e => Ret (Err (wrapf "load values" e)) in
      match normalizeSeaweedValues loaded with
      | Err e => Ret (Err (wrapf "normalize values" e))
      | Ok v => writeSeaweed app release v
      end
  end.

Definition DeleteSeaweed (app : ApplicationInstance) : prog icall (result unit) :=
  match validateReleaseRef app with
  | Err e => Ret (Err e)
  | Ok release =>
      let* r := call (IDeleteObject "Seaweed" (releaseNamespace app) release) in
      Ret match r with
          | Ok _ => Ok tt
          | Err e => if IsNotFound e then Ok tt else Err (wrapf ("delete Seaweed/" +:+ release) e)
          end
  end.

Definition SeaweedExists (app : ApplicationInstance) : prog icall (result bool) :=
  match validateReleaseRef app with
  | Err e => Ret (Err e)
  | Ok release =>
      let* r := call (IGetObject "Seaweed" (releaseNamespace app) release) in
      Ret match r with
          | Ok _ => Ok true
          | Err e => if IsNotFound e then Ok false else Err (wrapf "get Seaweed" e)
          end
  end.

Definition s3EnabledInSpec (spec : list (string * json)) : bool :=
  match map_get "s3" spec with
  | Some (JObj s3) =>
      if bool_decide (length s3 = 0) then false
      else
        match NestedField s3 ["enabled"] with
        | Some (JBool false) => false
        | _ =>
            match NestedField s3 ["replicas"] with
            | None => true
            | Some (JNum lit) =>
                match int_value lit with
                | Some z => bool_decide (- 2 ^ 63 ≤ z < 2 ^ 63 ∧ 0 < z)%Z
                | None => false
                end
            | Some _ => false
            end
        end
  | _ => false
  end.

Definition hasS3Spec (sw : Unstructured) : bool :=
  match NestedMap (u_Object sw) ["spec"] with Some spec => s3EnabledInSpec spec | None => false end.

Definition s3ServiceExists (release ns : string) : prog icall bool :=
  let* r := call (IGetService ns (s3ServiceName release)) in Ret (is_ok r).

Definition seaweed_SyncStatus (app : ApplicationInstance) : prog icall (result StatusSnapshot) :=
  match validateReleaseRef app with
  | Err e => Ret (Err e)
  | Ok release =>
      let ns := releaseNamespace app in
      try* sw := call (IGetObject "Seaweed" ns release) catch e => Ret (Err (wrapf "get Seaweed" e)) in
      match NestedField (u_Object sw) ["status"; "conditions"] with
      | Some (JArr cs) =>
          let s := mapSeaweedConditions cs in
          let hasS3 := hasS3Spec sw in
          let* service := (if sy_ready s && hasS3 then s3ServiceExists release ns else Ret false) in
          Ret (Ok {| ss_Ready := sy_ready s; ss_Reconciling := sy_reconciling s;
                     ss_Degraded := sy_degraded s; ss_Reason := sy_reason s; ss_Message := sy_message s;
                     ss_S3Endpoint := if (service : bool) then S3Endpoint release ns else "";
                     ss_HasS3 := hasS3 |})
      | _ => Ret (Ok (notYet "Seaweed status not yet available"))
      end
  end.

(** *** credentials.go *)

Definition phaseOf (item : Unstructured) : string := NestedString (u_Object item) ["status"; "phase"].

(** [splitS3CredentialsByPhase]: the ready ones, and whether one is still pending. *)
Definition splitS3CredentialsByPhase (candidates : list Unstructured) : list Unstructured * bool :=
  (filter (λ i, phaseOf i = "Ready") candidates,
   existsb (λ i, negb (bool_decide (phaseOf i = "Ready" ∨ phaseOf i = "Failed"))) candidates).

Definition name_le (a b : Unstructured) : Prop := String.leb (Name (u_Meta a)) (Name (u_Meta b)) = true.

#[export] Instance name_le_dec a b : Decision (name_le a b).
Proof. unfold name_le. apply _. Defined.

Definition listMatchingS3Credentials (ns release : string) : prog icall (result (list Unstructured)) :=
  try* items := call (IListObjects "S3Credentials" ns) catch e => Ret (Err (wrapf "list S3Credentials" e)) in
  Ret (Ok (merge_sort name_le
    (filter (λ i, NestedString (u_Object i) ["spec"; "seaweedRef"; "name"] = release) items))).

Definition snapshotFromS3Credentials (ns release : string) (item : Unstructured)
    : prog icall (result (ManagedStorageSnapshot + credentialSnapshotOutcome)) :=
  let field p := NestedString (u_Object item) p in
  let phase := phaseOf item in
  if bool_decide (phase ≠ "" ∧ phase ≠ "Ready") then Ret (Ok (inr credentialSnapshotUnusable))
  else
    let secretName := fallback (field ["status"; "secretName"]) (field ["spec"; "secretRef"; "name"]) in
    let accessKeyField := fallback (field ["spec"; "secretRef"; "accessKeyField"]) "accessKey" in
    let secretKeyField := fallback (field ["spec"; "secretRef"; "secretKeyField"]) "secretKey" in
    if bool_decide (secretName = "") then Ret (Ok (inr credentialSnapshotUnusable))
    else
      try* secret := call (IGetSecret ns secretName)
        catch e => Ret (if IsNotFound e then Ok (inr credentialSnapshotSecretMissing)
                        else Err (wrapf ("get S3Credentials secret " +:+ ns +:+ "/" +:+ secretName) e)) in
      let secretKey := dataOf (sec_Data secret) secretKeyField in
      let accessKey := fallback (field ["status"; "accessKey"]) (dataOf (sec_Data secret) accessKeyField) in
      Ret (Ok (if bool_decide (accessKey = "" ∨ secretKey = "") then inr credentialSnapshotUnusable
               else inl {| ms_AccessKeyID := accessKey; ms_SecretAccessKey := secretKey;
                           ms_BucketName := release |})).

(** What [ResolveManagedStorageState] answers without an error. *)
Record StorageState := {
  rs_snapshot : option ManagedStorageSnapshot;
  rs_pending : bool;
  rs_failed : bool
}.

Fixpoint firstUsable (ns release : string) (stillPending secretMissing unusable : bool)
    (ready : list Unstructured) : prog icall (result StorageState) :=
  match ready with
  | [] =>
      Ret (Ok (if stillPending || secretMissing
               then {| rs_snapshot := None; rs_pending := true; rs_failed := false |}
               else {| rs_snapshot := None; rs_pending := false; rs_failed := unusable |}))
  | item :: ready =>
      try* got := snapshotFromS3Credentials ns release item catch e => Ret (Err e) in
      match got with
      | inl snapshot => Ret (Ok {| rs_snapshot := Some snapshot; rs_pending := false; rs_failed := false |})
      | inr credentialSnapshotSecretMissing => firstUsable ns release stillPending true unusable ready
      | inr credentialSnapshotUnusable => firstUsable ns release stillPending secretMissing true ready
      end
  end.

(** Beside an error of a snapshot the code returns pending as true; the one caller
    looks at the error first, and the error is all the model keeps. *)
Definition ResolveManagedStorageState (app : ApplicationInstance) : prog icall (result StorageState) :=
  match validateReleaseRef app with
  | Err e => Ret (Err e)
  | Ok release =>
      let ns := releaseNamespace app in
      try* candidates := listMatchingS3Credentials ns release catch e => Ret (Err e) in
      match candidates with
      | [] => Ret (Ok {| rs_snapshot := None; rs_pending := false; rs_failed := false |})
      | _ =>
          let '(ready, stillPending) := splitS3CredentialsByPhase candidates in
          match ready with
          | [] => Ret (Ok {| rs_snapshot := None; rs_pending := stillPending; rs_failed := negb stillPending |})
          | _ => firstUsable ns release stillPending false false ready
          end
      end
  end.

Definition ResolveManagedStorage (app : ApplicationInstance)
    : prog icall (result (option ManagedStorageSnapshot)) :=
  try* state := ResolveManagedStorageState app catch e => Ret (Err e) in
  Ret (Ok (rs_snapshot state)).
End Seaweed.

(** *** crd.go: the REST mapper answers per kind; [None] is a nil mapper. *)

Definition watchCRDKinds : list string := ["Seaweed"; "S3Credentials"].

Definition CRDsAvailable (mapper : option (string → result unit)) : bool :=
  match mapper with
  | None => false
  | Some m => forallb (λ kind, is_ok (m kind)) watchCRDKinds
  end.
