(* ===== verification/InstanceReconciler.v ===== *)
(** * internal/controller/applicationinstance_controller.go

    [Reconcile] is one pass over one [ApplicationInstance]; the delivery of managed
    storage credentials goes through the event batcher, whose callbacks
    ([PrepareManagedStoragePost], [AbortManagedStoragePost],
    [AckManagedStorageDelivered]) run concurrently with it.  The delivery maps are
    shared memory: each access is one [IAtomic] section, as the mutex makes it. *)

From stdpp Require Import base list strings pretty gmap.
From S2P Require Import Prelude Traces GoStrings Api Conditions Events Reporter Json Kube Crypto.
From S2P Require Import HttpClient Credentials InstanceValidation InstanceEngines.

Definition reportedManagedStorageAccessKeyAnnotation : string := "vworkspace.io/reported-managed-storage-key".
Definition managedStorageAckRetryAnnotation : string := "vworkspace.io/managed-storage-ack-retry".
Definition seaweedEndpointsAckRetryAnnotation : string := "vworkspace.io/seaweed-endpoints-ack-retry".
Definition managedStorageFailedAckRetryAnnotation : string := "vworkspace.io/managed-storage-failed-ack-retry".
Definition managedStorageClaimAnnotation : string := "vworkspace.io/managed-storage-claim".
Definition managedStoragePostedAnnotation : string := "vworkspace.io/managed-storage-posted".
Definition managedStorageFailedPostedAnnotation : string := "vworkspace.io/managed-storage-failed-posted".
Definition reportedManagedStorageFailedAnnotation : string := "vworkspace.io/reported-managed-storage-failed".
Definition reportedSeaweedEndpointsAnnotation : string := "vworkspace.io/reported-seaweed-endpoints".
Definition managedStorageFailedAnnotationValue : string := "true".

(** ** The object *)

Definition annotation (app : ApplicationInstance) (k : string) : string :=
  default "" (Annotations (ai_Meta app) !! k).

Definition with_ai_meta (a : ApplicationInstance) (m : ObjectMeta) : ApplicationInstance :=
  {| ai_Meta := m; ai_Spec := ai_Spec a; ai_Status := ai_Status a |}.
Definition annotate (k v : string) (a : ApplicationInstance) : ApplicationInstance :=
  with_ai_meta a (with_annotations (ai_Meta a) (<[k := v]> (Annotations (ai_Meta a)))).
Definition unannotate (k : string) (a : ApplicationInstance) : ApplicationInstance :=
  with_ai_meta a (with_annotations (ai_Meta a) (delete k (Annotations (ai_Meta a)))).

Definition with_ai_status (a : ApplicationInstance) (s : ApplicationInstanceStatus) : ApplicationInstance :=
  {| ai_Meta := ai_Meta a; ai_Spec := ai_Spec a; ai_Status := s |}.
Definition ai_Conditions (a : ApplicationInstance) : list Condition := ast_Conditions (ai_Status a).
Definition put (now : Z) (a : ApplicationInstance) (t s reason message : string) : ApplicationInstance :=
  let st := ai_Status a in
  with_ai_status a {| ast_ObservedGeneration := ast_ObservedGeneration st;
    ast_Conditions := Conditions.Set_ now (ast_Conditions st) t s reason message;
    ast_HelmReleaseRef := ast_HelmReleaseRef st; ast_LastAppliedChart := ast_LastAppliedChart st;
    ast_LastReconcileTime := ast_LastReconcileTime st; ast_Endpoints := ast_Endpoints st |}.
(** Observed generation and reconcile time. *)
Definition observed (now : Z) (a : ApplicationInstance) : ApplicationInstance :=
  let st := ai_Status a in
  with_ai_status a {| ast_ObservedGeneration := Generation (ai_Meta a); ast_Conditions := ast_Conditions st;
    ast_HelmReleaseRef := ast_HelmReleaseRef st; ast_LastAppliedChart := ast_LastAppliedChart st;
    ast_LastReconcileTime := Some now; ast_Endpoints := ast_Endpoints st |}.
Definition with_release (a : ApplicationInstance) (ref : option HelmReleaseRef) : ApplicationInstance :=
  let st := ai_Status a in
  with_ai_status a {| ast_ObservedGeneration := ast_ObservedGeneration st; ast_Conditions := ast_Conditions st;
    ast_HelmReleaseRef := ref; ast_LastAppliedChart := ast_LastAppliedChart st;
    ast_LastReconcileTime := ast_LastReconcileTime st; ast_Endpoints := ast_Endpoints st |}.
Definition with_chart (a : ApplicationInstance) (c : option ChartSnapshot) : ApplicationInstance :=
  let st := ai_Status a in
  with_ai_status a {| ast_ObservedGeneration := ast_ObservedGeneration st; ast_Conditions := ast_Conditions st;
    ast_HelmReleaseRef := ast_HelmReleaseRef st; ast_LastAppliedChart := c;
    ast_LastReconcileTime := ast_LastReconcileTime st; ast_Endpoints := ast_Endpoints st |}.
Definition with_endpoints (a : ApplicationInstance) (eps : list EndpointStatus) : ApplicationInstance :=
  let st := ai_Status a in
  with_ai_status a {| ast_ObservedGeneration := ast_ObservedGeneration st; ast_Conditions := ast_Conditions st;
    ast_HelmReleaseRef := ast_HelmReleaseRef st; ast_LastAppliedChart := ast_LastAppliedChart st;
    ast_LastReconcileTime := ast_LastReconcileTime st; ast_Endpoints := eps |}.

Definition snapshotOf (c : ChartSpec) : ChartSnapshot :=
  {| sn_SourceType := ch_SourceType c; sn_URL := ch_URL c; sn_Name := ch_Name c; sn_Version := ch_Version c |}.

Definition instanceRef (app : ApplicationInstance) : AppliedRef :=
  ResourceRefFromMeta appsGroupVersion "ApplicationInstance" (ai_Meta app).

(** ** The delivery maps *)

Definition storageDeliveryKey (ns name : string) : string := ns +:+ "/" +:+ name.

Definition atomically {A : Type} (f : StorageMemory → A * StorageMemory) : prog icall A := call (IAtomic f).

Definition with_inflight (m : StorageMemory) (x : gmap string string) : StorageMemory :=
  {| sm_InFlight := x; sm_Posting := sm_Posting m; sm_AckPending := sm_AckPending m |}.
Definition with_posting (m : StorageMemory) (x : gmap string string) : StorageMemory :=
  {| sm_InFlight := sm_InFlight m; sm_Posting := x; sm_AckPending := sm_AckPending m |}.
Definition with_ack (m : StorageMemory) (x : gmap string string) : StorageMemory :=
  {| sm_InFlight := sm_InFlight m; sm_Posting := sm_Posting m; sm_AckPending := x |}.

Definition markStorageInFlight (ns name key : string) : prog icall unit :=
  atomically (λ m, (tt, with_inflight m (<[storageDeliveryKey ns name := key]> (sm_InFlight m)))).
Definition inFlightStorageReportKey (ns name : string) : prog icall (option string) :=
  atomically (λ m, (sm_InFlight m !! storageDeliveryKey ns name, m)).
Definition clearStorageInFlight (ns name : string) : prog icall unit :=
  atomically (λ m, (tt, with_inflight m (delete (storageDeliveryKey ns name) (sm_InFlight m)))).
Definition markStorageAckPending (ns name key : string) : prog icall unit :=
  atomically (λ m, (tt, with_ack m (<[storageDeliveryKey ns name := key]> (sm_AckPending m)))).
Definition pendingStorageAckReportKey (ns name : string) : prog icall (option string) :=
  atomically (λ m, (sm_AckPending m !! storageDeliveryKey ns name, m)).
Definition clearStorageAckPending (ns name : string) : prog icall unit :=
  atomically (λ m, (tt, with_ack m (delete (storageDeliveryKey ns name) (sm_AckPending m)))).
Definition markStoragePosting (ns name key : string) : prog icall unit :=
  atomically (λ m, (tt, with_posting m (<[storageDeliveryKey ns name := key]> (sm_Posting m)))).
Definition postingStorageReportKey (ns name : string) : prog icall (option string) :=
  atomically (λ m, (sm_Posting m !! storageDeliveryKey ns name, m)).
Definition clearStoragePosting (ns name key : string) : prog icall unit :=
  atomically (λ m, (tt,
    if bool_decide (default "" (sm_Posting m !! storageDeliveryKey ns name) = key)
    then with_posting m (delete (storageDeliveryKey ns name) (sm_Posting m)) else m)).
Definition clearStorageDeliveryState (ns name : string) : prog icall unit :=
  let k := storageDeliveryKey ns name in
  atomically (λ m, (tt, {| sm_InFlight := delete k (sm_InFlight m); sm_Posting := delete k (sm_Posting m);
                           sm_AckPending := delete k (sm_AckPending m) |})).

(** ** Report keys *)

Definition nul : string := bytes [0%nat].

Definition managedStorageReportKey (ms : ManagedStorageSnapshot) : string :=
  hex_encode (take 8 (sha256 (to_bytes (ms_AccessKeyID ms +:+ nul +:+ ms_SecretAccessKey ms)))).

Definition seaweedEndpointsReportKey (eps : list EndpointPayload) : string :=
  hex_encode (take 8 (sha256 (to_bytes
    (String.concat "" ((λ ep, epp_Name ep +:+ nul +:+ epp_URL ep +:+ nul) <$> eps))))).

Definition agentEndpointsFromStatus (eps : list EndpointStatus) : list EndpointPayload :=
  (λ ep, {| epp_Name := ep_Name ep; epp_URL := ep_URL ep |}) <$> filter (λ ep, ep_URL ep ≠ "") eps.

(** ** Annotation patches *)

(** Get, change and patch, as the acknowledging functions do; [already] stops
    before the patch. *)
Definition patchAnnotations (ns name : string) (already : ApplicationInstance → bool)
    (change : ApplicationInstance → ApplicationInstance) : prog icall (result unit) :=
  try* app := call (IGetInstance ns name) catch e => Ret (Err (wrapf "get ApplicationInstance" e)) in
  if already app then Ret (Ok tt)
  else
    try* _ := call (IPatchInstance app (change app))
      catch e => Ret (Err (wrapf "patch ApplicationInstance" e)) in
    Ret (Ok tt).

Definition setOnce (ns name k v : string) : prog icall (result unit) :=
  patchAnnotations ns name (λ app, bool_decide (annotation app k = v)) (annotate k v).

Definition patchSeaweedEndpointsAck (ns name reportKey : string) : prog icall (result unit) :=
  setOnce ns name reportedSeaweedEndpointsAnnotation reportKey.
Definition patchManagedStorageFailedAck (ns name : string) : prog icall (result unit) :=
  setOnce ns name reportedManagedStorageFailedAnnotation managedStorageFailedAnnotationValue.
Definition patchManagedStorageFailedPosted (ns name : string) : prog icall (result unit) :=
  setOnce ns name managedStorageFailedPostedAnnotation managedStorageFailedAnnotationValue.
Definition patchManagedStoragePosted (ns name reportKey : string) : prog icall (result unit) :=
  setOnce ns name managedStoragePostedAnnotation reportKey.

Definition clearAnnotation (ns name key : string) : prog icall unit :=
  let* got := call (IGetInstance ns name) in
  match got with
  | Err _ => Ret tt
  | Ok app =>
      if bool_decide (annotation app key = "") then Ret tt
      else let* _ := call (IPatchInstance app (unannotate key app)) in Ret tt
  end.

(** The object [patchManagedStorageAck] writes. *)
Definition acknowledged (reportKey : string) (app : ApplicationInstance) : ApplicationInstance :=
  unannotate managedStoragePostedAnnotation (unannotate managedStorageClaimAnnotation
    (annotate reportedManagedStorageAccessKeyAnnotation reportKey app)).

(** [patchManagedStorageAck] from attempt [n] of three on; [last] is [patchErr]. *)
Fixpoint ackAttempts (attempts : list Z) (ns name reportKey : string) (last : error)
    : prog icall (result unit) :=
  match attempts with
  | [] => Ret (Err (wrapf "patch ApplicationInstance" last))
  | attempt :: attempts =>
      let* _ := (if bool_decide (0 < attempt)%Z then call (ISleep (attempt * 100000000)) else Ret tt) in
      try* app := call (IGetInstance ns name) catch e => Ret (Err (wrapf "get ApplicationInstance" e)) in
      if bool_decide (annotation app reportedManagedStorageAccessKeyAnnotation = reportKey) then
        let* _ := clearStorageDeliveryState ns name in Ret (Ok tt)
      else
        let* r := call (IPatchInstance app (acknowledged reportKey app)) in
        match r with
        | Ok _ => let* _ := clearStorageDeliveryState ns name in Ret (Ok tt)
        | Err e => if IsApiConflict e then ackAttempts attempts ns name reportKey e
                   else Ret (Err (wrapf "patch ApplicationInstance" e))
        end
  end.

Definition patchManagedStorageAck (ns name reportKey : string) : prog icall (result unit) :=
  ackAttempts [0; 1; 2]%Z ns name reportKey (errorf "").

Definition retryManagedStorageAck (ns name reportKey : string) : prog icall (result unit) :=
  let* _ := markStorageAckPending ns name reportKey in
  patchManagedStorageAck ns name reportKey.

(** [clearManagedStorageClaim] and [claimManagedStorageDelivery] work on the object
    at hand and leave it as the server returned it. *)
Definition clearManagedStorageClaim (app : ApplicationInstance)
    : prog icall (result ApplicationInstance) :=
  if bool_decide (annotation app managedStorageClaimAnnotation = "") then Ret (Ok app)
  else call (IPatchInstance app (unannotate managedStorageClaimAnnotation app)).

Inductive claimOutcome := Claimed | NotClaimed | ClaimRequeue.

Definition claimManagedStorageDelivery (app : ApplicationInstance) (reportKey : string)
    : prog icall (result (claimOutcome * ApplicationInstance)) :=
  if bool_decide (annotation app reportedManagedStorageAccessKeyAnnotation = reportKey) then
    Ret (Ok (NotClaimed, app))
  else if bool_decide (annotation app managedStorageClaimAnnotation = reportKey) then
    Ret (Ok (if bool_decide (annotation app managedStoragePostedAnnotation ≠ reportKey)
             then Claimed else NotClaimed, app))
  else
    let* r := call (IPatchInstance app (annotate managedStorageClaimAnnotation reportKey app)) in
    Ret match r with
        | Ok app => Ok (Claimed, app)
        | Err e => if IsApiConflict e
                   then Ok (ClaimRequeue, annotate managedStorageClaimAnnotation reportKey app)
                   else Err e
        end.

Section Callbacks.
Context {Il : InstanceLib}.

Definition triggerAckRetry (ns name k : string) : prog icall unit :=
  let* got := call (IGetInstance ns name) in
  match got with
  | Err _ => Ret tt
  | Ok app =>
      let* now := call INow in
      let* _ := call (IPatchInstance app (annotate k (FormatRFC3339Nano now) app)) in
      Ret tt
  end.

(** ** The batcher's callbacks *)

(** The managed-storage events of a batch. *)
Fixpoint forStorageEvents (act : string → string → string → prog icall unit) (events : list Event)
    : prog icall unit :=
  match events with
  | [] => Ret tt
  | e :: events =>
      let ref := ev_ResourceRef e in
      let* _ := match ManagedStorageReportKeyFromEventKey (ev_EventKey e) with
                | Some key => act (ar_Namespace ref) (ar_Name ref) key
                | None => Ret tt
                end in
      forStorageEvents act events
  end.

Definition PrepareManagedStoragePost (events : list Event) : prog icall unit :=
  forStorageEvents markStoragePosting events.
Definition AbortManagedStoragePost (events : list Event) : prog icall unit :=
  forStorageEvents clearStoragePosting events.

(** [if err != nil { retry }] *)
Definition orRetry (r : result unit) (ns name k : string) : prog icall unit :=
  match r with Ok _ => Ret tt | Err _ => triggerAckRetry ns name k end.

Definition ackDelivered (e : Event) : prog icall unit :=
  let ns := ar_Namespace (ev_ResourceRef e) in
  let name := ar_Name (ev_ResourceRef e) in
  if bool_decide (ev_Kind e = "ManagedStorageFailed") then
    let* r := patchManagedStorageFailedPosted ns name in
    match r with
    | Err _ => triggerAckRetry ns name managedStorageFailedAckRetryAnnotation
    | Ok _ => let* r := patchManagedStorageFailedAck ns name in
              orRetry r ns name managedStorageFailedAckRetryAnnotation
    end
  else
    match EndpointsReportKeyFromEventKey (ev_EventKey e) with
    | Some key => let* r := patchSeaweedEndpointsAck ns name key in
                  orRetry r ns name seaweedEndpointsAckRetryAnnotation
    | None =>
        match ManagedStorageReportKeyFromEventKey (ev_EventKey e) with
        | None => Ret tt
        | Some key =>
            let* _ := markStorageAckPending ns name key in
            let* _ := clearStorageInFlight ns name in
            let* _ := clearStoragePosting ns name key in
            let* r := patchManagedStoragePosted ns name key in
            match r with
            | Err _ => triggerAckRetry ns name managedStorageAckRetryAnnotation
            | Ok _ => let* r := patchManagedStorageAck ns name key in
                      orRetry r ns name managedStorageAckRetryAnnotation
            end
        end
    end.

Fixpoint AckManagedStorageDelivered (events : list Event) : prog icall unit :=
  match events with
  | [] => Ret tt
  | e :: events => let* _ := ackDelivered e in AckManagedStorageDelivered events
  end.
End Callbacks.

(** ** The engines as interfaces *)

Record HelmEngineOps := {
  he_EnsureRelease : ApplicationInstance → prog icall (result unit);
  he_DeleteRelease : ApplicationInstance → prog icall (result unit);
  he_ReleaseExists : ApplicationInstance → prog icall (result bool);
  he_SyncStatus : ApplicationInstance → prog icall (result StatusSnapshot)
}.

Record SeaweedEngineOps := {
  se_EnsureSeaweed : ApplicationInstance → prog icall (result unit);
  se_DeleteSeaweed : ApplicationInstance → prog icall (result unit);
  se_SeaweedExists : ApplicationInstance → prog icall (result bool);
  se_SyncStatus : ApplicationInstance → prog icall (result StatusSnapshot);
  se_ResolveManagedStorageState : ApplicationInstance → prog icall (result StorageState)
}.

Definition FluxEngine `{JsonSyntax, InstanceLib, KubeLib, OwnerLib} : HelmEngineOps := {|
  he_EnsureRelease := EnsureRelease; he_DeleteRelease := DeleteRelease;
  he_ReleaseExists := ReleaseExists; he_SyncStatus := flux_SyncStatus |}.

Definition SeaweedEngine `{JsonSyntax, InstanceLib, KubeLib, OwnerLib} : SeaweedEngineOps := {|
  se_EnsureSeaweed := EnsureSeaweed; se_DeleteSeaweed := DeleteSeaweed;
  se_SeaweedExists := SeaweedExists; se_SyncStatus := seaweed_SyncStatus;
  se_ResolveManagedStorageState := ResolveManagedStorageState |}.

Record ApplicationInstanceReconciler := {
  ir_Engine : option HelmEngineOps;
  ir_SeaweedEngine : option SeaweedEngineOps
}.

(** ** Status snapshots *)

Definition unblocked (now : Z) (app : ApplicationInstance) : ApplicationInstance :=
  put now app ConditionBlocked ConditionFalse "Unblocked" "Reconciliation can proceed".

(** The Reconciling and Degraded conditions of either snapshot. *)
Definition applyProgress (now : Z) (app : ApplicationInstance) (s : StatusSnapshot) (healthy : string)
    : ApplicationInstance :=
  let app := if ss_Reconciling s
             then put now app ConditionReconciling ConditionTrue (ss_Reason s) (ss_Message s)
             else put now app ConditionReconciling ConditionFalse "Stable" "No reconciliation in flight" in
  if ss_Degraded s then put now app ConditionDegraded ConditionTrue (ss_Reason s) (ss_Message s)
  else put now app ConditionDegraded ConditionFalse "Recovered" healthy.

Definition applyHelmStatusSnapshot (now : Z) (app : ApplicationInstance) (s : option StatusSnapshot)
    : ApplicationInstance :=
  match s with
  | None => put now app ConditionReady ConditionUnknown "Reconciling" "Waiting for HelmRelease status"
  | Some s =>
      let app := applyProgress now app s "Release is healthy" in
      if ss_Ready s then
        unblocked now (put now app ConditionReady ConditionTrue "HelmReleaseReady" (ss_Message s))
      else put now app ConditionReady ConditionUnknown (fallback (ss_Reason s) "Reconciling") (ss_Message s)
  end.

Definition s3Endpoint (url : string) : list EndpointStatus :=
  if bool_decide (url = "") then []
  else [{| ep_Name := "s3"; ep_URL := url; ep_Type := "s3";
           ep_Notes := "In-cluster SeaweedFS S3 gateway (port 8333)" |}].

Definition applySeaweedStatusSnapshot (now : Z) (app : ApplicationInstance) (s : option StatusSnapshot)
    : ApplicationInstance :=
  match s with
  | None =>
      let app := with_endpoints app [] in
      let app := put now app ConditionReconciling ConditionTrue "Reconciling" "Waiting for Seaweed status" in
      let app := put now app ConditionDegraded ConditionFalse "Reconciling" "Seaweed status not yet available" in
      put now app ConditionReady ConditionUnknown "Reconciling" "Waiting for Seaweed status"
  | Some s =>
      let app := with_endpoints app (s3Endpoint (ss_S3Endpoint s)) in
      let app := applyProgress now app s "Seaweed cluster is healthy" in
      if ss_Ready s then
        if ss_HasS3 s && bool_decide (ss_S3Endpoint s = "") then
          put now app ConditionReady ConditionUnknown "WaitingForS3Endpoint"
            "Seaweed is ready but S3 endpoint is not yet available"
        else unblocked now (put now app ConditionReady ConditionTrue "SeaweedReady" (ss_Message s))
      else
        let reason := fallback (ss_Reason s) "Reconciling" in
        let status := if ss_Degraded s || bool_decide (reason = "SeaweedFailed")
                      then ConditionFalse else ConditionUnknown in
        unblocked now (put now app ConditionReady status reason (ss_Message s))
  end.

Section InstanceController.
Context {Il : InstanceLib} {Kl : KubeLib}.
Context (r : ApplicationInstanceReconciler).

Definition reportConditions (app : ApplicationInstance) (prev : list Condition) : prog icall unit :=
  call (IReport (instanceRef app) prev (ai_Conditions app)).

(** Write the status, report the change, go on with the stored object. *)
Definition publishStatus (app : ApplicationInstance) (prev : list Condition) (what : string)
    (k : ApplicationInstance → prog icall outcome) : prog icall outcome :=
  try* app := call (IUpdateInstanceStatus app) catch e => failWith noResult (wrapf what e) in
  let* _ := reportConditions app prev in
  k app.

Definition done_ (res : Result) (_ : ApplicationInstance) : prog icall outcome := finish res.

Definition instanceBlocked (now : Z) (app : ApplicationInstance) (reason message : string) : ApplicationInstance :=
  put now (put now app ConditionBlocked ConditionTrue reason message) ConditionReady ConditionFalse reason message.

Definition setBlocked (app : ApplicationInstance) (reason message : string) : prog icall outcome :=
  let* now := call INow in
  publishStatus (instanceBlocked now app reason message) (ai_Conditions app) "update blocked status"
    (done_ noResult).

(** ** Managed storage *)

(** The first branch of [reportManagedStorageFailed] after the audit is known. *)
Definition settleFailedAck (app : ApplicationInstance) : prog icall outcome :=
  let ns := ai_Namespace app in
  let name := ai_Name app in
  let* r := patchManagedStorageFailedAck ns name in
  match r with
  | Err _ => finish (after 30)
  | Ok _ =>
      let* _ := clearAnnotation ns name managedStorageFailedPostedAnnotation in
      let* _ := clearAnnotation ns name managedStorageFailedAckRetryAnnotation in
      finish noResult
  end.

Definition reportManagedStorageFailed (app : ApplicationInstance) : prog icall outcome :=
  if bool_decide (annotation app reportedManagedStorageFailedAnnotation = managedStorageFailedAnnotationValue)
  then finish noResult
  else if bool_decide (annotation app managedStorageFailedPostedAnnotation = managedStorageFailedAnnotationValue)
  then settleFailedAck app
  else if bool_decide (annotation app managedStorageFailedAckRetryAnnotation ≠ "")
  then settleFailedAck app
  else
    let ref := instanceRef app in
    let eventKey := "ManagedStorageFailed/" +:+ ar_UID ref +:+ "/" +:+ ConditionReady in
    let* pending := call (IHasPendingEvent eventKey) in
    match pending with
    | true => finish noResult
    | false =>
        let* _ := call (IReportAudit ref "ManagedStorageFailed"
          [{| c_Type := ConditionReady; c_Status := ConditionTrue; c_Reason := "ManagedStorageFailed";
              c_Message := "Matching S3Credentials CRs are unavailable for managed storage reporting";
              c_LastTransitionTime := 0 |}] eventKey) in
        finish noResult
    end.

Definition reportSeaweedEndpointsIfNeeded (app : ApplicationInstance) : prog icall unit :=
  let ns := ai_Namespace app in
  let name := ai_Name app in
  let endpoints := agentEndpointsFromStatus (ast_Endpoints (ai_Status app)) in
  if bool_decide (length endpoints = 0%nat) then Ret tt
  else
    let reportKey := seaweedEndpointsReportKey endpoints in
    if bool_decide (annotation app reportedSeaweedEndpointsAnnotation = reportKey) then Ret tt
    else if bool_decide (annotation app seaweedEndpointsAckRetryAnnotation ≠ "") then
      try* _ := patchSeaweedEndpointsAck ns name reportKey catch _e => Ret tt in
      clearAnnotation ns name seaweedEndpointsAckRetryAnnotation
    else
      match Conditions.Get (ai_Conditions app) ConditionReady with
      | None => Ret tt
      | Some ready =>
          if bool_decide (c_Status ready ≠ ConditionTrue) then Ret tt
          else
            let* pending := call (IHasPendingEvent (EndpointsEventKey (instanceRef app) reportKey)) in
            match pending with
            | true => Ret tt
            | false => let* _ := call (IReportEndpoints (instanceRef app) ready endpoints reportKey) in Ret tt
            end
      end.

(** The last part of [reconcileSeaweedManagedStorage]: nothing is pending or in
    flight. *)
Definition deliverStorage (app : ApplicationInstance) (ms : ManagedStorageSnapshot) (ready : Condition)
    (ref : AppliedRef) (reportKey eventKey : string) : prog icall outcome :=
  let ns := ai_Namespace app in
  let name := ai_Name app in
  let* pending := call (IHasPendingEvent eventKey) in
  match pending with
  | true => finish noResult
  | false =>
      if bool_decide (annotation app managedStoragePostedAnnotation = reportKey) then
        try* _ := retryManagedStorageAck ns name reportKey catch _e => finish (after 30) in
        finish noResult
      else
        try* claim := claimManagedStorageDelivery app reportKey catch _e => finish (after 30) in
        match claim with
        | (ClaimRequeue, _) => finish (after 1)
        | (NotClaimed, _) => finish noResult
        | (Claimed, app) =>
            let* enqueued := call (IReportReady ref ready
              {| xs_Endpoints := agentEndpointsFromStatus (ast_Endpoints (ai_Status app));
                 xs_ManagedStorage := Some {| msp_AccessKeyID := ms_AccessKeyID ms;
                   msp_SecretAccessKey := ms_SecretAccessKey ms; msp_BucketName := ms_BucketName ms |} |}
              reportKey) in
            match enqueued with
            | true => let* _ := markStorageInFlight ns name reportKey in finish noResult
            | false => try* _ := clearManagedStorageClaim app catch _e => finish (after 30) in
                       finish noResult
            end
        end
  end.

(** The part about an event that was enqueued before: one that left the buffer
    without being posted may be sent again. *)
Definition checkInFlight (app : ApplicationInstance) (ms : ManagedStorageSnapshot) (ready : Condition)
    (ref : AppliedRef) (reportKey eventKey : string) : prog icall outcome :=
  let ns := ai_Namespace app in
  let name := ai_Name app in
  let* inFlight := inFlightStorageReportKey ns name in
  match inFlight with
  | None => deliverStorage app ms ready ref reportKey eventKey
  | Some key =>
      if bool_decide (key ≠ reportKey) then
        let* _ := clearStorageInFlight ns name in
        deliverStorage app ms ready ref reportKey eventKey
      else
        let* pending := call (IHasPendingEvent eventKey) in
        match pending with
        | true => finish noResult
        | false =>
            let* posting := postingStorageReportKey ns name in
            if bool_decide (posting = Some reportKey) then finish noResult
            else
              let* _ := clearStorageInFlight ns name in
              deliverStorage app ms ready ref reportKey eventKey
        end
  end.

(** The part about an event that was delivered but not acknowledged. *)
Definition trackDelivery (app : ApplicationInstance) (ms : ManagedStorageSnapshot) (ready : Condition)
    (reportKey : string) : prog icall outcome :=
  let ns := ai_Namespace app in
  let name := ai_Name app in
  let ref := instanceRef app in
  let eventKey := ManagedStorageEventKey ref ready reportKey in
  let* ack := pendingStorageAckReportKey ns name in
  match ack with
  | None => checkInFlight app ms ready ref reportKey eventKey
  | Some key =>
      if bool_decide (key ≠ reportKey) then
        let* _ := clearStorageAckPending ns name in
        checkInFlight app ms ready ref reportKey eventKey
      else
        try* _ := patchManagedStorageAck ns name reportKey catch _e => finish (after 30) in
        finish noResult
  end.

Definition managedReady (now : Z) (ready : Condition) : Condition :=
  {| c_Type := c_Type ready; c_Status := c_Status ready; c_Reason := "ManagedStorageReady";
     c_Message := "Inline S3 credentials available for control-plane registry sync";
     c_LastTransitionTime := now |}.

Definition reconcileSeaweedManagedStorage (engine : SeaweedEngineOps) (app : ApplicationInstance)
    : prog icall outcome :=
  if negb (Conditions.IsTrue (ai_Conditions app) ConditionReady) then finish noResult
  else
    let* _ := reportSeaweedEndpointsIfNeeded app in
    try* state := se_ResolveManagedStorageState engine app catch _e => finish (after 30) in
    match rs_snapshot state with
    | None =>
        if rs_pending state then finish (after 30)
        else if rs_failed state then reportManagedStorageFailed app
        else finish noResult
    | Some ms =>
        match Conditions.Get (ai_Conditions app) ConditionReady with
        | None => finish noResult
        | Some ready =>
            let* now := call INow in
            let ready := managedReady now ready in
            let reportKey := managedStorageReportKey ms in
            if bool_decide (annotation app reportedManagedStorageAccessKeyAnnotation = reportKey) then
              let* _ := clearStorageDeliveryState (ai_Namespace app) (ai_Name app) in
              finish noResult
            else
              let claim := annotation app managedStorageClaimAnnotation in
              if bool_decide (claim ≠ "" ∧ claim ≠ reportKey) then
                try* app := clearManagedStorageClaim app catch _e => finish (after 30) in
                trackDelivery app ms ready reportKey
              else trackDelivery app ms ready reportKey
        end
    end.

(** ** The three kinds of instance *)

Definition ensureFailed (now : Z) (app : ApplicationInstance) (e : error) : ApplicationInstance :=
  put now (put now app ConditionReady ConditionFalse "HelmReleaseFailed" (emsg e))
    ConditionReconciling ConditionFalse "Stable" "Reconciliation failed".

(** [SyncStatus]'s answer: a missing object is a nil snapshot. *)
Definition synced (res : result StatusSnapshot) : result (option StatusSnapshot) :=
  match res with
  | Ok s => Ok (Some s)
  | Err e => if IsNotFound e then Ok None else Err e
  end.

Definition reconcileHelm (app : ApplicationInstance) : prog icall outcome :=
  let prev := ai_Conditions app in
  match ir_Engine r with
  | None => setBlocked app "MissingDependencies" "helm engine is not configured"
  | Some engine =>
      let* now := call INow in
      let app := put now (observed now app) ConditionReconciling ConditionTrue "HelmReleaseInstalling"
                   "Ensuring HelmRelease" in
      let* ensured := he_EnsureRelease engine app in
      match ensured with
      | Err err =>
          publishStatus (ensureFailed now app err) prev "update status after ensure failure"
            (λ _, failWith (after 30) err)
      | Ok _ =>
          match as_Release (ai_Spec app), as_Chart (ai_Spec app) with
          | Some release, Some chart =>
              let app := with_release app (Some {| hr_Name := rel_Name release; hr_Namespace := ai_Namespace app |}) in
              let app := with_chart app (Some (snapshotOf chart)) in
              let* res := he_SyncStatus engine app in
              match synced res with
              | Err e => failWith noResult (wrapf "sync helm status" e)
              | Ok snapshot =>
                  publishStatus (applyHelmStatusSnapshot now app snapshot) prev "update status"
                    (λ _, match snapshot with
                          | Some s => finish (if ss_Ready s then noResult else after 30)
                          | None => finish noResult
                          end)
              end
          | _, _ => failWith noResult nil_pointer
          end
      end
  end.

Definition seaweedFailed (now : Z) (app : ApplicationInstance) (e : error) : ApplicationInstance :=
  let app := with_endpoints app [] in
  let app := put now app ConditionReady ConditionFalse "SeaweedFailed" (emsg e) in
  let app := put now app ConditionReconciling ConditionFalse "SeaweedFailed" (emsg e) in
  let app := put now app ConditionDegraded ConditionTrue "SeaweedFailed" (emsg e) in
  unblocked now app.

Definition reconcileSeaweed (app : ApplicationInstance) : prog icall outcome :=
  let prev := ai_Conditions app in
  match ir_SeaweedEngine r, ir_Engine r with
  | None, _ => setBlocked app "MissingDependencies" "seaweed engine is not configured"
  | Some _, None => setBlocked app "MissingDependencies" "helm engine is not configured; required to detect legacy Helm releases during Seaweed migration"
  | Some engine, Some helm =>
      let* exists_ := he_ReleaseExists helm app in
      match exists_ with
      | Err e => setBlocked app "HelmMigrationFailed" ("check legacy Helm release: " +:+ emsg e)
      | Ok true => setBlocked app "HelmMigrationRequired" "legacy Helm release detected; remove the HelmRelease manually or recreate the ApplicationInstance before native Seaweed reconciliation"
      | Ok false =>
          let* now := call INow in
          let app := with_release (unblocked now app) None in
          let app := put now app ConditionReconciling ConditionTrue "SeaweedReconciling" "Ensuring Seaweed CR" in
          let* ensured := se_EnsureSeaweed engine app in
          match ensured with
          | Err e => publishStatus (seaweedFailed now app e) prev "update status after ensure failure"
                       (done_ (after 30))
          | Ok _ =>
              let app := with_chart (observed now app) (snapshotOf <$> as_Chart (ai_Spec app)) in
              let* res := se_SyncStatus engine app in
              match synced res with
              | Err e => failWith noResult (wrapf "sync Seaweed status" e)
              | Ok snapshot =>
                  publishStatus (applySeaweedStatusSnapshot now app snapshot) prev "update status" (λ app,
                    match snapshot with
                    | None => finish (after 30)
                    | Some s =>
                        if negb (ss_Ready s) || (bool_decide (ss_S3Endpoint s = "") && ss_HasS3 s)
                        then finish (after 30)
                        else reconcileSeaweedManagedStorage engine app
                    end)
              end
          end
      end
  end.

Definition placeholderReady (now : Z) (app : ApplicationInstance) : ApplicationInstance :=
  let app := with_endpoints (with_chart (with_release (observed now app) None) None) [] in
  let app := put now app ConditionReconciling ConditionFalse "Stable" "Placeholder instance has no reconciliation in flight" in
  let app := put now app ConditionDegraded ConditionFalse "Recovered" "Placeholder instance owns no workload" in
  let app := put now app ConditionReady ConditionTrue "Placeholder" "Placeholder instance is ready (no Helm release)" in
  unblocked now app.

Definition reconcilePlaceholder (app : ApplicationInstance) : prog icall outcome :=
  let* now := call INow in
  publishStatus (placeholderReady now app) (ai_Conditions app) "update placeholder status" (done_ noResult).

(** ** Deletion *)

Definition removeFinalizer (app : ApplicationInstance) : prog icall outcome :=
  try* _ := call (IUpdateInstance (with_ai_meta app (RemoveFinalizer (ai_Meta app) ApplicationInstanceFinalizer)))
    catch e => failWith noResult (wrapf "remove finalizer" e) in
  finish noResult.

Definition markDeleting (app : ApplicationInstance) (reason message : string)
    (k : ApplicationInstance → prog icall outcome) : prog icall outcome :=
  let* now := call INow in
  publishStatus (put now app ConditionDeleting ConditionTrue reason message) (ai_Conditions app)
    "update deleting status" k.

Definition missingSeaweedEngine (now : Z) (app : ApplicationInstance) : ApplicationInstance :=
  put now (put now app ConditionBlocked ConditionTrue "MissingDependencies" "seaweed engine is not configured")
    ConditionDeleting ConditionTrue "Blocked" "Cannot uninstall Seaweed CR until seaweed engine is configured".

(** A check of the legacy Helm release: go on with whether it exists. *)
Definition checkHelm (app : ApplicationInstance) (k : bool → prog icall outcome) : prog icall outcome :=
  match ir_Engine r with
  | None => k false
  | Some helm =>
      try* exists_ := he_ReleaseExists helm app
        catch e => failWith (after 15) (wrapf "check legacy Helm release" e) in
      k exists_
  end.

Definition finalizeSeaweed (prev : list Condition) (app : ApplicationInstance) : prog icall outcome :=
  match ir_SeaweedEngine r with
  | None =>
      let* now := call INow in
      publishStatus (missingSeaweedEngine now app) prev "update blocked status during finalize" (done_ (after 15))
  | Some engine =>
      try* _ := se_DeleteSeaweed engine app catch e => failWith (after 15) e in
      let rest : prog icall outcome :=
        try* exists_ := se_SeaweedExists engine app catch e => failWith (after 15) e in
        match exists_ with
        | true => finish (after 15)
        | false => checkHelm app (λ helmExists, if helmExists then finish (after 15) else removeFinalizer app)
        end in
      checkHelm app (λ helmExists,
        match helmExists, ir_Engine r with
        | true, Some helm => try* _ := he_DeleteRelease helm app catch e => failWith (after 15) e in rest
        | _, _ => rest
        end)
  end.

Definition finalizeHelm (app : ApplicationInstance) : prog icall outcome :=
  match ir_Engine r with
  | None => removeFinalizer app
  | Some helm =>
      try* _ := he_DeleteRelease helm app catch e => failWith (after 15) e in
      removeFinalizer app
  end.

Definition finalize (app : ApplicationInstance) : prog icall outcome :=
  if IsPlaceholder (ai_Spec app) then
    markDeleting app "Deleting" "Removing placeholder instance (nothing to uninstall)" removeFinalizer
  else if IsSeaweedWorkload app then
    markDeleting app "Uninstalling" "Removing Seaweed CR" (finalizeSeaweed (ai_Conditions app))
  else markDeleting app "Uninstalling" "Removing HelmRelease" finalizeHelm.

Definition Reconcile (ns name : string) : prog icall outcome :=
  let* got := call (IGetInstance ns name) in
  match got with
  | Err e => if IsNotFound e then finish noResult else failWith noResult e
  | Ok app =>
      if negb (ContainsFinalizer (ai_Meta app) ApplicationInstanceFinalizer) then
        try* _ := call (IUpdateInstance (with_ai_meta app (AddFinalizer (ai_Meta app) ApplicationInstanceFinalizer)))
          catch e => failWith noResult (wrapf "add finalizer" e) in
        finish requeueNow
      else if is_set (DeletionTimestamp (ai_Meta app)) then finalize app
      else
        match ValidateApplicationInstanceSpec app with
        | Err e => setBlocked app "ValidationFailed" (emsg e)
        | Ok _ =>
            if IsPlaceholder (ai_Spec app) then reconcilePlaceholder app
            else if IsSeaweedWorkload app then reconcileSeaweed app
            else reconcileHelm app
        end
  end.

(** ** The S3Credentials watch *)

Definition applicationInstancesForSeaweedRef (items : list ApplicationInstance) (release ns : string)
    : list (string * string) :=
  (λ app, (ai_Namespace app, ai_Name app)) <$>
  filter (λ app, IsSeaweedWorkload app = true ∧ releaseName app = Some release ∧
                 releaseNamespace app = ns) items.

Definition mapS3CredentialsToApplicationInstance (cred : Unstructured) : prog icall (list (string * string)) :=
  if negb (bool_decide (u_Kind cred = "S3Credentials")) then Ret []
  else
    let release := NestedString (u_Object cred) ["spec"; "seaweedRef"; "name"] in
    if bool_decide (release = "") then Ret []
    else
      let ns := Namespace (u_Meta cred) in
      let* items := call (IListInstances ns) in
      Ret match items with
          | Err _ => []
          | Ok items => applicationInstancesForSeaweedRef items release ns
          end.

End InstanceController.
