(* ===== verification/InstanceProofs.v ===== *)
(** * Delivery of managed storage: theorems

    Reconcile passes and the batcher's callbacks run concurrently on the instances,
    their annotations and the shared delivery maps.  Each thread is shown, against
    any interference that respects the same invariant ([rely]), to make only writes
    that keep it ([guarantee]); the interleaving semantics [sys_step] then keeps it
    in every reachable state. *)

From stdpp Require Import base list strings pretty gmap sets relations.
From S2P Require Import Prelude Traces GoStrings Api Conditions Events Reporter Json Kube Crypto.
From S2P Require Import HttpClient Credentials InstanceValidation InstanceEngines InstanceReconciler.

#[local] Opaque TrimSpace sha256.

(** What the control plane has accepted: delivery key and report key. *)
Notation delivered := (gset (string * string)).

Definition dkey (app : ApplicationInstance) : string := storageDeliveryKey (ai_Namespace app) (ai_Name app).

(** The recorded keys of an instance were delivered. *)
Definition instance_ok (g : delivered) (app : ApplicationInstance) : Prop :=
  ∀ K, K ≠ "" →
    annotation app reportedManagedStorageAccessKeyAnnotation = K ∨
    annotation app managedStoragePostedAnnotation = K → (dkey app, K) ∈ g.

Definition memory_ok (g : delivered) (m : StorageMemory) : Prop :=
  ∀ k K, sm_AckPending m !! k = Some K → (k, K) ∈ g.

Definition same_object (a b : ApplicationInstance) : Prop :=
  ai_Namespace a = ai_Namespace b ∧ ai_Name a = ai_Name b.

(** What a thread may assume of an answer. *)
Definition rely : environment icall delivered := λ X c g x g', g ⊆ g' ∧
  match c in icall X return X → Prop with
  | IGetInstance ns name => λ x, ∀ app, x = Ok app →
      instance_ok g' app ∧ ai_Namespace app = ns ∧ ai_Name app = name
  | IUpdateInstance a => λ x, ∀ app, x = Ok app → instance_ok g' app ∧ same_object app a
  | IUpdateInstanceStatus a => λ x, ∀ app, x = Ok app → instance_ok g' app ∧ same_object app a
  | IPatchInstance _ a => λ x, ∀ app, x = Ok app → instance_ok g' app ∧ same_object app a
  | IAtomic f => λ x, ∃ m, memory_ok g' m ∧ x = (f m).1
  | _ => λ _, True
  end x.

(** What a thread must keep. *)
Definition guarantee : permission icall delivered := λ X c g,
  match c with
  | IUpdateInstance app | IUpdateInstanceStatus app | IPatchInstance _ app => instance_ok g app
  | IAtomic f => ∀ g' m, g ⊆ g' → memory_ok g' m → memory_ok g' (f m).2
  | _ => True
  end.

Notation safe p g := (wp rely guarantee p (λ _ _, True) g).

Lemma instance_ok_mono g g' app : g ⊆ g' → instance_ok g app → instance_ok g' app.
Proof. intros Hg Ha K HK Hr. by apply Hg, Ha. Qed.

Lemma guarantee_mono X (c : icall X) g g' : g ⊆ g' → guarantee X c g → guarantee X c g'.
Proof.
  intros Hg. destruct c; simpl; try done; try by apply instance_ok_mono.
  intros Hf g2 m Hg2. apply Hf. by etrans.
Qed.

Lemma rely_mono X (c : icall X) g g1 x g' : g ⊆ g1 → rely X c g1 x g' → rely X c g x g'.
Proof. intros Hg [Hg' Hx]. split; [by etrans|done]. Qed.

(** What holds of a thread stays true as more is delivered. *)
Lemma safe_mono {A : Type} (p : prog icall A) Q g g' :
  (∀ a h h', h ⊆ h' → Q a h → Q a h') → g ⊆ g' → wp rely guarantee p Q g → wp rely guarantee p Q g'.
Proof.
  intros HQ Hg. destruct p as [a|X c k]; simpl; [by apply HQ|].
  intros [Hc Hk]. split; [by eapply guarantee_mono|]. intros x g2 Hx. apply Hk. by eapply rely_mono.
Qed.

(** Calls that touch neither an instance nor the maps, and report nothing. *)
Definition aside X (c : icall X) : Prop :=
  match c with
  | IUpdateInstance _ | IUpdateInstanceStatus _ | IPatchInstance _ _ | IAtomic _ => False
  | IReport _ _ _ | IReportReady _ _ _ _ | IReportEndpoints _ _ _ _ | IReportAudit _ _ _ _ => False
  | _ => True
  end.

Lemma aside_safe {A : Type} (p : prog icall A) Q g :
  only aside p Q → wp rely guarantee p (λ a g', Q a ∧ g ⊆ g') g.
Proof.
  intros Hp. specialize (Hp []). revert Hp. generalize (@nil (event icall)) as t.
  assert (∀ t g1, g ⊆ g1 → wp traced (λ X c _, aside X c) p (λ a _, Q a) t →
    wp rely guarantee p (λ a g', Q a ∧ g ⊆ g') g1) as Hgen; [|by intros; eapply Hgen].
  induction p as [a|X c k IH]; intros t g1 Hg1; simpl; [done|].
  intros [Hc Hk]. split; [by destruct c|]. intros x g' [Hg' _].
  eapply (IH x); [by etrans|]. apply Hk. exact eq_refl.
Qed.

Lemma aside_then {A B : Type} (p : prog icall A) (f : A → prog icall B) Q g :
  only aside p Q → (∀ a g', g ⊆ g' → safe (f a) g') → safe (prog_bind f p) g.
Proof.
  intros Hp Hf. apply wp_bind. eapply wp_mono; [|by apply aside_safe]. intros a g' [_ Hg]. by apply Hf.
Qed.

(** ** Objects and maps *)

Lemma annotation_annotate k v app k' :
  annotation (annotate k v app) k' = if bool_decide (k' = k) then v else annotation app k'.
Proof.
  unfold annotation. simpl. case_bool_decide; [subst; by rewrite lookup_insert_eq|].
  by rewrite lookup_insert_ne.
Qed.

Lemma annotation_unannotate k app k' :
  annotation (unannotate k app) k' = if bool_decide (k' = k) then "" else annotation app k'.
Proof.
  unfold annotation. simpl. case_bool_decide; [subst; by rewrite lookup_delete_eq|].
  by rewrite lookup_delete_ne.
Qed.

Lemma instance_ok_unannotate g k app : instance_ok g app → instance_ok g (unannotate k app).
Proof.
  intros Ha K HK. rewrite !annotation_unannotate. intros Hr. apply (Ha K HK).
  repeat case_bool_decide; naive_solver.
Qed.

(** Any other annotation may be set, and a recorded key if it was delivered. *)
Lemma instance_ok_annotate g k v app :
  (k = reportedManagedStorageAccessKeyAnnotation ∨ k = managedStoragePostedAnnotation →
   v ≠ "" → (dkey app, v) ∈ g) →
  instance_ok g app → instance_ok g (annotate k v app).
Proof.
  intros Hk Ha K HK. rewrite !annotation_annotate.
  intros Hr. destruct (decide (k = reportedManagedStorageAccessKeyAnnotation ∧ v = K)) as [[-> ->]|H1];
    [apply Hk; auto|].
  destruct (decide (k = managedStoragePostedAnnotation ∧ v = K)) as [[-> ->]|H2]; [apply Hk; auto|].
  apply (Ha K HK). repeat case_bool_decide; naive_solver.
Qed.

Lemma instance_ok_acknowledged g key app :
  (key ≠ "" → (dkey app, key) ∈ g) → instance_ok g app → instance_ok g (acknowledged key app).
Proof.
  intros Hk Ha. unfold acknowledged. do 2 apply instance_ok_unannotate.
  by apply instance_ok_annotate.
Qed.

(** The rest of the object does not matter. *)
Lemma instance_ok_same g a b :
  Annotations (ai_Meta a) = Annotations (ai_Meta b) → dkey a = dkey b →
  instance_ok g a → instance_ok g b.
Proof. unfold instance_ok, annotation. intros -> ->. done. Qed.

Lemma memory_ok_delete g m k : memory_ok g m → memory_ok g (with_ack m (delete k (sm_AckPending m))).
Proof. intros Hm k' K. simpl. intros [_ HK]%lookup_delete_Some. by apply Hm. Qed.

(** ** Threads *)

Lemma safe_grow {A : Type} (p : prog icall A) Q g :
  wp rely guarantee p Q g → wp rely guarantee p (λ a g', Q a g' ∧ g ⊆ g') g.
Proof.
  assert (∀ g1, g ⊆ g1 → wp rely guarantee p Q g1 →
    wp rely guarantee p (λ a g', Q a g' ∧ g ⊆ g') g1) as Hgen; [|by apply Hgen].
  induction p as [a|X c k IH]; intros g1 Hg1; simpl; [done|].
  intros [Hc Hk]. split; [done|]. intros x g' Hx. apply IH; [|by apply Hk].
  destruct Hx as [Hx _]. by etrans.
Qed.

Lemma safe_then {A B : Type} (p : prog icall A) (f : A → prog icall B) g :
  safe p g → (∀ a g', g ⊆ g' → safe (f a) g') → safe (prog_bind f p) g.
Proof.
  intros Hp Hf. apply wp_bind. eapply wp_mono; [|by apply safe_grow]. intros a g' [_ Hg]. by apply Hf.
Qed.

Lemma safe_get {B : Type} ns name (f : result ApplicationInstance → prog icall B) g :
  (∀ e g', g ⊆ g' → safe (f (Err e)) g') →
  (∀ app g', g ⊆ g' → instance_ok g' app → ai_Namespace app = ns → ai_Name app = name → safe (f (Ok app)) g') →
  safe (prog_bind f (call (IGetInstance ns name))) g.
Proof.
  intros He Ha. apply wp_vis; [done|]. intros [app|e] g' [Hg Hx]; [|by apply He].
  destruct (Hx app eq_refl) as (? & ? & ?). by apply Ha.
Qed.

Lemma safe_patch {B : Type} base app (f : result ApplicationInstance → prog icall B) g :
  instance_ok g app →
  (∀ r g', g ⊆ g' → (∀ a, r = Ok a → instance_ok g' a ∧ same_object a app) → safe (f r) g') →
  safe (prog_bind f (call (IPatchInstance base app))) g.
Proof. intros Ha Hf. apply wp_vis; [done|]. intros x g' [Hg Hx]. by apply Hf. Qed.

Lemma safe_atomic {A B : Type} (sec : StorageMemory → A * StorageMemory) (f : A → prog icall B) g :
  (∀ g' m, g ⊆ g' → memory_ok g' m → memory_ok g' (sec m).2) →
  (∀ m g', g ⊆ g' → memory_ok g' m → safe (f (sec m).1) g') →
  safe (prog_bind f (atomically sec)) g.
Proof. intros Hs Hf. apply wp_vis; [done|]. intros x g' [Hg (m & Hm & ->)]. by apply Hf. Qed.

(** A section that at most removes a pending acknowledgement. *)
Lemma safe_section {A B : Type} (sec : StorageMemory → A * StorageMemory) (f : A → prog icall B) g :
  (∀ m, sm_AckPending (sec m).2 ⊆ sm_AckPending m) →
  (∀ a g', g ⊆ g' → safe (f a) g') → safe (prog_bind f (atomically sec)) g.
Proof.
  intros Hs Hf. apply safe_atomic; [|by intros; apply Hf].
  intros g' m _ Hm k K HK. apply Hm. by eapply lookup_weaken.
Qed.

Lemma safe_markAck {B : Type} ns name K (f : unit → prog icall B) g :
  (storageDeliveryKey ns name, K) ∈ g → (∀ g', g ⊆ g' → safe (f tt) g') →
  safe (prog_bind f (markStorageAckPending ns name K)) g.
Proof.
  intros HK Hf. apply safe_atomic; [|by intros; apply Hf]. intros g' m Hg Hm k K'. simpl.
  destruct (decide (k = storageDeliveryKey ns name)) as [->|Hne].
  - rewrite lookup_insert_eq. intros [= <-]. by apply Hg.
  - rewrite lookup_insert_ne by done. apply Hm.
Qed.

Lemma safe_clearState ns name g : safe (clearStorageDeliveryState ns name) g.
Proof.
  split; [|done]. intros g' m _ Hm k K. simpl. intros [_ HK]%lookup_delete_Some. by apply Hm.
Qed.

Lemma safe_setOnce ns name k v g :
  (k = reportedManagedStorageAccessKeyAnnotation ∨ k = managedStoragePostedAnnotation →
   v ≠ "" → (storageDeliveryKey ns name, v) ∈ g) →
  safe (setOnce ns name k v) g.
Proof.
  intros Hk. apply safe_get; [done|]. intros app g' Hg Ha <- <-. case_bool_decide; [done|].
  apply safe_patch; [|by intros [] ? ? ?]. apply instance_ok_annotate; [|done].
  intros Hrec Hv. by apply Hg, Hk.
Qed.

Lemma safe_clearAnnotation ns name k g : safe (clearAnnotation ns name k) g.
Proof.
  apply safe_get; [done|]. intros app g' Hg Ha _ _. case_bool_decide; [done|].
  apply safe_patch; [by apply instance_ok_unannotate|done].
Qed.

Lemma safe_ackAttempts attempts ns name K last g :
  (K ≠ "" → (storageDeliveryKey ns name, K) ∈ g) → safe (ackAttempts attempts ns name K last) g.
Proof.
  revert last g. induction attempts as [|n attempts IH]; intros last g HK; cbn [ackAttempts]; [done|].
  apply (aside_then _ _ (λ _, True)); [case_bool_decide; only_go; done|]. intros _ g1 Hg1.
  apply safe_get; [done|]. intros app g2 Hg2 Ha Hns Hname. case_bool_decide.
  { apply safe_then; [apply safe_clearState|done]. }
  apply safe_patch.
  { apply instance_ok_acknowledged; [|done]. intros HK'. unfold dkey. rewrite Hns, Hname.
    by apply Hg2, Hg1, HK. }
  intros [a|e] g3 Hg3 _; [apply safe_then; [apply safe_clearState|done]|].
  destruct (IsApiConflict e); [|done]. apply IH. intros HK'. by apply Hg3, Hg2, Hg1, HK.
Qed.

Lemma safe_ack ns name K g :
  (K ≠ "" → (storageDeliveryKey ns name, K) ∈ g) → safe (patchManagedStorageAck ns name K) g.
Proof. apply safe_ackAttempts. Qed.

Lemma managedStorageReportKey_nonempty ms : managedStorageReportKey ms ≠ "".
Proof.
  unfold managedStorageReportKey.
  destruct (sha256_digest (to_bytes (ms_AccessKeyID ms +:+ nul +:+ ms_SecretAccessKey ms))) as [_ Hl].
  destruct (sha256 _) as [|z l]; [done|]. cbn [take]. by rewrite hex_encode_cons.
Qed.

Section Threads.
Context {Il : InstanceLib} {Kl : KubeLib} {Kw : KubeLaws}.

Lemma safe_trigger ns name k g :
  k ≠ reportedManagedStorageAccessKeyAnnotation → k ≠ managedStoragePostedAnnotation →
  safe (triggerAckRetry ns name k) g.
Proof.
  intros H1 H2. apply safe_get; [done|]. intros app g' Hg Ha _ _.
  apply wp_vis; [done|]. intros now g2 [Hg2 _]. apply safe_patch; [|done].
  apply instance_ok_annotate; [naive_solver|by eapply instance_ok_mono].
Qed.

Lemma safe_orRetry res ns name k g :
  k ≠ reportedManagedStorageAccessKeyAnnotation → k ≠ managedStoragePostedAnnotation →
  safe (orRetry res ns name k) g.
Proof. destruct res; [done|apply safe_trigger]. Qed.

(** The report key of a managed-storage event. *)
Definition event_keys (e : Event) : list (string * string) :=
  match ManagedStorageReportKeyFromEventKey (ev_EventKey e) with
  | Some K => [(storageDeliveryKey (ar_Namespace (ev_ResourceRef e)) (ar_Name (ev_ResourceRef e)), K)]
  | None => []
  end.

Lemma safe_ackDelivered e g : (∀ kK, kK ∈ event_keys e → kK ∈ g) → safe (ackDelivered e) g.
Proof.
  intros Hk. unfold ackDelivered, patchManagedStorageFailedPosted, patchManagedStorageFailedAck,
    patchSeaweedEndpointsAck, patchManagedStoragePosted. case_bool_decide.
  { apply safe_then; [apply safe_setOnce; naive_solver|]. intros [] g1 _; [|by apply safe_trigger].
    apply safe_then; [apply safe_setOnce; naive_solver|]. intros; by apply safe_orRetry. }
  destruct (EndpointsReportKeyFromEventKey _).
  { apply safe_then; [apply safe_setOnce; naive_solver|]. intros; by apply safe_orRetry. }
  unfold event_keys in Hk. destruct (ManagedStorageReportKeyFromEventKey _) as [K|]; [|done].
  set (ns := ar_Namespace _) in *. set (name := ar_Name _) in *.
  assert ((storageDeliveryKey ns name, K) ∈ g) as HK by (apply Hk; by left).
  apply safe_markAck; [done|]. intros g1 Hg1. apply safe_section; [done|]. intros _ g2 Hg2.
  apply safe_section; [intros m; simpl; by case_bool_decide|]. intros _ g3 Hg3.
  apply safe_then; [apply safe_setOnce; intros _ _; by apply Hg3, Hg2, Hg1|].
  intros [] g4 Hg4; [|by apply safe_trigger].
  apply safe_then; [apply safe_ack; intros _; by apply Hg4, Hg3, Hg2, Hg1|].
  intros; by apply safe_orRetry.
Qed.

Lemma safe_AckDelivered events g :
  (∀ e kK, e ∈ events → kK ∈ event_keys e → kK ∈ g) → safe (AckManagedStorageDelivered events) g.
Proof.
  revert g. induction events as [|e events IH]; intros g Hk; cbn [AckManagedStorageDelivered]; [done|].
  apply safe_then; [apply safe_ackDelivered; intros; eapply Hk; [by left|done]|].
  intros _ g1 Hg1. apply IH. intros e' kK He HkK. apply Hg1. eapply Hk; [by right|done].
Qed.

Lemma safe_forStorageEvents act events g :
  (∀ ns name key g, safe (act ns name key) g) → safe (forStorageEvents act events) g.
Proof.
  intros Ha. revert g. induction events as [|e events IH]; intros g; cbn [forStorageEvents]; [done|].
  apply safe_then; [by destruct (ManagedStorageReportKeyFromEventKey _)|]. intros; apply IH.
Qed.

Lemma safe_prepare events g : safe (PrepareManagedStoragePost events) g.
Proof. apply safe_forStorageEvents. intros ns name key g'. split; [|done]. by intros g2 m _ Hm. Qed.

Lemma safe_abort events g : safe (AbortManagedStoragePost events) g.
Proof.
  apply safe_forStorageEvents. intros ns name key g'. split; [|done]. intros g2 m _ Hm.
  simpl. by case_bool_decide.
Qed.

(** ** Reconcile *)

(** A healthy snapshot is not degraded. *)
Definition sound_snapshot (res : result StatusSnapshot) : Prop :=
  ∀ s, res = Ok s → ss_Ready s = true → ss_Degraded s = false.

(** The engines leave the instances and the maps alone, report nothing to the
    control plane themselves, and return sound snapshots. *)
Class HelmContract (e : HelmEngineOps) : Prop := {
  helm_ensure app : only aside (he_EnsureRelease e app) (λ _, True);
  helm_delete app : only aside (he_DeleteRelease e app) (λ _, True);
  helm_exists app : only aside (he_ReleaseExists e app) (λ _, True);
  helm_sync app : only aside (he_SyncStatus e app) sound_snapshot
}.

Class SeaweedContract (e : SeaweedEngineOps) : Prop := {
  seaweed_ensure app : only aside (se_EnsureSeaweed e app) (λ _, True);
  seaweed_delete app : only aside (se_DeleteSeaweed e app) (λ _, True);
  seaweed_exists app : only aside (se_SeaweedExists e app) (λ _, True);
  seaweed_sync app : only aside (se_SyncStatus e app) sound_snapshot;
  seaweed_resolve app : only aside (se_ResolveManagedStorageState e app) (λ _, True)
}.

Definition keeps_contracts (r : ApplicationInstanceReconciler) : Prop :=
  (∀ e, ir_Engine r = Some e → HelmContract e) ∧ (∀ e, ir_SeaweedEngine r = Some e → SeaweedContract e).

Lemma safe_publish app prev what k g :
  instance_ok g app →
  (∀ app' g', g ⊆ g' → instance_ok g' app' → safe (k app') g') →
  safe (publishStatus app prev what k) g.
Proof.
  intros Ha Hk. unfold publishStatus. apply wp_vis; [done|]. intros [app'|e] g' [Hg Hx]; [|done].
  destruct (Hx app' eq_refl) as [Ha' _]. apply wp_vis; [done|]. intros [] g2 [Hg2 _].
  apply Hk; [by etrans|by eapply instance_ok_mono].
Qed.

Lemma safe_now {B : Type} (f : Z → prog icall B) g :
  (∀ now g', g ⊆ g' → safe (f now) g') → safe (prog_bind f (call INow)) g.
Proof. intros Hf. apply wp_vis; [done|]. intros now g' [Hg _]. by apply Hf. Qed.

Lemma safe_setBlocked app reason message g : instance_ok g app → safe (setBlocked app reason message) g.
Proof.
  intros Ha. apply safe_now. intros now g' Hg. apply safe_publish; [|done].
  by eapply instance_ok_mono in Ha.
Qed.

Lemma safe_settle app g : safe (settleFailedAck app) g.
Proof.
  unfold settleFailedAck, patchManagedStorageFailedAck.
  apply safe_then; [apply safe_setOnce; naive_solver|].
  intros [] g1 _; [|done]. apply safe_then; [apply safe_clearAnnotation|]. intros _ g2 _.
  apply safe_then; [apply safe_clearAnnotation|done].
Qed.

Lemma safe_reportFailed app g : safe (reportManagedStorageFailed app) g.
Proof.
  unfold reportManagedStorageFailed. case_bool_decide; [done|]. case_bool_decide; [apply safe_settle|].
  case_bool_decide; [apply safe_settle|]. apply wp_vis; [done|]. intros [] g1 _; [done|].
  apply wp_vis; [done|]. by intros [] g2 _.
Qed.

Lemma safe_reportEndpoints app g : safe (reportSeaweedEndpointsIfNeeded app) g.
Proof.
  unfold reportSeaweedEndpointsIfNeeded, patchSeaweedEndpointsAck.
  case_bool_decide; [done|]. case_bool_decide; [done|]. case_bool_decide.
  { apply safe_then; [apply safe_setOnce; naive_solver|]. intros [] g1 _; [apply safe_clearAnnotation|done]. }
  destruct (Conditions.Get _ _); [|done]. case_bool_decide; [done|].
  apply wp_vis; [done|]. intros [] g1 _; [done|]. apply wp_vis; [done|]. by intros.
Qed.

Lemma safe_claim {B : Type} app K (f : result (claimOutcome * ApplicationInstance) → prog icall B) g :
  instance_ok g app →
  (∀ e g', g ⊆ g' → safe (f (Err e)) g') →
  (∀ o app' g', g ⊆ g' → instance_ok g' app' → safe (f (Ok (o, app'))) g') →
  safe (prog_bind f (claimManagedStorageDelivery app K)) g.
Proof.
  intros Ha He Hf. unfold claimManagedStorageDelivery.
  case_bool_decide; [by apply Hf|]. case_bool_decide; [by apply Hf|].
  assert (instance_ok g (annotate managedStorageClaimAnnotation K app)) as Hc.
  { apply instance_ok_annotate; [naive_solver|done]. }
  apply safe_patch; [done|]. intros [app'|e] g' Hg Hx; cbn [prog_bind].
  - destruct (Hx app' eq_refl). by apply Hf.
  - destruct (IsApiConflict e); [|by apply He]. apply Hf; [done|]. by eapply instance_ok_mono.
Qed.

Lemma safe_clearClaim {B : Type} app (f : result ApplicationInstance → prog icall B) g :
  instance_ok g app →
  (∀ e g', g ⊆ g' → safe (f (Err e)) g') →
  (∀ app' g', g ⊆ g' → instance_ok g' app' → same_object app' app → safe (f (Ok app')) g') →
  safe (prog_bind f (clearManagedStorageClaim app)) g.
Proof.
  intros Ha He Hf. unfold clearManagedStorageClaim. case_bool_decide; [by apply Hf|].
  apply safe_patch; [by apply instance_ok_unannotate|]. intros [app'|e] g' Hg Hx; [|by apply He].
  destruct (Hx app' eq_refl). by apply Hf.
Qed.

Lemma safe_deliver app ms ready ref K ek g :
  K ≠ "" → instance_ok g app → safe (deliverStorage app ms ready ref K ek) g.
Proof.
  intros HK Ha. unfold deliverStorage. apply wp_vis; [done|]. intros [] g1 [Hg1 _]; [done|].
  apply (instance_ok_mono _ _ _ Hg1) in Ha. case_bool_decide as Hp.
  - assert ((storageDeliveryKey (ai_Namespace app) (ai_Name app), K) ∈ g1) as Hd by (apply Ha; auto).
    apply safe_then; [|by intros [] ? ?]. apply safe_markAck; [done|]. intros g2 Hg2.
    apply safe_ack. intros _. by apply Hg2.
  - apply safe_claim; [done..|]. intros [] app' g2 Hg2 Ha'; [|done..].
    apply wp_vis; [done|]. intros [] g3 [Hg3 _].
    + apply safe_section; [done|]. by intros.
    + apply safe_clearClaim; [by eapply instance_ok_mono|done..].
Qed.

Lemma safe_checkInFlight app ms ready ref K ek g :
  K ≠ "" → instance_ok g app → safe (checkInFlight app ms ready ref K ek) g.
Proof.
  intros HK Ha. unfold checkInFlight.
  assert (∀ g1, g ⊆ g1 → safe (deliverStorage app ms ready ref K ek) g1) as Hdel.
  { intros g1 Hg1. apply safe_deliver; [done|by eapply instance_ok_mono]. }
  apply safe_section; [done|]. intros [key|] g1 Hg1; [|by apply Hdel]. case_bool_decide.
  { apply safe_section; [done|]. intros _ g2 Hg2. apply Hdel. by etrans. }
  apply wp_vis; [done|]. intros [] g2 [Hg2 _]; [done|].
  apply safe_section; [done|]. intros po g3 Hg3. case_bool_decide; [done|].
  apply safe_section; [done|]. intros _ g4 Hg4. apply Hdel. set_solver.
Qed.

Lemma safe_track app ms ready K g : K ≠ "" → instance_ok g app → safe (trackDelivery app ms ready K) g.
Proof.
  intros HK Ha. unfold trackDelivery. apply safe_atomic; [by intros|]. intros m g1 Hg1 Hm.
  cbn [fst]. destruct (sm_AckPending m !! _) as [K'|] eqn:HK'.
  - case_bool_decide as Hne.
    + apply safe_section; [intros m'; apply delete_subseteq|]. intros _ g2 Hg2.
      apply safe_checkInFlight; [done|]. eapply instance_ok_mono; [|exact Ha]. set_solver.
    + subst K'. apply safe_then; [|by intros [] ? ?]. apply safe_ack. intros _. by apply Hm.
  - apply safe_checkInFlight; [done|by eapply instance_ok_mono].
Qed.

Lemma safe_storage engine app g :
  SeaweedContract engine → instance_ok g app → safe (reconcileSeaweedManagedStorage engine app) g.
Proof.
  intros Hc Ha. unfold reconcileSeaweedManagedStorage. destruct (negb _); [done|].
  apply safe_then; [apply safe_reportEndpoints|]. intros _ g1 Hg1.
  eapply aside_then; [apply seaweed_resolve|]. intros [st|e] g2 Hg2; [|done].
  destruct (rs_snapshot st) as [ms|].
  2: { destruct (rs_pending st); [done|]. destruct (rs_failed st); [apply safe_reportFailed|done]. }
  destruct (Conditions.Get _ _) as [ready|]; [|done]. apply safe_now. intros now g3 Hg3.
  assert (instance_ok g3 app) as Ha3 by (eapply instance_ok_mono; [|exact Ha]; set_solver).
  pose proof (managedStorageReportKey_nonempty ms) as HK.
  case_bool_decide; [apply safe_then; [apply safe_clearState|done]|].
  case_bool_decide; [|by apply safe_track].
  apply safe_clearClaim; [done..|]. intros. by apply safe_track.
Qed.

Section Passes.
Context (r : ApplicationInstanceReconciler) (Hr : keeps_contracts r).

Lemma helm_snapshot_same now app sn :
  Annotations (ai_Meta (applyHelmStatusSnapshot now app sn)) = Annotations (ai_Meta app) ∧
  dkey (applyHelmStatusSnapshot now app sn) = dkey app.
Proof.
  destruct sn as [s|]; [|done]. unfold applyHelmStatusSnapshot, applyProgress.
  destruct (ss_Ready s), (ss_Degraded s), (ss_Reconciling s); done.
Qed.

Lemma safe_helm app g : instance_ok g app → safe (reconcileHelm r app) g.
Proof.
  intros Ha. unfold reconcileHelm. destruct (ir_Engine r) as [e|] eqn:He; [|by apply safe_setBlocked].
  pose proof (proj1 Hr e He). apply safe_now. intros now g1 Hg1.
  eapply aside_then; [apply helm_ensure|]. intros [[]|err] g2 Hg2.
  2: { apply safe_publish; [|done]. eapply instance_ok_mono in Ha; [exact Ha|set_solver]. }
  destruct (as_Release _); [|done]. destruct (as_Chart _); [|done].
  eapply aside_then; [apply helm_sync|]. intros res g3 Hg3. destruct (synced res) as [sn|]; [|done].
  apply safe_publish; [|by destruct sn].
  match goal with |- instance_ok _ (applyHelmStatusSnapshot ?n ?a ?s) =>
    destruct (helm_snapshot_same n a s) as [Ha' Hd'] end.
  eapply (instance_ok_same _ app); [symmetry; exact Ha'|symmetry; exact Hd'|].
  eapply instance_ok_mono; [|exact Ha]. set_solver.
Qed.

Lemma seaweed_snapshot_same now app sn :
  Annotations (ai_Meta (applySeaweedStatusSnapshot now app sn)) = Annotations (ai_Meta app) ∧
  dkey (applySeaweedStatusSnapshot now app sn) = dkey app.
Proof.
  destruct sn as [s|]; [|done]. unfold applySeaweedStatusSnapshot, applyProgress.
  destruct (ss_Ready s), (ss_Degraded s), (ss_Reconciling s); simpl; try done;
    by destruct (ss_HasS3 s && _).
Qed.

Lemma safe_seaweed app g : instance_ok g app → safe (reconcileSeaweed r app) g.
Proof.
  intros Ha. unfold reconcileSeaweed.
  destruct (ir_SeaweedEngine r) as [e|] eqn:He; [|by apply safe_setBlocked].
  destruct (ir_Engine r) as [h|] eqn:Hh; [|by apply safe_setBlocked].
  pose proof (proj1 Hr h Hh). pose proof (proj2 Hr e He).
  eapply aside_then; [apply helm_exists|]. intros [[]|err] g1 Hg1;
    try (apply safe_setBlocked; by eapply instance_ok_mono).
  apply safe_now. intros now g2 Hg2. eapply aside_then; [apply seaweed_ensure|]. intros [[]|err] g3 Hg3.
  2: { apply safe_publish; [|done]. eapply instance_ok_mono in Ha; [exact Ha|set_solver]. }
  eapply aside_then; [apply seaweed_sync|]. intros res g4 Hg4.
  destruct (synced res) as [sn|]; [|done]. apply safe_publish.
  - match goal with |- instance_ok _ (applySeaweedStatusSnapshot ?n ?a ?s) =>
      destruct (seaweed_snapshot_same n a s) as [Ha' Hd'] end.
    eapply (instance_ok_same _ app); [symmetry; exact Ha'|symmetry; exact Hd'|].
    eapply instance_ok_mono; [|exact Ha]. set_solver.
  - intros app' g5 Hg5 Ha5. destruct sn as [s|]; [|done]. destruct (_ || _); [done|].
    by apply safe_storage.
Qed.

Lemma safe_removeFinalizer app g : instance_ok g app → safe (removeFinalizer app) g.
Proof.
  intros Ha. unfold removeFinalizer. apply wp_vis; [|by intros [] ? ?].
  destruct (law_remove (ai_Meta app) ApplicationInstanceFinalizer) as (fs & -> & _). exact Ha.
Qed.

Lemma safe_checkHelm app k g : (∀ b g', g ⊆ g' → safe (k b) g') → safe (checkHelm r app k) g.
Proof.
  intros Hk. unfold checkHelm. destruct (ir_Engine r) as [h|] eqn:Hh; [|by apply Hk].
  pose proof (proj1 Hr h Hh). eapply aside_then; [apply helm_exists|].
  intros [b|e] g1 Hg1; [by apply Hk|done].
Qed.

Lemma safe_finalizeSeaweed prev app g : instance_ok g app → safe (finalizeSeaweed r prev app) g.
Proof.
  intros Ha. unfold finalizeSeaweed. destruct (ir_SeaweedEngine r) as [e|] eqn:He.
  2: { apply safe_now. intros now g1 Hg1. apply safe_publish; [|done]. by eapply instance_ok_mono in Ha. }
  pose proof (proj2 Hr e He). eapply aside_then; [apply seaweed_delete|]. intros [[]|err] g1 Hg1; [|done].
  match goal with |- safe (checkHelm _ _ (λ b, match b with true => match _ with Some _ => _ | None => ?rest end
    | false => _ end)) _ => assert (∀ g2, g1 ⊆ g2 → safe rest g2) as Hrest end.
  { intros g2 Hg2. eapply aside_then; [apply seaweed_exists|]. intros [[]|err] g3 Hg3; try done.
    apply safe_checkHelm. intros [] g4 Hg4; [done|]. apply safe_removeFinalizer.
    eapply instance_ok_mono; [|exact Ha]. set_solver. }
  apply safe_checkHelm. intros [] g2 Hg2; [|by apply Hrest].
  destruct (ir_Engine r) as [h|] eqn:Hh; [|by apply Hrest]. pose proof (proj1 Hr h Hh).
  eapply aside_then; [apply helm_delete|]. intros [[]|err] g3 Hg3; [|done]. apply Hrest. by etrans.
Qed.

Lemma safe_finalizeHelm app g : instance_ok g app → safe (finalizeHelm r app) g.
Proof.
  intros Ha. unfold finalizeHelm. destruct (ir_Engine r) as [h|] eqn:Hh; [|by apply safe_removeFinalizer].
  pose proof (proj1 Hr h Hh). eapply aside_then; [apply helm_delete|].
  intros [[]|err] g1 Hg1; [|done]. apply safe_removeFinalizer. by eapply instance_ok_mono.
Qed.

Lemma safe_markDeleting app reason message k g :
  instance_ok g app → (∀ app' g', instance_ok g' app' → safe (k app') g') →
  safe (markDeleting app reason message k) g.
Proof.
  intros Ha Hk. unfold markDeleting. apply safe_now. intros now g1 Hg1.
  apply safe_publish; [by eapply instance_ok_mono in Ha|]. intros app' g2 _ Ha'. by apply Hk.
Qed.

Lemma safe_Reconcile ns name g : safe (Reconcile r ns name) g.
Proof.
  unfold Reconcile. apply safe_get; [by intros e g' _; destruct (IsNotFound e)|].
  intros app g1 Hg1 Ha _ _. destruct (negb _).
  { apply wp_vis; [|by intros [] ? ?].
    destruct (law_add (ai_Meta app) ApplicationInstanceFinalizer) as (fs & -> & _). exact Ha. }
  destruct (is_set _).
  { unfold finalize. destruct (IsPlaceholder _); [|destruct (IsSeaweedWorkload app)];
      apply safe_markDeleting; try done; intros;
      [by apply safe_removeFinalizer|by apply safe_finalizeSeaweed|by apply safe_finalizeHelm]. }
  destruct (ValidateApplicationInstanceSpec app); [|by apply safe_setBlocked].
  destruct (IsPlaceholder _).
  { apply safe_now. intros now g2 Hg2. apply safe_publish; [|done]. by eapply instance_ok_mono in Ha. }
  destruct (IsSeaweedWorkload app); [by apply safe_seaweed|by apply safe_helm].
Qed.
End Passes.
End Threads.

(** ** The engines keep their contracts *)

Section EngineContracts.
Context `{JsonSyntax} {Il : InstanceLib} {Kl : KubeLib} `{OwnerLib}.

Lemma conclude_sound s installing :
  sy_ready (conclude s installing) = true → sy_degraded (conclude s installing) = false.
Proof. unfold conclude. cbn. intros ->. by destruct (sy_degraded s). Qed.

Lemma values_aside vs ns no : only aside (valuesFrom vs ns no) (λ _, True).
Proof. unfold valuesFrom, loadValuesFromSecret, loadValuesFromConfigMap. only_go; done. Qed.

Lemma deleteKinds_aside ns release kinds : only aside (deleteKinds ns release kinds) (λ _, True).
Proof.
  induction kinds as [|k kinds IH]; cbn [deleteKinds]; [by apply only_ret|].
  apply only_bind_any; [by apply only_call|]. intros [[]|e]; [done|].
  destruct (IsNotFound e); [done|by apply only_ret].
Qed.

#[export] Instance FluxEngine_contract : HelmContract FluxEngine.
Proof.
  split; intros app; cbn.
  - unfold EnsureRelease, ensureChartSource, ensureHelmRelease, buildValues. apply only_bind_any.
    { only_go; done. }
    intros [[]|e]; [|by apply only_ret]. destruct (as_Chart _), (releaseName app); try by apply only_ret.
    apply only_bind_any; [by apply only_call|]. intros [hr|e]; [|by apply only_ret].
    match goal with |- only _ (match ?x with Ok _ => _ | Err _ => _ end) _ => destruct x end;
      [|by apply only_ret].
    apply only_bind_any; [destruct (as_Values _); [apply values_aside|by apply only_ret]|].
    intros [v|e]; [|by apply only_ret]. only_go; done.
  - unfold DeleteRelease. destruct (releaseName app); [apply deleteKinds_aside|by apply only_ret].
  - unfold ReleaseExists. only_go; done.
  - unfold flux_SyncStatus. destruct (releaseName app) as [rel|]; [|by apply only_ret].
    apply only_bind_any; [by apply only_call|]. intros [hr|e]; [|by apply only_ret]. apply only_ret.
    intros s [= <-]. destruct (NestedField _ _) as [[]|]; try done.
    exact (conclude_sound _ "HelmReleaseInstalling").
Qed.

Lemma firstUsable_aside ns release a b c items : only aside (firstUsable ns release a b c items) (λ _, True).
Proof.
  revert a b c. induction items as [|i items IH]; intros a b c; cbn [firstUsable]; [by apply only_ret|].
  apply only_bind_any; [unfold snapshotFromS3Credentials; only_go; done|].
  intros [[s|[]]|e]; try apply IH; by apply only_ret.
Qed.

#[export] Instance SeaweedEngine_contract : SeaweedContract SeaweedEngine.
Proof.
  split; intros app; cbn.
  - unfold EnsureSeaweed, writeSeaweed, loadValues.
    destruct (validateReleaseRef app); [|by apply only_ret].
    apply only_bind_any.
    { destruct (as_Values _); [|by apply only_ret].
      apply only_bind_any; [apply values_aside|intros; by apply only_ret]. }
    intros; only_go; done.
  - unfold DeleteSeaweed. only_go; done.
  - unfold SeaweedExists. only_go; done.
  - unfold seaweed_SyncStatus, s3ServiceExists. destruct (validateReleaseRef app) as [rel|]; [|by apply only_ret].
    apply only_bind_any; [by apply only_call|]. intros [sw|e]; [|by apply only_ret].
    destruct (NestedField _ _) as [[]|]; try (apply only_ret; by intros ? [= <-]).
    apply only_bind_any; [destruct (_ && _); only_go; done|]. intros svc. apply only_ret.
    intros s [= <-]. exact (conclude_sound _ "SeaweedReconciling").
  - unfold ResolveManagedStorageState, listMatchingS3Credentials.
    destruct (validateReleaseRef app); [|by apply only_ret].
    apply only_bind_any; [only_go; done|]. intros [[|c cs]|e]; try by apply only_ret.
    destruct (splitS3CredentialsByPhase _) as [[|i ready] p]; [by apply only_ret|].
    apply firstUsable_aside.
Qed.
End EngineContracts.

(** ** The interleaving semantics *)

(** [w_history] holds every version stored so far: reads come from a cache and may
    answer an old one. *)
Record world := {
  w_instances : gmap (string * string) ApplicationInstance;
  w_history : list ApplicationInstance;
  w_memory : StorageMemory;
  w_delivered : delivered
}.

Definition store (w : world) (app : ApplicationInstance) : world :=
  {| w_instances := <[(ai_Namespace app, ai_Name app) := app]> (w_instances w);
     w_history := app :: w_history w;
     w_memory := w_memory w; w_delivered := w_delivered w |}.

Definition stored (w : world) (app : ApplicationInstance) : option ApplicationInstance :=
  w_instances w !! (ai_Namespace app, ai_Name app).

Notation ann a := (Annotations (ai_Meta a)).

(** One call: every write may fail; an update replaces the object, a status update
    keeps its metadata, a merge patch changes the annotations that differ. *)
Definition api_step (w : world) {X} (c : icall X) : X → world → Prop :=
  match c in icall X return X → world → Prop with
  | IGetInstance ns name => λ x w', w' = w ∧ ∀ app, x = Ok app →
      app ∈ w_history w ∧ ai_Namespace app = ns ∧ ai_Name app = name
  | IUpdateInstance a => λ x w', (∃ e, x = Err e ∧ w' = w) ∨
      ∃ app, x = Ok app ∧ w' = store w app ∧ same_object app a ∧ ann app = ann a
  | IUpdateInstanceStatus a => λ x w', (∃ e, x = Err e ∧ w' = w) ∨
      ∃ old app, x = Ok app ∧ w' = store w app ∧ same_object app a ∧
        stored w a = Some old ∧ ann app = ann old
  | IPatchInstance base a => λ x w', (∃ e, x = Err e ∧ w' = w) ∨
      ∃ old app, x = Ok app ∧ w' = store w app ∧ same_object app a ∧ stored w a = Some old ∧
        ∀ k, ann app !! k = if bool_decide (ann base !! k = ann a !! k) then ann old !! k else ann a !! k
  | IAtomic f => λ x w', x = (f (w_memory w)).1 ∧
      w' = {| w_instances := w_instances w; w_history := w_history w; w_memory := (f (w_memory w)).2; w_delivered := w_delivered w |}
  | _ => λ _ w', w' = w
  end.

(** Users and other controllers do not write the two recording annotations. *)
Definition edits (w : world) (app : ApplicationInstance) : Prop :=
  ∀ k, k ∈ [reportedManagedStorageAccessKeyAnnotation; managedStoragePostedAnnotation] →
    annotation app k = "" ∨ ∃ old, stored w app = Some old ∧ annotation app k = annotation old k.

Definition deliver (w : world) (events : list Event) : world :=
  {| w_instances := w_instances w; w_history := w_history w; w_memory := w_memory w;
     w_delivered := list_to_set (events ≫= event_keys) ∪ w_delivered w |}.

Definition thread : Type := prog icall unit.
Definition system : Type := world * list thread.

Inductive sys_step {Il : InstanceLib} {Kl : KubeLib} (r : ApplicationInstanceReconciler)
    : system → system → Prop :=
| s_call w X (c : icall X) k ts1 ts2 x w' :
    api_step w c x w' → sys_step r (w, ts1 ++ Vis c k :: ts2) (w', ts1 ++ k x :: ts2)
| s_return w ts1 ts2 : sys_step r (w, ts1 ++ Ret tt :: ts2) (w, ts1 ++ ts2)
| s_reconcile w ts1 ts2 ns name :
    sys_step r (w, ts1 ++ ts2) (w, ts1 ++ (let* _ := Reconcile r ns name in Ret tt) :: ts2)
| s_prepare w ts events : sys_step r (w, ts) (w, PrepareManagedStoragePost events :: ts)
| s_abort w ts events : sys_step r (w, ts) (w, AbortManagedStoragePost events :: ts)
| s_accept w ts events :
    (** the control plane accepted a batch: the callback runs *)
    sys_step r (w, ts) (deliver w events, AckManagedStorageDelivered events :: ts)
| s_edit w ts app : edits w app → sys_step r (w, ts) (store w app, ts)
| s_delete w ts key :
    sys_step r (w, ts) ({| w_instances := delete key (w_instances w); w_history := w_history w; w_memory := w_memory w;
                           w_delivered := w_delivered w |}, ts).

Definition start : system :=
  ({| w_instances := ∅; w_history := []; w_memory := {| sm_InFlight := ∅; sm_Posting := ∅; sm_AckPending := ∅ |};
      w_delivered := ∅ |}, []).

Definition world_ok (w : world) : Prop :=
  (∀ key app, w_instances w !! key = Some app →
     key = (ai_Namespace app, ai_Name app) ∧ instance_ok (w_delivered w) app) ∧
  Forall (instance_ok (w_delivered w)) (w_history w) ∧
  memory_ok (w_delivered w) (w_memory w).

Lemma world_ok_store w app :
  world_ok w → instance_ok (w_delivered w) app → world_ok (store w app).
Proof.
  intros (Hi & Hh & Hm) Ha. split_and!; [|by constructor|done]. intros key app'. simpl.
  destruct (decide (key = (ai_Namespace app, ai_Name app))) as [->|Hne].
  - rewrite lookup_insert_eq. by intros [= <-].
  - rewrite lookup_insert_ne by done. apply Hi.
Qed.

Lemma same_dkey a b : same_object a b → dkey a = dkey b.
Proof. unfold dkey. by intros [-> ->]. Qed.

(** A permitted call keeps the world's invariant and is an answer a thread relies on. *)
Lemma api_step_ok w X (c : icall X) x w' :
  world_ok w → guarantee X c (w_delivered w) → api_step w c x w' →
  world_ok w' ∧ w_delivered w' = w_delivered w ∧ rely X c (w_delivered w) x (w_delivered w).
Proof.
  intros Hw Hg Hs. unfold rely.
  destruct c; cbn in Hs, Hg |- *; try (by subst w').
  - destruct Hs as [-> Hx]. split_and!; try done. intros app Happ.
    destruct (Hx app Happ) as (Hin & <- & <-). split; [|done].
    destruct Hw as (_ & Hh & _). rewrite Forall_forall in Hh. by apply Hh.
  - destruct Hs as [(e & -> & ->)|(a & -> & -> & Hsame & Hann)]; [by split_and!|].
    assert (instance_ok (w_delivered w) a) as Ha.
    { eapply instance_ok_same; [by symmetry|symmetry; by apply same_dkey|done]. }
    split_and!; try done; [by apply world_ok_store|]. by intros ? [= <-].
  - destruct Hs as [(e & -> & ->)|(old & a & -> & -> & Hsame & Hold & Hann)]; [by split_and!|].
    destruct (proj1 Hw _ _ Hold) as [Hkey Hok].
    assert (instance_ok (w_delivered w) a) as Ha.
    { eapply (instance_ok_same _ old); [by symmetry| |done].
      rewrite (same_dkey _ _ Hsame). unfold dkey. by injection Hkey as -> ->. }
    split_and!; try done; [by apply world_ok_store|]. by intros ? [= <-].
  - destruct Hs as [(e & -> & ->)|(old & a & -> & -> & Hsame & Hold & Hann)]; [by split_and!|].
    destruct (proj1 Hw _ _ Hold) as [Hkey Hok].
    assert (instance_ok (w_delivered w) a) as Ha.
    { assert (∀ k, annotation a k = annotation old k ∨ annotation a k = annotation app k) as Hor.
      { intros k. unfold annotation. rewrite (Hann k). case_bool_decide; auto. }
      intros K HK Hr. rewrite (same_dkey _ _ Hsame).
      assert (dkey app = dkey old) as Hd by (unfold dkey; by injection Hkey as -> ->).
      destruct Hr as [Hr|Hr];
        [destruct (Hor reportedManagedStorageAccessKeyAnnotation) as [Ho|Ho]
        |destruct (Hor managedStoragePostedAnnotation) as [Ho|Ho]]; rewrite Ho in Hr;
        first [apply (Hg K HK); by auto|rewrite Hd; apply (Hok K HK); by auto]. }
    split_and!; try done; [by apply world_ok_store|]. by intros ? [= <-].
  - destruct Hs as [-> ->]. split_and!; try done.
    + split_and!; [apply Hw..|]. simpl. apply Hg; [done|apply Hw].
    + exists (w_memory w). split; [apply Hw|done].
Qed.

(** ** The invariant of the system *)

Definition sys_ok (s : system) : Prop :=
  world_ok s.1 ∧ Forall (λ t : thread, safe t (w_delivered s.1)) s.2.

Lemma threads_mono g g' ts :
  g ⊆ g' → Forall (λ t : thread, safe t g) ts → Forall (λ t : thread, safe t g') ts.
Proof. intros Hg Hts. eapply Forall_impl; [exact Hts|]. intros t. by apply safe_mono. Qed.

Lemma world_ok_deliver w events : world_ok w → world_ok (deliver w events).
Proof.
  intros (Hi & Hh & Hm).
  assert (w_delivered w ⊆ w_delivered (deliver w events)) as Hg by (simpl; set_solver).
  split_and!.
  - intros key app Happ. destruct (Hi key app Happ) as [-> Ha]. split; [done|]. by eapply instance_ok_mono.
  - eapply Forall_impl; [exact Hh|]. intros app. by apply instance_ok_mono.
  - intros k K HK. by apply Hg, Hm.
Qed.

Lemma edits_ok w app : world_ok w → edits w app → instance_ok (w_delivered w) app.
Proof.
  intros (Hi & _) He K HK.
  assert (∀ k, k ∈ [reportedManagedStorageAccessKeyAnnotation; managedStoragePostedAnnotation] →
    annotation app k = K → (dkey app, K) ∈ w_delivered w) as Hk; [|intros [Hr|Hr]; eapply Hk, Hr; set_solver].
  intros k Hin Hr. destruct (He k Hin) as [H0|(old & Hold & H1)]; [congruence|].
  destruct (Hi _ _ Hold) as [Hkey Hok].
  assert (dkey app = dkey old) as -> by (unfold dkey; by injection Hkey as -> ->).
  apply (Hok K HK). rewrite !elem_of_cons, elem_of_nil in Hin.
  destruct Hin as [->|[->|[]]]; rewrite H1 in Hr; auto.
Qed.

Section System.
Context {Il : InstanceLib} {Kl : KubeLib} {Kw : KubeLaws}.
Context (r : ApplicationInstanceReconciler) (Hr : keeps_contracts r).

Lemma sys_step_ok s s' : sys_step r s s' → sys_ok s → sys_ok s'.
Proof.
  intros Hs [Hw Ht]. destruct Hs as [w X c k ts1 ts2 x w' Hstep|w ts1 ts2|w ts1 ts2 ns name|w ts events
    |w ts events|w ts events|w ts app He|w ts key]; cbn in Hw, Ht; split; cbn [fst snd].
  1,2: apply Forall_app in Ht as [Ht1 [[Hc Hk] Ht2]%Forall_cons];
    destruct (api_step_ok w X c x w' Hw Hc Hstep) as (Hw' & Hd & Hrely).
  { done. }
  { rewrite Hd. apply Forall_app_2; [done|]. constructor; [by apply Hk|done]. }
  all: try done.
  - apply Forall_app in Ht as [Ht1 [_ Ht2]%Forall_cons]. by apply Forall_app_2.
  - apply Forall_app in Ht as [Ht1 Ht2]. apply Forall_app_2; [done|]. constructor; [|done].
    apply safe_then; [by apply safe_Reconcile|]. by intros.
  - constructor; [apply safe_prepare|done].
  - constructor; [apply safe_abort|done].
  - by apply world_ok_deliver.
  - constructor; [|eapply threads_mono; [|exact Ht]; simpl; set_solver].
    apply safe_AckDelivered. intros e kK Hin HkK. simpl. set_solver.
  - apply world_ok_store; [done|]. by apply edits_ok.
  - destruct Hw as (Hi & Hh & Hm). split_and!; try done. intros key' app. simpl.
    rewrite lookup_delete_Some. intros [_ Happ]. by apply Hi.
Qed.

Lemma start_ok : sys_ok start.
Proof. repeat split; try constructor; try done; intros *; by rewrite lookup_empty. Qed.

Lemma reachable_ok s : rtc (sys_step r) start s → sys_ok s.
Proof.
  apply (rtc_ind_r (λ s, sys_ok s) start); [apply start_ok|]. intros s1 s2 _ Hs. by apply sys_step_ok.
Qed.
End System.

(** Credentials are acknowledged only after they were delivered.  Whatever
    passes, batcher callbacks and edits by others are interleaved, with reads that
    may be stale and writes that may fail: in every reachable state the report key
    an instance carries as reported or as posted, and every key that waits for its
    acknowledgement in memory, is one the control plane has accepted in an event
    for that very instance. *)
Theorem storage_ack_after_delivery `{InstanceLib} `{KubeLib} `{!KubeLaws}
    (r : ApplicationInstanceReconciler) (w : world) (ts : list thread) :
  keeps_contracts r → rtc (sys_step r) start (w, ts) →
  (∀ key app K, w_instances w !! key = Some app → K ≠ "" →
     annotation app reportedManagedStorageAccessKeyAnnotation = K ∨
     annotation app managedStoragePostedAnnotation = K →
     (storageDeliveryKey (ai_Namespace app) (ai_Name app), K) ∈ w_delivered w) ∧
  (∀ k K, sm_AckPending (w_memory w) !! k = Some K → (k, K) ∈ w_delivered w).
Proof.
  intros Hr Hs. destruct (reachable_ok r Hr (w, ts) Hs) as [(Hi & _ & Hm) _].
  split; [|exact Hm]. intros key app K Happ. by destruct (Hi key app Happ) as [_ Ha]; apply Ha.
Qed.

(** ** A run of the system *)

(** A merge patch: what differs between [base] and [a] is written. *)
Definition merge_patch (base a old : gmap string string) : gmap string string :=
  merge (λ d o, match d with Some x => x | None => o end)
    (merge (λ b x, if bool_decide (b = x) then None else Some x) base a) old.

Lemma lookup_merge_patch base a old k :
  merge_patch base a old !! k = if bool_decide (base !! k = a !! k) then old !! k else a !! k.
Proof.
  unfold merge_patch. rewrite !lookup_merge. unfold diag_None.
  destruct (base !! k), (a !! k); simpl; try case_bool_decide; simpl; try done;
    by destruct (old !! k).
Qed.

(** A server that answers with the newest version and accepts every write. *)
Definition server : handler icall world := λ X c w,
  match c in icall X return X * world with
  | INow => (0%Z, w)
  | ISleep _ => (tt, w)
  | IGetInstance ns name =>
      (match filter (λ a, ai_Namespace a = ns ∧ ai_Name a = name) (w_history w) with
       | app :: _ => Ok app
       | [] => Err (mkErr "not found" KNotFound)
       end, w)
  | IListInstances _ => (Ok [], w)
  | IUpdateInstance a => (Ok a, store w a)
  | IUpdateInstanceStatus a =>
      match stored w a with
      | Some old => let app := with_ai_status (with_ai_meta a (with_annotations (ai_Meta a) (ann old))) (ai_Status a) in
                    (Ok app, store w app)
      | None => (Err (mkErr "not found" KNotFound), w)
      end
  | IPatchInstance base a =>
      match stored w a with
      | Some old => let app := with_ai_meta a (with_annotations (ai_Meta a)
                                 (merge_patch (ann base) (ann a) (ann old))) in
                    (Ok app, store w app)
      | None => (Err (mkErr "not found" KNotFound), w)
      end
  | IGetObject _ _ _ => (Err (mkErr "not found" KNotFound), w)
  | IListObjects _ _ => (Ok [], w)
  | IDeleteObject _ _ _ => (Ok tt, w)
  | IFetchOrNew _ _ _ => (Err (errorf "refused"), w)
  | IWriteBack _ => (Ok tt, w)
  | IGetSecret _ _ => (Err (mkErr "not found" KNotFound), w)
  | IGetConfigMap _ _ => (Ok ∅, w)
  | IGetService _ _ => (Ok tt, w)
  | IAtomic f => ((f (w_memory w)).1,
      {| w_instances := w_instances w; w_history := w_history w; w_memory := (f (w_memory w)).2;
         w_delivered := w_delivered w |})
  | IHasPendingEvent _ => (false, w)
  | IReport _ _ _ => (tt, w)
  | IReportEndpoints _ _ _ _ => (true, w)
  | IReportReady _ _ _ _ => (true, w)
  | IReportAudit _ _ _ _ => (tt, w)
  end.

Lemma server_step w X (c : icall X) : api_step w c (server X c w).1 (server X c w).2.
Proof.
  destruct c; cbn; try done.
  - destruct (filter _ _) as [|app l] eqn:Hf; [by split|]. split; [done|]. intros ? [= <-].
    assert (app ∈ filter (λ a, ai_Namespace a = ns ∧ ai_Name a = name) (w_history w)) as Hin
      by (rewrite Hf; by left).
    apply list_elem_of_filter in Hin. naive_solver.
  - right. by exists app.
  - destruct (stored w app) as [old|] eqn:Hold; [|left; eauto]. right. exists old. eexists. by split_and!.
  - destruct (stored w app) as [old|] eqn:Hold; [|left; eauto]. right. exists old. eexists. split_and!; try done.
    intros k. cbn. apply lookup_merge_patch.
Qed.

(** A thread running alone against it is a run of the system. *)
Lemma server_run `{InstanceLib} `{KubeLib} r (p : thread) w ts :
  rtc (sys_step r) (w, p :: ts) ((run server p w).2, ts).
Proof.
  revert w. induction p as [[]|X c k IH]; intros w.
  - apply rtc_once. apply (s_return r w [] ts).
  - eapply rtc_l; [apply (s_call r w X c k [] ts), server_step|]. cbn [run app].
    destruct (server X c w) as [x w'] eqn:Hx. apply IH.
Qed.

(** Libraries for the runs: no document parses. *)
Definition reference_instance_lib : InstanceLib :=
  {| yaml_parse _ := Err (errorf "unexpected input"); FormatRFC3339Nano now := pretty now |}.
Definition plain_syntax : JsonSyntax := {| json_parse _ := Err (errorf "unexpected input") |}.

#[local] Existing Instances reference_instance_lib plain_syntax reference_owner reference_lib.

(** The reconciler as the manager sets it up. *)
Definition installed `{JsonSyntax, InstanceLib, KubeLib, OwnerLib} : ApplicationInstanceReconciler :=
  {| ir_Engine := Some FluxEngine; ir_SeaweedEngine := Some SeaweedEngine |}.

Lemma installed_contracts `{JsonSyntax, InstanceLib, KubeLib, OwnerLib} : keeps_contracts installed.
Proof. split; intros e [= <-]; apply _. Qed.

Definition seaweed_meta (fs : list string) (deleted : option Z) : ObjectMeta :=
  {| Name := "store"; Namespace := "a"; UID := "u1"; Generation := 2; Labels := ∅; Annotations := ∅;
     Finalizers := fs; OwnerReferences := []; DeletionTimestamp := deleted |}.

Definition seaweed_instance (fs : list string) (deleted : option Z) : ApplicationInstance :=
  {| ai_Meta := seaweed_meta fs deleted;
     ai_Spec := {| as_CatalogID := CatalogIDSeaweedFS; as_Mode := InstanceModeManaged; as_Chart := None;
                   as_Release := Some {| rel_Name := "store"; rel_Namespace := "a" |};
                   as_Values := Some {| vs_Source := ValuesSourceInline; vs_Inline := Some "{}";
                                        vs_SecretRef := None; vs_ConfigMapRef := None |};
                   as_Integrations := None |};
     ai_Status := {| ast_ObservedGeneration := 0; ast_Conditions := []; ast_HelmReleaseRef := None;
                     ast_LastAppliedChart := None; ast_LastReconcileTime := None;
                     ast_Endpoints := [] |} |}.

Definition storage_event (app : ApplicationInstance) (key : string) : Event :=
  let ready := {| c_Type := ConditionReady; c_Status := ConditionTrue; c_Reason := "ManagedStorageReady";
                  c_Message := ""; c_LastTransitionTime := 0 |} in
  {| ev_EventKey := ManagedStorageEventKey (instanceRef app) ready key; ev_Kind := "ConditionTransition";
     ev_ResourceRef := instanceRef app; ev_Conditions := [ready]; ev_Endpoints := [];
     ev_ManagedStorage := None; ev_Timestamp := None |}.

(** The instance is created, its event accepted and the callback runs. *)
Definition created : world := store start.1 (seaweed_instance [ApplicationInstanceFinalizer] None).
Definition accepted : world := deliver created [storage_event (seaweed_instance [] None) "00ff"].
Definition acked : world :=
  (run server (AckManagedStorageDelivered [storage_event (seaweed_instance [] None) "00ff"]) accepted).2.

Lemma acked_reachable : rtc (sys_step installed) start (acked, []).
Proof.
  eapply rtc_l.
  { apply (s_edit _ start.1 [] (seaweed_instance [ApplicationInstanceFinalizer] None)).
    intros k _. left. by vm_compute. }
  eapply rtc_l; [apply (s_accept _ created [] [storage_event (seaweed_instance [] None) "00ff"])|].
  apply server_run.
Qed.

Lemma storage_ack_after_delivery_witness :
  (λ app, annotation app reportedManagedStorageAccessKeyAnnotation) <$> w_instances acked !! ("a", "store")
    = Some "00ff" ∧
  (storageDeliveryKey "a" "store", "00ff") ∈ w_delivered acked.
Proof.
  split; [by vm_compute|].
  destruct (w_instances acked !! ("a", "store")) as [app|] eqn:Happ; [|by vm_compute in Happ].
  apply (proj1 (storage_ack_after_delivery installed acked [] installed_contracts acked_reachable)
    ("a", "store") app "00ff") in Happ as Hin; [|done|].
  - vm_compute in Happ. injection Happ as <-. exact Hin.
  - left. vm_compute in Happ. by injection Happ as <-.
Defined.
