(* ===== verification/InstanceLifecycle.v ===== *)
(** * One pass over an ApplicationInstance: theorems

    What a pass writes about a live instance, when it lets go of one that is being
    deleted, and when it sends credentials, whatever the server answers. *)

From stdpp Require Import base list strings pretty gmap sets.
From S2P Require Import Prelude Traces GoStrings Api Conditions Events Reporter Json Kube Crypto.
From S2P Require Import HttpClient Credentials InstanceValidation InstanceEngines InstanceReconciler InstanceProofs.

#[local] Opaque TrimSpace sha256.

Notation itrace := (trace_of icall).
Notation IEvent := (@Called icall _).

Lemma only_any {E A} (p : prog E A) : only (λ _ _, True) p (λ _, True).
Proof. intros g. revert g. induction p as [a|X c k IH]; intros g; simpl; [done|]. split; [done|]. intros x g' _. apply IH. Qed.

(** ** Condition statuses *)

Definition status (a : ApplicationInstance) (t : string) : option string :=
  c_Status <$> Conditions.Get (ai_Conditions a) t.

Lemma status_put now a t s reason message t' :
  status (put now a t s reason message) t' = if bool_decide (t' = t) then Some s else status a t'.
Proof.
  unfold status, put, ai_Conditions. cbn [ai_Status with_ai_status ast_Conditions]. case_bool_decide as Ht.
  - subst t'. pose proof (Conditions.Set_reads_same now (ast_Conditions (ai_Status a)) t s reason message) as Hr.
    unfold Conditions.reads in Hr. destruct (Conditions.Get _ t); [|done]. simpl in *. congruence.
  - by rewrite Conditions.Set_get_other.
Qed.

Lemma status_observed now a t : status (observed now a) t = status a t.
Proof. done. Qed.
Lemma status_release a x t : status (with_release a x) t = status a t.
Proof. done. Qed.
Lemma status_chart a x t : status (with_chart a x) t = status a t.
Proof. done. Qed.
Lemma status_endpoints a x t : status (with_endpoints a x) t = status a t.
Proof. done. Qed.

(** Reads through any sequence of the status setters. *)
Ltac read_status := repeat first
  [ rewrite status_put; cbn [bool_decide decide String.eqb]
  | rewrite status_observed | rewrite status_release | rewrite status_chart | rewrite status_endpoints ].

(** What a status write of a live instance satisfies: only the status differs from
    the object read; Ready is settled; an instance is Ready only when it is neither
    blocked nor degraded and its current generation was observed. *)
Definition settled (app a : ApplicationInstance) : Prop :=
  ai_Meta a = ai_Meta app ∧ ai_Spec a = ai_Spec app ∧
  is_Some (status a ConditionReady) ∧
  (status a ConditionReady = Some ConditionTrue →
   status a ConditionBlocked = Some ConditionFalse ∧ status a ConditionDegraded = Some ConditionFalse ∧
   ast_ObservedGeneration (ai_Status a) = Generation (ai_Meta app)).

(** The credentials of a snapshot on the wire. *)
Definition payload (ms : ManagedStorageSnapshot) : ManagedStoragePayload :=
  {| msp_AccessKeyID := ms_AccessKeyID ms; msp_SecretAccessKey := ms_SecretAccessKey ms;
     msp_BucketName := ms_BucketName ms |}.

(** Credentials are sent under the key computed from them; audits have keys of
    their own family. *)
Definition genuine_call X (c : icall X) : Prop :=
  match c with
  | IReportReady _ _ extras K => ∃ ms, xs_ManagedStorage extras = Some (payload ms) ∧ K = managedStorageReportKey ms
  | IReportAudit _ _ _ key => HasPrefix key "ManagedStorageFailed/" = true
  | _ => True
  end.

(** What a pass over the live instance [app] may call. *)
Definition settles (app : ApplicationInstance) X (c : icall X) : Prop :=
  match c with
  | IUpdateInstance _ => False
  | IUpdateInstanceStatus a => settled app a
  | _ => genuine_call X c
  end.

(** Programs that write neither the object nor its status. *)
Definition patches_only X (c : icall X) : Prop :=
  match c with IUpdateInstance _ | IUpdateInstanceStatus _ => False | _ => genuine_call X c end.

Lemma aside_settles {A : Type} (p : prog icall A) Q app : only aside p Q → only (settles app) p Q.
Proof. apply only_mono; [|done]. intros X c. by destruct c. Qed.

Lemma patches_settles {A : Type} (p : prog icall A) Q app : only patches_only p Q → only (settles app) p Q.
Proof. apply only_mono; [|done]. intros X c. by destruct c. Qed.

(** ** Managed storage only patches *)

(** Acknowledging patches annotations and reports nothing. *)
Definition silent X (c : icall X) : Prop :=
  match c with
  | IUpdateInstance _ | IUpdateInstanceStatus _ => False
  | IReport _ _ _ | IReportReady _ _ _ _ | IReportEndpoints _ _ _ _ | IReportAudit _ _ _ _ => False
  | _ => True
  end.

Definition acks_only X (c : icall X) : Prop :=
  match c with
  | IUpdateInstance _ | IUpdateInstanceStatus _ | IReport _ _ _ | IReportReady _ _ _ _ => False
  | _ => True
  end.

Lemma silent_patches {A : Type} (p : prog icall A) Q : only silent p Q → only patches_only p Q.
Proof. apply only_mono; [|done]. intros X c. by destruct c. Qed.

Lemma silent_ackAttempts attempts ns name K last :
  only silent (ackAttempts attempts ns name K last) (λ _, True).
Proof.
  revert last. induction attempts as [|n attempts IH]; intros last; cbn [ackAttempts]; [by apply only_ret|].
  apply only_bind_any; [case_bool_decide; [by apply only_call|by apply only_ret]|]. intros _.
  apply only_bind_any; [by apply only_call|]. intros [app|e]; [|by apply only_ret].
  case_bool_decide; [unfold clearStorageDeliveryState, atomically; only_go; done|].
  apply only_bind_any; [by apply only_call|]. intros [app'|e];
    [unfold clearStorageDeliveryState, atomically; only_go; done|].
  destruct (IsApiConflict e); [apply IH|by apply only_ret].
Qed.

Lemma acks_ackAttempts attempts ns name K last :
  only acks_only (ackAttempts attempts ns name K last) (λ _, True).
Proof. eapply only_mono, silent_ackAttempts; [|done]. intros X c. by destruct c. Qed.

(** Every annotation patch and every access to the maps, by computation. *)
Ltac patches := unfold orRetry, triggerAckRetry, settleFailedAck, patchManagedStorageFailedAck,
  patchSeaweedEndpointsAck, setOnce, patchAnnotations, clearAnnotation, clearManagedStorageClaim,
  claimManagedStorageDelivery, clearStorageDeliveryState, markStorageAckPending, markStorageInFlight,
  clearStorageInFlight, inFlightStorageReportKey, postingStorageReportKey, pendingStorageAckReportKey,
  clearStorageAckPending, atomically, finish, failWith; only_go; first [done | apply HasPrefix_app].

Section Storage.
Context {Il : InstanceLib} {Kl : KubeLib}.

Lemma patches_deliver app ms ready ref ek :
  only patches_only (deliverStorage app ms ready ref (managedStorageReportKey ms) ek) (λ _, True).
Proof.
  unfold deliverStorage. apply only_bind_any; [by apply only_call|]. intros []; [by apply only_ret|].
  case_bool_decide.
  { apply only_bind_any; [|intros []; by apply only_ret]. unfold retryManagedStorageAck.
    apply only_bind_any; [patches|]. intros _. apply silent_patches, silent_ackAttempts. }
  apply only_bind_any; [patches|]. intros [[[] app']|e]; try by apply only_ret.
  apply only_bind_any; [apply only_call; [by exists ms|done]|]. intros []; patches.
Qed.

Lemma patches_checkInFlight app ms ready ref ek :
  only patches_only (checkInFlight app ms ready ref (managedStorageReportKey ms) ek) (λ _, True).
Proof.
  unfold checkInFlight. apply only_bind_any; [patches|]. intros [key|]; [|apply patches_deliver].
  case_bool_decide; [apply only_bind_any; [patches|intros _; apply patches_deliver]|].
  apply only_bind_any; [by apply only_call|]. intros []; [by apply only_ret|].
  apply only_bind_any; [patches|]. intros po. case_bool_decide; [by apply only_ret|].
  apply only_bind_any; [patches|]. intros _. apply patches_deliver.
Qed.

Lemma patches_track app ms ready :
  only patches_only (trackDelivery app ms ready (managedStorageReportKey ms)) (λ _, True).
Proof.
  unfold trackDelivery. apply only_bind_any; [patches|]. intros [key|]; [|apply patches_checkInFlight].
  case_bool_decide; [apply only_bind_any; [patches|intros _; apply patches_checkInFlight]|].
  apply only_bind_any; [apply silent_patches, silent_ackAttempts|]. intros []; by apply only_ret.
Qed.

Lemma patches_storage engine app :
  SeaweedContract engine → only patches_only (reconcileSeaweedManagedStorage engine app) (λ _, True).
Proof.
  intros Hc. unfold reconcileSeaweedManagedStorage. destruct (negb _); [by apply only_ret|].
  apply only_bind_any; [unfold reportSeaweedEndpointsIfNeeded; patches|]. intros _.
  apply only_bind_any.
  { eapply only_mono; [|done|apply seaweed_resolve]. intros X c. by destruct c. }
  intros [st|e]; [|by apply only_ret]. destruct (rs_snapshot st) as [ms|].
  2: { destruct (rs_pending st); [by apply only_ret|]. destruct (rs_failed st); [|by apply only_ret].
       unfold reportManagedStorageFailed; patches. }
  destruct (Conditions.Get _ _); [|by apply only_ret].
  apply only_bind_any; [by apply only_call|]. intros now. case_bool_decide; [patches|].
  case_bool_decide; [|apply patches_track].
  apply only_bind_any; [patches|]. intros [app'|e]; [apply patches_track|by apply only_ret].
Qed.
End Storage.

(** ** Statuses of a live instance *)

Ltac settled_by := split_and!; [done|done|read_status; by eexists|read_status; done].

Lemma settled_blocked now app reason message : settled app (instanceBlocked now app reason message).
Proof. unfold instanceBlocked. settled_by. Qed.

Lemma settled_placeholder now app : settled app (placeholderReady now app).
Proof. unfold placeholderReady, unblocked. settled_by. Qed.

Lemma settled_ensureFailed now app a e :
  ai_Meta a = ai_Meta app → ai_Spec a = ai_Spec app → settled app (ensureFailed now a e).
Proof. intros. unfold ensureFailed. settled_by. Qed.

Lemma settled_seaweedFailed now app a e :
  ai_Meta a = ai_Meta app → ai_Spec a = ai_Spec app → settled app (seaweedFailed now a e).
Proof. intros. unfold seaweedFailed, unblocked. settled_by. Qed.

(** A sound snapshot settles an object whose generation was observed. *)
Lemma settled_helm now app a res sn :
  ai_Meta a = ai_Meta app → ai_Spec a = ai_Spec app →
  ast_ObservedGeneration (ai_Status a) = Generation (ai_Meta app) →
  sound_snapshot res → synced res = Ok sn → settled app (applyHelmStatusSnapshot now a sn).
Proof.
  intros Hm Hs Hg Hres Hsn. destruct sn as [s|]; [|unfold applyHelmStatusSnapshot; settled_by].
  assert (ss_Ready s = true → ss_Degraded s = false) as Hd.
  { apply Hres. destruct res as [s'|e]; cbn in Hsn; [congruence|by destruct (IsNotFound e)]. }
  unfold applyHelmStatusSnapshot, applyProgress, unblocked.
  destruct (ss_Ready s); [rewrite Hd by done|destruct (ss_Degraded s)];
    destruct (ss_Reconciling s); split_and!; try done; read_status; try (by eexists); done.
Qed.

Lemma settled_seaweed now app a res sn :
  ai_Meta a = ai_Meta app → ai_Spec a = ai_Spec app →
  ast_ObservedGeneration (ai_Status a) = Generation (ai_Meta app) →
  sound_snapshot res → synced res = Ok sn → settled app (applySeaweedStatusSnapshot now a sn).
Proof.
  intros Hm Hs Hg Hres Hsn. destruct sn as [s|]; [|unfold applySeaweedStatusSnapshot; settled_by].
  assert (ss_Ready s = true → ss_Degraded s = false) as Hd.
  { apply Hres. destruct res as [s'|e]; cbn in Hsn; [congruence|by destruct (IsNotFound e)]. }
  unfold applySeaweedStatusSnapshot, applyProgress, unblocked.
  destruct (ss_Ready s); [rewrite Hd by done; destruct (ss_HasS3 s && _)|destruct (ss_Degraded s)];
    destruct (ss_Reconciling s); try destruct (bool_decide (fallback _ _ = _));
    split_and!; try done; read_status; try (by eexists); done.
Qed.

(** ** The live passes *)

Section Live.
Context {Il : InstanceLib} {Kl : KubeLib}.
Context (r : ApplicationInstanceReconciler) (Hr : keeps_contracts r).

Lemma settles_publish app a prev what k :
  settled app a → (∀ a', only (settles app) (k a') (λ _, True)) →
  only (settles app) (publishStatus a prev what k) (λ _, True).
Proof.
  intros Ha Hk. apply only_bind_any; [by apply only_call|]. intros [a'|e]; [|by apply only_ret].
  apply only_bind_any; [by apply only_call|]. intros _. apply Hk.
Qed.

Lemma settles_blocked app reason message : only (settles app) (setBlocked app reason message) (λ _, True).
Proof.
  apply only_bind_any; [by apply only_call|]. intros now. apply settles_publish; [apply settled_blocked|].
  intros; by apply only_ret.
Qed.

Lemma settles_helm app : only (settles app) (reconcileHelm r app) (λ _, True).
Proof.
  unfold reconcileHelm. destruct (ir_Engine r) as [e|] eqn:He; [|apply settles_blocked].
  pose proof (proj1 Hr e He). apply only_bind_any; [by apply only_call|]. intros now.
  apply only_bind_any; [eapply aside_settles, helm_ensure|]. intros [[]|err].
  2: { apply settles_publish; [by apply settled_ensureFailed|intros; by apply only_ret]. }
  destruct (as_Release _); [|by apply only_ret]. destruct (as_Chart _); [|by apply only_ret].
  eapply only_bind; [eapply aside_settles, helm_sync|]. intros res Hres.
  destruct (synced res) as [sn|] eqn:Hsn; [|by apply only_ret]. apply settles_publish.
  - by eapply settled_helm.
  - intros. destruct sn as [s|]; by apply only_ret.
Qed.

Lemma settles_seaweed app : only (settles app) (reconcileSeaweed r app) (λ _, True).
Proof.
  unfold reconcileSeaweed. destruct (ir_SeaweedEngine r) as [e|] eqn:He; [|apply settles_blocked].
  destruct (ir_Engine r) as [h|] eqn:Hh; [|apply settles_blocked].
  pose proof (proj1 Hr h Hh). pose proof (proj2 Hr e He).
  apply only_bind_any; [eapply aside_settles, helm_exists|]. intros [[]|err]; try apply settles_blocked.
  apply only_bind_any; [by apply only_call|]. intros now.
  apply only_bind_any; [eapply aside_settles, seaweed_ensure|]. intros [[]|err].
  2: { apply settles_publish; [by apply settled_seaweedFailed|intros; by apply only_ret]. }
  eapply only_bind; [eapply aside_settles, seaweed_sync|]. intros res Hres.
  destruct (synced res) as [sn|] eqn:Hsn; [|by apply only_ret]. apply settles_publish.
  - by eapply settled_seaweed.
  - intros a'. destruct sn as [s|]; [|by apply only_ret]. destruct (_ || _); [by apply only_ret|].
    by apply patches_settles, patches_storage.
Qed.

(** The part of [Reconcile] after the finalizer and the deletion are settled. *)
Lemma settles_live app :
  only (settles app)
    (match ValidateApplicationInstanceSpec app with
     | Err e => setBlocked app "ValidationFailed" (emsg e)
     | Ok _ =>
         if IsPlaceholder (ai_Spec app) then reconcilePlaceholder app
         else if IsSeaweedWorkload app then reconcileSeaweed r app
         else reconcileHelm r app
     end) (λ _, True).
Proof.
  destruct (ValidateApplicationInstanceSpec app); [|apply settles_blocked].
  destruct (IsPlaceholder _).
  { apply only_bind_any; [by apply only_call|]. intros now. apply settles_publish; [apply settled_placeholder|].
    intros; by apply only_ret. }
  destruct (IsSeaweedWorkload app); [apply settles_seaweed|apply settles_helm].
Qed.
End Live.

(** The instance the pass read first. *)
Definition read_by (e : event icall) : option ApplicationInstance :=
  match e with
  | Called c x =>
      match c in icall X return X → option ApplicationInstance with
      | IGetInstance _ _ => λ x, match x with Ok app => Some app | Err _ => None end
      | _ => λ _, None
      end x
  end.

Definition first_read (g : itrace) : option ApplicationInstance := head g ≫= read_by.

Lemma first_read_prefix app g g' : first_read g = Some app → g `prefix_of` g' → first_read g' = Some app.
Proof. intros Hg [k ->]. by destruct g. Qed.

(** Status writes about an instance that is not being deleted. *)
Definition live_writes : permission icall itrace := λ X c g,
  match c with
  | IUpdateInstanceStatus a =>
      ∀ app, first_read g = Some app → DeletionTimestamp (ai_Meta app) = None → settled app a
  | _ => True
  end.

Section Pass.
Context {Il : InstanceLib} {Kl : KubeLib}.

(** C9: the status a pass writes is coherent.  Whatever the server and the cluster
    answer, every status update made for an instance that is not being deleted
    leaves its metadata and spec as they were read and settles Ready; and an
    instance is only ever written Ready=True together with Blocked=False,
    Degraded=False and the generation that was read as observed. *)
Theorem instance_status_coherent (r : ApplicationInstanceReconciler) (ns name : string) :
  keeps_contracts r → wp traced live_writes (Reconcile r ns name) (λ _ _, True) [].
Proof.
  intros Hr. unfold Reconcile. apply wp_vis; [done|]. intros [app|e] g ->; [|by destruct (IsNotFound e)].
  destruct (negb _); [apply wp_vis; [done|]; by intros [] ? ?|].
  set (g0 := [] ++ [IEvent (IGetInstance ns name) (Ok app)]).
  assert (first_read g0 = Some app) as Hg0 by done.
  destruct (DeletionTimestamp (ai_Meta app)) as [t|] eqn:Hd; cbn [is_set].
  - eapply wp_mono; [done|]. apply (only_wp (λ _ _, True) _ (λ _, True) live_writes g0); [|apply only_any].
    intros X c g' _ Hg'. destruct c; try done. intros app' Happ'.
    rewrite (first_read_prefix app g0 g' Hg0 Hg') in Happ'. congruence.
  - eapply wp_mono; [done|].
    apply (only_wp (settles app) _ (λ _, True) live_writes g0); [|by apply settles_live].
    intros X c g' Hc Hg'. destruct c; try done. intros app' Happ' _.
    rewrite (first_read_prefix app g0 g' Hg0 Hg') in Happ'. injection Happ' as <-. exact Hc.
Qed.
End Pass.

(** ** Deletion *)

(** The server accepted the delete, or there was no such object. *)
Definition gone (x : result unit) : Prop := ∀ e, x = Err e → IsNotFound e = true.

Section Deletion.
Context `{JsonSyntax} {Il : InstanceLib} {Kl : KubeLib} `{OwnerLib}.

(** The last calls found no Seaweed object and, with a Helm engine, no release of
    that name either. *)
Definition seaweed_gone (helm : bool) (app : ApplicationInstance) (calls : itrace) : Prop :=
  ∃ release before e1, validateReleaseRef app = Ok release ∧ IsNotFound e1 = true ∧
    let absent := before ++ [IEvent (IGetObject "Seaweed" (releaseNamespace app) release) (Err e1)] in
    if helm then
      ∃ e2, IsNotFound e2 = true ∧
        calls = absent ++ [IEvent (IGetObject "HelmRelease" (ai_Namespace app) release) (Err e2)]
    else calls = absent.

(** The deletes of the release and of its sources were accepted, in this order. *)
Definition release_deleted (app : ApplicationInstance) (calls : itrace) : Prop :=
  ∃ release x1 x2 x3, releaseName app = Some release ∧
    calls = [IEvent (IDeleteObject "HelmRelease" (ai_Namespace app) release) x1;
             IEvent (IDeleteObject "HelmRepository" (ai_Namespace app) (chartSourceName release)) x2;
             IEvent (IDeleteObject "OCIRepository" (ai_Namespace app) (chartSourceName release)) x3] ∧
    gone x1 ∧ gone x2 ∧ gone x3.

(** The calls between the announcement and the removal of the finalizer; [helm] says
    whether a Helm engine is configured. *)
Definition uninstalled (helm : bool) (got app : ApplicationInstance) (calls : itrace) : Prop :=
  if IsPlaceholder (ai_Spec got) then calls = []
  else if IsSeaweedWorkload got then seaweed_gone helm app calls
  else if helm then release_deleted app calls else calls = [].

(** An update without the finalizer: the pass read a deleted instance, published
    Deleting=True, uninstalled the workload and lets go of the published object. *)
Definition released (helm : bool) (ns name : string) (g : itrace) (u : ApplicationInstance) : Prop :=
  ∃ got now marked app ref prev next calls,
    g = IEvent (IGetInstance ns name) (Ok got) :: IEvent INow now ::
        IEvent (IUpdateInstanceStatus marked) (Ok app) :: IEvent (IReport ref prev next) tt :: calls ∧
    DeletionTimestamp (ai_Meta got) ≠ None ∧ status marked ConditionDeleting = Some ConditionTrue ∧
    u = with_ai_meta app (RemoveFinalizer (ai_Meta app) ApplicationInstanceFinalizer) ∧
    uninstalled helm got app calls.

Definition releases_last (helm : bool) (ns name : string) : permission icall itrace := λ X c g,
  match c with
  | IUpdateInstance u => ApplicationInstanceFinalizer ∉ Finalizers (ai_Meta u) → released helm ns name g u
  | _ => True
  end.

Notation lastly helm ns name p g := (wp traced (releases_last helm ns name) p (λ _ _, True) g).

(** What precedes the uninstall. *)
Definition announced (ns name : string) (got app : ApplicationInstance) (g : itrace) : Prop :=
  ∃ now marked ref prev next,
    g = [IEvent (IGetInstance ns name) (Ok got); IEvent INow now;
         IEvent (IUpdateInstanceStatus marked) (Ok app); IEvent (IReport ref prev next) tt] ∧
    status marked ConditionDeleting = Some ConditionTrue.

Lemma lastly_remove helm ns name got app g calls :
  announced ns name got app g → DeletionTimestamp (ai_Meta got) ≠ None → uninstalled helm got app calls →
  lastly helm ns name (removeFinalizer app) (g ++ calls).
Proof.
  intros (now & marked & ref & prev & next & -> & Hm) Hd Hu.
  apply wp_vis; [|by intros [] ? ?]. intros _.
  exists got, now, marked, app, ref, prev, next, calls. by split_and!.
Qed.

Lemma lastly_mark helm ns name got reason message k :
  (∀ app g, announced ns name got app g → lastly helm ns name (k app) g) →
  lastly helm ns name (markDeleting got reason message k) [IEvent (IGetInstance ns name) (Ok got)].
Proof.
  intros Hk. apply wp_vis; [done|]. intros now g ->. unfold publishStatus.
  apply wp_vis; [done|]. intros [app|e] g ->; [|done].
  apply wp_vis; [done|]. intros [] g ->. apply Hk. do 5 eexists. split; [done|].
  read_status. done.
Qed.

(** The calls of a [deleteKinds] that succeeds. *)
Lemma deleteKinds_calls helm ns name n release kinds g :
  wp traced (releases_last helm ns name) (deleteKinds n release kinds) (λ res g', res = Ok tt → ∃ xs,
    g' = g ++ zip_with (λ kind x, IEvent (IDeleteObject kind n
                 (if bool_decide (kind = "HelmRelease") then release else chartSourceName release)) x) kinds xs ∧
    length xs = length kinds ∧ Forall gone xs) g.
Proof.
  revert g. induction kinds as [|kind kinds IH]; intros g; cbn [deleteKinds].
  { intros _. exists []. by rewrite app_nil_r. }
  apply wp_vis; [done|]. intros x g1 ->.
  assert (∀ y, gone y → wp traced (releases_last helm ns name) (deleteKinds n release kinds) (λ res g', res = Ok tt →
    ∃ xs, g' = g ++ zip_with (λ kind x, IEvent (IDeleteObject kind n
                 (if bool_decide (kind = "HelmRelease") then release else chartSourceName release)) x) (kind :: kinds) xs ∧
    length xs = length (kind :: kinds) ∧ Forall gone xs)
    (g ++ [IEvent (IDeleteObject kind n (if bool_decide (kind = "HelmRelease") then release else chartSourceName release)) y])) as Hgo.
  { intros y Hy. eapply wp_mono; [|apply IH]. intros res g2 Hg2 Hres.
    destruct (Hg2 Hres) as (xs & -> & Hl & Hxs). exists (y :: xs). split_and!; [|by f_equal/=|by constructor].
    by rewrite <-app_assoc. }
  destruct x as [[]|e]; [by apply Hgo|]. destruct (IsNotFound e) eqn:He; [|done].
  apply Hgo. by intros ? [= <-].
Qed.

(** Calls that touch no instance are permitted at any time. *)
Lemma lastly_aside {A B : Type} helm ns name (p : prog icall A) (f : A → prog icall B) Q g calls :
  only aside p Q → (∀ a more, lastly helm ns name (f a) (g ++ more)) →
  lastly helm ns name (prog_bind f p) (g ++ calls).
Proof.
  intros Hp Hf. apply wp_bind. eapply wp_mono; [|apply (only_wp aside _ Q); [|exact Hp]].
  - intros a g' [_ [more ->]]. rewrite <-app_assoc. apply Hf.
  - intros X c g' Hc _. by destruct c.
Qed.

Section Installed.
Context (r : ApplicationInstanceReconciler).
Context (Hflux : ∀ e, ir_Engine r = Some e → e = FluxEngine) (Hsw : ∀ e, ir_SeaweedEngine r = Some e → e = SeaweedEngine).

Lemma lastly_helm ns name got app g :
  announced ns name got app g → DeletionTimestamp (ai_Meta got) ≠ None →
  IsPlaceholder (ai_Spec got) = false → IsSeaweedWorkload got = false →
  lastly (is_set (ir_Engine r)) ns name (finalizeHelm r app) g.
Proof.
  intros Hg Hd Hp Hs. unfold finalizeHelm. destruct (ir_Engine r) as [e|] eqn:He.
  2: { rewrite <-(app_nil_r g). eapply lastly_remove; [done|done|]. unfold uninstalled. by rewrite Hp, Hs. }
  rewrite (Hflux e eq_refl). cbn [he_DeleteRelease FluxEngine]. apply wp_bind.
  unfold DeleteRelease. destruct (releaseName app) as [release|] eqn:Hrel; [|done].
  eapply wp_mono; [|apply deleteKinds_calls]. intros [[]|er] g' Hg'; [|done].
  destruct (Hg' eq_refl) as (xs & -> & Hl & Hxs). eapply lastly_remove; [done|done|].
  unfold uninstalled. rewrite Hp, Hs. destruct xs as [|x1 [|x2 [|x3 [|]]]]; try done.
  rewrite !Forall_cons in Hxs. exists release, x1, x2, x3. by split_and!; try apply Hxs.
Qed.

(** The tail of the Seaweed branch: both lookups, then the finalizer. *)
Lemma lastly_checks ns name got app g calls :
  announced ns name got app g → DeletionTimestamp (ai_Meta got) ≠ None →
  IsPlaceholder (ai_Spec got) = false → IsSeaweedWorkload got = true →
  lastly (is_set (ir_Engine r)) ns name
    (try* exists_ := se_SeaweedExists SeaweedEngine app catch e => failWith (after 15) e in
     match exists_ with
     | true => finish (after 15)
     | false => checkHelm r app (λ b, if b then finish (after 15) else removeFinalizer app)
     end) (g ++ calls).
Proof.
  intros Hg Hd Hp Hs. cbn [se_SeaweedExists SeaweedEngine]. apply wp_bind. unfold SeaweedExists.
  destruct (validateReleaseRef app) as [release|] eqn:Hv; [|done].
  apply wp_vis; [done|]. intros [sw|e1] g1 ->; [done|]. destruct (IsNotFound e1) eqn:He1; [|done].
  cbn [wp]. unfold checkHelm. destruct (ir_Engine r) as [e|] eqn:He.
  2: { rewrite <-app_assoc. eapply lastly_remove; [done|done|]. unfold uninstalled. rewrite Hp, Hs. by exists release, calls, e1. }
  rewrite (Hflux e eq_refl). cbn [he_ReleaseExists FluxEngine]. apply wp_bind.
  unfold ReleaseExists. assert (releaseName app = Some release ∧ release ≠ "") as [Hrel Hne].
  { unfold validateReleaseRef in Hv. destruct (releaseName app); [|done]. by case_bool_decide; simplify_eq. }
  rewrite Hrel. cbn [default]. rewrite bool_decide_eq_false_2 by done.
  apply wp_vis; [done|]. intros [hr|e2] g2 ->; [done|]. destruct (IsNotFound e2) eqn:He2; [|done].
  cbn [wp]. rewrite <-!app_assoc. eapply lastly_remove; [done|done|].
  unfold uninstalled. rewrite Hp, Hs. exists release, calls, e1. split_and!; [done..|].
  exists e2. by rewrite <-app_assoc.
Qed.

Lemma lastly_seaweed ns name got app prev g :
  announced ns name got app g → DeletionTimestamp (ai_Meta got) ≠ None →
  IsPlaceholder (ai_Spec got) = false → IsSeaweedWorkload got = true →
  lastly (is_set (ir_Engine r)) ns name (finalizeSeaweed r prev app) g.
Proof.
  intros Hg Hd Hp Hs. unfold finalizeSeaweed. destruct (ir_SeaweedEngine r) as [e|] eqn:He.
  2: { apply wp_vis; [done|]. intros now g1 _. apply wp_vis; [done|]. intros [a|er] g2 _; [|done].
       apply wp_vis; [done|]. by intros ? ? _. }
  rewrite (Hsw e eq_refl). rewrite <-(app_nil_r g).
  eapply lastly_aside; [apply (seaweed_delete (e := SeaweedEngine))|]. intros [[]|er] calls; [|done].
  pose proof (lastly_checks ns name got app g) as Hchecks. unfold checkHelm at 1.
  destruct (ir_Engine r) as [h|] eqn:Hh; [|by apply Hchecks]. rewrite (Hflux h eq_refl).
  eapply lastly_aside; [apply (helm_exists (e := FluxEngine))|]. intros [[]|er] calls2; [| |done].
  - eapply lastly_aside; [apply (helm_delete (e := FluxEngine))|]. intros [[]|er] calls3; [|done].
    by apply Hchecks.
  - by apply Hchecks.
Qed.
End Installed.
End Deletion.

(** C8: an instance keeps its finalizer until its uninstall was requested, and for a
    Seaweed workload until the object is gone.  Whatever the server answers, a pass
    writes the instance without the finalizer only when it read it as being deleted,
    after Deleting=True was published, and as the call right after the uninstall.
    For a Seaweed workload the Seaweed object was just looked up and not found, and
    then, where a Helm engine is configured, neither was a legacy release of the same
    name.  For any other workload the deletes of the HelmRelease, the HelmRepository
    and the OCIRepository were accepted or met no object; nothing waits for Helm to
    finish.  A placeholder, and a Helm workload when no Helm engine is configured,
    need no call.  Engines, where configured, are those of the repository. *)
Theorem finalizer_removed_after_uninstall `{JsonSyntax, InstanceLib, KubeLib, !KubeLaws, OwnerLib}
    (r : ApplicationInstanceReconciler) (ns name : string) :
  (∀ e, ir_Engine r = Some e → e = FluxEngine) → (∀ e, ir_SeaweedEngine r = Some e → e = SeaweedEngine) →
  wp traced (releases_last (is_set (ir_Engine r)) ns name) (Reconcile r ns name) (λ _ _, True) [].
Proof.
  intros Hflux Hsw.
  assert (keeps_contracts r) as Hr.
  { split; intros e He; [rewrite (Hflux e He)|rewrite (Hsw e He)]; apply _. }
  unfold Reconcile. apply wp_vis; [done|]. intros [app|e] g ->; [|by destruct (IsNotFound e)].
  destruct (negb _).
  { apply wp_vis; [|by intros [] ? ?]. destruct (law_add (ai_Meta app) ApplicationInstanceFinalizer)
      as (fs & -> & Hfs & _). intros Hno. by destruct Hno. }
  destruct (DeletionTimestamp (ai_Meta app)) as [t|] eqn:Hd; cbn [is_set].
  - assert (DeletionTimestamp (ai_Meta app) ≠ None) as Hne by congruence. unfold finalize.
    destruct (IsPlaceholder (ai_Spec app)) eqn:Hp; [|destruct (IsSeaweedWorkload app) eqn:Hs];
      apply lastly_mark; intros app' g Hg.
    + rewrite <-(app_nil_r g). eapply lastly_remove; [done|done|]. unfold uninstalled. by rewrite Hp.
    + by eapply lastly_seaweed.
    + by eapply lastly_helm.
  - eapply wp_mono; [done|]. eapply only_wp; [|by apply (settles_live r Hr)].
    intros X c g' Hc _. by destruct c.
Qed.

(** ** Sending credentials *)

(** The object [a] does not record [K] as reported or posted. *)
Definition unsent (a : ApplicationInstance) (K : string) : Prop :=
  annotation a reportedManagedStorageAccessKeyAnnotation ≠ K ∧ annotation a managedStoragePostedAnnotation ≠ K.

(** [a] is the instance [app] the step works on, or what the server answered when
    the step removed another claim from it. *)
Definition current (app a : ApplicationInstance) (g : itrace) : Prop :=
  a = app ∨ IEvent (IPatchInstance app (unannotate managedStorageClaimAnnotation app)) (Ok a) ∈ g.

(** A send of the key [K] for [ref]: no such event is pending, and the instance
    carries the claim of [K], or its patch has just succeeded. *)
Definition sends_claimed (app : ApplicationInstance) : permission icall itrace := λ X c g,
  match c with
  | IReportReady ref ready extras K =>
      ∃ a g0 ms, current app a g0 ∧ ref = instanceRef a ∧ unsent a K ∧ K = managedStorageReportKey ms ∧
        xs_ManagedStorage extras = Some {| msp_AccessKeyID := ms_AccessKeyID ms;
          msp_SecretAccessKey := ms_SecretAccessKey ms; msp_BucketName := ms_BucketName ms |} ∧
        let idle := IEvent (IHasPendingEvent (ManagedStorageEventKey ref ready K)) false in
        (annotation a managedStorageClaimAnnotation = K ∧ g = g0 ++ [idle]) ∨
        (∃ a', g = g0 ++ [idle; IEvent (IPatchInstance a (annotate managedStorageClaimAnnotation K a)) (Ok a')])
  | _ => True
  end.

Section Sends.
Context {Il : InstanceLib} {Kl : KubeLib} (app : ApplicationInstance).

Notation claimed p g := (wp traced (sends_claimed app) p (λ _ _, True) g).

Lemma current_prefix a g g' : current app a g → g `prefix_of` g' → current app a g'.
Proof. intros [->|Hin] [k ->]; [by left|right]. apply elem_of_app. by left. Qed.

Lemma acks_claimed {A B : Type} (p : prog icall A) (f : A → prog icall B) Q g :
  only acks_only p Q → (∀ a g', g `prefix_of` g' → claimed (f a) g') → claimed (prog_bind f p) g.
Proof.
  intros Hp Hf. apply wp_bind. eapply wp_mono; [|apply (only_wp acks_only _ Q); [|exact Hp]].
  - intros a g' [_ Hg]. by apply Hf.
  - intros X c g' Hc _. by destruct c.
Qed.

Lemma claimed_deliver a ms ready g :
  let K := managedStorageReportKey ms in
  current app a g →
  claimed (deliverStorage a ms ready (instanceRef a) K (ManagedStorageEventKey (instanceRef a) ready K)) g.
Proof.
  intros K Hcur. unfold deliverStorage. apply wp_vis; [done|]. intros [] g1 ->; [done|]. case_bool_decide as Hpo.
  { eapply acks_claimed; [|by intros [] ?]. apply (only_bind_any acks_only); [by apply only_call|].
    intros _. apply acks_ackAttempts. }
  assert (∀ a0 b g2, claimed (if (b : bool) then let* _ := markStorageInFlight (ai_Namespace a) (ai_Name a) K in
      finish noResult else try* _ := clearManagedStorageClaim a0 catch _e => finish (after 30) in finish noResult) g2) as Hend.
  { intros a0 [] g2; [by apply wp_vis|]. eapply (acks_claimed _ _ (λ _, True)); [|by intros [] ?].
    unfold clearManagedStorageClaim. case_bool_decide; [by apply only_ret|by apply only_call]. }
  unfold claimManagedStorageDelivery. case_bool_decide as Hre; [done|]. case_bool_decide as Hcl.
  - rewrite bool_decide_eq_true_2 by done. apply wp_vis; [|intros; apply Hend].
    exists a, g, ms. split_and!; try done. by left.
  - apply wp_vis; [done|]. intros [a'|e] g2 ->; [|by destruct (IsApiConflict e)].
    apply wp_vis; [|intros; apply Hend]. exists a, g, ms. split_and!; try done. right. exists a'.
    by rewrite <-app_assoc.
Qed.

Lemma current_snoc a g e : current app a g → current app a (g ++ [e]).
Proof. intros Hc. eapply current_prefix; [done|by apply prefix_app_r]. Qed.

Lemma claimed_track a ms ready g :
  current app a g → claimed (trackDelivery a ms ready (managedStorageReportKey ms)) g.
Proof.
  assert (∀ g1, current app a g1 → claimed (checkInFlight a ms ready (instanceRef a) (managedStorageReportKey ms)
    (ManagedStorageEventKey (instanceRef a) ready (managedStorageReportKey ms))) g1) as Hcheck.
  { intros g1 Hg1. unfold checkInFlight. apply wp_vis; [done|].
    intros [key|] g2 ->; [|by apply claimed_deliver, current_snoc].
    case_bool_decide; [apply wp_vis; [done|]; intros ? ? ->; by apply claimed_deliver, current_snoc, current_snoc|].
    apply wp_vis; [done|]. intros [] g3 ->; [done|]. apply wp_vis; [done|]. intros po g4 ->.
    case_bool_decide; [done|]. apply wp_vis; [done|]; intros ? ? ->. by apply claimed_deliver; repeat apply current_snoc. }
  intros Hcur. unfold trackDelivery. apply wp_vis; [done|]. intros [key|] g1 ->; [|by apply Hcheck, current_snoc].
  case_bool_decide; [apply wp_vis; [done|]; intros ? ? ->; by apply Hcheck, current_snoc, current_snoc|].
  eapply acks_claimed; [apply acks_ackAttempts|]. by intros [] ?.
Qed.

(** C7: credentials are sent only under a claim.  Whatever the server, the
    reporter and the other threads answer, the managed-storage step for an instance
    enqueues credentials only for that instance (as it was given, or as the server
    returned it when another claim was removed from it), only when the report key is
    the one computed from the credentials, when the reporter has just said that no
    such event is buffered, when the instance records the key neither as reported nor
    as posted, and when the instance carries the claim of this key, or the patch that
    puts the claim on it succeeded as the very last call. *)
Theorem credentials_sent_under_claim (engine : SeaweedEngineOps) :
  SeaweedContract engine →
  wp traced (sends_claimed app) (reconcileSeaweedManagedStorage engine app) (λ _ _, True) [].
Proof.
  intros Hc. unfold reconcileSeaweedManagedStorage. destruct (negb _); [done|].
  eapply (acks_claimed _ _ (λ _, True)); [unfold reportSeaweedEndpointsIfNeeded; patches|]. intros _ g1 _.
  eapply acks_claimed; [eapply (only_mono aside), seaweed_resolve; [intros X c; by destruct c|done]|].
  intros [st|e] g2 _; [|done]. destruct (rs_snapshot st) as [ms|].
  2: { destruct (rs_pending st); [done|]. destruct (rs_failed st); [|done]. eapply wp_mono; [done|].
       apply (only_wp acks_only _ (λ _, True)); [|unfold reportManagedStorageFailed; patches]. intros X c g' Hx _. by destruct c. }
  destruct (Conditions.Get _ _) as [ready|]; [|done]. apply wp_vis; [done|]. intros now g3 _.
  case_bool_decide; [by apply wp_vis|]. case_bool_decide as Hcl; [|apply claimed_track; by left].
  unfold clearManagedStorageClaim. rewrite bool_decide_eq_false_2 by tauto.
  apply wp_vis; [done|]. intros [app'|e] g4 ->; [|done]. apply claimed_track. right.
  apply elem_of_app. right. by apply list_elem_of_singleton.
Qed.
End Sends.

(** ** Runs *)

#[local] Existing Instances reference_instance_lib plain_syntax reference_owner reference_lib.

(** A cluster with one instance, one ready S3Credentials and its Secret. *)
Definition cluster_of (app : ApplicationInstance) : ∀ X, icall X → X := λ X c,
  match c in icall X return X with
  | INow => 0%Z
  | ISleep _ => tt
  | IGetInstance _ _ => Ok app
  | IListInstances _ => Ok [app]
  | IUpdateInstance a => Ok a
  | IUpdateInstanceStatus a => Ok a
  | IPatchInstance _ a => Ok a
  | IGetObject _ _ _ => Err (mkErr "not found" KNotFound)
  | IListObjects kind ns =>
      Ok [{| u_Kind := kind; u_Meta := meta_of ns "creds";
             u_Object := [("spec", JObj [("seaweedRef", JObj [("name", JStr "store")])]);
                          ("status", JObj [("phase", JStr "Ready"); ("secretName", JStr "keys")])] |}]
  | IDeleteObject _ _ _ => Ok tt
  | IFetchOrNew kind ns name => Ok {| u_Kind := kind; u_Meta := meta_of ns name; u_Object := [] |}
  | IWriteBack _ => Ok tt
  | IGetSecret ns name =>
      Ok {| sec_Meta := meta_of ns name;
            sec_Data := <["accessKey" := "AK"]> {[ "secretKey" := "SK" ]}; sec_Type := "" |}
  | IGetConfigMap _ _ => Ok ∅
  | IGetService _ _ => Ok tt
  | IAtomic f => (f {| sm_InFlight := ∅; sm_Posting := ∅; sm_AckPending := ∅ |}).1
  | IHasPendingEvent _ => false
  | IReport _ _ _ => tt
  | IReportEndpoints _ _ _ _ => true
  | IReportReady _ _ _ _ => true
  | IReportAudit _ _ _ _ => tt
  end.

Definition calls_of {A : Type} (app : ApplicationInstance) (p : prog icall A) : itrace :=
  (run (trace_handler (cluster_of app)) p []).2.

Definition writes_status (e : event icall) : bool :=
  match e with Called c _ => match c with IUpdateInstanceStatus _ => true | _ => false end end.
Definition drops_finalizer (e : event icall) : bool :=
  match e with
  | Called c _ => match c with
                  | IUpdateInstance u => bool_decide (ApplicationInstanceFinalizer ∉ Finalizers (ai_Meta u))
                  | _ => false
                  end
  end.
Definition sends_key (e : event icall) : bool :=
  match e with Called c _ => match c with IReportReady _ _ _ _ => true | _ => false end end.

(** The pass writes one status. *)
Lemma instance_status_coherent_witness :
  length (filter (λ e, writes_status e = true)
    (calls_of (seaweed_instance [ApplicationInstanceFinalizer] None) (Reconcile installed "a" "store"))) = 1%nat ∧
  wp traced live_writes (Reconcile installed "a" "store") (λ _ _, True) [].
Proof. split; [by vm_compute|]. apply instance_status_coherent, installed_contracts. Defined.

(** The pass over a deleted instance ends with the finalizer removed. *)
Lemma finalizer_removed_after_uninstall_witness :
  drops_finalizer <$> last
    (calls_of (seaweed_instance [ApplicationInstanceFinalizer] (Some 5%Z)) (Reconcile installed "a" "store"))
    = Some true ∧
  wp traced (releases_last true "a" "store") (Reconcile installed "a" "store") (λ _ _, True) [].
Proof.
  split; [by vm_compute|]. apply (finalizer_removed_after_uninstall installed); by intros e [= <-].
Defined.

Definition ready_instance : ApplicationInstance :=
  put 0 (seaweed_instance [ApplicationInstanceFinalizer] None) ConditionReady ConditionTrue "SeaweedReady" "".

(** The step sends the credentials of the Secret. *)
Lemma credentials_sent_under_claim_witness :
  length (filter (λ e, sends_key e = true)
    (calls_of ready_instance (reconcileSeaweedManagedStorage SeaweedEngine ready_instance))) = 1%nat ∧
  wp traced (sends_claimed ready_instance) (reconcileSeaweedManagedStorage SeaweedEngine ready_instance) (λ _ _, True) [].
Proof. split; [by vm_compute|]. apply credentials_sent_under_claim. apply _. Defined.
