(* ===== verification/Delivery.v ===== *)
(** * Controller and event batcher together

    The passes of the ApplicationInstance controller put events into the batcher's
    buffer and ask it what is pending; the batcher's flusher calls the controller
    back before and after it posts (internal/agent/events.go, [Flush]; the callbacks
    are wired in cmd/main.go).  [cstep] is that whole loop: the instances of
    [InstanceProofs] with the buffer of [Events] in the place of an environment that
    answers anything.  [creachable_refines] maps its runs to runs of either part, so
    the theorems of both hold of the composition. *)

From stdpp Require Import base list strings pretty gmap sets relations.
From S2P Require Import Prelude Traces GoStrings Api Conditions Events EventsProofs Reporter Json Kube Crypto.
From S2P Require Import HttpClient Credentials InstanceValidation InstanceEngines InstanceReconciler InstanceProofs.
From S2P Require Import InstanceLifecycle.

#[local] Opaque TrimSpace sha256.

(** ** What a call puts into the buffer *)

Definition readyEvent (now : Z) (ref : AppliedRef) (ready : Condition) (extras : EventExtras) (key : string) : Event :=
  with_extras (with_key (ConditionTransitionEvent now ref [ready]) key) extras.

Definition auditEvent (now : Z) (ref : AppliedRef) (kind : string) (cs : list Condition) (key : string) : Event :=
  {| ev_EventKey := key; ev_Kind := kind; ev_ResourceRef := ref; ev_Conditions := cs; ev_Endpoints := [];
     ev_ManagedStorage := None; ev_Timestamp := Some now |}.

Definition reported_events (now : Z) {X : Type} (c : icall X) : list Event :=
  match c with
  | IReport ref prev next => transitionEvent now ref None <$> changedConditions prev next
  | IReportEndpoints ref ready eps key =>
      if bool_decide (eps = []) then []
      else [readyEvent now ref ready {| xs_Endpoints := eps; xs_ManagedStorage := None |} (EndpointsEventKey ref key)]
  | IReportReady ref ready extras key => [readyEvent now ref ready extras (ManagedStorageEventKey ref ready key)]
  | IReportAudit ref kind cs key =>
      [auditEvent now ref kind cs
        (if bool_decide (key ≠ "") then key
         else match cs with c :: _ => kind +:+ "/" +:+ ar_UID ref +:+ "/" +:+ c_Type c | [] => "" end)]
  | _ => []
  end.

(** [Enqueue], with the history of [bstep_enqueue]. *)
Definition enqueue (now : Z) (s : bsys) (e : Event) : bsys :=
  {| bs_buf := Enqueue now (bs_buf s) e; bs_inflight := bs_inflight s;
     bs_accepted := bs_accepted s ++ [stamp now e]; bs_delivered := bs_delivered s;
     bs_dropped := bs_dropped s ++ enqueue_drops (bs_buf s); bs_discarded := bs_discarded s |}.
Definition enqueue_all (now : Z) (es : list Event) (s : bsys) : bsys := foldl (enqueue now) s es.

Lemma enqueue_all_buf now es s : bs_buf (enqueue_all now es s) = foldl (Enqueue now) (bs_buf s) es.
Proof. revert s. induction es as [|e es IH]; intros s; simpl; [done|]. by rewrite IH. Qed.

(** The reporter leaves exactly that buffer behind. *)
Lemma reporter_buffer now s :
  (∀ ref prev next, ReportConditionTransitions now (Some (bs_buf s)) ref prev next None =
     Some (bs_buf (enqueue_all now (reported_events now (IReport ref prev next)) s))) ∧
  (∀ ref ready eps key, (ReportSeaweedEndpoints now (Some (bs_buf s)) ref ready eps key).2 =
     Some (bs_buf (enqueue_all now (reported_events now (IReportEndpoints ref ready eps key)) s))) ∧
  (∀ ref ready extras key, ReportManagedStorageReady now (Some (bs_buf s)) ref ready extras key =
     (true, Some (bs_buf (enqueue_all now (reported_events now (IReportReady ref ready extras key)) s)))) ∧
  (∀ ref kind cs key, ReportAuditWithEventKey now (Some (bs_buf s)) ref kind cs key =
     Some (bs_buf (enqueue_all now (reported_events now (IReportAudit ref kind cs key)) s))).
Proof.
  split_and!; intros; try done.
  - unfold reported_events. rewrite enqueue_all_buf. simpl. f_equal.
    generalize (bs_buf s). induction (changedConditions prev next) as [|c cs IH]; intros b; simpl; [done|].
    by rewrite IH.
  - unfold ReportSeaweedEndpoints, reported_events. by case_bool_decide.
Qed.

(** ** Keys of events *)

Lemma managedStorageReportKey_slash_free ms : slash_free (managedStorageReportKey ms) = true.
Proof.
  apply hex_encode_no_byte; [exact slash_not_hex|]. apply Forall_take, sha256_digest.
Qed.

(** Whatever the names, the recogniser finds no other report key. *)
Lemma storage_key_exact ref ready key K :
  slash_free key = true →
  ManagedStorageReportKeyFromEventKey (ManagedStorageEventKey ref ready key) = Some K → K = key.
Proof.
  intros Hf. unfold ManagedStorageReportKeyFromEventKey. destruct (HasPrefix _ _); [|done].
  case_bool_decide as Hl; [|done]. intros HK.
  assert (∃ p, ManagedStorageEventKey ref ready key = p +:+ String slash key) as [p Hp].
  { unfold ManagedStorageEventKey. exists (managedStorageEventKeyPrefix +:+ ar_Namespace ref +:+ "/" +:+
      ar_Name ref +:+ "/" +:+ c_Type ready +:+ "/" +:+ c_Status ready).
    by rewrite !app_String_assoc, slash_app. }
  rewrite Hp in Hl, HK. pose proof (Split_last p slash key Hf) as Hlast.
  rewrite last_lookup, Hl in Hlast. simpl in Hlast. congruence.
Qed.

(** The other families of keys. *)
Lemma condition_event_keys now ref c : event_keys (transitionEvent now ref None c) = [].
Proof.
  unfold event_keys, transitionEvent. cbn [ev_EventKey with_key].
  assert (ManagedStorageReportKeyFromEventKey (ConditionEventKey ref c) = None) as ->; [|done].
  apply report_keys_prefix_clash, HasPrefix_app.
Qed.

Lemma endpoints_event_keys now ref ready extras key :
  event_keys (readyEvent now ref ready extras (EndpointsEventKey ref key)) = [].
Proof. done. Qed.

(** An event that carries the credentials its key was computed from. *)
Definition genuine (e : Event) : Prop :=
  ∀ k K, (k, K) ∈ event_keys e →
    ∃ ms, ev_ManagedStorage e = Some (payload ms) ∧ K = managedStorageReportKey ms.

Lemma genuine_stamp now e : genuine e → genuine (stamp now e).
Proof. unfold stamp. by destruct (ev_Timestamp e). Qed.

Lemma genuine_nil e : event_keys e = [] → genuine e.
Proof. intros He k K. rewrite He. by intros ?%elem_of_nil. Qed.

Lemma audit_event_keys now ref kind cs key :
  HasPrefix key "ManagedStorageFailed/" = true → event_keys (auditEvent now ref kind cs key) = [].
Proof.
  unfold event_keys. cbn [ev_EventKey auditEvent]. destruct key as [|a k]; [done|].
  unfold ManagedStorageReportKeyFromEventKey, HasPrefix, managedStorageEventKeyPrefix. cbn [String.prefix].
  destruct (Ascii.ascii_dec _ a) as [<-|]; [|done]. done.
Qed.

Lemma genuine_reported now X (c : icall X) : genuine_call X c → Forall genuine (reported_events now c).
Proof.
  intros Hc. destruct c; cbn [reported_events]; try (by apply Forall_nil_2); cbn in Hc.
  - apply Forall_fmap, Forall_true. intros c. apply genuine_nil, condition_event_keys.
  - case_bool_decide; repeat constructor. apply genuine_nil, endpoints_event_keys.
  - destruct Hc as (ms & Hms & ->). apply Forall_singleton. intros k K Hin. exists ms. split; [done|].
    unfold event_keys in Hin. cbn [readyEvent ev_EventKey with_key with_extras] in Hin.
    destruct (ManagedStorageReportKeyFromEventKey _) as [K'|] eqn:HK; [|by apply elem_of_nil in Hin].
    apply list_elem_of_singleton in Hin as [= _ ->].
    by eapply storage_key_exact; [apply managedStorageReportKey_slash_free|].
  - rewrite bool_decide_eq_true_2 by (by intros ->). by apply Forall_singleton, genuine_nil, audit_event_keys.
Qed.

(** ** Passes and callbacks report only genuine credentials *)

Lemma silent_genuine {A : Type} (p : prog icall A) Q : only silent p Q → only genuine_call p Q.
Proof. apply only_mono; [|done]. intros X c. by destruct c. Qed.

Lemma aside_genuine {A : Type} (p : prog icall A) Q : only aside p Q → only genuine_call p Q.
Proof. apply only_mono; [|done]. intros X c. by destruct c. Qed.

Lemma settles_genuine {A : Type} (p : prog icall A) Q app : only (settles app) p Q → only genuine_call p Q.
Proof. apply only_mono; [|done]. intros X c. by destruct c. Qed.

Section Genuine.
Context {Il : InstanceLib} {Kl : KubeLib}.
Context (r : ApplicationInstanceReconciler) (Hr : keeps_contracts r).

Lemma genuine_mark app reason message k :
  (∀ a, only genuine_call (k a) (λ _, True)) → only genuine_call (markDeleting app reason message k) (λ _, True).
Proof.
  intros Hk. apply only_bind_any; [by apply only_call|]. intros now.
  apply only_bind_any; [by apply only_call|]. intros [a|e]; [|by apply only_ret].
  apply only_bind_any; [by apply only_call|]. intros _. apply Hk.
Qed.

Lemma genuine_remove app : only genuine_call (removeFinalizer app) (λ _, True).
Proof. unfold removeFinalizer; patches. Qed.

Lemma genuine_checkHelm app k :
  (∀ b, only genuine_call (k b) (λ _, True)) → only genuine_call (checkHelm r app k) (λ _, True).
Proof.
  intros Hk. unfold checkHelm. destruct (ir_Engine r) as [h|] eqn:Hh; [|apply Hk].
  pose proof (proj1 Hr h Hh). apply only_bind_any; [apply aside_genuine, helm_exists|].
  intros [b|e]; [apply Hk|by apply only_ret].
Qed.

Lemma genuine_finalize app : only genuine_call (finalize r app) (λ _, True).
Proof.
  unfold finalize. destruct (IsPlaceholder _); [apply genuine_mark, genuine_remove|].
  destruct (IsSeaweedWorkload app); apply genuine_mark; intros a.
  - unfold finalizeSeaweed. destruct (ir_SeaweedEngine r) as [e|] eqn:He; [|unfold publishStatus, done_; patches].
    pose proof (proj2 Hr e He). apply only_bind_any; [apply aside_genuine, seaweed_delete|].
    intros [[]|er]; [|by apply only_ret].
    match goal with |- only _ (checkHelm _ _ (λ b, match b with true => match _ with Some _ => _ | None => ?rest end
      | false => _ end)) _ => assert (only genuine_call rest (λ _, True)) as Hrest end.
    { apply only_bind_any; [apply aside_genuine, seaweed_exists|]. intros [[]|er]; try by apply only_ret.
      apply genuine_checkHelm. intros []; [by apply only_ret|apply genuine_remove]. }
    apply genuine_checkHelm. intros []; [|done]. destruct (ir_Engine r) as [h|] eqn:Hh; [|done].
    pose proof (proj1 Hr h Hh). apply only_bind_any; [apply aside_genuine, helm_delete|].
    intros [[]|er]; [done|by apply only_ret].
  - unfold finalizeHelm. destruct (ir_Engine r) as [h|] eqn:Hh; [|apply genuine_remove].
    pose proof (proj1 Hr h Hh). apply only_bind_any; [apply aside_genuine, helm_delete|].
    intros [[]|er]; [apply genuine_remove|by apply only_ret].
Qed.

Lemma genuine_Reconcile ns name : only genuine_call (Reconcile r ns name) (λ _, True).
Proof.
  unfold Reconcile. apply only_bind_any; [by apply only_call|].
  intros [app|e]; [|destruct (IsNotFound e); by apply only_ret].
  destruct (negb _); [patches|]. destruct (is_set _); [apply genuine_finalize|].
  eapply settles_genuine, settles_live. exact Hr.
Qed.

Lemma genuine_forStorageEvents act events :
  (∀ ns name key, only genuine_call (act ns name key) (λ _, True)) →
  only genuine_call (forStorageEvents act events) (λ _, True).
Proof.
  intros Ha. induction events as [|e events IH]; cbn [forStorageEvents]; [by apply only_ret|].
  apply only_bind_any; [destruct (ManagedStorageReportKeyFromEventKey _); [done|by apply only_ret]|by intros _].
Qed.

Lemma genuine_prepare events : only genuine_call (PrepareManagedStoragePost events) (λ _, True).
Proof. apply genuine_forStorageEvents. intros. unfold markStoragePosting; patches. Qed.

Lemma genuine_abort events : only genuine_call (AbortManagedStoragePost events) (λ _, True).
Proof. apply genuine_forStorageEvents. intros. unfold clearStoragePosting; patches. Qed.

Lemma genuine_ack events : only genuine_call (AckManagedStorageDelivered events) (λ _, True).
Proof.
  induction events as [|e events IH]; cbn [AckManagedStorageDelivered]; [by apply only_ret|].
  apply only_bind_any; [|by intros _]. unfold ackDelivered. case_bool_decide.
  { unfold patchManagedStorageFailedPosted; patches. }
  destruct (EndpointsReportKeyFromEventKey _); [patches|].
  destruct (ManagedStorageReportKeyFromEventKey _) as [K|]; [|by apply only_ret].
  apply only_bind_any; [patches|]. intros _. apply only_bind_any; [patches|]. intros _.
  apply only_bind_any; [unfold clearStoragePosting; patches|]. intros _.
  apply only_bind_any; [unfold patchManagedStoragePosted; patches|]. intros [[]|er]; [|patches].
  apply only_bind_any; [apply silent_genuine, silent_ackAttempts|]. intros; patches.
Qed.
End Genuine.

(** ** The composed system *)

(** Where the flusher is in [Flush]; a callback in progress is a program. *)
Inductive flushing :=
| Idle
| Preparing (batch : list Event) (p : thread) (** [OnBeforePostEvents], then [PostEvents] *)
| Acking (batch : list Event) (p : thread)    (** posted: [OnEventsDelivered] *)
| Aborting (batch : list Event) (p : thread). (** not posted: [OnEventsPostFailed], then [requeue] *)

Record csys := {
  c_world : world;
  c_bus : bsys;
  c_flusher : flushing;
  c_threads : list thread
}.

(** A call against the instances, the maps and the buffer. *)
Definition ccall (now : Z) (w : world) (s : bsys) {X : Type} (c : icall X) (x : X) (w' : world) (s' : bsys) : Prop :=
  api_step w c x w' ∧ s' = enqueue_all now (reported_events now c) s ∧
  match c in icall X return X → Prop with
  | IHasPendingEvent key => λ x, x = HasPendingEvent (Some (bs_buf s)) key
  | IReportEndpoints ref ready eps key => λ x, x = (ReportSeaweedEndpoints now (Some (bs_buf s)) ref ready eps key).1
  | IReportReady ref ready extras key => λ x, x = (ReportManagedStorageReady now (Some (bs_buf s)) ref ready extras key).1
  | _ => λ _, True
  end x.

Definition with_buffer (s : bsys) (b : EventBatcher) (inflight : option (list Event)) : bsys :=
  {| bs_buf := b; bs_inflight := inflight; bs_accepted := bs_accepted s; bs_delivered := bs_delivered s;
     bs_dropped := bs_dropped s; bs_discarded := bs_discarded s |}.

(** The program of a callback, and the phase with the program replaced. *)
Definition callback (f : flushing) : option thread :=
  match f with Idle => None | Preparing _ p | Acking _ p | Aborting _ p => Some p end.
Definition resume (f : flushing) (p : thread) : flushing :=
  match f with
  | Idle => Idle
  | Preparing batch _ => Preparing batch p
  | Acking batch _ => Acking batch p
  | Aborting batch _ => Aborting batch p
  end.

Inductive cstep {Il : InstanceLib} {Kl : KubeLib} (r : ApplicationInstanceReconciler) : csys → csys → Prop :=
| c_call now w s f ts1 ts2 X (c : icall X) k x w' s' :
    ccall now w s c x w' s' →
    cstep r {| c_world := w; c_bus := s; c_flusher := f; c_threads := ts1 ++ Vis c k :: ts2 |}
            {| c_world := w'; c_bus := s'; c_flusher := f; c_threads := ts1 ++ k x :: ts2 |}
| c_return w s f ts1 ts2 :
    cstep r {| c_world := w; c_bus := s; c_flusher := f; c_threads := ts1 ++ Ret tt :: ts2 |}
            {| c_world := w; c_bus := s; c_flusher := f; c_threads := ts1 ++ ts2 |}
| c_reconcile w s f ts ns name :
    cstep r {| c_world := w; c_bus := s; c_flusher := f; c_threads := ts |}
            {| c_world := w; c_bus := s; c_flusher := f;
               c_threads := (let* _ := Reconcile r ns name in Ret tt) :: ts |}
| c_edit w s f ts app :
    edits w app →
    cstep r {| c_world := w; c_bus := s; c_flusher := f; c_threads := ts |}
            {| c_world := store w app; c_bus := s; c_flusher := f; c_threads := ts |}
| c_delete w s f ts key :
    cstep r {| c_world := w; c_bus := s; c_flusher := f; c_threads := ts |}
            {| c_world := {| w_instances := delete key (w_instances w); w_history := w_history w;
                             w_memory := w_memory w; w_delivered := w_delivered w |};
               c_bus := s; c_flusher := f; c_threads := ts |}
(** another controller reports: its events have keys of another family *)
| c_other now e w s f ts :
    event_keys e = [] →
    cstep r {| c_world := w; c_bus := s; c_flusher := f; c_threads := ts |}
            {| c_world := w; c_bus := enqueue now s e; c_flusher := f; c_threads := ts |}
(** the runtime sets or clears the client *)
| c_client b w s f ts :
    cstep r {| c_world := w; c_bus := s; c_flusher := f; c_threads := ts |}
            {| c_world := w; c_bus := with_buffer s (with_client (bs_buf s) b) (bs_inflight s);
               c_flusher := f; c_threads := ts |}
(** [Flush] *)
| c_take w s ts batch b :
    flushTake (bs_buf s) = (Some batch, b) → eb_Client b = true →
    cstep r {| c_world := w; c_bus := s; c_flusher := Idle; c_threads := ts |}
            {| c_world := w; c_bus := with_buffer s b (Some batch);
               c_flusher := Preparing batch (PrepareManagedStoragePost batch); c_threads := ts |}
| c_take_no_client w s ts batch b :
    flushTake (bs_buf s) = (Some batch, b) → eb_Client b = false →
    cstep r {| c_world := w; c_bus := s; c_flusher := Idle; c_threads := ts |}
            {| c_world := w;
               c_bus := {| bs_buf := b; bs_inflight := None; bs_accepted := bs_accepted s;
                           bs_delivered := bs_delivered s; bs_dropped := bs_dropped s;
                           bs_discarded := bs_discarded s ++ batch |};
               c_flusher := Idle; c_threads := ts |}
| c_callback now w s f ts X (c : icall X) k x w' s' :
    callback f = Some (Vis c k) → ccall now w s c x w' s' →
    cstep r {| c_world := w; c_bus := s; c_flusher := f; c_threads := ts |}
            {| c_world := w'; c_bus := s'; c_flusher := resume f (k x); c_threads := ts |}
| c_posted w s ts batch :
    cstep r {| c_world := w; c_bus := s; c_flusher := Preparing batch (Ret tt); c_threads := ts |}
            {| c_world := deliver w batch; c_bus := s;
               c_flusher := Acking batch (AckManagedStorageDelivered batch); c_threads := ts |}
| c_post_failed w s ts batch :
    cstep r {| c_world := w; c_bus := s; c_flusher := Preparing batch (Ret tt); c_threads := ts |}
            {| c_world := w; c_bus := s;
               c_flusher := Aborting batch (AbortManagedStoragePost batch); c_threads := ts |}
| c_acked w s ts batch :
    cstep r {| c_world := w; c_bus := s; c_flusher := Acking batch (Ret tt); c_threads := ts |}
            {| c_world := w;
               c_bus := {| bs_buf := flushDelivered (bs_buf s); bs_inflight := None;
                           bs_accepted := bs_accepted s; bs_delivered := bs_delivered s ++ batch;
                           bs_dropped := bs_dropped s; bs_discarded := bs_discarded s |};
               c_flusher := Idle; c_threads := ts |}
| c_aborted w s ts batch :
    cstep r {| c_world := w; c_bus := s; c_flusher := Aborting batch (Ret tt); c_threads := ts |}
            {| c_world := w;
               c_bus := {| bs_buf := requeue (bs_buf s) batch; bs_inflight := None;
                           bs_accepted := bs_accepted s; bs_delivered := bs_delivered s;
                           bs_dropped := bs_dropped s ++ requeue_drops (bs_buf s) batch;
                           bs_discarded := bs_discarded s |};
               c_flusher := Idle; c_threads := ts |}.

(** As cmd/main.go sets it up: no instance read yet, a batcher without a client. *)
Definition cstart : csys :=
  {| c_world := start.1; c_bus := binit false; c_flusher := Idle; c_threads := [] |}.

(** ** Refinement *)

(** The batch the flusher works on. *)
Definition flusher_batch (f : flushing) : option (list Event) :=
  match f with Idle => None | Preparing batch _ | Acking batch _ | Aborting batch _ => Some batch end.

(** The controller's view: a callback is one more thread. *)
Definition controller_view (s : csys) : system :=
  (c_world s, option_list (callback (c_flusher s)) ++ c_threads s).

Definition flusher_ok (s : csys) : Prop := bs_inflight (c_bus s) = flusher_batch (c_flusher s).

Lemma enqueue_all_steps now es s : rtc bstep s (enqueue_all now es s).
Proof.
  revert s. induction es as [|e es IH]; intros s; simpl; [done|].
  eapply rtc_l; [|apply IH]. apply bstep_enqueue.
Qed.

Lemma enqueue_all_inflight now es s : bs_inflight (enqueue_all now es s) = bs_inflight s.
Proof. revert s. induction es as [|e es IH]; intros s; simpl; [done|]. by rewrite IH. Qed.

Section Refinement.
Context {Il : InstanceLib} {Kl : KubeLib} (r : ApplicationInstanceReconciler).

Lemma cstep_bus s s' :
  cstep r s s' → flusher_ok s → rtc bstep (c_bus s) (c_bus s') ∧ flusher_ok s'.
Proof.
  intros Hs Hf. unfold flusher_ok in *.
  destruct Hs as [now w s f ts1 ts2 X c k x w' s' (_ & -> & _)| | | | | | |w s ts batch b Ht Hc|
    w s ts batch b Ht Hc|now w s f ts X c k x w' s' Hcb (_ & -> & _)| | | | ];
    cbn [c_bus c_flusher flusher_batch] in *; try (split; [done|done]).
  - split; [apply enqueue_all_steps|by rewrite enqueue_all_inflight].
  - split; [apply rtc_once, bstep_enqueue|done].
  - split; [apply rtc_once, bstep_set_client|done].
  - split; [|done]. by apply rtc_once, bstep_take.
  - split; [|done]. by apply rtc_once, bstep_take_no_client.
  - split; [apply enqueue_all_steps|rewrite enqueue_all_inflight, Hf]. by destruct f.
  - split; [|done]. by apply rtc_once, bstep_posted.
  - split; [|done]. by apply rtc_once, bstep_post_failed.
Qed.

Lemma cstep_controller s s' :
  cstep r s s' → rtc (sys_step r) (controller_view s) (controller_view s').
Proof.
  intros Hs. unfold controller_view.
  destruct Hs as [now w s f ts1 ts2 X c k x w' s' (Ha & _)|w s f ts1 ts2|w s f ts ns name|w s f ts app He|
    w s f ts key|now e w s f ts He|b w s f ts|w s ts batch b Ht Hc|w s ts batch b Ht Hc|
    now w s f ts X c k x w' s' Hcb (Ha & _)|w s ts batch|w s ts batch|w s ts batch|w s ts batch];
    cbn [c_world c_flusher c_threads callback option_list Datatypes.app] in *; try done.
  - rewrite !app_assoc. by apply rtc_once, s_call.
  - rewrite !app_assoc. by apply rtc_once, s_return.
  - apply rtc_once, s_reconcile.
  - by apply rtc_once, s_edit.
  - by apply rtc_once, s_delete.
  - apply rtc_once, s_prepare.
  - rewrite Hcb. assert (callback (resume f (k x)) = Some (k x)) as -> by by destruct f.
    by apply rtc_once, (s_call r w X c k [] ts).
  - eapply rtc_l; [apply (s_return r w [] ts)|]. apply rtc_once, s_accept.
  - eapply rtc_l; [apply (s_return r w [] ts)|]. apply rtc_once, s_abort.
  - apply rtc_once, (s_return r w [] ts).
  - apply rtc_once, (s_return r w [] ts).
Qed.
End Refinement.

(** ** What is recorded was delivered *)

(** The events the control plane has accepted. *)
Definition delivered_events (s : csys) : list Event :=
  bs_delivered (c_bus s) ++ match c_flusher s with Acking batch _ => batch | _ => [] end.

Definition genuine_thread (t : thread) : Prop := only genuine_call t (λ _, True).

Record cinv (s : csys) : Prop := {
  ci_flusher : flusher_ok s;
  ci_delivered : ∀ kK, kK ∈ w_delivered (c_world s) ↔ ∃ e, e ∈ delivered_events s ∧ kK ∈ event_keys e;
  ci_genuine : Forall genuine (bs_accepted (c_bus s));
  ci_threads : Forall genuine_thread (controller_view s).2
}.

Lemma genuine_vis X (c : icall X) k :
  genuine_thread (Vis c k) → genuine_call X c ∧ ∀ x, genuine_thread (k x).
Proof.
  intros Ht. split; [apply (Ht [])|]. intros x g.
  assert (∀ g', wp traced (λ X c _, genuine_call X c) (k x) (λ _ _, True) g' →
    wp traced (λ X c _, genuine_call X c) (k x) (λ _ _, True) g) as Hany.
  { intros g'. generalize (k x). intros p. revert g g'. clear.
    induction p as [a|X c k IH]; intros g g'; simpl; [done|]. intros [Hc Hk]. split; [done|].
    intros y g1 ->. eapply IH, Hk. done. }
  apply (Hany ([] ++ [Called c x])). apply (proj2 (Ht []) x). done.
Qed.

Lemma api_step_delivered w X (c : icall X) x w' : api_step w c x w' → w_delivered w' = w_delivered w.
Proof. destruct c; cbn; naive_solver. Qed.

Lemma enqueue_all_history now es s :
  bs_accepted (enqueue_all now es s) = bs_accepted s ++ (stamp now <$> es) ∧
  bs_delivered (enqueue_all now es s) = bs_delivered s.
Proof.
  revert s. induction es as [|e es IH]; intros s; simpl; [by rewrite app_nil_r|].
  change (foldl (enqueue now) (enqueue now s e) es) with (enqueue_all now es (enqueue now s e)).
  destruct (IH (enqueue now s e)) as [-> ->]. split; [|done]. cbn [bs_accepted enqueue]. by rewrite <-app_assoc.
Qed.

Lemma genuine_enqueue_all now X (c : icall X) s :
  genuine_call X c → Forall genuine (bs_accepted s) →
  Forall genuine (bs_accepted (enqueue_all now (reported_events now c) s)).
Proof.
  intros Hc Hs. destruct (enqueue_all_history now (reported_events now c) s) as [-> _].
  apply Forall_app_2; [done|]. apply Forall_fmap. eapply Forall_impl; [by apply genuine_reported|].
  intros e. apply genuine_stamp.
Qed.

Section Invariant.
Context {Il : InstanceLib} {Kl : KubeLib} (r : ApplicationInstanceReconciler) (Hr : keeps_contracts r).

Lemma genuine_pass ns name : genuine_thread (let* _ := Reconcile r ns name in Ret tt).
Proof. apply only_bind_any; [by apply genuine_Reconcile|]. intros _. by apply only_ret. Qed.

Lemma cstep_threads s s' :
  cstep r s s' → cinv s →
  Forall genuine (bs_accepted (c_bus s')) ∧ Forall genuine_thread (controller_view s').2.
Proof.
  intros Hs [_ _ Hg Ht]. unfold controller_view in *.
  destruct Hs as [now w s f ts1 ts2 X c k x w' s' (Ha & -> & _)|w s f ts1 ts2|w s f ts ns name|w s f ts app He|
    w s f ts key|now e w s f ts He|b w s f ts|w s ts batch b Htk Hc|w s ts batch b Htk Hc|
    now w s f ts X c k x w' s' Hcb (Ha & -> & _)|w s ts batch|w s ts batch|w s ts batch|w s ts batch];
    cbn [c_bus c_flusher c_threads callback option_list Datatypes.app snd bs_accepted with_buffer] in *;
    try (split; [done|done]).
  - apply Forall_app in Ht as [Hf Ht]. apply Forall_app in Ht as [Ht1 [Hv Ht2]%Forall_cons].
    apply genuine_vis in Hv as [Hc Hk]. split; [by apply genuine_enqueue_all|].
    apply Forall_app_2, Forall_app_2; [done..|]. by constructor.
  - apply Forall_app in Ht as [Hf Ht]. apply Forall_app in Ht as [Ht1 [_ Ht2]%Forall_cons].
    split; [done|]. by apply Forall_app_2, Forall_app_2.
  - apply Forall_app in Ht as [Hf Ht]. split; [done|]. apply Forall_app_2; [done|]. constructor; [apply genuine_pass|done].
  - split; [|done]. apply Forall_app_2; [done|]. by apply Forall_singleton, genuine_stamp, genuine_nil.
  - split; [done|]. constructor; [apply genuine_prepare|done].
  - apply Forall_app in Ht as [Hf Ht]. rewrite Hcb in Hf. apply Forall_singleton, genuine_vis in Hf as [Hc Hk].
    split; [by apply genuine_enqueue_all|]. apply Forall_app_2; [|done].
    destruct f; cbn; try done; by apply Forall_singleton.
  - apply Forall_cons in Ht as [_ Ht]. split; [done|]. constructor; [apply genuine_ack|done].
  - apply Forall_cons in Ht as [_ Ht]. split; [done|]. constructor; [apply genuine_abort|done].
  - by apply Forall_cons in Ht as [_ Ht].
  - by apply Forall_cons in Ht as [_ Ht].
Qed.

Lemma cstep_delivered s s' :
  cstep r s s' → cinv s →
  ∀ kK, kK ∈ w_delivered (c_world s') ↔ ∃ e, e ∈ delivered_events s' ∧ kK ∈ event_keys e.
Proof.
  intros Hs [_ Hd _ _] kK. specialize (Hd kK). unfold delivered_events in *.
  destruct Hs as [now w s f ts1 ts2 X c k x w' s' (Ha & -> & _)|w s f ts1 ts2|w s f ts ns name|w s f ts app He|
    w s f ts key|now e w s f ts He|b w s f ts|w s ts batch b Htk Hc|w s ts batch b Htk Hc|
    now w s f ts X c k x w' s' Hcb (Ha & -> & _)|w s ts batch|w s ts batch|w s ts batch|w s ts batch];
    cbn [c_world c_bus c_flusher bs_delivered with_buffer enqueue w_delivered store deliver] in *; try done;
    rewrite ?app_nil_r in *; try done.
  - rewrite (api_step_delivered _ _ _ _ _ Ha). by destruct (enqueue_all_history now (reported_events now c) s) as [_ ->].
  - rewrite (api_step_delivered _ _ _ _ _ Ha). destruct (enqueue_all_history now (reported_events now c) s) as [_ ->].
    by destruct f.
  - rewrite elem_of_union, elem_of_list_to_set, list_elem_of_bind, Hd. setoid_rewrite elem_of_app. naive_solver.
Qed.

Lemma cstep_inv s s' : cstep r s s' → cinv s → cinv s'.
Proof.
  intros Hs Hi. destruct (cstep_threads s s' Hs Hi) as [Hg Ht]. split; [|by eapply cstep_delivered|done..].
  by eapply cstep_bus; [|apply Hi].
Qed.

Lemma cstart_inv : cinv cstart.
Proof. split; try done; try by constructor. intros kK. split; [by intros ?%elem_of_empty|by intros (e & ?%elem_of_nil & _)]. Qed.

Lemma creachable_inv s : rtc (cstep r) cstart s → cinv s.
Proof. apply (rtc_ind_r (λ s, cinv s) cstart); [apply cstart_inv|]. intros s1 s2 _ Hs. by apply cstep_inv. Qed.

Lemma creachable_refines s :
  rtc (cstep r) cstart s → rtc (sys_step r) start (controller_view s) ∧ breachable false (c_bus s).
Proof.
  intros Hs. cut (flusher_ok s ∧ rtc (sys_step r) start (controller_view s) ∧ breachable false (c_bus s)).
  { by intros (_ & Hc & Hb). }
  revert s Hs. apply (rtc_ind_r (λ s, flusher_ok s ∧ rtc (sys_step r) start (controller_view s) ∧
    breachable false (c_bus s)) cstart); [split_and!; [done|apply rtc_refl..]|].
  intros s1 s2 _ Hs (Hf & Hc & Hb). destruct (cstep_bus r s1 s2 Hs Hf) as [Hb' Hf'].
  split_and!; [done|etrans; [exact Hc|by apply cstep_controller]|by unfold breachable; etrans; [exact Hb|]].
Qed.
End Invariant.


(** C5: credentials recorded as reported have arrived.  In every reachable state of
    the controller, the batcher and its callbacks together, for every instance
    that carries a report key as reported (or as posted) there is an event that
    was enqueued and that the control plane accepted, for that instance, and it
    carries the very credentials the key was computed from.  Users edit instances at
    any moment, except for the annotations in which the operator records deliveries. *)
Theorem reported_credentials_arrived `{InstanceLib} `{KubeLib} `{!KubeLaws}
    (r : ApplicationInstanceReconciler) (s : csys) (key : string * string) (app : ApplicationInstance) (K : string) :
  keeps_contracts r → rtc (cstep r) cstart s →
  w_instances (c_world s) !! key = Some app → K ≠ "" →
  annotation app reportedManagedStorageAccessKeyAnnotation = K ∨
    annotation app managedStoragePostedAnnotation = K →
  ∃ e ms, e ∈ delivered_events s ∧ e ∈ bs_accepted (c_bus s) ∧
    storageDeliveryKey (ar_Namespace (ev_ResourceRef e)) (ar_Name (ev_ResourceRef e)) =
      storageDeliveryKey (ai_Namespace app) (ai_Name app) ∧
    ev_ManagedStorage e = Some (payload ms) ∧ K = managedStorageReportKey ms.
Proof.
  intros Hr Hs Happ HK Hann. destruct (creachable_inv r Hr s Hs) as [Hf Hd Hg _].
  destruct (creachable_refines r s Hs) as [Hc Hb].
  destruct (reachable_ok r Hr _ Hc) as [(Hi & _ & _) _]. destruct (Hi key app Happ) as [_ Hok].
  apply (Hok K HK), Hd in Hann as (e & He & Hk).
  assert (e ∈ bs_accepted (c_bus s)) as Hacc.
  { destruct (breachable_inv _ _ Hb) as [_ _ _ _ Hp]. rewrite Hp. unfold flusher_ok in Hf. unfold delivered_events in He.
    rewrite Hf. destruct (c_flusher s); simpl in *; set_solver. }
  rewrite Forall_forall in Hg. destruct (Hg e Hacc _ _ Hk) as (ms & Hms & HKms).
  exists e, ms. split_and!; try done. unfold event_keys in Hk.
  destruct (ManagedStorageReportKeyFromEventKey _); [|by apply elem_of_nil in Hk].
  apply list_elem_of_singleton in Hk. unfold dkey in Hk. congruence.
Qed.
