(* ===== verification/DeliveryProofs.v ===== *)
(** * Delivery of managed storage, run to its end

    A cooperative environment for the composed system of [Delivery]: the server
    answers with the newest version and accepts every write, the control plane
    accepts every batch.  Credentials that are due are then delivered, acknowledged
    and forgotten in one pass and one flush.  Without cooperation the event can be
    enqueued twice. *)

From stdpp Require Import base list strings pretty gmap sets relations.
From S2P Require Import Prelude Traces GoStrings Api Conditions Events EventsProofs Reporter Json Kube Crypto.
From S2P Require Import HttpClient Credentials InstanceValidation InstanceEngines InstanceReconciler InstanceProofs.
From S2P Require Import InstanceLifecycle Delivery.
From Stdlib Require Import Lia.

#[local] Opaque TrimSpace sha256.

(** ** The cooperative environment *)

Notation bench := (world * bsys)%type.

(** Calls on the instances and the maps go to [server], reports to the buffer, the
    rest of the cluster answers as [h] says. *)
Definition attended (h : ∀ X, icall X → X) (now : Z) : handler icall bench := λ X c '(w, s),
  match c in icall X return X * bench with
  | IGetInstance ns name => let '(x, w) := server _ (IGetInstance ns name) w in (x, (w, s))
  | IUpdateInstance a => let '(x, w) := server _ (IUpdateInstance a) w in (x, (w, s))
  | IUpdateInstanceStatus a => let '(x, w) := server _ (IUpdateInstanceStatus a) w in (x, (w, s))
  | IPatchInstance base a => let '(x, w) := server _ (IPatchInstance base a) w in (x, (w, s))
  | IAtomic f => let '(x, w) := server _ (IAtomic f) w in (x, (w, s))
  | IHasPendingEvent key => (HasPendingEvent (Some (bs_buf s)) key, (w, s))
  | IReport ref prev next => (tt, (w, enqueue_all now (reported_events now (IReport ref prev next)) s))
  | IReportEndpoints ref ready eps key =>
      ((ReportSeaweedEndpoints now (Some (bs_buf s)) ref ready eps key).1,
       (w, enqueue_all now (reported_events now (IReportEndpoints ref ready eps key)) s))
  | IReportReady ref ready extras key =>
      ((ReportManagedStorageReady now (Some (bs_buf s)) ref ready extras key).1,
       (w, enqueue_all now (reported_events now (IReportReady ref ready extras key)) s))
  | IReportAudit ref kind cs key =>
      (tt, (w, enqueue_all now (reported_events now (IReportAudit ref kind cs key)) s))
  | c => (h _ c, (w, s))
  end.

Lemma attended_ccall h now w s X (c : icall X) :
  let '(x, (w', s')) := attended h now X c (w, s) in ccall now w s c x w' s'.
Proof.
  unfold ccall. pose proof (server_step w X c) as Hs.
  destruct c; cbn [attended] in *; try (split_and!; done);
    destruct (server _ _ w) as [x w'] eqn:Hx; split_and!; done.
Qed.

(** A thread that runs alone. *)
Lemma attended_run `{InstanceLib} `{KubeLib} r h now (p : thread) w s f ts :
  rtc (cstep r) {| c_world := w; c_bus := s; c_flusher := f; c_threads := p :: ts |}
    {| c_world := (run (attended h now) p (w, s)).2.1; c_bus := (run (attended h now) p (w, s)).2.2;
       c_flusher := f; c_threads := ts |}.
Proof.
  revert w s. induction p as [[]|X c k IH]; intros w s.
  - apply rtc_once. apply (c_return r w s f [] ts).
  - pose proof (attended_ccall h now w s X c) as Hc. cbn [run].
    destruct (attended h now X c (w, s)) as [x [w' s']].
    eapply rtc_l; [by apply (c_call r now w s f [] ts X c k x w' s')|]. apply IH.
Qed.

(** A callback that runs alone. *)
Lemma attended_callback `{InstanceLib} `{KubeLib} r h now (p : thread) w s f ts :
  callback f = Some p →
  rtc (cstep r) {| c_world := w; c_bus := s; c_flusher := f; c_threads := ts |}
    {| c_world := (run (attended h now) p (w, s)).2.1; c_bus := (run (attended h now) p (w, s)).2.2;
       c_flusher := resume f (Ret tt); c_threads := ts |}.
Proof.
  revert w s f. induction p as [[]|X c k IH]; intros w s f Hf.
  - by destruct f; simplify_eq/=.
  - pose proof (attended_ccall h now w s X c) as Hc. cbn [run].
    destruct (attended h now X c (w, s)) as [x [w' s']].
    eapply rtc_l; [by apply (c_callback r now w s f ts X c k x w' s')|].
    replace (resume f (Ret tt)) with (resume (resume f (k x)) (Ret tt)) by by destruct f.
    apply IH. by destruct f.
Qed.

(** [Flush] with an accepting control plane. *)
Definition flush_round `{InstanceLib} (h : ∀ X, icall X → X) (now : Z) '((w, s) : bench) : bench :=
  match flushTake (bs_buf s) with
  | (Some batch, b) =>
      if eb_Client b then
        let '(w, s) := (run (attended h now) (PrepareManagedStoragePost batch) (w, with_buffer s b (Some batch))).2 in
        let '(w, s) := (run (attended h now) (AckManagedStorageDelivered batch) (deliver w batch, s)).2 in
        (w, {| bs_buf := flushDelivered (bs_buf s); bs_inflight := None; bs_accepted := bs_accepted s;
               bs_delivered := bs_delivered s ++ batch; bs_dropped := bs_dropped s;
               bs_discarded := bs_discarded s |})
      else (w, {| bs_buf := b; bs_inflight := None; bs_accepted := bs_accepted s;
                  bs_delivered := bs_delivered s; bs_dropped := bs_dropped s;
                  bs_discarded := bs_discarded s ++ batch |})
  | (None, _) => (w, s)
  end.

Lemma flush_round_steps `{InstanceLib} `{KubeLib} r h now w s ts :
  rtc (cstep r) {| c_world := w; c_bus := s; c_flusher := Idle; c_threads := ts |}
    {| c_world := (flush_round h now (w, s)).1; c_bus := (flush_round h now (w, s)).2;
       c_flusher := Idle; c_threads := ts |}.
Proof.
  unfold flush_round. destruct (flushTake (bs_buf s)) as [[batch|] b] eqn:Ht; [|done].
  destruct (eb_Client b) eqn:Hc; [|by apply rtc_once, c_take_no_client].
  eapply rtc_l; [by apply c_take|].
  pose proof (attended_callback r h now (PrepareManagedStoragePost batch) w (with_buffer s b (Some batch))
    (Preparing batch (PrepareManagedStoragePost batch)) ts eq_refl) as Hp.
  destruct (run _ (PrepareManagedStoragePost batch) _) as [u [w1 s1]]. cbn [fst snd resume] in *.
  etrans; [exact Hp|]. eapply rtc_l; [apply c_posted|].
  pose proof (attended_callback r h now (AckManagedStorageDelivered batch) (deliver w1 batch) s1
    (Acking batch (AckManagedStorageDelivered batch)) ts eq_refl) as Ha.
  destruct (run _ (AckManagedStorageDelivered batch) _) as [u' [w2 s2]]. cbn [fst snd resume] in *.
  etrans; [exact Ha|]. apply rtc_once, c_acked.
Qed.

(** ** One instance in that environment *)

(** [app] is what the server stores and what reads answer. *)
Definition newest (w : world) (app : ApplicationInstance) : Prop :=
  stored w app = Some app ∧
  head (filter (λ a, ai_Namespace a = ai_Namespace app ∧ ai_Name a = ai_Name app) (w_history w)) = Some app.

Definition with_memory (w : world) (m : StorageMemory) : world :=
  {| w_instances := w_instances w; w_history := w_history w; w_memory := m; w_delivered := w_delivered w |}.

Lemma newest_store w app : newest (store w app) app.
Proof.
  split; [apply lookup_insert_eq|]. cbn [w_history store]. by rewrite filter_cons_True.
Qed.

Lemma merge_patch_self (b a : gmap string string) : merge_patch b a b = a.
Proof. apply map_eq. intros k. rewrite lookup_merge_patch. by case_bool_decide. Qed.

Section Attended.
Context (h : ∀ X, icall X → X) (now : Z).

Notation attend p Q g := (wp (serves (attended h now)) anything p Q g).

Lemma attend_get {A : Type} w s app (f : result ApplicationInstance → prog icall A) Q ns name :
  newest w app → ns = ai_Namespace app → name = ai_Name app →
  attend (f (Ok app)) Q (w, s) → attend (prog_bind f (call (IGetInstance ns name))) Q (w, s).
Proof.
  intros [_ Hh] -> -> Hk. eapply wp_serves; [|exact Hk]. cbn [attended server].
  destruct (filter _ (w_history w)) as [|a l]; [done|]. by injection Hh as ->.
Qed.

(** A patch of the newest version stores the patched object. *)
Lemma attend_patch {A : Type} w s app x (f : result ApplicationInstance → prog icall A) Q :
  newest w app → ai_Namespace x = ai_Namespace app → ai_Name x = ai_Name app →
  attend (f (Ok x)) Q (store w x, s) → attend (prog_bind f (call (IPatchInstance app x))) Q (w, s).
Proof.
  intros [Hs _] Hns Hn Hk. eapply wp_serves; [|exact Hk]. cbn [attended server].
  assert (stored w x = Some app) as -> by (unfold stored in *; by rewrite Hns, Hn).
  rewrite merge_patch_self. by destruct x as [[] ? ?].
Qed.

Lemma attend_atomic {A B : Type} w s (sec : StorageMemory → A * StorageMemory) (f : A → prog icall B) Q :
  attend (f (sec (w_memory w)).1) Q (with_memory w (sec (w_memory w)).2, s) →
  attend (prog_bind f (atomically sec)) Q (w, s).
Proof. intros Hk. by eapply wp_serves; [|exact Hk]. Qed.

(** Nothing is on its way for the instance. *)
Definition untracked (m : StorageMemory) (k : string) : Prop :=
  sm_InFlight m !! k = None ∧ sm_AckPending m !! k = None.

(** The pass claims the key and puts the event into the buffer. *)
Lemma attend_track w s app ms ready :
  let K := managedStorageReportKey ms in
  let extras := {| xs_Endpoints := agentEndpointsFromStatus (ast_Endpoints (ai_Status app));
                   xs_ManagedStorage := Some (payload ms) |} in
  let key := ManagedStorageEventKey (instanceRef app) ready K in
  newest w app → untracked (w_memory w) (dkey app) → unsent app K →
  annotation app managedStorageClaimAnnotation ≠ K → HasPendingEvent (Some (bs_buf s)) key = false →
  attend (trackDelivery app ms ready K)
    (λ _ g, newest g.1 (annotate managedStorageClaimAnnotation K app) ∧
            w_delivered g.1 = w_delivered w ∧
            g.2 = enqueue now s (readyEvent now (instanceRef app) ready extras key)) (w, s).
Proof.
  intros K extras key Hw [Hi Ha] [Hre Hpo] Hcl Hpend. unfold dkey in Hi, Ha. unfold trackDelivery.
  apply attend_atomic. cbn [fst snd]. rewrite Ha. unfold checkInFlight.
  apply attend_atomic. cbn [fst snd w_memory with_memory]. rewrite Hi. unfold deliverStorage.
  eapply wp_serves; [reflexivity|]. change (ManagedStorageEventKey _ ready K) with key. rewrite Hpend.
  rewrite bool_decide_eq_false_2 by done. unfold claimManagedStorageDelivery.
  rewrite !bool_decide_eq_false_2 by done.
  apply (attend_patch _ s app); [done..|]. cbn [prog_bind].
  eapply wp_serves; [reflexivity|]. cbn [fst ReportManagedStorageReady].
  apply attend_atomic. cbn [wp finish fst snd]. split_and!; try done. apply newest_store.
Qed.

Lemma attend_setOnce {A : Type} w s app k v (f : result unit → prog icall A) Q ns name :
  newest w app → ns = ai_Namespace app → name = ai_Name app → annotation app k ≠ v →
  attend (f (Ok tt)) Q (store w (annotate k v app), s) → attend (prog_bind f (setOnce ns name k v)) Q (w, s).
Proof.
  intros Hw -> -> Hv Hk. apply wp_bind. unfold setOnce, patchAnnotations. apply (attend_get w s app); [done..|].
  rewrite bool_decide_eq_false_2 by done. by apply (attend_patch w s app).
Qed.

(** The callback records the delivery and forgets the key. *)
Lemma attend_ackDelivered {Il : InstanceLib} w s app e K :
  newest w app → unsent app K → ev_Kind e ≠ "ManagedStorageFailed" →
  EndpointsReportKeyFromEventKey (ev_EventKey e) = None →
  ManagedStorageReportKeyFromEventKey (ev_EventKey e) = Some K →
  ar_Namespace (ev_ResourceRef e) = ai_Namespace app → ar_Name (ev_ResourceRef e) = ai_Name app →
  attend (ackDelivered e)
    (λ _ g, newest g.1 (acknowledged K (annotate managedStoragePostedAnnotation K app)) ∧
            w_delivered g.1 = w_delivered w ∧ untracked (w_memory g.1) (dkey app) ∧
            sm_Posting (w_memory g.1) !! dkey app = None ∧ g.2 = s) (w, s).
Proof.
  intros Hw [Hre Hpo] Hkind Hep HK Hns Hn. unfold ackDelivered.
  rewrite bool_decide_eq_false_2, Hep, HK, Hns, Hn by done.
  apply attend_atomic, attend_atomic, attend_atomic. cbn [fst snd w_memory with_memory].
  eapply attend_setOnce; [exact Hw|done..|]. set (x := annotate managedStoragePostedAnnotation K app).
  apply wp_bind. unfold patchManagedStorageAck. cbn [ackAttempts]. rewrite (bool_decide_eq_false_2 (0 < 0)%Z) by lia. cbn [prog_bind].
  apply (attend_get _ s x); [apply newest_store|done..|].
  rewrite bool_decide_eq_false_2.
  2: { unfold x. rewrite annotation_annotate. by case_bool_decide. }
  apply (attend_patch _ s x); [apply newest_store|done..|].
  apply attend_atomic. cbn [wp orRetry fst snd]. split_and!; try done; try apply newest_store;
    [split|]; apply lookup_delete_eq.
Qed.
End Attended.

(** ** From the pass to the acknowledgement *)

Lemma Get_type cs t c : Conditions.Get cs t = Some c → c_Type c = t.
Proof.
  induction cs as [|d cs IH]; cbn [Conditions.Get]; [done|]. case_bool_decide; [|done]. by intros [= <-].
Qed.

Lemma IsTrue_Get cs t :
  Conditions.IsTrue cs t = true → ∃ c, Conditions.Get cs t = Some c ∧ c_Type c = t ∧ c_Status c = ConditionTrue.
Proof.
  induction cs as [|d cs IH]; cbn [Conditions.IsTrue Conditions.Get]; [done|].
  case_bool_decide; [|done]. intros Hs%bool_decide_eq_true. by exists d.
Qed.

Lemma enqueue_fits now s e :
  (Z.of_nat (length (eb_events (bs_buf s))) < effMaxBuffer (bs_buf s))%Z → ev_Timestamp e ≠ None →
  eb_events (bs_buf (enqueue now s e)) = eb_events (bs_buf s) ++ [e] ∧
  eb_Client (bs_buf (enqueue now s e)) = eb_Client (bs_buf s) ∧
  same_config (bs_buf s) (bs_buf (enqueue now s e)).
Proof.
  intros Hs Ht. cbn [bs_buf enqueue]. split_and!; [|unfold Enqueue, recordOverflowLocked; by repeat case_bool_decide|apply Enqueue_config].
  rewrite Enqueue_events. replace (Z.to_nat _) with 0%nat by lia. unfold stamp. by destruct (ev_Timestamp e).
Qed.

Lemma flushTake_all b es :
  eb_events b = es → es ≠ [] → (Z.of_nat (length es) ≤ effMaxBatch b)%Z → flushTake b = (Some es, with_events b []).
Proof.
  intros He Hne Hl. unfold flushTake. rewrite He. destruct es as [|e es]; [done|].
  replace (Z.to_nat _) with (length (e :: es)) by lia.
  by rewrite take_ge, drop_ge.
Qed.

Lemma seaweedEndpointsReportKey_slash_free eps : slash_free (seaweedEndpointsReportKey eps) = true.
Proof. apply hex_encode_no_byte; [exact slash_not_hex|]. apply Forall_take, sha256_digest. Qed.

(** The key of an endpoints event is recognised as such, and not the key of a storage
    event. *)
Lemma endpoints_key_recognised ref key :
  slash_free (ar_Namespace ref) = true → slash_free (ar_Name ref) = true → slash_free key = true →
  EndpointsReportKeyFromEventKey (EndpointsEventKey ref key) = Some key ∧
  ManagedStorageReportKeyFromEventKey (EndpointsEventKey ref key) = None ∧
  ∀ ready K, EndpointsEventKey ref key ≠ ManagedStorageEventKey ref ready K.
Proof.
  intros H1 H2 H3.
  set (c := {| c_Type := ConditionReady; c_Status := ConditionTrue; c_Reason := ""; c_Message := ""; c_LastTransitionTime := 0 |}).
  destruct (event_key_roundtrip ref c c key H1 H2 eq_refl eq_refl H3) as (_ & He & Hm & _). split_and!; [done..|].
  intros ready K Heq. pose proof (f_equal (λ k, EndpointsReportKeyFromEventKey k) Heq) as Hk. cbn beta in Hk.
  rewrite He in Hk. unfold EndpointsReportKeyFromEventKey, ManagedStorageEventKey in Hk. by vm_compute in Hk.
Qed.

Section Completion.
Context {Il : InstanceLib} {Kl : KubeLib} (h : ∀ X, icall X → X) (now : Z).
Context (engine : SeaweedEngineOps) (app : ApplicationInstance) (ms : ManagedStorageSnapshot) (st : StorageState).

(** The engine finds the credentials [ms] for the instance. *)
Context (Hres : ∀ a g, ai_Spec a = ai_Spec app → ai_Namespace a = ai_Namespace app →
  run (attended h now) (se_ResolveManagedStorageState engine a) g = (Ok st, g)) (Hms : rs_snapshot st = Some ms).
Context (Hready : Conditions.IsTrue (ai_Conditions app) ConditionReady = true).

Notation K := (managedStorageReportKey ms).
Notation attend p Q g := (wp (serves (attended h now)) anything p Q g).

(** The endpoints of the status, and whether they are still to be reported. *)
Notation eps := (agentEndpointsFromStatus (ast_Endpoints (ai_Status app))).
Notation EK := (seaweedEndpointsReportKey eps).
Definition endpoints_due (a : ApplicationInstance) : bool :=
  negb (bool_decide (length eps = 0%nat)) && negb (bool_decide (annotation a reportedSeaweedEndpointsAnnotation = EK)).

Definition endpointsEvent (a : ApplicationInstance) (c : Condition) : Event :=
  readyEvent now (instanceRef a) c {| xs_Endpoints := eps; xs_ManagedStorage := None |} (EndpointsEventKey (instanceRef a) EK).

(** What the step puts into the buffer first. *)
Definition endpointsFirst (a : ApplicationInstance) (c : Condition) : list Event :=
  if endpoints_due a then [endpointsEvent a c] else [].

(** The start of the managed-storage step, for any version of the instance. *)
Lemma attend_storage a w s Q :
  ai_Spec a = ai_Spec app → ai_Namespace a = ai_Namespace app → ai_Status a = ai_Status app →
  annotation a seaweedEndpointsAckRetryAnnotation = "" → eb_events (bs_buf s) = [] →
  (∀ c ready, c_Type ready = ConditionReady → c_Status ready = ConditionTrue →
    attend (if bool_decide (annotation a reportedManagedStorageAccessKeyAnnotation = K)
            then let* _ := clearStorageDeliveryState (ai_Namespace a) (ai_Name a) in finish noResult
            else if bool_decide (annotation a managedStorageClaimAnnotation ≠ "" ∧
                                 annotation a managedStorageClaimAnnotation ≠ K)
            then try* a := clearManagedStorageClaim a catch _e => finish (after 30) in trackDelivery a ms ready K
            else trackDelivery a ms ready K) Q (w, enqueue_all now (endpointsFirst a c) s)) →
  attend (reconcileSeaweedManagedStorage engine a) Q (w, s).
Proof using Hres Hms Hready.
  intros Hspec Hns Hst Hretry Hev Hk. unfold reconcileSeaweedManagedStorage, ai_Conditions. rewrite Hst.
  change (ast_Conditions (ai_Status app)) with (ai_Conditions app). rewrite Hready. cbn [negb].
  destruct (IsTrue_Get _ _ Hready) as (c & Hc & Ht & Hs). rewrite Hc.
  assert (Hrest : attend (try* state := se_ResolveManagedStorageState engine a catch _e => finish (after 30) in
    match rs_snapshot state with
    | None => if rs_pending state then finish (after 30)
              else if rs_failed state then reportManagedStorageFailed a else finish noResult
    | Some ms => let* now := call INow in
        let ready := managedReady now c in
        let reportKey := managedStorageReportKey ms in
        if bool_decide (annotation a reportedManagedStorageAccessKeyAnnotation = reportKey) then
          let* _ := clearStorageDeliveryState (ai_Namespace a) (ai_Name a) in finish noResult
        else
          let claim := annotation a managedStorageClaimAnnotation in
          if bool_decide (claim ≠ "" ∧ claim ≠ reportKey) then
            try* a := clearManagedStorageClaim a catch _e => finish (after 30) in trackDelivery a ms ready reportKey
          else trackDelivery a ms ready reportKey
    end) Q (w, enqueue_all now (endpointsFirst a c) s)).
  { apply wp_bind, run_serves. rewrite Hres by done. cbn [fst snd]. rewrite Hms.
    eapply wp_serves; [reflexivity|]. by apply (Hk c). }
  clear Hk. apply wp_bind. unfold reportSeaweedEndpointsIfNeeded, endpointsFirst, endpoints_due in *. rewrite Hst.
  destruct (bool_decide (length eps = 0%nat)) eqn:He; cbn [negb andb] in Hrest; [exact Hrest|].
  destruct (bool_decide (annotation a reportedSeaweedEndpointsAnnotation = EK)); cbn [negb] in Hrest; [exact Hrest|].
  rewrite Hretry, bool_decide_eq_false_2 by tauto. unfold ai_Conditions. rewrite Hst.
  change (ast_Conditions (ai_Status app)) with (ai_Conditions app). rewrite Hc, bool_decide_eq_false_2 by tauto.
  eapply wp_serves; [reflexivity|].
  assert (HasPendingEvent (Some (bs_buf s)) (EndpointsEventKey (instanceRef a) EK) = false) as ->.
  { unfold HasPendingEvent, HasEventKey. rewrite Hev. by repeat case_bool_decide. }
  eapply wp_serves; [reflexivity|]. cbn [reported_events]. apply bool_decide_eq_false in He.
  rewrite bool_decide_eq_false_2 by (intros Hn; by rewrite Hn in He). exact Hrest.
Qed.

(** The endpoints event in an empty buffer. *)
Lemma first_enqueued s c :
  eb_events (bs_buf s) = [] → (1 ≤ effMaxBuffer (bs_buf s))%Z →
  let s1 := enqueue_all now (endpointsFirst app c) s in
  eb_events (bs_buf s1) = endpointsFirst app c ∧ eb_Client (bs_buf s1) = eb_Client (bs_buf s) ∧
  effMaxBuffer (bs_buf s1) = effMaxBuffer (bs_buf s) ∧ effMaxBatch (bs_buf s1) = effMaxBatch (bs_buf s).
Proof.
  intros Hev Hb. unfold endpointsFirst. destruct (endpoints_due app); [|done]. cbn [enqueue_all foldl].
  destruct (enqueue_fits now s (endpointsEvent app c)) as (H1 & H2 & H3); [rewrite Hev; simpl; lia|done|].
  rewrite Hev in H1. split_and!; [done..| |]; apply (eff_config _ _ H3).
Qed.

Lemma first_not_storage s c ready :
  eb_events (bs_buf s) = [] → (1 ≤ effMaxBuffer (bs_buf s))%Z →
  slash_free (ai_Namespace app) = true → slash_free (ai_Name app) = true →
  HasPendingEvent (Some (bs_buf (enqueue_all now (endpointsFirst app c) s)))
    (ManagedStorageEventKey (instanceRef app) ready K) = false.
Proof.
  intros Hev Hb H1 H2. destruct (first_enqueued s c Hev Hb) as (He & _).
  unfold HasPendingEvent, HasEventKey. rewrite He. case_bool_decide; [done|].
  destruct (endpoints_key_recognised (instanceRef app) EK H1 H2 (seaweedEndpointsReportKey_slash_free _)) as (_ & _ & Hne).
  unfold endpointsFirst. destruct (endpoints_due app); cbn; [|done].
  rewrite bool_decide_eq_false_2; [done|]. apply Hne.
Qed.

(** The version the callback leaves when it has recorded the endpoints. *)
Definition endpointsRecorded (a : ApplicationInstance) : ApplicationInstance :=
  if endpoints_due a then annotate reportedSeaweedEndpointsAnnotation EK a else a.

(** The flush of a buffer that holds the endpoints, if they are due, and one storage
    event for the newest version. *)
Lemma attend_flush a c w s e :
  newest w a → unsent a K → eb_Client (bs_buf s) = true → (2 ≤ effMaxBatch (bs_buf s))%Z →
  eb_events (bs_buf s) = endpointsFirst a c ++ [e] →
  slash_free (ai_Namespace a) = true → slash_free (ai_Name a) = true →
  ev_Kind e ≠ "ManagedStorageFailed" → EndpointsReportKeyFromEventKey (ev_EventKey e) = None →
  ManagedStorageReportKeyFromEventKey (ev_EventKey e) = Some K →
  ar_Namespace (ev_ResourceRef e) = ai_Namespace a → ar_Name (ev_ResourceRef e) = ai_Name a →
  let '(w', s') := flush_round h now (w, s) in
  newest w' (acknowledged K (annotate managedStoragePostedAnnotation K (endpointsRecorded a))) ∧
  untracked (w_memory w') (dkey a) ∧ eb_events (bs_buf s') = [] ∧ (dkey a, K) ∈ w_delivered w' ∧
  bs_delivered s' = bs_delivered s ++ endpointsFirst a c ++ [e].
Proof.
  intros Hw Hun Hcl Hbatch Hev Hs1 Hs2 Hkind Hep HK Hns Hn. unfold flush_round.
  destruct (endpoints_key_recognised (instanceRef a) EK Hs1 Hs2 (seaweedEndpointsReportKey_slash_free _)) as (Hee & Hem & _).
  rewrite (flushTake_all _ _ Hev) by (unfold endpointsFirst; destruct (endpoints_due a); simpl; done || lia).
  cbn [eb_Client with_events]. rewrite Hcl. set (s0 := with_buffer s _ _). set (batch := endpointsFirst a c ++ [e]) in *.
  assert (attend (PrepareManagedStoragePost batch) (λ _ g, newest g.1 a ∧ g.2 = s0) (w, s0)) as Hprep.
  { unfold batch, endpointsFirst. destruct (endpoints_due a); cbn [Datatypes.app PrepareManagedStoragePost forStorageEvents].
    - change (ev_EventKey (endpointsEvent a c)) with (EndpointsEventKey (instanceRef a) EK).
      rewrite Hem. cbn [prog_bind]. rewrite HK. apply attend_atomic. by split.
    - rewrite HK. apply attend_atomic. by split. }
  apply run_serves in Hprep. destruct (run _ (PrepareManagedStoragePost batch) _) as [u [w1 s1]].
  cbn [fst snd] in *. destruct Hprep as [Hw1 ->].
  assert (newest (deliver w1 batch) a) as Hw2 by exact Hw1.
  assert (attend (AckManagedStorageDelivered batch) (λ _ g,
    newest g.1 (acknowledged K (annotate managedStoragePostedAnnotation K (endpointsRecorded a))) ∧
    w_delivered g.1 = w_delivered (deliver w1 batch) ∧ untracked (w_memory g.1) (dkey a) ∧ g.2 = s0) (deliver w1 batch, s0)) as Hack.
  { assert (Hlast : ∀ a' w2, newest w2 a' → unsent a' K → dkey a' = dkey a → ai_Namespace a' = ai_Namespace a →
      ai_Name a' = ai_Name a → w_delivered w2 = w_delivered (deliver w1 batch) →
      attend (AckManagedStorageDelivered [e]) (λ _ g,
        newest g.1 (acknowledged K (annotate managedStoragePostedAnnotation K a')) ∧
        w_delivered g.1 = w_delivered (deliver w1 batch) ∧ untracked (w_memory g.1) (dkey a) ∧ g.2 = s0) (w2, s0)).
    { intros a' w2 Hw' Hu' Hd' Hns' Hn' Hdel. cbn [AckManagedStorageDelivered]. apply wp_bind.
      eapply wp_mono; [|apply (attend_ackDelivered h now w2 s0 a' e K); congruence || done].
      intros [] g (H1 & H2 & H3 & _ & H4). rewrite <-Hd'. split_and!; [done|congruence|done|done]. }
    unfold batch, endpointsFirst, endpointsRecorded in *. destruct (endpoints_due a) eqn:Hdue; cbn [Datatypes.app]; [|by apply Hlast].
    cbn [AckManagedStorageDelivered]. apply wp_bind. unfold ackDelivered at 1.
    rewrite (bool_decide_eq_false_2 (ev_Kind (endpointsEvent a c) = _)) by done.
    change (ev_EventKey (endpointsEvent a c)) with (EndpointsEventKey (instanceRef a) EK). rewrite Hee.
    unfold endpoints_due in Hdue. apply andb_prop in Hdue as [_ Hdue]. apply negb_true_iff, bool_decide_eq_false in Hdue.
    apply (attend_setOnce h now _ s0 a); [done..|]. cbn [orRetry wp].
    apply Hlast; try done; [apply newest_store|]. destruct Hun. split; rewrite annotation_annotate; by case_bool_decide. }
  apply run_serves in Hack. destruct (run _ (AckManagedStorageDelivered batch) _) as [u' [w3 s3]].
  cbn [fst snd] in *. destruct Hack as (Hw3 & Hd & Hun3 & ->). split_and!; [done|done| | |done].
  - cbn [bs_buf]. by rewrite flushDelivered_events.
  - rewrite Hd. cbn [w_delivered deliver]. apply elem_of_union_l, elem_of_list_to_set.
    apply list_elem_of_bind. exists e. unfold event_keys. rewrite HK, Hns, Hn. split; [by left|].
    apply elem_of_app. right. by left.
Qed.
(** The step claims the key and leaves the endpoints, if they are due, and the
    credentials in the buffer. *)
Lemma storage_pass w s :
  slash_free (ai_Namespace app) = true → slash_free (ai_Name app) = true →
  newest w app → untracked (w_memory w) (dkey app) → unsent app K →
  annotation app managedStorageClaimAnnotation = "" → annotation app seaweedEndpointsAckRetryAnnotation = "" →
  eb_events (bs_buf s) = [] → (2 ≤ effMaxBuffer (bs_buf s))%Z →
  attend (reconcileSeaweedManagedStorage engine app) (λ _ g,
    newest g.1 (annotate managedStorageClaimAnnotation K app) ∧ ∃ c ready xs,
    let e := readyEvent now (instanceRef app) ready xs (ManagedStorageEventKey (instanceRef app) ready K) in
    c_Type ready = ConditionReady ∧ c_Status ready = ConditionTrue ∧
    eb_events (bs_buf g.2) = endpointsFirst app c ++ [e] ∧ eb_Client (bs_buf g.2) = eb_Client (bs_buf s) ∧
    effMaxBatch (bs_buf g.2) = effMaxBatch (bs_buf s)) (w, s).
Proof using Hres Hms Hready.
  intros Hsns Hsn Hw Hun Hse Hcl Hretry Hev Hbuf. pose proof (managedStorageReportKey_nonempty ms) as HK.
  eapply attend_storage; [done..|]. intros c ready Ht Hst. destruct Hse as [Hre Hpo].
  rewrite bool_decide_eq_false_2 by done. rewrite Hcl, bool_decide_eq_false_2 by naive_solver.
  eapply wp_mono; [|apply (attend_track h now w _ app ms ready); try done].
  - intros _ g (H1 & _ & H3). split; [done|]. eexists c, ready, _. split_and!; [done..| | |]; rewrite H3.
    all: destruct (first_enqueued s c Hev ltac:(lia)) as (He1 & Hc1 & Hb1 & Hm1).
    all: match goal with |- context [enqueue now ?s1 ?e] => destruct (enqueue_fits now s1 e) as (He2 & Hc2 & Hm2) end;
      [rewrite He1, Hb1; unfold endpointsFirst; destruct (endpoints_due app); simpl; lia|done|].
    + by rewrite He2, He1.
    + by rewrite Hc2, Hc1.
    + by rewrite (proj2 (eff_config _ _ Hm2)).
  - by rewrite Hcl.
  - apply first_not_storage; done || lia.
Qed.

(** The version the loop ends with. *)
Definition deliveredVersion : ApplicationInstance :=
  acknowledged K (annotate managedStoragePostedAnnotation K
    (endpointsRecorded (annotate managedStorageClaimAnnotation K app))).

Lemma due_claimed : endpoints_due (annotate managedStorageClaimAnnotation K app) = endpoints_due app.
Proof. unfold endpoints_due. rewrite annotation_annotate. by case_bool_decide. Qed.

Lemma delivered_same :
  ai_Spec deliveredVersion = ai_Spec app ∧ ai_Namespace deliveredVersion = ai_Namespace app ∧
  ai_Name deliveredVersion = ai_Name app ∧ ai_Status deliveredVersion = ai_Status app.
Proof. unfold deliveredVersion, endpointsRecorded. by destruct (endpoints_due _). Qed.

Lemma delivered_annotations k :
  annotation deliveredVersion k =
    if bool_decide (k = managedStoragePostedAnnotation ∨ k = managedStorageClaimAnnotation) then ""
    else if bool_decide (k = reportedManagedStorageAccessKeyAnnotation) then K
    else if bool_decide (k = reportedSeaweedEndpointsAnnotation) && endpoints_due app then EK
    else annotation app k.
Proof.
  unfold deliveredVersion, acknowledged, endpointsRecorded. rewrite due_claimed.
  rewrite !annotation_unannotate, !annotation_annotate.
  destruct (endpoints_due app); rewrite ?annotation_annotate; repeat case_bool_decide; try done; naive_solver.
Qed.

(** Afterwards the endpoints are not due. *)
Lemma delivered_endpoints :
  (eps = [] ∨ annotation deliveredVersion reportedSeaweedEndpointsAnnotation = EK) ∧
  endpoints_due deliveredVersion = false.
Proof.
  assert (H : eps = [] ∨ annotation deliveredVersion reportedSeaweedEndpointsAnnotation = EK).
  { rewrite delivered_annotations. cbn. unfold endpoints_due.
    destruct (bool_decide (length eps = 0%nat)) eqn:Hl; cbn [negb andb].
    { left. apply bool_decide_eq_true in Hl. by apply nil_length_inv. }
    right. destruct (bool_decide (annotation app _ = _)) eqn:Ha; cbn [negb]; [by apply bool_decide_eq_true in Ha|done]. }
  split; [done|]. unfold endpoints_due. destruct H as [-> | ->]; [done|].
  rewrite (bool_decide_eq_true_2 (EK = EK)) by done. by rewrite andb_false_r.
Qed.
End Completion.

(** C6: credentials that are due are delivered, with or without endpoints.  Let an
    instance be Ready, its credentials found, nothing recorded, claimed, on its way
    or marked for another acknowledgement, and the buffer empty with a client set and
    room for two events in buffer and batch; namespace and name contain no slash.
    When the server answers with the newest version and accepts writes and the
    control plane accepts the batch, one managed-storage step and one flush deliver
    the key, record it as reported, remove claim and posted annotations, forget it in
    memory and leave the buffer empty; the endpoints of the status, if it has any, are
    recorded as reported too; and the next step sends nothing. *)
Theorem storage_delivery_completes `{InstanceLib} `{KubeLib} (h : ∀ X, icall X → X) (now : Z)
    (engine : SeaweedEngineOps) (app : ApplicationInstance) (ms : ManagedStorageSnapshot) (st : StorageState)
    (w : world) (s : bsys) :
  (∀ a g, ai_Spec a = ai_Spec app → ai_Namespace a = ai_Namespace app →
     run (attended h now) (se_ResolveManagedStorageState engine a) g = (Ok st, g)) →
  rs_snapshot st = Some ms →
  Conditions.IsTrue (ai_Conditions app) ConditionReady = true →
  slash_free (ai_Namespace app) = true → slash_free (ai_Name app) = true →
  newest w app → untracked (w_memory w) (dkey app) → unsent app (managedStorageReportKey ms) →
  annotation app managedStorageClaimAnnotation = "" → annotation app seaweedEndpointsAckRetryAnnotation = "" →
  eb_events (bs_buf s) = [] → eb_Client (bs_buf s) = true →
  (2 ≤ effMaxBuffer (bs_buf s))%Z → (2 ≤ effMaxBatch (bs_buf s))%Z →
  let eps := agentEndpointsFromStatus (ast_Endpoints (ai_Status app)) in
  let g := flush_round h now (run (attended h now) (reconcileSeaweedManagedStorage engine app) (w, s)).2 in
  ∃ app', newest g.1 app' ∧
    annotation app' reportedManagedStorageAccessKeyAnnotation = managedStorageReportKey ms ∧
    (eps = [] ∨ annotation app' reportedSeaweedEndpointsAnnotation = seaweedEndpointsReportKey eps) ∧
    annotation app' managedStorageClaimAnnotation = "" ∧ annotation app' managedStoragePostedAnnotation = "" ∧
    (dkey app, managedStorageReportKey ms) ∈ w_delivered g.1 ∧ untracked (w_memory g.1) (dkey app) ∧
    eb_events (bs_buf g.2) = [] ∧
    (run (attended h now) (reconcileSeaweedManagedStorage engine app') g).2.2 = g.2.
Proof.
  intros Hres Hms Hready Hsns Hsn Hw Hun Hse Hcl Hretry Hev Hclient Hbuf Hbatch eps.
  pose proof (storage_pass h now engine app ms st Hres Hms Hready w s Hsns Hsn Hw Hun Hse Hcl Hretry Hev Hbuf) as Hpass.
  apply run_serves in Hpass. destruct (run _ _ (w, s)) as [o [w1 s1]]. cbn [fst snd] in *.
  destruct Hpass as (Hw1 & c & ready & xs & Ht & Hst & He1 & Hc1 & Hm1). cbn zeta.
  set (K := managedStorageReportKey ms) in *. set (e := readyEvent _ _ ready xs _) in *.
  pose proof (attend_flush h now app ms (annotate managedStorageClaimAnnotation K app) c w1 s1 e Hw1) as Hfl.
  destruct (flush_round h now _) as [w' s']. fold K in Hfl. cbn zeta. cbn [fst snd].
  destruct Hfl as (Hw' & Hun' & Hev' & Hd' & _); [|congruence|by rewrite Hm1| |done..| |done|done|].
  { destruct Hse. split; rewrite annotation_annotate; by case_bool_decide. }
  { rewrite He1. unfold endpointsFirst, K. by rewrite due_claimed. }
  { apply storage_key_recognised; try done; [by rewrite Ht|by rewrite Hst|apply managedStorageReportKey_slash_free]. }
  destruct (delivered_same app ms) as (H1 & H2 & H3 & H4). destruct (delivered_endpoints app ms) as [H5 H6].
  exists (deliveredVersion app ms). split_and!; try done; try (by rewrite delivered_annotations).
  apply (run_serves (attended h now) _ (λ _ g, g.2 = s')). eapply attend_storage; [done..| |done|].
  - by rewrite delivered_annotations.
  - intros c' r' _ _. rewrite delivered_annotations, bool_decide_eq_true_2 by done.
    apply attend_atomic. cbn [wp finish fst snd]. unfold endpointsFirst. by rewrite H6.
Qed.

(** ** Runs of the whole loop *)

(** A parser whose every document is a Seaweed specification. *)
Definition values_syntax : JsonSyntax := {| json_parse _ := Ok (JObj [("master", JObj [])]) |}.

#[local] Existing Instances reference_instance_lib values_syntax reference_owner reference_lib.

(** A cluster in which Seaweed is ready and has credentials; no Helm release. *)
Definition seaweed_cluster : ∀ X, icall X → X := λ X c,
  match c in icall X return X with
  | IGetObject kind ns name =>
      if bool_decide (kind = "Seaweed") then
        Ok {| u_Kind := kind; u_Meta := meta_of ns name;
              u_Object := [("status", JObj [("conditions", JArr [JObj [("type", JStr "Ready"); ("status", JStr "True")]])])] |}
      else Err (mkErr "not found" KNotFound)
  | c => cluster_of (seaweed_instance [] None) _ c
  end.

Definition pass : thread := let* _ := Reconcile installed "a" "store" in Ret tt.

(** The instance is created and the client set; then a pass. *)
Definition before_pass : bench :=
  (store start.1 (seaweed_instance [ApplicationInstanceFinalizer] None),
   with_buffer (binit false) (with_client (bs_buf (binit false)) true) None).
Definition after_pass : bench := (run (attended seaweed_cluster 0) pass before_pass).2.
Definition after_flush : bench := flush_round seaweed_cluster 0 after_pass.

Definition at_rest (g : bench) : csys :=
  {| c_world := g.1; c_bus := g.2; c_flusher := Idle; c_threads := [] |}.

Lemma after_pass_reachable : rtc (cstep installed) cstart (at_rest after_pass).
Proof.
  eapply rtc_l.
  { apply (c_edit installed start.1 (binit false) Idle [] (seaweed_instance [ApplicationInstanceFinalizer] None)).
    intros k _. left. by vm_compute. }
  eapply rtc_l; [apply (c_client installed true)|].
  eapply rtc_l; [apply (c_reconcile installed _ _ Idle [] "a" "store")|]. apply attended_run.
Qed.

Lemma after_flush_reachable : rtc (cstep installed) cstart (at_rest after_flush).
Proof.
  etrans; [apply after_pass_reachable|]. unfold at_rest, after_flush. destruct after_pass as [w s].
  apply flush_round_steps.
Qed.

Definition sample_credentials : ManagedStorageSnapshot :=
  {| ms_AccessKeyID := "AK"; ms_SecretAccessKey := "SK"; ms_BucketName := "store" |}.

Lemma after_flush_reported :
  (λ app, annotation app reportedManagedStorageAccessKeyAnnotation) <$> w_instances after_flush.1 !! ("a", "store")
    = Some (managedStorageReportKey sample_credentials).
Proof. by vm_compute. Qed.

Lemma reported_credentials_arrived_witness :
  ∃ e ms, e ∈ delivered_events (at_rest after_flush) ∧ e ∈ bs_accepted (c_bus (at_rest after_flush)) ∧
    storageDeliveryKey (ar_Namespace (ev_ResourceRef e)) (ar_Name (ev_ResourceRef e)) = "a/store" ∧
    ev_ManagedStorage e = Some (payload ms) ∧
    managedStorageReportKey sample_credentials = managedStorageReportKey ms.
Proof.
  pose proof after_flush_reported as Hrep. pose proof (managedStorageReportKey_nonempty sample_credentials) as HK.
  generalize dependent (managedStorageReportKey sample_credentials). intros K Hrep HK.
  destruct (w_instances after_flush.1 !! ("a", "store")) as [app|] eqn:Happ; [|done].
  destruct (reported_credentials_arrived installed (at_rest after_flush) ("a", "store") app K
    installed_contracts after_flush_reachable Happ HK) as (e & ms & H1 & H2 & H3 & H4 & H5); [left; by injection Hrep|].
  exists e, ms. split; [exact H1|]. split; [exact H2|]. split; [|exact (conj H4 H5)].
  clear -H3 Happ. rewrite H3. vm_compute in Happ. by injection Happ as <-.
Defined.

(** The instance of [InstanceLifecycle] that is Ready, with a gateway, newest in the
    world. *)
Definition gateway_instance : ApplicationInstance :=
  let st := ai_Status ready_instance in
  {| ai_Meta := ai_Meta ready_instance; ai_Spec := ai_Spec ready_instance;
     ai_Status := {| ast_ObservedGeneration := ast_ObservedGeneration st; ast_Conditions := ast_Conditions st;
       ast_HelmReleaseRef := ast_HelmReleaseRef st; ast_LastAppliedChart := ast_LastAppliedChart st;
       ast_LastReconcileTime := ast_LastReconcileTime st;
       ast_Endpoints := [{| ep_Name := "s3"; ep_URL := "http://store-filer.a.svc:8333"; ep_Type := ""; ep_Notes := "" |}] |} |}.
Definition ready_world : world := store start.1 gateway_instance.
Definition connected_bus : bsys := with_buffer (binit false) (with_client (bs_buf (binit false)) true) None.

Lemma sample_resolved a g :
  ai_Spec a = ai_Spec gateway_instance → ai_Namespace a = ai_Namespace gateway_instance →
  run (attended seaweed_cluster 0) (se_ResolveManagedStorageState SeaweedEngine a) g =
    (Ok {| rs_snapshot := Some sample_credentials; rs_pending := false; rs_failed := false |}, g).
Proof.
  intros Hs Hn. destruct g as [w s]. cbn [se_ResolveManagedStorageState SeaweedEngine].
  unfold ResolveManagedStorageState, validateReleaseRef, releaseName, releaseNamespace. rewrite Hs, Hn.
  by vm_compute.
Qed.

Lemma storage_delivery_completes_witness :
  let eps := agentEndpointsFromStatus (ast_Endpoints (ai_Status gateway_instance)) in
  let g := flush_round seaweed_cluster 0
    (run (attended seaweed_cluster 0) (reconcileSeaweedManagedStorage SeaweedEngine gateway_instance)
       (ready_world, connected_bus)).2 in
  ∃ app', newest g.1 app' ∧
    annotation app' reportedManagedStorageAccessKeyAnnotation = managedStorageReportKey sample_credentials ∧
    (eps = [] ∨ annotation app' reportedSeaweedEndpointsAnnotation = seaweedEndpointsReportKey eps) ∧
    annotation app' managedStorageClaimAnnotation = "" ∧ annotation app' managedStoragePostedAnnotation = "" ∧
    (dkey gateway_instance, managedStorageReportKey sample_credentials) ∈ w_delivered g.1 ∧
    untracked (w_memory g.1) (dkey gateway_instance) ∧ eb_events (bs_buf g.2) = [] ∧
    (run (attended seaweed_cluster 0) (reconcileSeaweedManagedStorage SeaweedEngine app') g).2.2 = g.2.
Proof.
  refine (storage_delivery_completes seaweed_cluster 0 SeaweedEngine gateway_instance sample_credentials
    {| rs_snapshot := Some sample_credentials; rs_pending := false; rs_failed := false |} ready_world connected_bus
    sample_resolved eq_refl eq_refl eq_refl eq_refl (newest_store start.1 gateway_instance)
    (conj eq_refl eq_refl) _ eq_refl eq_refl eq_refl eq_refl _ _).
  - split; by vm_compute.
  - by vm_compute.
  - by vm_compute.
Defined.

(** ** Sent twice *)

(** The batch is taken, and a pass runs before the callback. *)
Definition taken_batch : list Event := default [] (flushTake (bs_buf after_pass.2)).1.
Definition taken_buffer : EventBatcher := (flushTake (bs_buf after_pass.2)).2.
Definition again : bench :=
  (run (attended seaweed_cluster 0) pass (after_pass.1, with_buffer after_pass.2 taken_buffer (Some taken_batch))).2.

Definition same_storage_event (e e' : Event) : bool :=
  bool_decide (ev_EventKey e = ev_EventKey e') && bool_decide (event_keys e ≠ []).

Lemma sent_again :
  ∃ e e', e ∈ taken_batch ∧ e' ∈ eb_events (bs_buf again.2) ∧ ev_EventKey e = ev_EventKey e' ∧
    event_keys e ≠ [] ∧ bs_dropped again.2 = [].
Proof.
  assert (existsb (λ e, existsb (same_storage_event e) (eb_events (bs_buf again.2))) taken_batch = true)
    as (e & He & (e' & He' & Hs)%existsb_exists)%existsb_exists by by vm_compute.
  apply andb_prop in Hs as [Hk%bool_decide_eq_true Hn%bool_decide_eq_true].
  apply list_elem_of_In in He, He'. exists e, e'. split; [exact He|]. split; [exact He'|]. split; [exact Hk|].
  split; [exact Hn|by vm_compute].
Qed.

(** An event on its way can be enqueued again.  After a batch has been taken out
    of the buffer and before [OnBeforePostEvents] has marked its keys, a pass finds
    the key in flight, no longer buffered and not posting, takes it for an event
    that was dropped, and enqueues the credentials a second time: a state is
    reachable in which the same key is in the flusher's batch and in the buffer
    although nothing was ever dropped. *)
Theorem storage_event_sent_twice :
  ∃ s batch e e', rtc (cstep installed) cstart s ∧
    c_flusher s = Preparing batch (PrepareManagedStoragePost batch) ∧
    e ∈ batch ∧ e' ∈ eb_events (bs_buf (c_bus s)) ∧
    ev_EventKey e = ev_EventKey e' ∧ event_keys e ≠ [] ∧ bs_dropped (c_bus s) = [].
Proof.
  destruct sent_again as (e & e' & H1 & H2 & H3 & H4 & H5).
  exists {| c_world := again.1; c_bus := again.2; c_threads := [];
            c_flusher := Preparing taken_batch (PrepareManagedStoragePost taken_batch) |}, taken_batch, e, e'.
  split; [|exact (conj eq_refl (conj H1 (conj H2 (conj H3 (conj H4 H5)))))]. etrans; [apply after_pass_reachable|].
  eapply rtc_l; [apply (c_take installed after_pass.1 after_pass.2 [] taken_batch taken_buffer); by vm_compute|].
  eapply rtc_l; [apply (c_reconcile installed _ _ _ [] "a" "store")|]. apply attended_run.
Qed.
