(* ===== verification/SeaweedProofs.v ===== *)
(** * The Seaweed engine: what its answers depend on

    [normalizeSeaweedValues] ranges over a Go map and is applied twice on the way
    to the API server; [ResolveManagedStorageState] reads a listing in whatever
    order the server gives it.  The theorems say that neither order nor the second
    pass matters, and which credentials the engine picks. *)

From stdpp Require Import base list strings pretty gmap sorting.
From S2P Require Import Prelude Traces GoStrings Api Events Json Kube HttpClient Credentials InstanceValidation InstanceEngines.
From S2P Require Import InstanceReconciler InstanceProofs InstanceLifecycle.

(** ** Values *)

Lemma specSection_normal j v : specSection j = Some v → hasSpecKey v = true.
Proof. unfold specSection. destruct j; try done. case_match; naive_solver. Qed.

(** The order of the entries does not matter. *)
Lemma normalizeInOrder_any order v :
  order ≡ₚ map_to_list v → normalizeInOrder order v = normalizeSeaweedValues v.
Proof.
  intros Ho. unfold normalizeSeaweedValues, normalizeInOrder.
  destruct (hasSpecKey v); [done|]. destruct (omap _ seaweedValueWrapperKeys); [|done].
  assert (omap (λ kv, specSection kv.2) order ≡ₚ omap (λ kv, specSection kv.2) (map_to_list v)) as Hp
    by by rewrite Ho.
  destruct (omap _ order) as [|n [|n2 l]]; destruct (omap _ (map_to_list v)) as [|m [|m2 k]];
    try by apply Permutation_length in Hp.
  apply Permutation_singleton_inj in Hp. by subst.
Qed.

(** A second pass finds nothing to do: what a pass returns either has a key of
    the spec at the top or is what went in. *)
Lemma normalizeInOrder_idempotent order v v' :
  order ≡ₚ map_to_list v → normalizeInOrder order v = Ok v' → normalizeSeaweedValues v' = Ok v'.
Proof.
  intros Ho Hn.
  assert (hasSpecKey v' = true ∨ v' = v ∧ normalizeInOrder order v = Ok v) as [Hk|[-> Hv]].
  { revert Hn. unfold normalizeInOrder. destruct (hasSpecKey v) eqn:Hk; [intros [= <-]; by left|].
    destruct (omap _ seaweedValueWrapperKeys) as [|n l] eqn:Hw.
    - destruct (omap _ order) as [|n [|? ?]] eqn:Hc; intros [= <-]; [by right|].
      assert (n ∈ [n]) as Hin by set_solver. rewrite <-Hc in Hin.
      apply list_elem_of_omap in Hin as (kv & _ & Hkv). left. by eapply specSection_normal.
    - intros [= <-]. assert (n ∈ n :: l) as Hin by set_solver. rewrite <-Hw in Hin.
      apply list_elem_of_omap in Hin as (w & _ & Hkv). left.
      destruct (v !! w); [|done]. by eapply specSection_normal. }
  - unfold normalizeSeaweedValues, normalizeInOrder. by rewrite Hk.
  - by rewrite <-(normalizeInOrder_any order).
Qed.

Section Ensure.
Context `{JsonSyntax} `{InstanceLib} `{KubeLib} `{OwnerLib}.

(** [EnsureSeaweed] as one would write it: the values are loaded, normalized
    once, their entries read in the order [range] gives, and written. *)
Definition ensureOnce (range : values → list (string * json)) (app : ApplicationInstance)
    : prog icall (result unit) :=
  match validateReleaseRef app, as_Values (ai_Spec app) with
  | Err e, _ => Ret (Err e)
  | Ok _, None => Ret (Err (wrapf "load values" (errorf "spec.values is required for Seaweed workload")))
  | Ok release, Some vs =>
      let* r := valuesFrom vs (ai_Namespace app)
                  (Err (errorf "inline values are required for Seaweed workload")) in
      match (do! v := r in normalizeInOrder (range (default ∅ v)) (default ∅ v)) with
      | Err e => Ret (Err (wrapf "load values" e))
      | Ok v => writeSeaweed app release v
      end
  end.

(** C21: [EnsureSeaweed] normalizes its values twice and ranges over a Go map, whose
    order the language leaves open.  Against any server it makes the same calls and
    returns the same result as the program that normalizes once and reads the map
    in any other order: the second pass never changes or rejects anything, and no
    reconcile depends on the iteration order. *)
Theorem ensure_seaweed_once {G} (h : handler icall G) (range : values → list (string * json))
    (app : ApplicationInstance) (g : G) :
  (∀ v, range v ≡ₚ map_to_list v) →
  run h (EnsureSeaweed app) g = run h (ensureOnce range app) g.
Proof.
  intros Hr. unfold EnsureSeaweed, ensureOnce, loadValues.
  destruct (validateReleaseRef app) as [release|e]; [|done].
  destruct (as_Values (ai_Spec app)) as [vs|]; [|done].
  rewrite !run_bind. destruct (run h (valuesFrom _ _ _) g) as [[v|e] g']; [|done].
  cbn [run seaweed_normalized]. rewrite normalizeInOrder_any by apply Hr.
  destruct (normalizeSeaweedValues (default ∅ v)) as [v'|e] eqn:Hn; [|done].
  cbn [run prog_bind].
  by rewrite (normalizeInOrder_idempotent _ _ _ (reflexivity _) Hn).
Qed.
End Ensure.

(** ** Managed storage *)

Lemma NoDup_key_inj {A B} (f : A → B) (l : list A) x y :
  NoDup (f <$> l) → x ∈ l → y ∈ l → f x = f y → x = y.
Proof.
  intros Hnd Hx Hy Hf. apply list_elem_of_lookup in Hx as [i Hi], Hy as [j Hj].
  assert (i = j) as ->; [|congruence].
  apply (NoDup_lookup _ i j (f x) Hnd); rewrite list_lookup_fmap; [by rewrite Hi|by rewrite Hj, Hf].
Qed.

Lemma StronglySorted_filter {A} (R : relation A) (P : A → Prop) `{!∀ x, Decision (P x)} l :
  StronglySorted R l → StronglySorted R (filter P l).
Proof.
  induction 1 as [|x l Hs IH Hx]; [constructor|]. rewrite filter_cons. case_decide; [|done].
  constructor; [done|]. apply Forall_forall. intros y Hy. apply list_elem_of_filter in Hy as [_ Hy].
  by eapply Forall_forall in Hx.
Qed.

Section Storage.
Context `{KubeLib}.
Context (ns release : string) (items : list Unstructured) (secrets : string → result Secret).

(** A namespace as the engine sees it: a listing of credentials and the Secrets. *)
Definition storage_view : environment icall unit := λ X c _ x _,
  match c in icall Y return Y → Prop with
  | IListObjects kind n => λ x, kind = "S3Credentials" → n = ns → x = Ok items
  | IGetSecret n name => λ x, n = ns → x = secrets name
  | _ => λ _, True
  end x.

(** The engine reads that namespace and nothing else. *)
Definition storage_reads : permission icall unit := λ X c _,
  match c with
  | IListObjects kind n => kind = "S3Credentials" ∧ n = ns
  | IGetSecret n _ => n = ns
  | _ => False
  end.

Definition matching : list Unstructured :=
  filter (λ i, NestedString (u_Object i) ["spec"; "seaweedRef"; "name"] = release) items.
Definition ready (i : Unstructured) : Prop := i ∈ matching ∧ phaseOf i = "Ready".
(** neither Ready nor Failed *)
Definition waiting (i : Unstructured) : Prop :=
  i ∈ matching ∧ phaseOf i ≠ "Ready" ∧ phaseOf i ≠ "Failed".

(** What a ready credential gives, as a function of the Secrets. *)
Definition secretNameOf (i : Unstructured) : string :=
  fallback (NestedString (u_Object i) ["status"; "secretName"])
           (NestedString (u_Object i) ["spec"; "secretRef"; "name"]).

Definition keysIn (i : Unstructured) (data : gmap string string) : option ManagedStorageSnapshot :=
  let field p d := fallback (NestedString (u_Object i) p) d in
  let secretKey := dataOf data (field ["spec"; "secretRef"; "secretKeyField"] "secretKey") in
  let accessKey := field ["status"; "accessKey"]
                     (dataOf data (field ["spec"; "secretRef"; "accessKeyField"] "accessKey")) in
  if bool_decide (accessKey = "" ∨ secretKey = "") then None
  else Some {| ms_AccessKeyID := accessKey; ms_SecretAccessKey := secretKey; ms_BucketName := release |}.

Definition attempt (i : Unstructured) : result (ManagedStorageSnapshot + credentialSnapshotOutcome) :=
  if bool_decide (secretNameOf i = "") then Ok (inr credentialSnapshotUnusable)
  else match secrets (secretNameOf i) with
       | Err e => if IsNotFound e then Ok (inr credentialSnapshotSecretMissing)
                  else Err (wrapf ("get S3Credentials secret " +:+ ns +:+ "/" +:+ secretNameOf i) e)
       | Ok s => Ok (match keysIn i (sec_Data s) with
                     | Some ms => inl ms
                     | None => inr credentialSnapshotUnusable
                     end)
       end.

Definition usable (i : Unstructured) (ms : ManagedStorageSnapshot) : Prop :=
  ready i ∧ attempt i = Ok (inl ms).
Definition secret_absent (i : Unstructured) : Prop :=
  ready i ∧ attempt i = Ok (inr credentialSnapshotSecretMissing).

Notation reading p Q := (wp storage_view storage_reads p (λ r _, Q r) tt).

Lemma snapshot_attempt i :
  phaseOf i = "Ready" →
  reading (snapshotFromS3Credentials ns release i) (λ r, r = attempt i).
Proof.
  intros Hp. unfold snapshotFromS3Credentials, attempt, secretNameOf, keysIn. rewrite Hp.
  rewrite bool_decide_eq_false_2 by naive_solver. case_bool_decide; [done|].
  apply wp_vis; [done|]. intros x [] Hx. cbn in Hx. rewrite Hx by done.
  destruct (secrets _) as [s|e]; [|by destruct (IsNotFound e)]. cbn [wp]. by case_bool_decide.
Qed.

(** The loop over the ready credentials, in terms of what each gives. *)
Definition scan_spec (stillPending missing unusable_ : bool) (l : list Unstructured)
    (r : result StorageState) : Prop :=
  match r with
  | Err e => ∃ l1 i l2, l = l1 ++ i :: l2 ∧ attempt i = Err e ∧ Forall (λ j, ∃ o, attempt j = Ok (inr o)) l1
  | Ok st =>
      (∃ l1 i l2 ms, l = l1 ++ i :: l2 ∧ attempt i = Ok (inl ms) ∧
         Forall (λ j, ∃ o, attempt j = Ok (inr o)) l1 ∧
         st = {| rs_snapshot := Some ms; rs_pending := false; rs_failed := false |}) ∨
      (Forall (λ j, ∃ o, attempt j = Ok (inr o)) l ∧ rs_snapshot st = None ∧
       (rs_pending st = true ↔ stillPending = true ∨ missing = true ∨
          ∃ j, j ∈ l ∧ attempt j = Ok (inr credentialSnapshotSecretMissing)) ∧
       (rs_failed st = true ↔ rs_pending st = false ∧ (unusable_ = true ∨ l ≠ [])))
  end.

Lemma scan_skip p m u i l o r :
  attempt i = Ok (inr o) →
  match o with
  | credentialSnapshotSecretMissing => scan_spec p true u l r
  | credentialSnapshotUnusable => scan_spec p m true l r
  end → scan_spec p m u (i :: l) r.
Proof.
  intros Ha Hr. assert (∃ o, attempt i = Ok (inr o)) as Hi by eauto.
  assert (∃ m' u', scan_spec p m' u' l r ∧
    (m' = true ↔ m = true ∨ attempt i = Ok (inr credentialSnapshotSecretMissing)) ∧
    (m' = true ∨ u' = true)) as (m' & u' & Hs & Hm & Hu).
  { destruct o; [exists true, u|exists m, true]; rewrite Ha; (split; [done|]).
    - split; [|by left]. split; [by right|done].
    - split; [|by right]. split; [by left|]. by intros [?|?]. }
  destruct r as [st|e]; [destruct Hs as [(l1 & j & l2 & ms & -> & Hj & Hl1 & ->)|(Hl & Hn & Hp & Hf)]|
                         destruct Hs as (l1 & j & l2 & -> & Hj & Hl1)].
  - left. exists (i :: l1), j, l2, ms. by rewrite Forall_cons.
  - right. rewrite Forall_cons. split_and!; [done..| |].
    + rewrite Hp, Hm. split.
      * intros [?|[[?|?]|(j & Hj & ?)]]; [by left|right; by left| |]; right; right;
          [exists i|exists j]; (split; [|done]); [left|by right].
      * intros [?|[?|(j & [->|Hj]%elem_of_cons & ?)]]; [by left|right; left; by left|right; left; by right|].
        right; right. by exists j.
    + rewrite Hf. split; [intros [? _]; split; [done|by right]|]. intros [Hpf _]. split; [done|].
      destruct Hu as [Hu|Hu]; [|by left]. rewrite Hpf in Hp. exfalso.
      assert (false = true) by (apply Hp; right; by left). done.
  - exists (i :: l1), j, l2. by rewrite Forall_cons.
Qed.

Lemma firstUsable_scan l : ∀ p m u,
  Forall (λ i, phaseOf i = "Ready") l →
  reading (firstUsable ns release p m u l) (scan_spec p m u l).
Proof.
  induction l as [|i l IH]; intros p m u Hl; cbn [firstUsable].
  - right. destruct p, m, u; cbn; split_and!; try done; set_solver.
  - apply Forall_cons in Hl as [Hi Hl]. apply wp_bind. eapply wp_mono; [|by apply snapshot_attempt].
    intros r [] ->. destruct (attempt i) as [[ms|o]|e] eqn:Ha.
    + left. exists [], i, l, ms. by rewrite Forall_nil.
    + destruct o; (eapply wp_mono; [|by apply IH]); intros r [] Hr; by eapply scan_skip.
    + exists [], i, l. by rewrite Forall_nil.
Qed.

#[local] Instance name_le_trans : Transitive name_le.
Proof. intros a b c. unfold name_le. rewrite <-!Is_true_true. apply String.le_po. Qed.
#[local] Instance name_le_total : Total name_le.
Proof. intros a b. unfold name_le. rewrite <-!Is_true_true. apply String.le_total. Qed.

Definition least_usable (i : Unstructured) : Prop := ∀ j ms, usable j ms → name_le i j.

(** The answer in terms of the namespace alone. *)
Definition storage_exact (r : result StorageState) : Prop :=
  match r with
  | Err e => ∃ i, ready i ∧ attempt i = Err e ∧ least_usable i
  | Ok st =>
      (∀ ms, rs_snapshot st = Some ms ↔ ∃ i, usable i ms ∧ least_usable i) ∧
      (rs_pending st = true ↔
         (∀ i ms, ¬ usable i ms) ∧ ((∃ i, waiting i) ∨ ∃ i, secret_absent i)) ∧
      (rs_failed st = true ↔
         (∀ i ms, ¬ usable i ms) ∧ (∃ i, i ∈ matching) ∧ (∀ i, ¬ waiting i) ∧ (∀ i, ¬ secret_absent i))
  end.

Lemma passed_over l i : Forall (λ j, ∃ o, attempt j = Ok (inr o)) l → i ∈ l → ∀ ms, attempt i ≠ Ok (inl ms).
Proof. rewrite Forall_forall. intros Hl Hi ms. destruct (Hl i Hi) as [o ->]. done. Qed.

(** An element of a sorted listing precedes what is usable, when what comes
    before it is not. *)
Lemma first_is_least l l1 i l2 :
  (∀ j, j ∈ l ↔ ready j) → StronglySorted name_le l → l = l1 ++ i :: l2 →
  Forall (λ j, ∃ o, attempt j = Ok (inr o)) l1 → least_usable i.
Proof.
  intros Hin Hs -> Hl1 j ms [Hj Ha]. apply Hin in Hj.
  apply StronglySorted_app in Hs as (_ & _ & Hs). apply StronglySorted_inv in Hs as [_ Hs].
  apply elem_of_app in Hj as [Hj|Hj]; [by destruct (passed_over l1 j Hl1 Hj ms)|].
  apply elem_of_cons in Hj as [->|Hj]; [|by eapply Forall_forall].
  by destruct (name_le_total i i).
Qed.

Lemma scan_exact l p r :
  NoDup ((Name ∘ u_Meta) <$> matching) →
  (∀ j, j ∈ l ↔ ready j) → StronglySorted name_le l → l ≠ [] →
  (p = true ↔ ∃ i, waiting i) → scan_spec p false false l r → storage_exact r.
Proof.
  intros Hnd Hin Hs Hne Hp Hr. destruct r as [st|e].
  - destruct Hr as [(l1 & i & l2 & ms & Hl & Ha & Hl1 & ->)|(Hl & Hn & Hpe & Hf)]; cbn.
    + assert (usable i ms) as Hu by (split; [apply Hin; set_solver|done]).
      pose proof (first_is_least _ _ _ _ Hin Hs Hl Hl1) as Hleast.
      split_and!; [|naive_solver..]. intros ms'. split; [intros [= <-]; by exists i|].
      intros (i' & Hu' & Hleast'). f_equal.
      assert (Name (u_Meta i) = Name (u_Meta i')) as Hname
        by (apply String.leb_antisym; [by eapply Hleast|by eapply Hleast']).
      destruct Hu as [[Hi _] Ha1], Hu' as [[Hi' _] Ha2].
      assert (i = i') as ->; [|congruence].
      by apply (NoDup_key_inj (Name ∘ u_Meta) matching).
    + assert (∀ i ms, ¬ usable i ms) as Hnone
        by (intros i ms [Hi%Hin Ha]; by destruct (passed_over l i Hl Hi ms)).
      assert ((∃ j, j ∈ l ∧ attempt j = Ok (inr credentialSnapshotSecretMissing)) ↔ ∃ i, secret_absent i) as Hm
        by (unfold secret_absent; setoid_rewrite Hin; done).
      assert (∃ i, i ∈ matching) as Hex.
      { destruct l as [|i l]; [done|]. exists i. apply (Hin i). set_solver. }
      rewrite Hf, Hn, <-not_true_iff_false, Hpe, Hp, Hm. split_and!; naive_solver.
  - destruct Hr as (l1 & i & l2 & Hl & Ha & Hl1). exists i. split_and!; [|done|].
    + apply Hin. set_solver.
    + by eapply first_is_least.
Qed.

(** C22: [ResolveManagedStorageState] is a function of the namespace, whatever order
    the server lists the credentials in: it reads only the S3Credentials of the
    release's namespace and Secrets there; the snapshot is the keys of the
    credential of least name among those that refer to the release, are Ready and
    have usable keys; pending holds exactly when none is usable and one is neither
    Ready nor Failed or has no Secret yet; failed exactly when credentials exist,
    none is usable and nothing is left to wait for; an error is the failed read of
    a Secret no usable credential precedes. *)
Theorem storage_state_exact (app : ApplicationInstance) :
  validateReleaseRef app = Ok release → releaseNamespace app = ns →
  NoDup ((Name ∘ u_Meta) <$> matching) →
  wp storage_view storage_reads (ResolveManagedStorageState app) (λ r _, storage_exact r) tt.
Proof.
  intros Hr Hns Hnd. unfold ResolveManagedStorageState, listMatchingS3Credentials. rewrite Hr, Hns.
  apply wp_bind, wp_vis; [done|]. intros x [] Hx. rewrite (Hx eq_refl eq_refl). cbn [wp].
  fold matching. pose proof (merge_sort_Permutation name_le matching) as Hperm.
  pose proof (StronglySorted_merge_sort name_le matching) as Hsorted.
  set (l := merge_sort name_le matching) in *.
  assert (∀ i, i ∈ filter (λ i, phaseOf i = "Ready") l ↔ ready i) as Hready
    by (intros i; rewrite list_elem_of_filter, Hperm; unfold ready; naive_solver).
  assert (existsb (λ i, negb (bool_decide (phaseOf i = "Ready" ∨ phaseOf i = "Failed"))) l = true
    ↔ ∃ i, waiting i) as Hwait.
  { rewrite existsb_exists. setoid_rewrite negb_true_iff. setoid_rewrite bool_decide_eq_false.
    setoid_rewrite <-list_elem_of_In. setoid_rewrite Hperm. unfold waiting. naive_solver. }
  destruct l as [|c l'] eqn:Hl.
  - assert (∀ i, i ∉ matching) as Hno by (intros i; rewrite <-Hperm; set_solver).
    unfold storage_exact, usable, ready, waiting, secret_absent; cbn. naive_solver.
  - rewrite <-Hl in *. unfold splitS3CredentialsByPhase.
    destruct (filter _ l) as [|i0 rs] eqn:Hf.
    + cbn. assert (∃ i, i ∈ matching) as Hex by (exists c; rewrite <-Hperm, Hl; left).
      rewrite negb_true_iff, <-not_true_iff_false, Hwait.
      unfold usable, secret_absent; setoid_rewrite <-Hready. set_solver.
    + eapply wp_mono; [|apply firstUsable_scan; rewrite <-Hf, Forall_forall;
        intros i; rewrite list_elem_of_filter; naive_solver].
      intros r [] Hs. eapply scan_exact; [done|exact Hready| |done|exact Hwait|exact Hs].
      rewrite <-Hf. apply StronglySorted_filter, Hsorted; apply _.
Qed.
End Storage.

(** ** Concrete inputs *)

#[local] Existing Instances reference_instance_lib reference_lib reference_owner.

(** Values in a wrapper of no known name. *)
Definition wrapped_values : JsonSyntax :=
  doc_syntax (JObj [("notes", JStr "n"); ("storage", JObj [("master", JObj []); ("extra", JNull)])]).

Lemma ensure_seaweed_once_witness :
  run (trace_handler (cluster_of sample_managed)) (@EnsureSeaweed wrapped_values _ _ _ sample_managed) [] =
  run (trace_handler (cluster_of sample_managed))
    (@ensureOnce wrapped_values _ _ _ (λ v, reverse (map_to_list v)) sample_managed) [] ∧
  is_ok (run (trace_handler (cluster_of sample_managed))
    (@EnsureSeaweed wrapped_values _ _ _ sample_managed) []).1 = true.
Proof.
  split; [|by vm_compute]. apply (@ensure_seaweed_once wrapped_values). intros v. apply reverse_Permutation.
Defined.

(** Three credentials of one release: the Secret of the first is absent, the
    second has keys, the third failed. *)
Definition credential (name phase secret : string) : Unstructured :=
  {| u_Kind := "S3Credentials"; u_Meta := meta_of "apps" name;
     u_Object := [("spec", JObj [("seaweedRef", JObj [("name", JStr "web")])]);
                  ("status", JObj [("phase", JStr phase); ("secretName", JStr secret)])] |}.
Definition some_credentials : list Unstructured :=
  [credential "m" "Ready" "keys"; credential "z" "Failed" ""; credential "b" "Ready" "gone"].
Definition some_secrets (name : string) : result Secret :=
  if bool_decide (name = "keys") then
    Ok {| sec_Meta := meta_of "apps" name;
          sec_Data := <["accessKey" := "AK"]> {[ "secretKey" := "SK" ]}; sec_Type := "" |}
  else Err (mkErr "not found" KNotFound).

Lemma storage_state_exact_witness :
  wp (storage_view "apps" some_credentials some_secrets) (storage_reads "apps")
     (ResolveManagedStorageState sample_managed)
     (λ r _, storage_exact "apps" "web" some_credentials some_secrets r) tt ∧
  usable "apps" "web" some_credentials some_secrets (credential "m" "Ready" "keys")
    {| ms_AccessKeyID := "AK"; ms_SecretAccessKey := "SK"; ms_BucketName := "web" |}.
Proof.
  split.
  - apply storage_state_exact; [by vm_compute|by vm_compute|]. vm_compute.
    repeat (constructor; [rewrite ?elem_of_cons; rewrite ?elem_of_nil; naive_solver|]). constructor.
  - split; [|by vm_compute]. split; [|by vm_compute]. vm_compute. left.
Defined.
