(* ===== verification/WrittenObjects.v ===== *)
(** * The objects the instance engines write

    Whatever the server answers, as long as a fetched object is the one asked
    for, every object the Flux and Seaweed engines write back is of one of four
    shapes, and a HelmRelease refers to a chart source that was written before. *)

From stdpp Require Import base list strings pretty gmap.
From S2P Require Import Prelude Traces GoStrings Api Events Json Kube HttpClient Credentials InstanceValidation InstanceEngines.
From S2P Require Import InstanceReconciler InstanceProofs InstanceLifecycle SeaweedProofs.

(** ** The environment *)

(** [CreateOrUpdate] fills the object it was given: kind, namespace and name stay. *)
Definition fetched (kind ns name : string) (u : Unstructured) : Prop :=
  u_Kind u = kind ∧ Namespace (u_Meta u) = ns ∧ Name (u_Meta u) = name.

Definition typed_answer {X} (c : icall X) : X → Prop :=
  match c in icall Y return Y → Prop with
  | IFetchOrNew kind ns name => λ r, ∀ u, r = Ok u → fetched kind ns name u
  | _ => λ _, True
  end.

Definition typed_server : environment icall (trace_of icall) := λ X c g x g',
  g' = g ++ [Called c x] ∧ typed_answer c x.

Section Shapes.
Context `{JsonSyntax} `{InstanceLib} `{KubeLib} `{OwnerLib}.
Context (app : ApplicationInstance).

Definition field_is (u : Unstructured) (path : list string) (v : json) : Prop :=
  NestedField (u_Object u) path = Some v.

(** Named and labelled after the instance, in its namespace. *)
Definition belongs (name : string) (u : Unstructured) : Prop :=
  Namespace (u_Meta u) = ai_Namespace app ∧ Name (u_Meta u) = name ∧ Labels (u_Meta u) = ownerLabels app.

Definition controlled (u : Unstructured) : Prop := UID (ai_Meta app) ∈ OwnerReferences (u_Meta u).

Definition source_kind (chart : ChartSpec) : string :=
  if bool_decide (ch_SourceType chart = ChartSourceOCI) then "OCIRepository" else "HelmRepository".

(** A document read as a map of values: an object, or null for none. *)
Definition values_of (doc : result json) (v : option values) : Prop :=
  (∃ fs, doc = Ok (JObj fs) ∧ v = Some (any_entries fs)) ∨ (doc = Ok JNull ∧ v = None).

(** The text of a Secret or ConfigMap is JSON, or else YAML. *)
Definition text_values (raw : string) (v : option values) : Prop :=
  values_of (json_parse raw) v ∨ (¬ ∃ w, values_of (json_parse raw) w) ∧ values_of (yaml_parse raw) v.

(** The values [v] the instance asks for, as far as [g] shows: its inline values, or
    what the Secret or ConfigMap it refers to held under its key when it was read. *)
Definition asked_values (g : trace_of icall) (v : option values) : Prop :=
  ∃ vs, as_Values (ai_Spec app) = Some vs ∧
    ((vs_Source vs = "inline" ∧ match vs_Inline vs with None => v = None | Some raw => values_of (json_parse raw) v end) ∨
     (vs_Source vs = "secretRef" ∧ ∃ ref secret raw, vs_SecretRef vs = Some ref ∧
        Called (IGetSecret (ai_Namespace app) (ok_Name ref)) (Ok secret) ∈ g ∧
        sec_Data secret !! ok_Key ref = Some raw ∧ text_values raw v) ∨
     (vs_Source vs = "configMapRef" ∧ ∃ ref data raw, vs_ConfigMapRef vs = Some ref ∧
        Called (IGetConfigMap (ai_Namespace app) (ok_Name ref)) (Ok data) ∈ g ∧
        data !! ok_Key ref = Some raw ∧ text_values raw v)).

(** The map with the native sections: the values themselves, or a wrapper in them. *)
Definition native (v : values) : Prop := ∃ k, k ∈ seaweedSpecKeys ∧ is_Some (v !! k).
Definition unwrapped (v n : values) : Prop :=
  native n ∧ (n = v ∨ ¬ native v ∧ ∃ w fs, v !! w = Some (JObj fs) ∧ n = any_entries fs).

Definition helm_repository (chart : ChartSpec) (release : string) (u : Unstructured) : Prop :=
  u_Kind u = "HelmRepository" ∧ ch_SourceType chart = ChartSourceHelm ∧ belongs (chartSourceName release) u ∧
  field_is u ["spec"; "interval"] (JStr "1m0s") ∧ field_is u ["spec"; "url"] (JStr (ch_URL chart)).

Definition oci_repository (chart : ChartSpec) (release : string) (u : Unstructured) : Prop :=
  u_Kind u = "OCIRepository" ∧ ch_SourceType chart = ChartSourceOCI ∧ belongs (chartSourceName release) u ∧
  field_is u ["spec"; "interval"] (JStr "1m0s") ∧
  field_is u ["spec"; "url"] (JStr (TrimPrefix (ch_URL chart) "oci://")) ∧
  field_is u ["spec"; "ref"; "tag"] (JStr (ch_Version chart)).

Definition helm_release (chart : ChartSpec) (release : string) (g : trace_of icall) (u : Unstructured) : Prop :=
  u_Kind u = "HelmRelease" ∧ belongs release u ∧ controlled u ∧
  field_is u ["spec"; "interval"] (JStr "5m0s") ∧
  field_is u ["spec"; "chart"; "spec"; "chart"] (JStr (ch_Name chart)) ∧
  field_is u ["spec"; "chart"; "spec"; "version"] (JStr (ch_Version chart)) ∧
  field_is u ["spec"; "chart"; "spec"; "sourceRef"]
    (JObj [("kind", JStr (source_kind chart)); ("name", JStr (chartSourceName release))]) ∧
  ∃ v, asked_values g v ∧ ∀ m, v = Some m → field_is u ["spec"; "values"] (jobj m).

Definition seaweed_object (release : string) (g : trace_of icall) (u : Unstructured) : Prop :=
  u_Kind u = "Seaweed" ∧ belongs release u ∧ controlled u ∧
  ∃ v n (spec : values), asked_values g v ∧ unwrapped (default ∅ v) n ∧ field_is u ["spec"] (jobj spec) ∧
    ∀ k, spec !! k = if decide (k ∈ seaweedSpecKeys) then n !! k else None.

(** The chart source of the instance was written and the server accepted it. *)
Definition source_written (chart : ChartSpec) (release : string) (g : trace_of icall) : Prop :=
  ∃ u, Called (IWriteBack u) (Ok tt) ∈ g ∧ u_Kind u = source_kind chart ∧ belongs (chartSourceName release) u.

(** The calls the engines make, and what they may write when. *)
Definition flux_writes : permission icall (trace_of icall) := λ X c g,
  match c with
  | IFetchOrNew _ _ _ | IGetSecret _ _ | IGetConfigMap _ _ => True
  | IWriteBack u =>
      ∃ chart release, as_Chart (ai_Spec app) = Some chart ∧ releaseName app = Some release ∧
        (helm_repository chart release u ∨ oci_repository chart release u ∨
         helm_release chart release g u ∧ source_written chart release g)
  | _ => False
  end.

Definition seaweed_writes : permission icall (trace_of icall) := λ X c g,
  match c with
  | IFetchOrNew _ _ _ | IGetSecret _ _ | IGetConfigMap _ _ => True
  | IWriteBack u => ∃ release, releaseName app = Some release ∧ release ≠ "" ∧ seaweed_object release g u
  | _ => False
  end.

(** ** Fields *)

Context `{!KubeLaws} `{!OwnerLaws}.

Definition apart (p q : list string) : bool :=
  bool_decide (¬ p `prefix_of` q ∧ ¬ q `prefix_of` p).

Lemma setField_object p v u u' :
  setField p v u = Ok u' → ∃ o, SetNestedField (u_Object u) v p = Ok o ∧ u' = with_u_object u o.
Proof. unfold setField. intros Hs. inv_do Hs. naive_solver. Qed.

Lemma setField_meta p v u u' : setField p v u = Ok u' → u_Kind u' = u_Kind u ∧ u_Meta u' = u_Meta u.
Proof. intros (o & _ & ->)%setField_object. done. Qed.

Lemma setField_get p v u u' : setField p v u = Ok u' → field_is u' p v.
Proof. intros (o & Ho & ->)%setField_object. by eapply law_nested_set. Qed.

Lemma setField_keep p v u u' q w :
  setField p v u = Ok u' → apart p q = true → field_is u q w → field_is u' q w.
Proof.
  intros (o & Ho & ->)%setField_object [Hpq Hqp]%bool_decide_eq_true Hq.
  unfold field_is. cbn. by rewrite (law_nested_other _ _ _ _ _ Ho).
Qed.

Lemma belongs_meta name u u' : u_Meta u' = u_Meta u → belongs name u → belongs name u'.
Proof. unfold belongs. by intros ->. Qed.

Lemma controlled_meta u u' : u_Meta u' = u_Meta u → controlled u → controlled u'.
Proof. unfold controlled. by intros ->. Qed.

Lemma belongs_fetched kind name u :
  fetched kind (ai_Namespace app) name u →
  belongs name (with_u_meta u (with_labels (u_Meta u) (ownerLabels app))).
Proof. by intros (_ & Hns & Hn). Qed.

Lemma controlled_fetched kind name u m :
  fetched kind (ai_Namespace app) name u → SetControllerReference (ai_Meta app) (u_Meta u) = Ok m →
  let u' := with_u_meta u (with_labels m (ownerLabels app)) in belongs name u' ∧ controlled u'.
Proof. by intros (_ & Hns & Hn) (us & -> & Hus)%law_controller. Qed.

(** The spec holds the native sections of the values and nothing else. *)
Lemma seaweedSpec_lookup v k :
  seaweedSpec v !! k = if decide (k ∈ seaweedSpecKeys) then v !! k else None.
Proof.
  unfold seaweedSpec.
  assert (∀ l (m : gmap string json), foldl (λ spec k, match v !! k with
    | Some fragment => <[k:=fragment]> spec | None => spec end) m l !! k =
    if decide (k ∈ l ∧ is_Some (v !! k)) then v !! k else m !! k) as Hgen.
  { induction l as [|k' l IH]; intros m; cbn [foldl].
    { by rewrite decide_False by set_solver. }
    rewrite IH. destruct (decide (k' = k)) as [->|Hne].
    - destruct (v !! k) as [x|]; rewrite ?lookup_insert_eq; repeat case_decide; set_solver by naive_solver.
    - assert ((match v !! k' with Some fragment => <[k':=fragment]> m | None => m end) !! k = m !! k) as ->
        by (destruct (v !! k'); by rewrite ?lookup_insert_ne).
      repeat case_decide; set_solver. }
  etrans; [apply Hgen|]. change ((∅ : values) !! k) with (@None json).
  destruct (v !! k) as [x|] eqn:Hv; repeat case_decide; try done; exfalso; naive_solver.
Qed.

Lemma hasSpecKey_native v : hasSpecKey v = true ↔ native v.
Proof.
  unfold hasSpecKey, native. rewrite existsb_exists. setoid_rewrite bool_decide_eq_true.
  by setoid_rewrite list_elem_of_In.
Qed.

Lemma specSection_native x n : specSection x = Some n → native n ∧ ∃ fs, x = JObj fs ∧ n = any_entries fs.
Proof.
  destruct x as [| | | | |fs]; try done. unfold specSection. cbn zeta.
  destruct (hasSpecKey (any_entries fs)) eqn:Hk; [|done].
  intros [= <-]. split; [by apply hasSpecKey_native|by eexists].
Qed.

(** What the normalization picks, when it finds native sections at all. *)
Lemma normalize_unwrapped v n : normalizeSeaweedValues v = Ok n → native n → unwrapped v n.
Proof.
  unfold normalizeSeaweedValues, normalizeInOrder, unwrapped. intros Hn Hnat. split; [done|].
  destruct (hasSpecKey v) eqn:Hk; [left; by simplify_eq|].
  assert (¬ native v) as Hv by (rewrite <-hasSpecKey_native, Hk; done).
  assert (∀ w x, v !! w = Some x → specSection x = Some n →
    ∃ w fs, v !! w = Some (JObj fs) ∧ n = any_entries fs) as Hwrap.
  { intros w x Hw (_ & fs & -> & ->)%specSection_native. by exists w, fs. }
  destruct (omap _ seaweedValueWrapperKeys) as [|n' ns] eqn:Hom.
  - destruct (omap _ (map_to_list v)) as [|n' [|]] eqn:Hom2; simplify_eq; [by left|].
    right. split; [done|]. assert (n ∈ omap (λ kv, specSection kv.2) (map_to_list v)) as Hin by (rewrite Hom2; set_solver).
    apply list_elem_of_omap in Hin as ([w x] & Hin & Hx). apply elem_of_map_to_list in Hin. by eapply Hwrap.
  - simplify_eq. right. split; [done|].
    assert (n ∈ omap (λ w, v !! w ≫= specSection) seaweedValueWrapperKeys) as Hin by (rewrite Hom; set_solver).
    apply list_elem_of_omap in Hin as (w & _ & Hx). destruct (v !! w) as [x|] eqn:Hw; [|done]. by eapply Hwrap.
Qed.

Lemma unmarshal_values doc v : unmarshalValues doc = Ok v → values_of doc v.
Proof.
  destruct doc as [x|]; [|done]. destruct x as [| | | | |fs]; try done; intros [= <-]; [by right|left; by eexists].
Qed.

Lemma values_unmarshal doc v : values_of doc v → unmarshalValues doc = Ok v.
Proof. by intros [(fs & -> & ->)|[-> ->]]. Qed.

Lemma decode_text raw v : decodeValuesBytes raw = Ok v → text_values raw v.
Proof.
  unfold decodeValuesBytes. destruct (unmarshalValues (json_parse raw)) as [w|e] eqn:Hj.
  - intros [= <-]. left. by apply unmarshal_values.
  - destruct (unmarshalValues (yaml_parse raw)) as [w|e'] eqn:Hy; [|done]. intros [= <-]. right.
    split; [|by apply unmarshal_values]. intros [w' Hw'%values_unmarshal]. congruence.
Qed.
End Shapes.

(** Fields set in sequence, settled by the paths being apart. *)
Ltac fields :=
  repeat match goal with
  | H : setField _ _ ?u = Ok ?u' |- u_Kind ?u' = _ => rewrite (proj1 (setField_meta _ _ _ _ H))
  | H : setField _ _ ?u = Ok ?u' |- belongs _ _ ?u' =>
      apply (belongs_meta _ _ _ _ (proj2 (setField_meta _ _ _ _ H)))
  | H : setField _ _ ?u = Ok ?u' |- controlled _ ?u' =>
      apply (controlled_meta _ _ _ (proj2 (setField_meta _ _ _ _ H)))
  | H : setField ?p ?v ?u = Ok ?u' |- field_is ?u' ?p ?v => exact (setField_get _ _ _ _ H)
  | H : setField _ _ ?u = Ok ?u' |- field_is ?u' _ _ =>
      apply (setField_keep _ _ _ _ _ _ H); [vm_compute; reflexivity|]
  end.

Section Written.
Context `{JsonSyntax} `{InstanceLib} `{KubeLib} `{OwnerLib} `{!KubeLaws} `{!OwnerLaws}.
Context (app : ApplicationInstance).

Notation flux p Q := (wp typed_server (flux_writes app) p Q).

(** Reading values writes nothing and gives what the instance asks for. *)
Lemma valuesFrom_reads (may : permission icall (trace_of icall)) vs none g Q :
  as_Values (ai_Spec app) = Some vs → (∀ v, none = Ok v → v = None) →
  (∀ n nm g, may _ (IGetSecret n nm) g) → (∀ n nm g, may _ (IGetConfigMap n nm) g) →
  (∀ r k, (∀ v, r = Ok v → asked_values app (g ++ k) v) → Q r (g ++ k)) →
  wp typed_server may (valuesFrom vs (ai_Namespace app) none) Q g.
Proof.
  intros Hvs Hnone Hs Hc HQ. pose proof (λ r, HQ r []) as HQ0. rewrite app_nil_r in HQ0.
  unfold valuesFrom, loadValuesFromSecret, loadValuesFromConfigMap.
  case_bool_decide as Hi; [|case_bool_decide as Hse; [|case_bool_decide as Hcm]].
  - apply HQ0. intros v Hv. exists vs. split; [done|]. left. split; [done|].
    destruct (vs_Inline vs) as [raw|]; [|by apply Hnone].
    destruct (unmarshalValues (json_parse raw)) eqn:Hu; simplify_eq. by apply unmarshal_values.
  - destruct (vs_SecretRef vs) as [ref|] eqn:Hr; [|by apply HQ0]. apply wp_vis; [done|].
    intros [sec|e] g' [-> _]; cbn [wp]; apply HQ; [|done]. unfold fromData.
    destruct (sec_Data sec !! ok_Key ref) as [raw|] eqn:Hraw; [|done]. intros v Hv. exists vs. split; [done|].
    right; left. split; [done|]. exists ref, sec, raw. split_and!; [done|set_solver|done|by apply decode_text].
  - destruct (vs_ConfigMapRef vs) as [ref|] eqn:Hr; [|by apply HQ0]. apply wp_vis; [done|].
    intros [data|e] g' [-> _]; cbn [wp]; apply HQ; [|done]. unfold fromData.
    destruct (data !! ok_Key ref) as [raw|] eqn:Hraw; [|done]. intros v Hv. exists vs. split; [done|].
    right; right. split; [done|]. exists ref, data, raw. split_and!; [done|set_solver|done|by apply decode_text].
  - by apply HQ0.
Qed.

Lemma chart_source_written g :
  flux (ensureChartSource app) (λ r g', is_ok r = true →
    ∃ chart release, as_Chart (ai_Spec app) = Some chart ∧ releaseName app = Some release ∧
      source_written app chart release g') g.
Proof.
  unfold ensureChartSource. destruct (as_Chart (ai_Spec app)) as [chart|] eqn:Hchart; [|done].
  destruct (releaseName app) as [release|] eqn:Hrel; [|done].
  case_bool_decide as Hh; [|case_bool_decide as Ho; [|done]];
    (apply wp_vis; [done|]); intros [repo|e] g1 [-> Hu]; try done;
    specialize (Hu repo eq_refl); pose proof (belongs_fetched app _ _ _ Hu) as Hb;
    destruct Hu as [Hkind _];
    destruct (do! _ := _ in _) as [u|e] eqn:Hm; try done; inv_do Hm;
    apply wp_call; (split; [|intros [[]|e] g2 [-> _] Hok; [|done]; exists chart, release; split_and!; [done..|];
      exists u; split_and!; [set_solver| |]; unfold source_kind]).
  - exists chart, release. split_and!; [done..|]. left. split_and!; fields; done.
  - rewrite bool_decide_eq_false_2 by (rewrite Hh; done). fields; done.
  - fields; done.
  - exists chart, release. split_and!; [done..|]. right; left. split_and!; fields; done.
  - rewrite bool_decide_eq_true_2 by done. fields; done.
  - fields; done.
Qed.

Lemma helm_release_built chart release hr m u vals u' g :
  fetched "HelmRelease" (ai_Namespace app) release hr →
  SetControllerReference (ai_Meta app) (u_Meta hr) = Ok m →
  (do! hr := setField ["spec"; "interval"] (JStr "5m0s") (with_u_meta hr (with_labels m (ownerLabels app))) in
   do! hr := setField ["spec"; "chart"; "spec"; "version"] (JStr (ch_Version chart)) hr in
   do! hr := setField ["spec"; "chart"; "spec"; "chart"] (JStr (ch_Name chart)) hr in
   setField ["spec"; "chart"; "spec"; "sourceRef"]
     (JObj [("kind", JStr (source_kind chart)); ("name", JStr (chartSourceName release))]) hr) = Ok u →
  match vals with None => Ok u | Some v => setField ["spec"; "values"] (jobj v) u end = Ok u' →
  asked_values app g vals → helm_release app chart release g u'.
Proof.
  intros Hf Hm Hu Hv Hask. destruct (controlled_fetched app _ _ _ _ Hf Hm) as [Hb Hc].
  destruct Hf as [Hkind _]. inv_do Hu.
  destruct vals as [v|]; [|injection Hv as <-]; split_and!; try (fields; done).
  - exists (Some v). split; [done|]. intros m' [= <-]. by fields.
  - by exists None.
Qed.

Lemma helm_release_writes chart release g :
  as_Chart (ai_Spec app) = Some chart → releaseName app = Some release →
  source_written app chart release g →
  flux (ensureHelmRelease app) (λ _ _, True) g.
Proof.
  intros Hchart Hrel Hsrc. unfold ensureHelmRelease. rewrite Hchart, Hrel. fold (source_kind chart).
  apply wp_vis; [done|]. intros [hr|e] g1 [-> Hf]; [|done]. specialize (Hf hr eq_refl).
  destruct (SetControllerReference _ _) as [m|e] eqn:Hm; [|done]. 
  destruct (do! _ := _ in _) as [u|e] eqn:Hu; [|done]. unfold buildValues.
  destruct (as_Values (ai_Spec app)) as [vs|] eqn:Hvs; [|done].
  apply wp_bind, (valuesFrom_reads _ vs); [done|by intros v [= <-]|done..|]. intros [vals|e] k Hask; [|done].
  destruct (match vals with None => _ | Some _ => _ end) as [u'|e] eqn:Hv; [|done].
  apply wp_call. split; [|done]. exists chart, release. split_and!; [done..|]. right; right. split.
  - eapply helm_release_built; [done..|by apply Hask].
  - destruct Hsrc as (s & Hs & Hrest). exists s. split; [|done]. set_solver.
Qed.

Lemma seaweed_object_writes g :
  wp typed_server (seaweed_writes app) (EnsureSeaweed app) (λ _ _, True) g.
Proof.
  unfold EnsureSeaweed, loadValues. destruct (validateReleaseRef app) as [release|] eqn:Hr; [|done].
  assert (releaseName app = Some release ∧ release ≠ "") as [Hrel Hne].
  { revert Hr. unfold validateReleaseRef. destruct (releaseName app); [|done]. case_bool_decide; naive_solver. }
  destruct (as_Values (ai_Spec app)) as [vs|] eqn:Hvs; [|done].
  apply wp_bind, wp_bind, (valuesFrom_reads _ vs); [done..|]. intros [v0|e] k Hask; [|done]. cbn [wp seaweed_normalized].
  destruct (normalizeSeaweedValues (default ∅ v0)) as [v|] eqn:Hn; [|done].
  rewrite (normalizeInOrder_idempotent _ _ _ (reflexivity _) Hn). unfold writeSeaweed.
  case_bool_decide as Hns; [done|]. rewrite Hns.
  apply wp_vis; [done|]. intros [sw|e] g1 [-> Hf]; [|done]. specialize (Hf sw eq_refl).
  destruct (SetControllerReference _ _) as [m|e] eqn:Hm; [|done].
  destruct (controlled_fetched app _ _ _ _ Hf Hm) as [Hb Hc]. destruct Hf as [Hkind _].
  case_bool_decide as Hempty; [done|].
  destruct (setField _ _ _) as [u|e] eqn:Hu; [|done].
  apply wp_call. split; [|done]. exists release. split_and!; [done..|].
  split_and!; [fields; done..|]. exists v0, v, (seaweedSpec v). split_and!; [|..|fields; done|apply seaweedSpec_lookup].
  - destruct (Hask v0 eq_refl) as (vs' & ? & Hv). exists vs'. split; [done|]. set_solver.
  - apply normalize_unwrapped; [done|]. apply map_choose in Hempty as (key & x & Hx).
    rewrite seaweedSpec_lookup in Hx. case_decide; [|done]. by exists key.
Qed.

(** C20: Whatever the server answers, every object [EnsureRelease] and
    [EnsureSeaweed] write back is well formed: a HelmRepository, an OCIRepository,
    a HelmRelease or a Seaweed, in the namespace of the instance, named after its
    release, labelled with the owner labels, with the URL, version, chart name and
    source reference the instance asks for.  The spec.values of a HelmRelease are
    the values the instance asks for: its inline values, or what the Secret or
    ConfigMap it names held under the key when it was read, as JSON or else YAML (a
    null or missing document leaves the field as the server has it).  The spec of a
    Seaweed holds exactly the native sections of these values, or of a wrapper in
    them, and at least one.  HelmRelease and Seaweed are owned by the instance, and a
    HelmRelease is written only after the chart source it refers to was accepted.
    Nothing else is written or deleted. *)
Theorem written_objects_typed (g : trace_of icall) :
  wp typed_server (flux_writes app) (EnsureRelease app) (λ _ _, True) g ∧
  wp typed_server (seaweed_writes app) (EnsureSeaweed app) (λ _ _, True) g.
Proof.
  split; [|apply seaweed_object_writes]. unfold EnsureRelease. apply wp_bind.
  eapply wp_mono; [|apply chart_source_written]. intros [[]|e] g1 Hs; [|done].
  destruct (Hs eq_refl) as (chart & release & Hc & Hr & Hw). by eapply helm_release_writes.
Qed.
End Written.

(** ** A run that writes *)

#[local] Existing Instances reference_instance_lib reference_lib reference_owner.

Definition written_kinds (g : trace_of icall) : list string :=
  omap (λ e, match e with Called c _ => match c with IWriteBack u => Some (u_Kind u) | _ => None end end) g.

Lemma written_objects_typed_witness :
  (written_kinds (calls_of sample_managed (@EnsureRelease wrapped_values _ _ _ sample_managed)) =
     ["OCIRepository"; "HelmRelease"] ∧
   written_kinds (calls_of sample_managed (@EnsureSeaweed wrapped_values _ _ _ sample_managed)) = ["Seaweed"]) ∧
  wp typed_server (@flux_writes wrapped_values _ _ sample_managed) (@EnsureRelease wrapped_values _ _ _ sample_managed)
     (λ _ _, True) [] ∧
  wp typed_server (@seaweed_writes wrapped_values _ _ sample_managed) (@EnsureSeaweed wrapped_values _ _ _ sample_managed)
     (λ _ _, True) [].
Proof. split; [by vm_compute|]. apply (@written_objects_typed wrapped_values); apply _. Defined.
