(* ===== verification/GoFlags.v ===== *)
(** * The standard library's package flag

    [FlagSet.Parse] as the program uses it: string, bool and duration flags.
    Flags that another package registers on the same set are known by name only.
    [time.ParseDuration] is a parameter (it goes through floating point). *)

From stdpp Require Import base list strings gmap.
From S2P Require Import Prelude GoStrings.

(** A flag's type; [BoundFlag] is registered by a library, and is a boolean flag
    or not. *)
Inductive flagKind := StringFlag | BoolFlag | DurationFlag | BoundFlag (isBool : bool).

Inductive flagValue :=
| VString (s : string)
| VBool (b : bool)
| VDuration (d : Z)
| VBound (s : string).

Class FlagLib := {
  ParseDuration : string → result Z;
  (** [Value.Set] of a flag a library registered *)
  BoundSet : string → string → result unit
}.

(** [flag.ErrHelp] *)
Definition ErrHelp : error := errorf "flag: help requested".

Definition minus : Ascii.ascii := byte 45.
Definition equals : Ascii.ascii := byte 61.

(** [strconv.ParseBool] *)
Definition ParseBool (s : string) : result bool :=
  if bool_decide (s ∈ ["1"; "t"; "T"; "true"; "TRUE"; "True"]) then Ok true
  else if bool_decide (s ∈ ["0"; "f"; "F"; "false"; "FALSE"; "False"]) then Ok false
  else Err (errorf ("strconv.ParseBool: parsing " +:+ quote s +:+ ": invalid syntax")).

(** What an argument is, before the flag set is consulted. *)
Inductive argument :=
| Positional                                   (** not a flag: parsing stops before it *)
| Terminator                                   (** the argument [--]: parsing stops after it *)
| BadSyntax
| FlagArg (name : string) (value : option string).

(** The name and, after the first [=], the value. *)
Fixpoint cutEquals (s : string) : string * option string :=
  match s with
  | EmptyString => (EmptyString, None)
  | String c s => if bool_decide (c = equals) then (EmptyString, Some s)
                  else let '(n, v) := cutEquals s in (String c n, v)
  end.

Definition classifyName (name : string) : argument :=
  match name with
  | EmptyString => BadSyntax
  | String c _ => if bool_decide (c = minus ∨ c = equals) then BadSyntax
                  else let '(n, v) := cutEquals name in FlagArg n v
  end.

Definition classify (s : string) : argument :=
  match s with
  | String c (String c2 rest) =>
      if bool_decide (c ≠ minus) then Positional
      else if bool_decide (c2 = minus) then
        (if bool_decide (rest = EmptyString) then Terminator else classifyName rest)
      else classifyName (String c2 rest)
  | _ => Positional
  end.

Definition formal : Type := gmap string flagKind.
Definition actual : Type := gmap string flagValue.

Section Parse.
Context `{FlagLib} (fs : formal).

Definition isBoolFlag (k : flagKind) : bool :=
  match k with BoolFlag => true | BoundFlag b => b | _ => false end.

(** [flag.Value.Set] *)
Definition setFlag (name value : string) (k : flagKind) : result flagValue :=
  match k with
  | StringFlag => Ok (VString value)
  | BoolFlag => do! b := ParseBool value in Ok (VBool b)
  | DurationFlag => do! d := ParseDuration value in Ok (VDuration d)
  | BoundFlag _ => do! _ := BoundSet name value in Ok (VBound value)
  end.

(** A failed [Set], reported. *)
Definition invalidValue (name value : string) (k : flagKind) (e : error) : error :=
  if isBoolFlag k
  then wrapf ("invalid boolean value " +:+ quote value +:+ " for -" +:+ name) e
  else wrapf ("invalid value " +:+ quote value +:+ " for flag -" +:+ name) e.

(** [FlagSet.Parse]: the flags that were set and the arguments that remain. *)
Fixpoint Parse (args : list string) (m : actual) : result (actual * list string) :=
  match args with
  | [] => Ok (m, [])
  | s :: rest =>
      match classify s with
      | Positional => Ok (m, s :: rest)
      | Terminator => Ok (m, rest)
      | BadSyntax => Err (errorf ("bad flag syntax: " +:+ s))
      | FlagArg name value =>
          match fs !! name with
          | None => Err (if bool_decide (name = "help" ∨ name = "h") then ErrHelp
                         else errorf ("flag provided but not defined: -" +:+ name))
          | Some k =>
              let use v := match setFlag name v k with
                           | Ok x => Ok x
                           | Err e => Err (invalidValue name v k e)
                           end in
              if isBoolFlag k then
                do! x := match value with
                         | Some v => use v
                         | None => match setFlag name "true" k with
                                   | Ok x => Ok x
                                   | Err e => Err (wrapf ("invalid boolean flag " +:+ name) e)
                                   end
                         end in
                Parse rest (<[name := x]> m)
              else
                match value, rest with
                | Some v, _ => do! x := use v in Parse rest (<[name := x]> m)
                | None, v :: rest => do! x := use v in Parse rest (<[name := x]> m)
                | None, [] => Err (errorf ("flag needs an argument: -" +:+ name))
                end
          end
      end
  end.
End Parse.

(** The variable a flag is bound to. *)
Definition stringVar (m : actual) (name def : string) : string :=
  match m !! name with Some (VString s) => s | _ => def end.
Definition boolVar (m : actual) (name : string) (def : bool) : bool :=
  match m !! name with Some (VBool b) => b | _ => def end.
Definition durationVar (m : actual) (name : string) (def : Z) : Z :=
  match m !! name with Some (VDuration d) => d | _ => def end.

(** ** Written flags are read back *)

(** A name that stands for itself: not empty, no leading minus, no equals sign. *)
Definition plainName (name : string) : bool :=
  match name with
  | EmptyString => false
  | String c _ => negb (bool_decide (c = minus)) && no_byte equals name
  end.

Definition render (kv : string * string) : string := "--" +:+ kv.1 +:+ "=" +:+ kv.2.

Lemma cutEquals_render name v : no_byte equals name = true → cutEquals (name +:+ "=" +:+ v) = (name, Some v).
Proof.
  induction name as [|c name IH]; [done|]. intros [Hc Hn]%no_byte_cons. rewrite app_String_cons. cbn [cutEquals].
  rewrite bool_decide_eq_false_2 by done. by rewrite (IH Hn).
Qed.

Lemma classify_render name v : plainName name = true → classify (render (name, v)) = FlagArg name (Some v).
Proof.
  destruct name as [|c name]; [done|]. intros [Hc Hn]%andb_true_iff.
  apply negb_true_iff, bool_decide_eq_false in Hc. pose proof Hn as [Hc' _]%no_byte_cons.
  change (render (String c name, v)) with (String minus (String minus (String c name +:+ "=" +:+ v))).
  cbv beta iota delta [classify].
  rewrite bool_decide_eq_false_2 by (intros Hm; by apply Hm).
  rewrite bool_decide_eq_true_2 by done. rewrite bool_decide_eq_false_2 by done.
  rewrite app_String_cons. cbv beta iota delta [classifyName].
  rewrite bool_decide_eq_false_2 by naive_solver.
  rewrite <-app_String_cons. by rewrite cutEquals_render.
Qed.

Lemma Parse_render `{FlagLib} (fs : formal) (l : list (string * string)) m :
  Forall (λ kv, plainName kv.1 = true ∧ fs !! kv.1 = Some StringFlag) l →
  Parse fs (render <$> l) m = Ok (foldl (λ m kv, <[kv.1 := VString kv.2]> m) m l, []).
Proof.
  revert m. induction l as [|[name v] l IH]; intros m Hl; [done|].
  apply Forall_cons in Hl as [[Hp Hf] Hl]. cbn [fmap list_fmap Parse foldl].
  rewrite (classify_render name v Hp). cbn in Hf. rewrite Hf. cbn. by apply IH.
Qed.
