(* ===== verification/Cli.v ===== *)
(** * internal/cli/register.go: the [register] command

    [RunRegister] as a program over [ccall]: it reads its flags and two environment
    variables, applies a [Cluster] and polls until the controller has recorded an
    exchange, for two minutes.  Creating a client from a configuration is library
    code, and so is reading the configuration: calls that succeed or fail. *)

From stdpp Require Import base list strings pretty gmap.
From S2P Require Import Prelude Traces GoStrings Api Conditions Kube Credentials GoFlags.

Inductive ccall : Type → Type :=
| CGetenv (name : string) : ccall string
| CInClusterConfig : ccall (result unit)
| CClientConfig : ccall (result unit)
| CNewClient : ccall (result unit)
| CPrint (line : string) : ccall unit
(** server-side apply; the answer is stored into the argument *)
| CApply (c : Cluster) (fieldOwner : string) (force : bool) : ccall (result Cluster)
| CGetCluster (name : string) : ccall (result Cluster)
| CNow : ccall Z
| CSleep (d : Z) : ccall unit.

Definition registerFlags : formal :=
  <["token" := StringFlag]> (<["control-plane-endpoint" := StringFlag]>
  (<["cluster-name" := StringFlag]> {[ "cluster-id" := StringFlag ]})).

Fixpoint findCondition (conditions : list Condition) (t : string) : option Condition :=
  match conditions with
  | [] => None
  | c :: conditions => if bool_decide (c_Type c = t) then Some c else findCondition conditions t
  end.

Definition restConfig : prog ccall (result unit) :=
  let* inCluster := call CInClusterConfig in
  match inCluster with
  | Ok _ => Ret (Ok tt)
  | Err _ => call CClientConfig
  end.

(** The object that is applied: everything else is zero. *)
Definition registrationCluster (name clusterID baseURL token : string) : Cluster :=
  {| cl_Meta := meta_of "" name;
     cl_Spec := {| cs_ClusterID := clusterID; cs_ControlPlaneEndpoint := "";
       cs_ControlPlaneBaseURL := baseURL; cs_RegistrationTokenSecretRef := None;
       cs_RegistrationToken := token; cs_Capabilities := None; cs_RotateCredentials := false |};
     cl_Status := {| cst_Phase := ""; cst_Conditions := []; cst_LastHeartbeat := None;
       cst_CredentialStatus := None; cst_CredentialsSecretRef := None; cst_ObservedToken := "" |} |}.

Definition registrationTimeout : Z := 120 * second.
Definition registrationPoll : Z := 2 * second.

(** What is printed once the exchange is recorded. *)
Definition announce (latest : Cluster) (cc : ClusterCredentialStatus) : prog ccall unit :=
  let* _ := call (CPrint "exchanged registration token for bootstrap credential") in
  let* _ := call (CPrint ("credential persisted to Secret " +:+ cc_SecretNamespace cc +:+ "/" +:+
                          cc_SecretName cc)) in
  match findCondition (cst_Conditions (cl_Status latest)) ConditionConnected with
  | Some cond =>
      if bool_decide (c_Status cond = ConditionTrue)
      then call (CPrint ("Cluster " +:+ Name (cl_Meta latest) +:+ " condition Connected=True (" +:+
                         c_Reason cond +:+ ")"))
      else Ret tt
  | None => Ret tt
  end.

Definition consumed (c : Cluster) : option ClusterCredentialStatus :=
  match cst_CredentialStatus (cl_Status c) with
  | Some cc => if cc_RegistrationTokenConsumed cc then Some cc else None
  | None => None
  end.

(** The loop of [RunRegister]; [None] when the rounds are used up. *)
Fixpoint awaitRegistration (fuel : nat) (name : string) (deadline : Z) : prog ccall (option (result unit)) :=
  match fuel with
  | O => Ret None
  | S fuel =>
      let* now := call CNow in
      if bool_decide (deadline ≤ now)%Z
      then Ret (Some (Err (errorf "timed out waiting for registration to complete")))
      else
        try* latest := call (CGetCluster name)
          catch e => Ret (Some (Err (wrapf "get Cluster CR" e))) in
        match consumed latest with
        | Some cc => let* _ := announce latest cc in Ret (Some (Ok tt))
        | None => let* _ := call (CSleep registrationPoll) in awaitRegistration fuel name deadline
        end
  end.

Definition registrationFuel : nat := 61.

(** The flags and the environment, resolved: name, cluster ID, base URL, token. *)
Definition registerInputs (m : actual) : prog ccall (result (string * string * string * string)) :=
  let token := stringVar m "token" "" in
  if bool_decide (TrimSpace token = "") then Ret (Err (errorf "--token is required"))
  else
    let url := stringVar m "control-plane-endpoint" "" in
    let* url := (if bool_decide (TrimSpace url = "") then call (CGetenv "CONTROL_PLANE_BASE_URL") else Ret url) in
    if bool_decide (TrimSpace url = "") then
      Ret (Err (errorf "--control-plane-endpoint or CONTROL_PLANE_BASE_URL is required"))
    else
      let name := stringVar m "cluster-name" "" in
      let name := if bool_decide (TrimSpace name = "") then "cluster-local" else name in
      let id := stringVar m "cluster-id" "" in
      let* id := (if bool_decide (TrimSpace id = "") then call (CGetenv "VWORKSPACE_CLUSTER_ID") else Ret id) in
      Ret (Ok (name, id, url, token)).

(** From the applied object on. *)
Definition applyAndWait (cluster : Cluster) : prog ccall (option (result unit)) :=
  let* _ := call (CPrint ("registering cluster " +:+ Name (cl_Meta cluster) +:+ " with " +:+
                          cs_ControlPlaneBaseURL (cl_Spec cluster) +:+ " ...")) in
  try* cluster := call (CApply cluster "vworkspace-cli" true)
    catch e => Ret (Some (Err (wrapf "apply Cluster CR" e))) in
  let* now := call CNow in
  awaitRegistration registrationFuel (Name (cl_Meta cluster)) (now + registrationTimeout).

Definition RunRegister `{FlagLib} (args : list string) : prog ccall (option (result unit)) :=
  match Parse registerFlags args ∅ with
  | Err e => Ret (Some (Err e))
  | Ok (m, _) =>
      try* inputs := registerInputs m catch e => Ret (Some (Err e)) in
      let '(name, id, url, token) := inputs in
      try* _ := restConfig catch e => Ret (Some (Err e)) in
      try* _ := call CNewClient catch e => Ret (Some (Err (wrapf "create kubernetes client" e))) in
      applyAndWait (registrationCluster name (TrimSpace id) (TrimSpace url) (TrimSpace token))
  end.

(** ** The command against a server and a clock *)

(** The time and the calls so far. *)
Notation shell := (Z * trace_of ccall)%type.

(** Time does not go back, a sleep takes its time, and the server answers with the
    object it was asked for; otherwise anything may be answered. *)
Definition answer_ok {X} (c : ccall X) (t t' : Z) : X → Prop :=
  match c in ccall Y return Y → Prop with
  | CNow => λ now, now = t'
  | CSleep d => λ _, (t + d ≤ t')%Z
  | CApply c _ _ => λ r, ∀ c', r = Ok c' → Name (cl_Meta c') = Name (cl_Meta c)
  | CGetCluster name => λ r, ∀ c', r = Ok c' → Name (cl_Meta c') = name
  | _ => λ _, True
  end.

Definition terminal : environment ccall shell := λ X c g x g',
  (g.1 ≤ g'.1)%Z ∧ g'.2 = g.2 ++ [Called c x] ∧ answer_ok c g.1 g'.1 x.

Section Command.
Context `{FlagLib} (args : list string).

(** A setting: the flag, or, if it is blank, what the environment variable was read as. *)
Definition flag_or_env (flag var v : string) (g : trace_of ccall) : Prop :=
  if bool_decide (TrimSpace flag = "") then Called (CGetenv var) v ∈ g else v = flag.

(** The object the arguments and the environment ask for: nothing in it is blank that
    must not be, and only the name is taken as written. *)
Definition requested (c : Cluster) (g : trace_of ccall) : Prop :=
  ∃ m rest id url, Parse registerFlags args ∅ = Ok (m, rest) ∧
    let token := TrimSpace (stringVar m "token" "") in
    let name := stringVar m "cluster-name" "" in
    token ≠ "" ∧ TrimSpace url ≠ "" ∧
    flag_or_env (stringVar m "control-plane-endpoint" "") "CONTROL_PLANE_BASE_URL" url g ∧
    flag_or_env (stringVar m "cluster-id" "") "VWORKSPACE_CLUSTER_ID" id g ∧
    Name (cl_Meta c) = (if bool_decide (TrimSpace name = "") then "cluster-local" else name) ∧
    cs_ClusterID (cl_Spec c) = TrimSpace id ∧ cs_ControlPlaneBaseURL (cl_Spec c) = TrimSpace url ∧
    cs_RegistrationToken (cl_Spec c) = token.

(** The server accepted [c], and the clock read [start] right after. *)
Definition applied_at (c : Cluster) (start : Z) (g : trace_of ccall) : Prop :=
  ∃ before c' after, g = before ++ Called (CApply c "vworkspace-cli" true) (Ok c') :: Called CNow start :: after.

Definition is_apply (e : event ccall) : bool :=
  match e with Called c _ => match c with CApply _ _ _ => true | _ => false end end.

(** The requested object is applied once; only that object is read, after the server
    accepted it, and right after a clock reading that is less than two minutes later
    than the one taken then. *)
Definition registers : permission ccall shell := λ X c g,
  match c with
  | CApply c owner force =>
      requested c g.2 ∧ owner = "vworkspace-cli" ∧ force = true ∧ Forall (λ e, is_apply e = false) g.2
  | CGetCluster name =>
      ∃ c start now earlier, requested c g.2 ∧ name = Name (cl_Meta c) ∧
        applied_at c start earlier ∧ g.2 = earlier ++ [Called CNow now] ∧ (now < start + 120 * second)%Z
  | _ => True
  end.

(** The command succeeds on a [Cluster] whose status says consumed. *)
Definition registered (r : option (result unit)) (g : shell) : Prop :=
  r ≠ None ∧
  (r = Some (Ok tt) → ∃ c latest cc, requested c g.2 ∧
     Called (CGetCluster (Name (cl_Meta c))) (Ok latest) ∈ g.2 ∧
     cst_CredentialStatus (cl_Status latest) = Some cc ∧ cc_RegistrationTokenConsumed cc = true).

Lemma flag_or_env_app flag var v g k : flag_or_env flag var v g → flag_or_env flag var v (g ++ k).
Proof. unfold flag_or_env. case_bool_decide; [set_solver|done]. Qed.

Lemma requested_app c g k : requested c g → requested c (g ++ k).
Proof.
  intros (m & rest & id & url & Hm & Ht & Hu & Hfu & Hfi & Hc). exists m, rest, id, url.
  split; [done|]. cbn zeta. split_and!; auto using flag_or_env_app; apply Hc.
Qed.

Lemma applied_at_app c start g k : applied_at c start g → applied_at c start (g ++ k).
Proof.
  intros (before & c' & after & ->). exists before, c', (after ++ k). by rewrite <-app_assoc.
Qed.

Lemma consumed_true c cc :
  consumed c = Some cc → cst_CredentialStatus (cl_Status c) = Some cc ∧ cc_RegistrationTokenConsumed cc = true.
Proof.
  unfold consumed. destruct (cst_CredentialStatus (cl_Status c)) as [x|]; [|done].
  destruct (cc_RegistrationTokenConsumed x) eqn:Hx; [|done]. by intros [= <-].
Qed.

Lemma announce_ends latest cc Q g :
  (∀ k g', g'.2 = g.2 ++ k → Q tt g') → wp terminal registers (announce latest cc) Q g.
Proof.
  intros HQ. unfold announce. apply wp_vis; [done|]. intros [] g1 (_ & H1 & _).
  apply wp_vis; [done|]. intros [] g2 (_ & H2 & _). rewrite H1, <-app_assoc in H2.
  destruct (findCondition _ _) as [cond|]; [|by eapply HQ].
  case_bool_decide; [|by eapply HQ]. apply wp_call. split; [done|]. intros [] g3 (_ & H3 & _).
  rewrite H2, <-app_assoc in H3. by eapply HQ.
Qed.

Lemma await_ends n : ∀ c start g,
  (start + 120 * second ≤ g.1 + registrationPoll * Z.of_nat n)%Z → requested c g.2 → applied_at c start g.2 →
  wp terminal registers (awaitRegistration (S n) (Name (cl_Meta c)) (start + 120 * second)) registered g.
Proof.
  induction n as [|n IH]; intros c start g Hd Hc Hin; cbn [awaitRegistration];
    (apply wp_vis; [done|]); intros now g1 (Ht1 & Hg1 & ->);
    (case_bool_decide; [by split|]); [lia|].
  apply wp_vis; [exists c, start, g1.1, g.2; rewrite Hg1; split_and!; try done; [by apply requested_app|lia]|].
  intros [latest|e] g2 (Ht2 & Hg2 & Hname); [|by split].
  rewrite Hg1, <-app_assoc in Hg2. cbn beta match. destruct (consumed latest) as [cc|] eqn:Hcc.
  - apply wp_bind, announce_ends. intros k g3 Hg3. split; [done|]. intros _.
    exists c, latest, cc. rewrite Hg3, Hg2. split_and!; [by do 2 apply requested_app|set_solver|..];
      by apply (consumed_true latest).
  - apply wp_vis; [done|]. intros [] g3 (_ & Hg3 & Ht3). cbn in Ht3. rewrite Hg2, <-app_assoc in Hg3.
    apply IH; [lia|rewrite Hg3; by apply requested_app|rewrite Hg3; by apply applied_at_app].
Qed.

Definition not_applied (g : shell) : Prop := Forall (λ e, is_apply e = false) g.2.

(** Before the apply, with [cl] to be applied. *)
Definition preparing (cl : Cluster) (g : shell) : Prop := not_applied g ∧ requested cl g.2.

Lemma wp_preparing {A X} cl (c : ccall X) (f : X → prog ccall A) Q g :
  (∀ x, is_apply (Called c x) = false) → preparing cl g → match c with CGetCluster _ => False | _ => True end →
  (∀ x g', preparing cl g' → wp terminal registers (f x) Q g') →
  wp terminal registers (prog_bind f (call c)) Q g.
Proof.
  intros Hq [Hg Hr] Hc Hf. apply wp_vis.
  - destruct c; try done. by specialize (Hq (Err (errorf ""))).
  - intros x g' (_ & Hg' & _). apply Hf. unfold preparing, not_applied. rewrite Hg'.
    split; [apply Forall_app; split; [done|by constructor]|by apply requested_app].
Qed.

(** A flag, or the environment variable behind it. *)
Lemma wp_flag_or_env {A} (v k : string) (f : string → prog ccall A) Q g :
  not_applied g →
  (∀ x g' more, g'.2 = g.2 ++ more → not_applied g' → flag_or_env v k x g'.2 → wp terminal registers (f x) Q g') →
  wp terminal registers
    (prog_bind f (if bool_decide (TrimSpace v = "") then call (CGetenv k) else Ret v)) Q g.
Proof.
  intros Hg Hf. case_bool_decide as Hv.
  - apply wp_vis; [done|]. intros x g' (_ & Hg' & _). apply (Hf x g' _ Hg'); unfold not_applied, flag_or_env;
      rewrite Hg'; [apply Forall_app; split; [done|by constructor]|].
    rewrite bool_decide_eq_true_2 by done. set_solver.
  - apply (Hf v g []); [by rewrite app_nil_r|done|]. unfold flag_or_env. by rewrite bool_decide_eq_false_2.
Qed.

Lemma registerInputs_requested m rest Q g :
  Parse registerFlags args ∅ = Ok (m, rest) → not_applied g →
  (∀ e g', Q (Err e) g') →
  (∀ name id url token g', not_applied g' →
     requested (registrationCluster name (TrimSpace id) (TrimSpace url) (TrimSpace token)) g'.2 →
     Q (Ok (name, id, url, token)) g') →
  wp terminal registers (registerInputs m) Q g.
Proof.
  intros Hm Hg He HQ. unfold registerInputs. case_bool_decide as Htok; [apply He|].
  apply wp_flag_or_env; [done|]. intros url g1 more1 Hmore1 Hg1 Hurl. case_bool_decide as Hu; [apply He|].
  apply wp_flag_or_env; [done|]. intros id g2 more2 Hmore2 Hg2 Hid. apply HQ; [done|].
  exists m, rest, id, url. split; [done|]. cbn zeta.
  split_and!; [done|done|rewrite Hmore2; by apply flag_or_env_app|done..].
Qed.

(** C24: [register], on any arguments, against any server and a clock that moves,
    returns.  It applies one object, once, and only when the token and the endpoint
    are not blank after trimming: the [Cluster] whose name, ID, endpoint and token
    are those of the flags, where CONTROL_PLANE_BASE_URL supplies a blank endpoint,
    VWORKSPACE_CLUSTER_ID a blank ID, and cluster-local a blank name.  It then reads
    only that object, each time right after a clock reading less than two minutes
    after the one that followed the apply, and succeeds only on a reading whose
    status says that the token was consumed.  That the result is never missing says
    that the 61 rounds of the model's loop are enough. *)
Theorem register_command (t : Z) :
  wp terminal registers (RunRegister args) registered (t, []).
Proof.
  unfold RunRegister. destruct (Parse registerFlags args ∅) as [[m rest]|e] eqn:Hm; [|by split].
  apply wp_bind. eapply registerInputs_requested; [exact Hm|by constructor|by intros; split|].
  intros name id url token g Hg Hreq. cbn [prog_bind]. unfold restConfig.
  set (cl := registrationCluster _ _ _ _) in *.
  assert (∀ (r : result unit) g, preparing cl g → wp terminal registers
    match r with
    | Ok _ => try* _ := call CNewClient catch e => Ret (Some (Err (wrapf "create kubernetes client" e))) in
              applyAndWait cl
    | Err e => Ret (Some (Err e))
    end registered g) as Hrest.
  { clear g Hg Hreq. intros [[]|e] g Hg; [|by split]. apply (wp_preparing cl); [done..|].
    intros [[]|e] g1 Hg1; [|by split]. unfold applyAndWait. apply (wp_preparing cl); [done..|].
    intros _ g2 [Hg2 Hr2]. apply wp_vis; [done|]. intros [c'|e] g3 (_ & Hg3 & Hn); [|by split].
    apply wp_vis; [done|]. intros now g4 (_ & Hg4 & ->). rewrite (Hn c' eq_refl), Hg3, <-app_assoc in *.
    apply (await_ends 60); [unfold registrationPoll, second; lia|rewrite Hg4; by apply requested_app|].
    rewrite Hg4. by exists g2.2, c', []. }
  apply (wp_bind terminal), (wp_preparing cl); [done|by split|done|]. intros [[]|e] g1 Hg1; [by apply (Hrest (Ok tt))|].
  destruct Hg1 as [Hg1 Hr1]. apply wp_call. split; [done|]. intros x g2 (_ & Hg2 & _). apply Hrest.
  unfold preparing, not_applied. rewrite Hg2. split; [apply Forall_app; split; [done|by constructor]|by apply requested_app].
Qed.
End Command.

(** ** A cluster that was registered before *)

(** A server that has the [Cluster] already, with the status of an earlier
    registration: it merges the applied spec and reads back. *)
Definition with_old_status (c : Cluster) (cc : ClusterCredentialStatus) (old : string) : Cluster :=
  {| cl_Meta := cl_Meta c; cl_Spec := cl_Spec c;
     cl_Status := {| cst_Phase := ClusterPhaseError; cst_Conditions := []; cst_LastHeartbeat := None;
       cst_CredentialStatus := Some cc; cst_CredentialsSecretRef := None; cst_ObservedToken := old |} |}.

Definition registered_before (c : Cluster) (cc : ClusterCredentialStatus) (old : string)
    : ∀ X, ccall X → X := λ X call,
  match call in ccall Y return Y with
  | CGetenv _ => ""
  | CInClusterConfig | CClientConfig | CNewClient => Ok tt
  | CPrint _ => tt
  | CApply c _ _ => Ok (with_old_status c cc old)
  | CGetCluster _ => Ok (with_old_status c cc old)
  | CNow => 0%Z
  | CSleep _ => tt
  end.

Definition waits (e : event ccall) : bool :=
  match e with Called c _ => match c with CSleep _ => true | _ => false end end.
Definition announces (e : event ccall) : bool :=
  match e with
  | Called c _ => match c with
                  | CPrint line => bool_decide (line = "exchanged registration token for bootstrap credential")
                  | _ => false
                  end
  end.

(** On a [Cluster] that was registered before, [register] with a fresh token
    announces an exchange and succeeds at its first reading, without waiting for
    the controller: the status it looks at is the one the earlier registration
    left, whatever token was observed then.  (The controller, for its part,
    adopts stored credentials instead of exchanging the token.) *)
Theorem register_trusts_earlier_exchange `{FlagLib} (token url : string) (c : Cluster)
    (cc : ClusterCredentialStatus) (old : string) :
  TrimSpace token ≠ "" → TrimSpace url ≠ "" → cc_RegistrationTokenConsumed cc = true →
  let out := run (trace_handler (registered_before c cc old))
    (RunRegister (render <$> [("token", token); ("control-plane-endpoint", url)])) [] in
  out.1 = Some (Ok tt) ∧ existsb announces out.2 = true ∧ existsb waits out.2 = false ∧
  Called (CApply (registrationCluster "cluster-local" "" (TrimSpace url) (TrimSpace token))
            "vworkspace-cli" true)
    (Ok (with_old_status (registrationCluster "cluster-local" "" (TrimSpace url) (TrimSpace token)) cc old))
    ∈ out.2.
Proof.
  intros Ht Hu Hcc. cbn zeta. apply (run_wp _ _ (λ r tr, r = Some (Ok tt) ∧ existsb announces tr = true ∧
    existsb waits tr = false ∧ _ ∈ tr)). unfold RunRegister.
  rewrite (Parse_render registerFlags [("token", token); ("control-plane-endpoint", url)] ∅)
    by (repeat constructor).
  assert (∀ m : actual, m = <["control-plane-endpoint" := VString url]> (<["token" := VString token]> ∅) →
    stringVar m "token" "" = token ∧ stringVar m "control-plane-endpoint" "" = url ∧
    stringVar m "cluster-name" "" = "" ∧ stringVar m "cluster-id" "" = "") as Hm by (by intros m ->).
  cbn [foldl fst snd]. unfold registerInputs. destruct (Hm _ eq_refl) as (-> & -> & -> & ->).
  rewrite (bool_decide_eq_false_2 (TrimSpace token = "")), (bool_decide_eq_false_2 (TrimSpace url = "")) by done.
  cbn [prog_bind]. rewrite (bool_decide_eq_false_2 (TrimSpace url = "")) by done.
  unfold restConfig, applyAndWait. change (TrimSpace "") with "".
  rewrite !(bool_decide_eq_true_2 ("" = "")) by done.
  assert (consumed (with_old_status c cc old) = Some cc) as Hc by (unfold consumed; cbn; by rewrite Hcc).
  do 6 (split; [done|]; intros ? ? [-> ->]; cbn -[registrationFuel TrimSpace String.append existsb]).
  change registrationFuel with (S 60). cbn [awaitRegistration].
  apply wp_vis; [done|]. intros ? ? [-> ->]. cbn beta. rewrite bool_decide_eq_false_2 by (vm_compute; congruence).
  apply wp_vis; [done|]. intros ? ? [-> ->]. cbn [registered_before]. rewrite Hc. unfold announce.
  apply wp_bind. do 2 (apply wp_vis; [done|]; intros ? ? [-> ->]). cbn [cl_Status with_old_status cst_Conditions findCondition wp].
  rewrite !existsb_app. cbn [existsb announces waits app orb]. split_and!; [done|done|done|].
  change (TrimSpace "") with "". set_solver.
Qed.

Definition plain_flags : FlagLib :=
  {| ParseDuration s := match s with "30s" => Ok (30 * second)%Z | _ => Err (errorf "invalid duration") end;
     BoundSet _ _ := Ok tt |}.
#[local] Existing Instance plain_flags.

Lemma register_trusts_earlier_exchange_witness :
  let old := {| cc_SecretName := "creds"; cc_SecretNamespace := "vworkspace-system"; cc_RegisteredAt := None;
                cc_RegistrationTokenConsumed := true |} in
  (run (trace_handler (registered_before (registrationCluster "c" "" "" "first") old "0123"))
    (RunRegister (render <$> [("token", "second"); ("control-plane-endpoint", "https://cp")])) []).1 = Some (Ok tt).
Proof.
  intros old.
  apply (register_trusts_earlier_exchange "second" "https://cp" (registrationCluster "c" "" "" "first") old "0123");
    [by vm_compute|by vm_compute|reflexivity].
Defined.
