(* ===== verification/Main.v ===== *)
(** * cmd/main.go: the process

    [main] as a program over [mcall] that ends with an exit code.  The manager, its
    servers and the registration of controllers are library code: calls that
    succeed or fail.  What the program decides is which components it hands over,
    and with which configuration; the components themselves are those of the other
    files.  The [register] command is the program of [Cli], run inside. *)

From stdpp Require Import base list strings pretty gmap.
From S2P Require Import Prelude Traces GoStrings Api Events Json Kube Engines OperationReconciler Agent.
From S2P Require Import HttpClient Credentials Cluster InstanceEngines InstanceReconciler GoFlags Cli.

(** ** What is handed to the manager *)

(** [webhookserver.Options] and [metricsserver.Options]; the only TLS option the
    program adds is the one that turns HTTP/2 off. *)
Record WebhookOptions := {
  wo_HTTP2Disabled : bool;
  wo_CertDir : string;
  wo_CertName : string;
  wo_KeyName : string
}.

Record ServerOptions := {
  sv_BindAddress : string;
  sv_SecureServing : bool;
  sv_Authenticated : bool; (** [FilterProvider] is set *)
  sv_HTTP2Disabled : bool;
  sv_CertDir : string;
  sv_CertName : string;
  sv_KeyName : string
}.

Record ManagerOptions := {
  mo_Metrics : ServerOptions;
  mo_Webhook : WebhookOptions;
  mo_HealthProbeBindAddress : string;
  mo_LeaderElection : bool;
  mo_LeaderElectionID : string
}.

(** The hooks of the event batcher; [None] is nil. *)
Record BatcherHooks := {
  bh_OnBeforePostEvents : option (list Event → prog icall unit);
  bh_OnEventsPostFailed : option (list Event → prog icall unit);
  bh_OnEventsDelivered : option (list Event → prog icall unit)
}.

Definition noHooks : BatcherHooks :=
  {| bh_OnBeforePostEvents := None; bh_OnEventsPostFailed := None; bh_OnEventsDelivered := None |}.

(** [SeaweedWatchesEnabled] next to the fields a pass uses. *)
Record InstanceController := {
  ic_Reconciler : ApplicationInstanceReconciler;
  ic_SeaweedWatchesEnabled : bool
}.

(** The kinds a controller watches: its own, the owned and the mapped ones. *)
Definition watchedKinds (c : InstanceController) : list string :=
  "ApplicationInstance" :: (if ic_SeaweedWatchesEnabled c then ["Seaweed"; "S3Credentials"] else []).

Inductive mcall : Type → Type :=
| MGetenv (name : string) : mcall string
(** a call of the [register] command *)
| MCommand {X : Type} (c : ccall X) : mcall X
| MStderr (text : string) : mcall unit
(** [ctrl.GetConfigOrDie], which ends the process when there is none *)
| MGetConfig : mcall (result unit)
| MNewManager (o : ManagerOptions) : mcall (result unit)
| MRESTMapper : mcall (option (string → result unit))
| MSetupInstances (c : InstanceController) : mcall (result unit)
| MSetupOperations (r : OperationReconciler) : mcall (result unit)
| MSetupClusters (r : ClusterReconciler) : mcall (result unit)
(** constructor and registration of a webhook *)
| MNewOperationWebhook (approvalClaimSecret : string) : mcall (result unit)
| MSetupOperationWebhook (approvalClaimSecret : string) : mcall (result unit)
| MNewInstanceWebhook : mcall (result unit)
| MSetupInstanceWebhook : mcall (result unit)
| MAddHealthzCheck (name : string) : mcall (result unit)
| MAddReadyzCheck (name : string) : mcall (result unit)
(** the two goroutines *)
| MGoBatcher (b : EventBatcher) (hooks : BatcherHooks) : mcall unit
| MGoRuntime (cfg : RuntimeConfig) (idempotency : IdempotencyStore) : mcall unit
| MStartManager : mcall (result unit).

(** ** Flags *)

Definition mainFlags : formal :=
  list_to_map [
    ("metrics-bind-address", StringFlag); ("health-probe-bind-address", StringFlag);
    ("leader-elect", BoolFlag); ("metrics-secure", BoolFlag);
    ("webhook-cert-path", StringFlag); ("webhook-cert-name", StringFlag); ("webhook-cert-key", StringFlag);
    ("metrics-cert-path", StringFlag); ("metrics-cert-name", StringFlag); ("metrics-cert-key", StringFlag);
    ("enable-http2", BoolFlag); ("agent-poll-interval", DurationFlag);
    ("agent-credentials-secret", StringFlag); ("agent-credentials-namespace", StringFlag);
    ("webhooks-enabled", BoolFlag); ("seaweed-watches-enabled", BoolFlag);
    ("approval-claim-secret", StringFlag); ("velero-namespace", StringFlag)].

(** The variables of [main] after [flag.Parse]. *)
Record Settings := {
  st_metricsAddr : string; st_probeAddr : string;
  st_enableLeaderElection : bool; st_secureMetrics : bool;
  st_webhookCertPath : string; st_webhookCertName : string; st_webhookCertKey : string;
  st_metricsCertPath : string; st_metricsCertName : string; st_metricsCertKey : string;
  st_enableHTTP2 : bool; st_agentPollInterval : Z;
  st_agentCredentialsSecret : string; st_agentCredentialsNamespace : string;
  st_enableWebhooks : bool; st_enableSeaweedWatches : bool;
  st_approvalClaimSecret : string; st_veleroNamespace : string
}.

(** The defaults that come from the environment are read before parsing. *)
Definition settings (m : actual) (podNamespace claimSecret veleroEnv : string) : Settings :=
  let defaultVeleroNS := fallback (TrimSpace veleroEnv) DefaultVeleroNamespace in
  {| st_metricsAddr := stringVar m "metrics-bind-address" "0";
     st_probeAddr := stringVar m "health-probe-bind-address" ":8081";
     st_enableLeaderElection := boolVar m "leader-elect" false;
     st_secureMetrics := boolVar m "metrics-secure" true;
     st_webhookCertPath := stringVar m "webhook-cert-path" "";
     st_webhookCertName := stringVar m "webhook-cert-name" "tls.crt";
     st_webhookCertKey := stringVar m "webhook-cert-key" "tls.key";
     st_metricsCertPath := stringVar m "metrics-cert-path" "";
     st_metricsCertName := stringVar m "metrics-cert-name" "tls.crt";
     st_metricsCertKey := stringVar m "metrics-cert-key" "tls.key";
     st_enableHTTP2 := boolVar m "enable-http2" false;
     st_agentPollInterval := durationVar m "agent-poll-interval" (30 * second);
     st_agentCredentialsSecret := stringVar m "agent-credentials-secret" DefaultCredentialsSecret;
     st_agentCredentialsNamespace := stringVar m "agent-credentials-namespace" podNamespace;
     st_enableWebhooks := boolVar m "webhooks-enabled" false;
     st_enableSeaweedWatches := boolVar m "seaweed-watches-enabled" false;
     st_approvalClaimSecret := stringVar m "approval-claim-secret" claimSecret;
     st_veleroNamespace := stringVar m "velero-namespace" defaultVeleroNS |}.

Definition managerOptions (s : Settings) : ManagerOptions :=
  let noHTTP2 := negb (st_enableHTTP2 s) in
  let certs := bool_decide (st_metricsCertPath s ≠ "") in
  {| mo_Metrics :=
       {| sv_BindAddress := st_metricsAddr s; sv_SecureServing := st_secureMetrics s;
          sv_Authenticated := st_secureMetrics s; sv_HTTP2Disabled := noHTTP2;
          sv_CertDir := if certs then st_metricsCertPath s else "";
          sv_CertName := if certs then st_metricsCertName s else "";
          sv_KeyName := if certs then st_metricsCertKey s else "" |};
     mo_Webhook :=
       {| wo_HTTP2Disabled := noHTTP2; wo_CertDir := st_webhookCertPath s;
          wo_CertName := st_webhookCertName s; wo_KeyName := st_webhookCertKey s |};
     mo_HealthProbeBindAddress := st_probeAddr s;
     mo_LeaderElection := st_enableLeaderElection s;
     mo_LeaderElectionID := "dad03b25.vworkspace.io" |}.

Definition credNamespace (s : Settings) : string :=
  fallback (TrimSpace (st_agentCredentialsNamespace s)) "vworkspace-system".

(** ** The program *)

(** A step of the set-up; a failure ends the process. *)
Notation "'must*' c 'in' k" := (try* _ := call c catch _ => Ret 1%Z in k)
  (at level 200, c at level 100, k at level 200).

Class MainLib := { boundFlags : formal (** flags registered by libraries *) }.

Section Process.
Context `{JsonSyntax} `{InstanceLib} `{KubeLib} `{OwnerLib} `{HttpLib} `{FlagLib} `{MainLib}.

(** The callbacks of the instance controller. *)
Definition wiredHooks : BatcherHooks :=
  {| bh_OnBeforePostEvents := Some PrepareManagedStoragePost;
     bh_OnEventsPostFailed := Some AbortManagedStoragePost;
     bh_OnEventsDelivered := Some AckManagedStorageDelivered |}.

Definition instanceController (watches : bool) : InstanceController :=
  {| ic_Reconciler := {| ir_Engine := Some FluxEngine; ir_SeaweedEngine := Some SeaweedEngine |};
     ic_SeaweedWatchesEnabled := watches |}.

Definition operationController (s : Settings) : OperationReconciler :=
  {| or_Registry := Some (engineRegistry (st_veleroNamespace s));
     or_ApprovalClaimSecret := TrimSpace (st_approvalClaimSecret s) |}.

Definition clusterController (s : Settings) : ClusterReconciler :=
  {| cr_AgentClient := None; cr_RegistrationClient := false;
     cr_CredentialsSecret := st_agentCredentialsSecret s; cr_OperatorNamespace := credNamespace s;
     cr_EventBatcher := true; cr_Recorder := true |}.

Definition runtimeConfig (s : Settings) : RuntimeConfig :=
  {| rf_K8s := true; rf_SecretNamespace := credNamespace s; rf_SecretName := st_agentCredentialsSecret s;
     rf_PollInterval := st_agentPollInterval s; rf_EventBatcher := true |}.

Definition idempotencyStore (s : Settings) : IdempotencyStore :=
  {| is_Namespace := credNamespace s; is_Name := DefaultIdempotencyConfigMap; is_cache := None |}.

(** Both webhooks, when they are enabled: whether everything went well. *)
Definition setupWebhooks (s : Settings) : prog mcall (result unit) :=
  if negb (st_enableWebhooks s) then Ret (Ok tt)
  else
    let secret := TrimSpace (st_approvalClaimSecret s) in
    try* _ := call (MNewOperationWebhook secret) catch e => Ret (Err e) in
    try* _ := call (MSetupOperationWebhook secret) catch e => Ret (Err e) in
    try* _ := call MNewInstanceWebhook catch e => Ret (Err e) in
    call MSetupInstanceWebhook.

(** From [ctrl.NewManager] on: the exit code. *)
Definition serve (s : Settings) : prog mcall Z :=
  must* MGetConfig in
  must* MNewManager (managerOptions s) in
  let* mapper := call MRESTMapper in
  must* MSetupInstances (instanceController (CRDsAvailable mapper)) in
  must* MSetupOperations (operationController s) in
  must* MSetupClusters (clusterController s) in
  try* _ := setupWebhooks s catch _ => Ret 1%Z in
  must* MAddHealthzCheck "healthz" in
  must* MAddReadyzCheck "readyz" in
  let* _ := call (MGoBatcher (NewEventBatcher false) wiredHooks) in
  let* _ := call (MGoRuntime (runtimeConfig s) (idempotencyStore s)) in
  must* MStartManager in
  Ret 0%Z.

(** The arguments of the [register] command, if it is one. *)
Definition subcommand (args : list string) : option (list string) :=
  match args with
  | [] => None
  | cmd :: rest => if bool_decide (cmd = "register") then Some rest else None
  end.

(** [main] on [os.Args] without the program's name. *)
Definition main (args : list string) : prog mcall (option Z) :=
  match subcommand args with
  | Some args =>
      let* r := interp (λ X c, call (MCommand c)) (RunRegister args) in
      match r with
      | None => Ret None
      | Some (Ok _) => Ret (Some 0%Z)
      | Some (Err e) => let* _ := call (MStderr (emsg e +:+ String (byte 10) EmptyString)) in Ret (Some 1%Z)
      end
  | None =>
      let* podNamespace := call (MGetenv "POD_NAMESPACE") in
      let* claimSecret := call (MGetenv "VWORKSPACE_APPROVAL_CLAIM_SECRET") in
      let* veleroEnv := call (MGetenv "VELERO_NAMESPACE") in
      match Parse (mainFlags ∪ boundFlags) args ∅ with
      | Err e => Ret (Some (if bool_decide (e = ErrHelp) then 0%Z else 2%Z))
      | Ok (m, _) =>
          let* code := serve (settings m podNamespace claimSecret veleroEnv) in Ret (Some code)
      end
  end.
End Process.
