(* ===== verification/MainProofs.v ===== *)
(** * Theorems on the process: what it starts, and when it does not start *)

From stdpp Require Import base list strings pretty gmap.
From S2P Require Import Prelude Traces GoStrings Api Events Json Kube Engines EnginesProofs OperationReconciler.
From S2P Require Import OperationProofs Agent HttpClient Credentials Cluster InstanceEngines InstanceReconciler.
From S2P Require Import InstanceProofs GoFlags Cli Main.

(** A step that can fail, and did not. *)
Definition succeeded (e : event mcall) : bool :=
  match e with
  | Called c x =>
      match c in mcall X return X → bool with
      | MGetConfig | MNewManager _ | MSetupInstances _ | MSetupOperations _ | MSetupClusters _
      | MNewOperationWebhook _ | MSetupOperationWebhook _ | MNewInstanceWebhook | MSetupInstanceWebhook
      | MAddHealthzCheck _ | MAddReadyzCheck _ | MStartManager => λ r, is_ok r
      | _ => λ _, true
      end x
  end.

Notation did c g := (Called c (Ok tt) ∈ g).

Section Wiring.
Context `{JsonSyntax} `{InstanceLib} `{KubeLib} `{OwnerLib} `{HttpLib} `{FlagLib} `{MainLib}.

(** The controllers are set up: the ones the theorems of the other files are
    about, with engines that keep their contracts. *)
Definition instances_up (g : trace_of mcall) : Prop :=
  ∃ c mapper, did (MSetupInstances c) g ∧ Called MRESTMapper mapper ∈ g ∧ keeps_contracts (ic_Reconciler c) ∧
    (ic_SeaweedWatchesEnabled c = true ↔ CRDsAvailable mapper = true).

Definition operations_up (g : trace_of mcall) (secret : string) : Prop :=
  ∃ r reg, did (MSetupOperations r) g ∧ or_Registry r = Some reg ∧ or_ApprovalClaimSecret r = secret ∧
    (∀ n e, reg !! n = Some e → EngineContract e).

Definition clusters_up (g : trace_of mcall) (ns secretName : string) : Prop :=
  ∃ r, did (MSetupClusters r) g ∧ cr_OperatorNamespace r = ns ∧ cr_CredentialsSecret r = secretName.

Definition webhooks_up (g : trace_of mcall) : Prop :=
  ∃ secret, did (MSetupOperationWebhook secret) g ∧ did MSetupInstanceWebhook g ∧ operations_up g secret.

Definition all_up (s : Settings) (g : trace_of mcall) : Prop :=
  did (MNewManager (managerOptions s)) g ∧ instances_up g ∧
  operations_up g (TrimSpace (st_approvalClaimSecret s)) ∧
  clusters_up g (credNamespace s) (st_agentCredentialsSecret s) ∧
  (st_enableWebhooks s = true → webhooks_up g) ∧
  did (MAddHealthzCheck "healthz") g ∧ did (MAddReadyzCheck "readyz") g.

(** What the process may do when, once its settings are known. *)
Definition orderly (s : Settings) : permission mcall (trace_of mcall) := λ X c g,
  Forall (λ e, succeeded e = true) g ∧
  match c with
  | MCommand _ | MStderr _ | MGetenv _ => False
  | MNewManager o =>
      wo_HTTP2Disabled (mo_Webhook o) = negb (st_enableHTTP2 s) ∧
      sv_HTTP2Disabled (mo_Metrics o) = negb (st_enableHTTP2 s) ∧
      (sv_SecureServing (mo_Metrics o) = true → sv_Authenticated (mo_Metrics o) = true)
  | MSetupOperationWebhook secret => st_enableWebhooks s = true ∧ operations_up g secret
  | MSetupInstanceWebhook => st_enableWebhooks s = true
  | MGoBatcher b hooks =>
      all_up s g ∧ b = NewEventBatcher false ∧
      bh_OnBeforePostEvents hooks = Some PrepareManagedStoragePost ∧
      bh_OnEventsPostFailed hooks = Some AbortManagedStoragePost ∧
      bh_OnEventsDelivered hooks = Some AckManagedStorageDelivered
  | MGoRuntime cfg store =>
      all_up s g ∧ rf_K8s cfg = true ∧ rf_EventBatcher cfg = true ∧ TrimSpace (rf_SecretNamespace cfg) ≠ "" ∧
      is_Namespace store = rf_SecretNamespace cfg ∧
      clusters_up g (rf_SecretNamespace cfg) (rf_SecretName cfg)
  | MStartManager =>
      all_up s g ∧ (∃ b hooks, Called (MGoBatcher b hooks) tt ∈ g) ∧
      (∃ cfg store, Called (MGoRuntime cfg store) tt ∈ g)
  | _ => True
  end.

(** The exit code tells whether a step failed. *)
Definition code_exact (code : Z) (g : trace_of mcall) : Prop :=
  (code = 0%Z ∧ Forall (λ e, succeeded e = true) g ∧ did MStartManager g) ∨
  (code = 1%Z ∧ ∃ g' e, g = g' ++ [e] ∧ succeeded e = false ∧ Forall (λ e, succeeded e = true) g').

Definition fine (g : trace_of mcall) : Prop := Forall (λ e, succeeded e = true) g.

Lemma fine_snoc g e : fine g → succeeded e = true → fine (g ++ [e]).
Proof. intros Hg He. apply Forall_app. split; [done|]. by constructor. Qed.

(** A step that may fail: the process ends there, or goes on with the step on
    record. *)
Lemma wp_step {A} s (c : mcall (result unit)) (f : result unit → prog mcall A) Q g :
  fine g → orderly s _ c g → (∀ r, succeeded (Called c r) = is_ok r) →
  (∀ e g', code_exact 1 g' → wp traced (orderly s) (f (Err e)) Q g') →
  (∀ g', fine g' → g ⊆ g' → did c g' → wp traced (orderly s) (f (Ok tt)) Q g') →
  wp traced (orderly s) (prog_bind f (call c)) Q g.
Proof.
  intros Hg Hc Hs He Hk. apply wp_vis; [done|]. intros [[]|e] g' ->.
  - apply Hk; [apply fine_snoc; [done|by rewrite Hs]|set_solver|set_solver].
  - apply He. right. split; [done|]. exists g, (Called c (Err e)). by rewrite Hs.
Qed.

Lemma credNamespace_set s : TrimSpace (credNamespace s) ≠ "".
Proof.
  unfold credNamespace, fallback. case_bool_decide as Hn; [by vm_compute|]. by rewrite TrimSpace_idemp.
Qed.

(** Records survive later steps. *)
Lemma instances_up_mono g g' : g ⊆ g' → instances_up g → instances_up g'.
Proof. intros Hs (c & m & ? & ? & ?). exists c, m. split_and!; naive_solver. Qed.
Lemma operations_up_mono g g' secret : g ⊆ g' → operations_up g secret → operations_up g' secret.
Proof. intros Hs (r & reg & ? & ?). exists r, reg. split; [by apply Hs|done]. Qed.
Lemma clusters_up_mono g g' ns n : g ⊆ g' → clusters_up g ns n → clusters_up g' ns n.
Proof. intros Hs (r & ? & ?). exists r. split; [by apply Hs|done]. Qed.
Lemma webhooks_up_mono g g' : g ⊆ g' → webhooks_up g → webhooks_up g'.
Proof. intros Hs (w & ? & ? & ?). exists w. split_and!; [by apply Hs|by apply Hs|by eapply operations_up_mono]. Qed.
Lemma all_up_mono s g g' : g ⊆ g' → all_up s g → all_up s g'.
Proof.
  intros Hs (? & ? & ? & ? & Hw & ? & ?). split_and!; try by apply Hs.
  - by eapply instances_up_mono.
  - by eapply operations_up_mono.
  - by eapply clusters_up_mono.
  - intros He. by eapply webhooks_up_mono, Hw.
Qed.

(** The webhooks step: it goes on with both registered if they are enabled, or
    ends with the step that failed. *)
Lemma webhooks_orderly s g :
  fine g → operations_up g (TrimSpace (st_approvalClaimSecret s)) →
  wp traced (orderly s) (setupWebhooks s)
    (λ r g', match r with
             | Ok _ => fine g' ∧ g ⊆ g' ∧ (st_enableWebhooks s = true → webhooks_up g')
             | Err _ => code_exact 1 g'
             end) g.
Proof.
  intros Hg Hop. unfold setupWebhooks. destruct (st_enableWebhooks s) eqn:He; cbn [negb]; [|done].
  apply wp_step; [done..|]. intros g1 Hg1 H01 _. apply (operations_up_mono g g1) in Hop; [|done].
  apply wp_step; [done|by split_and!|done..|]. intros g2 Hg2 H12 Hw.
  apply wp_step; [done..|]. intros g3 Hg3 H23 _.
  apply wp_call. split; [done|]. intros [[]|e] g4 ->;
    [|right; split; [reflexivity|]; exists g3, (Called MSetupInstanceWebhook (Err e));
      split; [reflexivity|split; [reflexivity|exact Hg3]]].
  split; [by apply fine_snoc|]. split; [set_solver|]. intros _. eexists.
  split_and!; [apply elem_of_app; left; by apply H23|set_solver|].
  eapply operations_up_mono; [|done]. set_solver.
Qed.

Lemma serve_orderly s g :
  fine g → wp traced (orderly s) (serve s) code_exact g.
Proof.
  intros Hg0. unfold serve.
  apply wp_step; [done..|]. intros g1 Hg1 _ _. apply wp_step; [done|by split|done..|]. intros g2 Hg2 _ Hmgr.
  apply wp_vis; [done|]. intros mapper g3 ->.
  assert (fine (g2 ++ [Called MRESTMapper mapper])) as Hg3 by by apply fine_snoc.
  apply wp_step; [done..|]. intros g4 Hg4 H34 Hset.
  assert (instances_up g4) as Hi.
  { exists (instanceController (CRDsAvailable mapper)), mapper. split_and!; [done|apply H34; set_solver| |done].
    apply installed_contracts. }
  assert (did (MNewManager (managerOptions s)) g4) as Hmgr4 by (apply H34; set_solver).
  clear dependent g2. apply wp_step; [done..|]. intros g5 Hg5 H45 Hop.
  assert (operations_up g5 (TrimSpace (st_approvalClaimSecret s))) as Ho.
  { exists (operationController s), (engineRegistry (st_veleroNamespace s)).
    split_and!; [done|done|done|]. intros n e. apply engineRegistry_contract. }
  apply wp_step; [done..|]. intros g6 Hg6 H56 Hcl.
  assert (clusters_up g6 (credNamespace s) (st_agentCredentialsSecret s)) as Hc
    by by exists (clusterController s).
  apply wp_bind. eapply wp_mono; [|apply webhooks_orderly; [done|by eapply operations_up_mono]].
  intros [[]|e] g7; [|done]. intros (Hg7 & H67 & Hw).
  apply wp_step; [done..|]. intros g8 Hg8 H78 Hh. apply wp_step; [done..|]. intros g9 Hg9 H89 Hr.
  assert (all_up s g9) as Hall.
  { split_and!; [set_solver|eapply instances_up_mono; [|done]; set_solver|
      eapply operations_up_mono; [|done]; set_solver|eapply clusters_up_mono; [|done]; set_solver| |
      by apply H89|done]. intros He. eapply webhooks_up_mono; [|by apply Hw]. set_solver. }
  apply wp_vis; [done|]. intros [] g10 ->. set (b := Called (MGoBatcher _ _) _).
  assert (all_up s (g9 ++ [b])) as Hall1 by (eapply all_up_mono; [|done]; set_solver).
  apply wp_vis.
  { split; [by apply fine_snoc|]. split_and!; [done|done|done|apply credNamespace_set|done|apply Hall1]. }
  intros [] g11 ->. set (rt := Called (MGoRuntime _ _) _).
  apply wp_step; [by repeat apply fine_snoc| |done|done|].
  - split; [by repeat apply fine_snoc|]. split_and!; [eapply all_up_mono; [|done]; set_solver|..].
    + eexists _, _. apply elem_of_app. left. apply elem_of_app. right. by left.
    + eexists _, _. apply elem_of_app. right. by left.
  - intros g12 Hg12 _ Hst. by left.
Qed.

(** ** The whole process *)

Definition is_register (args : list string) : bool :=
  if subcommand args then true else false.

(** The settings of a process: its flags, and the environment it read. *)
Definition read_settings (args : list string) (g : trace_of mcall) (s : Settings) : Prop :=
  ∃ m rest pod claim velero, Parse (mainFlags ∪ boundFlags) args ∅ = Ok (m, rest) ∧
    Called (MGetenv "POD_NAMESPACE") pod ∈ g ∧ Called (MGetenv "VWORKSPACE_APPROVAL_CLAIM_SECRET") claim ∈ g ∧
    Called (MGetenv "VELERO_NAMESPACE") velero ∈ g ∧ s = settings m pod claim velero.

Definition process (args : list string) : permission mcall (trace_of mcall) := λ X c g,
  if is_register args then match c with MCommand _ | MStderr _ => True | _ => False end
  else match c with
       | MGetenv _ => True
       | _ => ∃ s, read_settings args g s ∧ orderly s X c g
       end.

Definition exits (args : list string) (r : option Z) (g : trace_of mcall) : Prop :=
  if is_register args then
    (r = Some 1%Z ↔ ∃ text, Called (MStderr text) tt ∈ g) ∧ (r = None ∨ r = Some 0%Z ∨ r = Some 1%Z)
  else match Parse (mainFlags ∪ boundFlags) args ∅ with
       | Err e => r = Some (if bool_decide (e = ErrHelp) then 0%Z else 2%Z)
       | Ok _ => ∃ code, r = Some code ∧ code_exact code g
       end.

(** More may be done when more is on record. *)
Lemma wp_weaken {A} (may may' : permission mcall (trace_of mcall)) (p : prog mcall A) Q g :
  (∀ X (c : mcall X) g', g ⊆ g' → may X c g' → may' X c g') →
  wp traced may p Q g → wp traced may' p Q g.
Proof.
  intros Hm.
  assert (∀ g1, g ⊆ g1 → wp traced may p Q g1 → wp traced may' p Q g1) as Hgen; [|by apply Hgen].
  induction p as [a|X c k IH]; intros g1 Hg1; simpl; [done|]. intros [Hc Hk]. split; [by apply Hm|].
  intros x g2 ->. apply IH; [set_solver|]. by apply Hk.
Qed.

(** The command is run by its own calls. *)
Lemma command_calls {A} args (p : prog ccall A) (Q : A → trace_of mcall → Prop) g :
  is_register args = true → (∀ text, Called (MStderr text) tt ∉ g) →
  (∀ a g', (∀ text, Called (MStderr text) tt ∉ g') → Q a g') →
  wp traced (process args) (interp (λ X c, call (MCommand c)) p) Q g.
Proof.
  intros Hr Hg HQ. revert g Hg. induction p as [a|X c k IH]; intros g Hg; cbn [interp]; [by apply HQ|].
  apply wp_vis; [by unfold process; rewrite Hr|]. intros x g' ->. apply IH. intros text.
  rewrite elem_of_app, list_elem_of_singleton. intros [Hin|Heq]; [by eapply Hg|].
  inversion Heq.
Qed.

(** C23: the process fails closed.  Whatever the libraries answer, [main] makes no
    further step once a step of the set-up failed, and then exits with code 1; when
    the arguments parse and do not name [register], code 0 means that every step
    succeeded and the manager ran.  Arguments that do not parse end the process with
    code 2, a request for help with code 0, before any step.  [register] starts none
    of this; it writes to the standard error exactly when its code is 1.  The
    batcher, the agent and the manager are started only when all controllers are set
    up, with engines that keep their contracts, and the webhooks too if they are
    enabled; the batcher starts with the three callbacks of the instance controller
    and no client; the operation webhook verifies claims with the secret of the
    operation controller; agent, idempotency store and cluster controller share one
    namespace that is not blank and one Secret; HTTP/2 is off unless asked for, and a
    secured metrics endpoint authenticates.  Seaweed is watched exactly when its
    kinds are installed: the flag seaweed-watches-enabled, whose help text says that
    it enables the watches, has no effect on them. *)
Theorem main_fails_closed (args : list string) :
  wp traced (process args) (main args) (exits args) [].
Proof.
  unfold main. destruct (subcommand args) as [rest|] eqn:Hsub.
  - assert (is_register args = true) as Hreg by (unfold is_register; by rewrite Hsub).
    assert (∀ r g, exits args r g = ((r = Some 1%Z ↔ ∃ text, Called (MStderr text) tt ∈ g) ∧
      (r = None ∨ r = Some 0%Z ∨ r = Some 1%Z))) as Hex by (intros; unfold exits; by rewrite Hreg).
    apply wp_bind, command_calls; [done|set_solver|]. intros [[[]|e]|] g Hg.
    + cbn [wp]. rewrite Hex. split; [|auto]. split; [done|]. by intros [text Hin%Hg].
    + apply wp_vis; [by unfold process; rewrite Hreg|]. intros [] g' ->. cbn [wp]. rewrite Hex.
      split; [|auto]. split; [|done]. intros _. eexists. apply elem_of_app. right. by left.
    + cbn [wp]. rewrite Hex. split; [|auto]. split; [done|]. by intros [text Hin%Hg].
  - assert (is_register args = false) as Hreg by (unfold is_register; by rewrite Hsub).
    assert (∀ X (c : mcall X) g, process args X c g = match c with MGetenv _ => True
      | _ => ∃ s, read_settings args g s ∧ orderly s X c g end) as Hp by (intros; unfold process; by rewrite Hreg).
    apply wp_vis; [by rewrite Hp|]. intros pod g1 ->. apply wp_vis; [by rewrite Hp|]. intros claim g2 ->.
    apply wp_vis; [by rewrite Hp|]. intros velero g3 ->. cbn [app]. unfold exits. rewrite Hreg.
    destruct (Parse _ args ∅) as [[m rest]|e] eqn:Hm; [|done]. apply wp_bind.
    eapply wp_weaken; [|eapply wp_mono; [|apply (serve_orderly (settings m pod claim velero))]].
    + intros X c g' Hs Hc. rewrite Hp.
      assert (read_settings args g' (settings m pod claim velero)) as Hrs.
      { exists m, rest, pod, claim, velero. split_and!; [done|apply Hs; set_solver..|done]. }
      destruct c; try done; by eexists.
    + intros code g' Hcode. by exists code.
    + by repeat constructor.
Qed.
End Wiring.

(** ** Runs *)

#[local] Existing Instances reference_instance_lib plain_syntax reference_owner reference_lib plain_flags.
#[local] Instance no_bound_flags : MainLib := {| boundFlags := {[ "zap-devel" := BoundFlag true ]} |}.

(** Libraries that do as they are told, but for the controllers if [broken]. *)
Definition healthy (broken : bool) : ∀ X, mcall X → X := λ X c,
  match c in mcall Y return Y with
  | MGetenv _ => ""
  | MCommand c => registered_before (registrationCluster "c" "" "" "") 
      {| cc_SecretName := ""; cc_SecretNamespace := ""; cc_RegisteredAt := None;
         cc_RegistrationTokenConsumed := true |} "" _ c
  | MStderr _ => tt
  | MRESTMapper => None
  | MGoBatcher _ _ => tt
  | MGoRuntime _ _ => tt
  | MSetupClusters _ => if broken then Err (errorf "controller exists") else Ok tt
  | MGetConfig | MNewManager _ | MSetupInstances _ | MSetupOperations _
  | MNewOperationWebhook _ | MSetupOperationWebhook _ | MNewInstanceWebhook | MSetupInstanceWebhook
  | MAddHealthzCheck _ | MAddReadyzCheck _ | MStartManager => Ok tt
  end.

Definition exit_of (broken : bool) (args : list string) : option Z * nat :=
  let '(r, g) := run (trace_handler (healthy broken)) (main args) [] in (r, length g).

Example main_starts : exit_of false ["--webhooks-enabled"; "-velero-namespace"; "backups"; "--zap-devel"] = (Some 0%Z, 18).
Proof. by vm_compute. Qed.
Example main_stops : exit_of true ["--webhooks-enabled"] = (Some 1%Z, 9).
Proof. by vm_compute. Qed.
Example main_bad_flag : exit_of false ["--webhooks"] = (Some 2%Z, 3).
Proof. by vm_compute. Qed.
Example main_help : exit_of false ["-h"] = (Some 0%Z, 3).
Proof. by vm_compute. Qed.
Example main_register : (exit_of false ["register"; "--token=t"; "--control-plane-endpoint=u"]).1 = Some 0%Z.
Proof. by vm_compute. Qed.
Example main_register_no_token : exit_of false ["register"] = (Some 1%Z, 1).
Proof. by vm_compute. Qed.
