(* ===== verification/Metrics.v ===== *)
(** * internal/agent/metrics.go and metrics_helpers.go

    The process-wide gauges.  Times are nanoseconds since the Unix epoch and
    [None] the zero time; gauges that hold seconds are kept as durations in
    nanoseconds, before the conversion to a float.  [mstep] runs the event batcher of
    [Events] with its occupancy gauge, lock by lock. *)

From stdpp Require Import base list strings gmap.
From S2P Require Import Prelude Api Events EventsProofs Kube Agent.
From Stdlib Require Import Lia.

#[local] Open Scope Z_scope.

Record Metrics := {
  mt_pullJobLag : Z;
  mt_connectivityState : gmap string Z;
  mt_appliedJobsTotal : Z;
  mt_eventBufferOccupancy : Z;
  mt_credentialUpdatedAtUnix : Z
}.

Definition noMetrics : Metrics :=
  {| mt_pullJobLag := 0; mt_connectivityState := ∅; mt_appliedJobsTotal := 0;
     mt_eventBufferOccupancy := 0; mt_credentialUpdatedAtUnix := 0 |}.

Definition SetPullJobLagSeconds (d : Z) (m : Metrics) : Metrics :=
  {| mt_pullJobLag := d; mt_connectivityState := mt_connectivityState m;
     mt_appliedJobsTotal := mt_appliedJobsTotal m; mt_eventBufferOccupancy := mt_eventBufferOccupancy m;
     mt_credentialUpdatedAtUnix := mt_credentialUpdatedAtUnix m |}.
Definition SetConnectivityState (mode : string) (state : Z) (m : Metrics) : Metrics :=
  {| mt_pullJobLag := mt_pullJobLag m; mt_connectivityState := <[mode := state]> (mt_connectivityState m);
     mt_appliedJobsTotal := mt_appliedJobsTotal m; mt_eventBufferOccupancy := mt_eventBufferOccupancy m;
     mt_credentialUpdatedAtUnix := mt_credentialUpdatedAtUnix m |}.
Definition IncAppliedJobs (m : Metrics) : Metrics :=
  {| mt_pullJobLag := mt_pullJobLag m; mt_connectivityState := mt_connectivityState m;
     mt_appliedJobsTotal := mt_appliedJobsTotal m + 1; mt_eventBufferOccupancy := mt_eventBufferOccupancy m;
     mt_credentialUpdatedAtUnix := mt_credentialUpdatedAtUnix m |}.
Definition SetEventBufferOccupancy (count : nat) (m : Metrics) : Metrics :=
  {| mt_pullJobLag := mt_pullJobLag m; mt_connectivityState := mt_connectivityState m;
     mt_appliedJobsTotal := mt_appliedJobsTotal m; mt_eventBufferOccupancy := Z.of_nat count;
     mt_credentialUpdatedAtUnix := mt_credentialUpdatedAtUnix m |}.

(** [t.Unix()] *)
Definition Unix (t : Z) : Z := t / second.

Definition SetCredentialUpdatedAt (t : option Z) (m : Metrics) : Metrics :=
  {| mt_pullJobLag := mt_pullJobLag m; mt_connectivityState := mt_connectivityState m;
     mt_appliedJobsTotal := mt_appliedJobsTotal m; mt_eventBufferOccupancy := mt_eventBufferOccupancy m;
     mt_credentialUpdatedAtUnix := match t with None => 0 | Some t => Unix t end |}.

(** [time.Time.Sub] saturates at the range of a Duration. *)
Definition Sub (t u : Z) : Z := Z.max (- 2 ^ 63) (Z.min (2 ^ 63 - 1) (t - u)).

Definition credentialAgeSeconds (now : Z) (m : Metrics) : Z :=
  let ts := mt_credentialUpdatedAtUnix m in
  if bool_decide (ts = 0) then 0
  else let age := Sub now (ts * second) in
       if bool_decide (age < 0)%Z then 0 else age.

(** [UpdateCredentialAgeFromSecret] on the creation time of a Secret, or no Secret. *)
Definition UpdateCredentialAgeFromSecret (now : Z) (created : option (option Z)) (m : Metrics) : Metrics :=
  match created with
  | None => m
  | Some t => SetCredentialUpdatedAt (Some (default now t)) m
  end.

(** [TrackJobLag]; the clock is read before and after the loop. *)
Definition oldestOf (now : Z) (jobs : list AgentJob) : Z :=
  foldl (λ oldest job, match aj_CreatedAt job with
                       | Some t => if bool_decide (t < oldest)%Z then t else oldest
                       | None => oldest
                       end) now jobs.

Definition TrackJobLag (now now' : Z) (jobs : list AgentJob) (m : Metrics) : Metrics :=
  match jobs with
  | [] => SetPullJobLagSeconds 0 m
  | _ => SetPullJobLagSeconds (Sub now' (oldestOf now jobs)) m
  end.

(** What [processJob] records once the report of an outcome was accepted. *)
Definition jobReported (r : JobResult) (m : Metrics) : Metrics :=
  if bool_decide (jr_Outcome r = OutcomeSucceeded) then SetPullJobLagSeconds 0 (IncAppliedJobs m) else m.

(** ** Job lag *)

Lemma oldestOf_spec now jobs :
  (oldestOf now jobs ≤ now)%Z ∧
  (∀ job t, job ∈ jobs → aj_CreatedAt job = Some t → (oldestOf now jobs ≤ t)%Z) ∧
  (oldestOf now jobs = now ∨ ∃ job, job ∈ jobs ∧ aj_CreatedAt job = Some (oldestOf now jobs)).
Proof.
  revert now. unfold oldestOf. induction jobs as [|job jobs IH]; intros now; cbn [foldl].
  { split_and!; [lia|set_solver|by left]. }
  set (now1 := match aj_CreatedAt job with Some t => if bool_decide (t < now)%Z then t else now | None => now end).
  destruct (IH now1) as (H1 & H2 & H3). clear IH.
  assert (now1 ≤ now ∧ (∀ t, aj_CreatedAt job = Some t → now1 ≤ t) ∧
          (now1 = now ∨ aj_CreatedAt job = Some now1))%Z as (Hn1 & Hn2 & Hn3).
  { subst now1. destruct (aj_CreatedAt job) as [t|]; [case_bool_decide|]; split_and!;
      try (intros ? [= <-]); auto; lia. }
  split_and!; [lia| |].
  - intros j t [->|Hj]%elem_of_cons Ht; [specialize (Hn2 t Ht); lia|by eapply H2].
  - destruct H3 as [H3|(j & Hj & Ht)]; [|right; exists j; split; [by right|done]].
    rewrite H3. destruct Hn3 as [->|Hn3]; [by left|]. right. exists job. split; [by left|done].
Qed.

Lemma Sub_mono t u v : (u ≤ v)%Z → (Sub t v ≤ Sub t u)%Z.
Proof. unfold Sub. lia. Qed.

(** [TrackJobLag] reports the age of the oldest job, and of no other. *)
Lemma TrackJobLag_oldest now now' jobs m :
  let lag := mt_pullJobLag (TrackJobLag now now' jobs m) in
  (∀ job t, job ∈ jobs → aj_CreatedAt job = Some t → (Sub now' t ≤ lag)%Z) ∧
  (jobs = [] ∧ lag = 0 ∨ lag = Sub now' now ∨
   ∃ job t, job ∈ jobs ∧ aj_CreatedAt job = Some t ∧ lag = Sub now' t).
Proof.
  destruct (oldestOf_spec now jobs) as (_ & Hle & Hex). destruct jobs as [|j jobs]; cbn zeta.
  { split; [set_solver|by left]. }
  cbn [TrackJobLag SetPullJobLagSeconds mt_pullJobLag]. split.
  - intros job t Hj Ht. by apply Sub_mono, (Hle job).
  - right. destruct Hex as [->|(job & Hj & Ht)]; [by left|]. right. by exists job, (oldestOf now (j :: jobs)).
Qed.

(** The first success of a batch sets the lag to zero, whatever still waits. *)
Lemma lag_forgets_waiting now now' jobs r m :
  jr_Outcome r = OutcomeSucceeded → mt_pullJobLag (jobReported r (TrackJobLag now now' jobs m)) = 0.
Proof. intros Hr. unfold jobReported. by rewrite bool_decide_eq_true_2. Qed.

(** ** Credential age

    [PersistCredentials] records the time it wrote the Secret; the next round of the
    agent replaces it by the Secret's creation time, which a rotation keeps. *)
Lemma credential_age_since_creation now tick created rotated m :
  credentialAgeSeconds now
    (UpdateCredentialAgeFromSecret tick (Some (Some created)) (SetCredentialUpdatedAt (Some rotated) m)) =
  credentialAgeSeconds now (SetCredentialUpdatedAt (Some created) m).
Proof. done. Qed.

Lemma credentialAgeSeconds_range now m : (0 ≤ credentialAgeSeconds now m < 2 ^ 63)%Z.
Proof. unfold credentialAgeSeconds, Sub. repeat case_bool_decide; lia. Qed.

(** ** Buffer occupancy

    [Enqueue], [Flush] when it takes a batch and [requeue] set the gauge under the
    lock.  A [Flush] that finds the buffer empty releases the lock first and sets the
    gauge to zero then: [ms_zeroing] is such a [Flush] between the two. *)

Record msys := { ms_bus : bsys; ms_metrics : Metrics; ms_zeroing : bool }.

Definition minit (client : bool) : msys :=
  {| ms_bus := binit client; ms_metrics := noMetrics; ms_zeroing := false |}.

Definition occupied (s : bsys) (m : Metrics) : Metrics := SetEventBufferOccupancy (Len (bs_buf s)) m.

Inductive mstep : msys → msys → Prop :=
| m_enqueue now e s s' m z :
    bstep s s' → bs_buf s' = Enqueue now (bs_buf s) e →
    mstep {| ms_bus := s; ms_metrics := m; ms_zeroing := z |}
          {| ms_bus := s'; ms_metrics := occupied s' m; ms_zeroing := z |}
| m_take s s' batch m :
    bstep s s' → bs_inflight s = None → flushTake (bs_buf s) = (Some batch, bs_buf s') →
    mstep {| ms_bus := s; ms_metrics := m; ms_zeroing := false |}
          {| ms_bus := s'; ms_metrics := occupied s' m; ms_zeroing := false |}
| m_failed s s' batch m :
    bstep s s' → bs_inflight s = Some batch → bs_buf s' = requeue (bs_buf s) batch →
    mstep {| ms_bus := s; ms_metrics := m; ms_zeroing := false |}
          {| ms_bus := s'; ms_metrics := SetConnectivityState "pull" 0 (occupied s' m); ms_zeroing := false |}
| m_posted s s' batch m :
    bstep s s' → bs_inflight s = Some batch → bs_buf s' = flushDelivered (bs_buf s) →
    mstep {| ms_bus := s; ms_metrics := m; ms_zeroing := false |}
          {| ms_bus := s'; ms_metrics := SetConnectivityState "pull" 1 m; ms_zeroing := false |}
| m_client s s' c m z :
    bstep s s' → bs_buf s' = with_client (bs_buf s) c →
    mstep {| ms_bus := s; ms_metrics := m; ms_zeroing := z |}
          {| ms_bus := s'; ms_metrics := m; ms_zeroing := z |}
| m_empty s m :
    bs_inflight s = None → eb_events (bs_buf s) = [] →
    mstep {| ms_bus := s; ms_metrics := m; ms_zeroing := false |}
          {| ms_bus := s; ms_metrics := m; ms_zeroing := true |}
| m_zero s m :
    mstep {| ms_bus := s; ms_metrics := m; ms_zeroing := true |}
          {| ms_bus := s; ms_metrics := SetEventBufferOccupancy 0 m; ms_zeroing := false |}.

Definition gauge (s : msys) : Z := mt_eventBufferOccupancy (ms_metrics s).
Definition depth (s : msys) : Z := Z.of_nat (Len (bs_buf (ms_bus s))).

Lemma mstep_buffer s s' : mstep s s' → rtc bstep (ms_bus s) (ms_bus s').
Proof. intros Hs. inversion Hs; subst; cbn; try done; by apply rtc_once. Qed.

Lemma mstep_gauge s s' : mstep s s' → gauge s = depth s ∨ gauge s = 0 → gauge s' = depth s' ∨ gauge s' = 0.
Proof.
  unfold gauge, depth, Len. intros Hs Hg. inversion Hs; subst; cbn in *; auto.
  - rewrite H1. unfold flushDelivered. by destruct (eb_events (bs_buf s0)) eqn:He; cbn; rewrite He.
  - by rewrite H0.
Qed.

Definition sample_event : Event :=
  {| ev_EventKey := ""; ev_Kind := "ConditionTransition";
     ev_ResourceRef := {| ar_APIVersion := ""; ar_Kind := ""; ar_Namespace := ""; ar_Name := ""; ar_UID := "";
                          ar_Generation := 0 |};
     ev_Conditions := []; ev_Endpoints := []; ev_ManagedStorage := None; ev_Timestamp := None |}.

(** The occupancy gauge is the depth of the buffer, or zero: in every
    interleaving it stays within the bounds of the buffer and never shows events
    that are gone; but zero does not mean empty.  A [Flush] that found the buffer
    empty sets the gauge outside the lock, so an event enqueued in between stays
    invisible, with no write pending, until the buffer next changes. *)
Theorem occupancy_gauge (client : bool) :
  (∀ s, rtc mstep (minit client) s →
     (gauge s = depth s ∨ gauge s = 0) ∧ (0 ≤ gauge s ≤ defaultMaxBuffer)%Z) ∧
  (∃ s, rtc mstep (minit client) s ∧ ms_zeroing s = false ∧ gauge s = 0 ∧ depth s = 1).
Proof.
  split.
  - intros s Hs.
    assert (rtc bstep (binit client) (ms_bus s) ∧ (gauge s = depth s ∨ gauge s = 0)) as [Hb Hg].
    { revert s Hs. apply (rtc_ind_r (λ s, rtc bstep (binit client) (ms_bus s) ∧ (gauge s = depth s ∨ gauge s = 0))).
      - by split; [|left].
      - intros s1 s2 _ Hstep [Hb Hg].
        split; [etrans; [done|by apply mstep_buffer]|by eapply mstep_gauge]. }
    split; [done|]. destruct (breachable_inv client (ms_bus s) Hb) as [Hc Hbd _ _ _].
    unfold bounded in Hbd. destruct (eff_config _ _ Hc) as [Heq _]. rewrite Heq in Hbd.
    assert (0 ≤ defaultMaxBuffer)%Z by (unfold defaultMaxBuffer; lia).
    change (effMaxBuffer (NewEventBatcher true)) with defaultMaxBuffer in Hbd. unfold depth, Len in *. lia.
  - eexists. split.
    + eapply rtc_l; [by apply m_empty|]. eapply rtc_l; [|apply rtc_once, m_zero].
      eapply (m_enqueue 0 sample_event); [apply (bstep_enqueue 0 sample_event)|done].
    + done.
Qed.
